(** * personal-trainer: client-side page script (script.js)

    The repository ships two revisions of one script.  The first ("V1",
    "Organized into functional modules") bounds the contact-form request by a
    10 second abort timer; the second ("V2", "Optimized for performance")
    adds the selector list, the scroll lock of the mobile menu and the
    staggered reveal.  Each handler is embedded as a function on an explicit
    model of the part of the page it touches; timers ([setTimeout]) live in
    an explicit queue driven by a millisecond [Tick]. *)

From stdpp Require Import base numbers strings gmap list.

Local Open Scope N_scope.

(** ** JavaScript values the handlers exchange *)

Module Js.

(** Exceptions that reach a [catch] block or escape a handler. *)
Inductive error :=
| AbortError
| TypeError (msg : string)
| SyntaxError
| Error (msg : string).

(** [error.name] *)
Definition name (e : error) : string :=
  match e with
  | AbortError => "AbortError"
  | TypeError _ => "TypeError"
  | SyntaxError => "SyntaxError"
  | Error _ => "Error"
  end.

(** How a synchronous handler ends. *)
Inductive completion :=
| Normal
| Throw (e : error).

(** The value [response.json()] resolves with, as far as [data.error] can
    tell values apart: [null], an object with an optional [error] member,
    anything else (whose [.error] is [undefined]). *)
Inductive json :=
| JNull
| JObject (err : option string)
| JOther.

(** Truthiness of an attribute or member that is a string or missing. *)
Definition truthy (v : option string) : bool :=
  match v with
  | Some s => negb (String.eqb s "")
  | None => false
  end.

End Js.

(** ** DOMTokenList *)

Module ClassList.

Definition t := gset string.

Definition add (c : string) (l : t) : t := l ∪ {[ c ]}.
Definition remove (c : string) (l : t) : t := l ∖ {[ c ]}.
Definition contains (c : string) (l : t) : bool := bool_decide (c ∈ l).

(** [toggle(c)]: returns the list and whether the token is now present. *)
Definition toggle (c : string) (l : t) : t * bool :=
  if contains c l then (remove c l, false) else (add c l, true).

(** [toggle(c, force)] *)
Definition toggle_force (c : string) (force : bool) (l : t) : t :=
  if force then add c l else remove c l.

End ClassList.

(** ** Timers: [setTimeout], [clearTimeout] and the passing of time *)

Module Timers.

Section Queue.
Context {A : Type}.

Record timer := Timer { tid : N; due : N; act : A }.

(** [now] is the clock in milliseconds; handles are handed out by a
    counter and never reused. *)
Record queue := Queue { now : N; next_id : N; pending : list timer }.

Definition empty : queue := Queue 0 1 [].

Definition setTimeout (a : A) (delay : N) (q : queue) : N * queue :=
  (next_id q,
   Queue (now q) (next_id q + 1) (pending q ++ [Timer (next_id q) (now q + delay) a])).

Definition clearTimeout (id : N) (q : queue) : queue :=
  Queue (now q) (next_id q) (filter (λ t, tid t ≠ id) (pending q)).

Definition advance (q : queue) : queue :=
  Queue (now q + 1) (next_id q) (pending q).

(** The timers that have come due, earliest deadline first and, among
    equal deadlines, in the order they were set. *)
Fixpoint insert_due (t : timer) (l : list timer) : list timer :=
  match l with
  | [] => [t]
  | u :: l' => if bool_decide (due t < due u) then t :: l else u :: insert_due t l'
  end.

Definition by_due (l : list timer) : list timer :=
  fold_left (λ acc t, insert_due t acc) l [].

Definition due_now (q : queue) : list timer :=
  by_due (filter (λ t, due t ≤ now q) (pending q)).

End Queue.

Arguments timer : clear implicits.
Arguments queue : clear implicits.

(** One millisecond of the event loop over a world [W] that holds a queue:
    the clock advances, then every timer that has come due runs, unless an
    earlier callback of the same round cleared it.  A timer is removed from
    the queue when it runs. *)
Section Loop.
Context {W A : Type}.
Variable get : W → queue A.
Variable put : queue A → W → W.
Variable run : A → W → W.

Definition fire (w : W) (id : N) : W :=
  match List.find (λ t, bool_decide (tid t = id)) (pending (get w)) with
  | Some t => run (act t) (put (clearTimeout id (get w)) w)
  | None => w
  end.

Definition tick (w : W) : W :=
  let w1 := put (advance (get w)) w in
  fold_left fire (fmap tid (due_now (get w1))) w1.

End Loop.

End Timers.

(** ** Elements shared by both revisions of the contact form *)

Module Dom.

(** A form control: its current value and the value [form.reset()] restores. *)
Record field := Field { fname : string; value : string; defaultValue : string }.

Definition reset_field (f : field) : field :=
  Field (fname f) (defaultValue f) (defaultValue f).

(** [new FormData(form)] *)
Definition formData (fs : list field) : list (string * string) :=
  fmap (λ f, (fname f, value f)) fs.

(** The success panel appended to the form; [oid] is the identity of the
    element [document.createElement] returned. *)
Record overlay := Overlay { oid : N; oclass : ClassList.t; heading : string }.

Definition activate (o : N) (ov : overlay) : overlay :=
  if bool_decide (oid ov = o)
  then Overlay (oid ov) (ClassList.add "active" (oclass ov)) (heading ov)
  else ov.

(** What a [<select>] reads as its [value] after [select.value = v]: the
    setter selects the first option whose value is [v] and deselects every
    other one, and while no option is selected the getter returns the empty
    string.  [options] are the values of the element's options. *)
Definition select_value (options : list string) (v : string) : string :=
  if bool_decide (v ∈ options) then v else "".

(** A [fetch] that was issued. *)
Record post := Post { url : string; body : list (string * string); accept : string }.

End Dom.

(** * First revision (script.js lines 1-266) *)

Module V1.

(** ** Contact form: [initContactForm], [showSuccessMessage] (lines 176-266) *)

Module Contact.
Import Js Dom Timers.

Record button := Button { innerText : string; disabled : bool; opacity : string }.

(** [#contact-form]: its [action], its controls, the element
    [querySelector('button[type="submit"]')] finds, the success overlays
    appended so far and [style.position]. *)
Record form := Form {
  action : string;
  fields : list field;
  submitBtn : option button;
  overlays : list overlay;
  position : string }.

(** The two [await]s of the handler. *)
Inductive phase := AwaitFetch | AwaitJson.

#[global] Instance phase_eq_dec : EqDecision phase.
Proof. solve_decision. Defined.

(** The closure of one run of the submit handler while it is suspended:
    [originalText], [timeoutId] and the request it sent. *)
Record request := Request {
  rid : N;
  originalText : string;
  timeoutId : N;
  awaiting : phase;
  sent : post }.

(** The three callbacks handed to [setTimeout]. *)
Inductive callback :=
| Abort (r : N)            (* () => controller.abort() *)
| Restore (text : string)  (* () => { innerText = originalText; disabled = false } *)
| Activate (o : N).        (* () => successMessage.classList.add('active') *)

Record world := World {
  timers : queue callback;
  contactForm : option form;
  inflight : list request;
  next_rid : N;
  next_oid : N;
  console : list error }.

Definition with_timers (q : queue callback) (w : world) : world :=
  World q (contactForm w) (inflight w) (next_rid w) (next_oid w) (console w).

Definition with_form (g : form → form) (w : world) : world :=
  World (timers w) (g <$> contactForm w) (inflight w) (next_rid w) (next_oid w) (console w).

Definition with_inflight (rs : list request) (w : world) : world :=
  World (timers w) (contactForm w) rs (next_rid w) (next_oid w) (console w).

Definition with_button (g : button → button) (f : form) : form :=
  Form (action f) (fields f) (g <$> submitBtn f) (overlays f) (position f).

Definition with_fields (g : list field → list field) (f : form) : form :=
  Form (action f) (g (fields f)) (submitBtn f) (overlays f) (position f).

Definition with_overlays (g : list overlay → list overlay) (f : form) : form :=
  Form (action f) (fields f) (submitBtn f) (g (overlays f)) (position f).

Definition schedule (c : callback) (delay : N) (w : world) : N * world :=
  let '(id, q) := setTimeout c delay (timers w) in (id, with_timers q w).

Definition cancel (id : N) (w : world) : world :=
  with_timers (clearTimeout id (timers w)) w.

Definition button_of (w : world) : option button := contactForm w ≫= submitBtn.

Definition lookup_request (r : N) (p : phase) (w : world) : option request :=
  List.find (λ q, bool_decide (rid q = r ∧ awaiting q = p)) (inflight w).

Definition drop_request (r : N) (w : world) : world :=
  with_inflight (filter (λ q, rid q ≠ r) (inflight w)) w.

(** [showSuccessMessage(form)], lines 246-266. *)
Definition showSuccessMessage (w : world) : world :=
  let o := next_oid w in
  let successMessage := Overlay o {[ "form-success-overlay" ]} "Protocol Initialized" in
  let w1 :=
    World (timers w)
      ((λ f, Form (action f) (fields f) (submitBtn f)
               (overlays f ++ [successMessage]) "relative") <$> contactForm w)
      (inflight w) (next_rid w) (o + 1) (console w) in
  (schedule (Activate o) 10 w1).2.

(** The synchronous part of the submit listener, lines 180-206. *)
Definition on_submit (f : form) (w : world) : world :=
  match submitBtn f with
  | None => w
  | Some b =>
      let originalText := innerText b in
      let formData := formData (fields f) in
      let w1 := with_form (with_button
                  (λ _, Button "Initializing Protocol..." true "0.7")) w in
      let '(timeoutId, w2) := schedule (Abort (next_rid w)) 10000 w1 in
      World (timers w2) (contactForm w2)
        (inflight w2 ++
           [Request (next_rid w) originalText timeoutId AwaitFetch
              (Post (action f) formData "application/json")])
        (next_rid w + 1) (next_oid w2) (console w2)
  end.

(** The [catch] block, lines 223-239. *)
Definition on_catch (r : request) (e : error) (w : world) : world :=
  let w1 := cancel (timeoutId r) (drop_request (rid r) w) in
  let w2 := World (timers w1) (contactForm w1) (inflight w1) (next_rid w1)
              (next_oid w1) (console w1 ++ [e]) in
  let label := if String.eqb (name e) "AbortError"
               then "Timeout - Try Again" else "Error - Try Again" in
  let w3 := with_form (with_button
              (λ b, Button label (disabled b) "1")) w2 in
  (schedule (Restore (originalText r)) 3000 w3).2.

(** The continuation after [await fetch(...)] resolved, lines 208-222. *)
Definition on_response (r : request) (ok : bool) (w : world) : world :=
  let w1 := cancel (timeoutId r) w in
  if ok then
    let w2 := showSuccessMessage (drop_request (rid r) w1) in
    let w3 := with_form (with_fields (fmap reset_field)) w2 in
    with_form (with_button (λ _, Button (originalText r) false "1")) w3
  else
    with_inflight
      (fmap (λ q, if bool_decide (rid q = rid r)
                 then Request (rid q) (originalText q) (timeoutId q) AwaitJson (sent q)
                 else q) (inflight w1)) w1.

(** [throw new Error(data.error || 'Form submission failed')], line 221;
    reading [.error] of [null] is a TypeError. *)
Definition rejection (data : json) : error :=
  match data with
  | JNull => TypeError "Cannot read properties of null (reading 'error')"
  | JObject err => if truthy err then Error (default "" err)
                   else Error "Form submission failed"
  | JOther => Error "Form submission failed"
  end.

(** What a timer callback does.  [controller.abort()] rejects whichever
    promise of the request is still pending with an AbortError. *)
Definition run_callback (c : callback) (w : world) : world :=
  match c with
  | Abort r =>
      match List.find (λ q, bool_decide (rid q = r)) (inflight w) with
      | Some q => on_catch q AbortError w
      | None => w
      end
  | Restore text =>
      with_form (with_button (λ b, Button text false (opacity b))) w
  | Activate o =>
      with_form (with_overlays (fmap (activate o))) w
  end.

(** What can happen to the page.  [Submit] is the user asking for
    submission (a click on the submit button, or Enter in a control); the
    others are the user typing, the user closing an overlay, one millisecond
    passing, and the network settling a promise of request [r]. *)
Inductive event :=
| Submit
| Input (i : nat) (v : string)
| CloseOverlay (o : N)
| Tick
| FetchResolve (r : N) (ok : bool)
| FetchReject (r : N)
| JsonResolve (r : N) (data : json)
| JsonReject (r : N).

(** The browser fires no [submit] event through a disabled submit button. *)
Definition submittable (f : form) : bool :=
  match submitBtn f with
  | Some b => negb (disabled b)
  | None => true
  end.

Definition step (w : world) (e : event) : world :=
  match e with
  | Submit =>
      match contactForm w with
      | Some f => if submittable f then on_submit f w else w
      | None => w
      end
  | Input i v =>
      with_form (with_fields
        (alter (λ f, Field (fname f) v (defaultValue f)) i)) w
  | CloseOverlay o =>
      with_form (with_overlays (filter (λ ov, oid ov ≠ o))) w
  | Tick => tick timers with_timers run_callback w
  | FetchResolve r ok =>
      match lookup_request r AwaitFetch w with
      | Some q => on_response q ok w
      | None => w
      end
  | FetchReject r =>
      match lookup_request r AwaitFetch w with
      | Some q => on_catch q (TypeError "Failed to fetch") w
      | None => w
      end
  | JsonResolve r data =>
      match lookup_request r AwaitJson w with
      | Some q => on_catch q (rejection data) w
      | None => w
      end
  | JsonReject r =>
      match lookup_request r AwaitJson w with
      | Some q => on_catch q SyntaxError w
      | None => w
      end
  end.

Definition run (w : world) (es : list event) : world := fold_left step es w.

(** [initContactForm()] on a freshly loaded page: the listener exists only
    if [#contact-form] does, which [step] reads off [contactForm]. *)
Definition load (f : option form) : world :=
  World Timers.empty f [] 0 0 [].

(** Milliseconds that pass during a list of events. *)
Definition is_tick (e : event) : bool :=
  match e with Tick => true | _ => false end.

Definition elapsed (es : list event) : N :=
  N.of_nat (length (filter (λ e, is_tick e = true) es)).

End Contact.

(** ** Protocol cards: [initProtocolSelection] (lines 20-58) *)

Module Selection.
Import Js Timers.

(** A [.program-card]: its [data-value], [style.cursor], and whether the
    click listener was attached. *)
Record card := Card { data_value : option string; cursor : string; listening : bool }.

(** [#program], the dropdown: the [value] it reads, its class list and
    the values of its options. *)
Record select := Select { value : string; sclass : ClassList.t; options : list string }.

(** [programSelect.value = v] *)
Definition set_value (v : string) (s : select) : select :=
  Select (Dom.select_value (options s) v) (sclass s) (options s).

Definition with_sclass (g : ClassList.t → ClassList.t) (s : select) : select :=
  Select (value s) (g (sclass s)) (options s).

Inductive callback :=
| UnhighlightForm    (* () => form.classList.remove('selection-highlight') *)
| UnhighlightField.  (* () => programSelect.classList.remove('field-highlight') *)

(** The elements the initializer looks up, with the geometry it reads
    ([getBoundingClientRect().top], [pageYOffset], in pixels) and the
    [window.scrollTo] calls made so far. *)
Record page := Page {
  cards : list card;
  programSelect : option select;
  contactSection : option Z;
  contact_form : option ClassList.t;
  pageYOffset : Z;
  scrolls : list Z;
  timers : queue callback }.

Definition with_select (g : select → select) (p : page) : page :=
  Page (cards p) (g <$> programSelect p) (contactSection p) (contact_form p)
    (pageYOffset p) (scrolls p) (timers p).

Definition with_contact_form (g : ClassList.t → ClassList.t) (p : page) : page :=
  Page (cards p) (programSelect p) (contactSection p) (g <$> contact_form p)
    (pageYOffset p) (scrolls p) (timers p).

Definition with_timers (q : queue callback) (p : page) : page :=
  Page (cards p) (programSelect p) (contactSection p) (contact_form p)
    (pageYOffset p) (scrolls p) q.

Definition scrollTo (top : Z) (p : page) : page :=
  Page (cards p) (programSelect p) (contactSection p) (contact_form p)
    (pageYOffset p) (scrolls p ++ [top]) (timers p).

Definition schedule (c : callback) (delay : N) (p : page) : page :=
  with_timers (setTimeout c delay (timers p)).2 p.

Definition initProtocolSelection (p : page) : page :=
  if bool_decide (cards p = []) || bool_decide (programSelect p = None) then p
  else
    Page (fmap (λ c, Card (data_value c) "pointer" true) (cards p))
      (programSelect p) (contactSection p) (contact_form p)
      (pageYOffset p) (scrolls p) (timers p).

(** The click listener of a card, lines 31-56. *)
Definition on_card_click (c : card) (p : page) : page * completion :=
  if negb (truthy (data_value c)) then (p, Normal)
  else
    let protocolValue := default "" (data_value c) in
    let p1 := with_select (set_value protocolValue) p in
    let headerOffset := 90%Z in
    match contactSection p1 with
    | None =>
        (p1, Throw (TypeError "Cannot read properties of null (reading 'getBoundingClientRect')"))
    | Some elementPosition =>
        let offsetPosition := (elementPosition + pageYOffset p1 - headerOffset)%Z in
        let p2 := scrollTo offsetPosition p1 in
        match contact_form p2 with
        | None =>
            (p2, Throw (TypeError "Cannot read properties of null (reading 'classList')"))
        | Some _ =>
            let p3 := with_contact_form (ClassList.add "selection-highlight") p2 in
            let p4 := schedule UnhighlightForm 1500 p3 in
            let p5 := with_select (with_sclass (ClassList.add "field-highlight")) p4 in
            (schedule UnhighlightField 1500 p5, Normal)
        end
    end.

(** A click on the [i]-th card: its listener runs if one is attached. *)
Definition click_card (i : nat) (p : page) : page * completion :=
  match cards p !! i with
  | Some c => if listening c then on_card_click c p else (p, Normal)
  | None => (p, Normal)
  end.

(** The two callbacks handed to [setTimeout], lines 51 and 55. *)
Definition run_callback (c : callback) (p : page) : page :=
  match c with
  | UnhighlightForm =>
      with_contact_form (ClassList.remove "selection-highlight") p
  | UnhighlightField =>
      with_select (with_sclass (ClassList.remove "field-highlight")) p
  end.

(** The page over time: clicks on cards and milliseconds passing.  An
    exception that escapes a listener is reported by the browser and the
    page goes on as the listener left it. *)
Inductive event :=
| CardClick (i : nat)
| Tick.

Definition step (p : page) (e : event) : page :=
  match e with
  | CardClick i => (click_card i p).1
  | Tick => tick timers with_timers run_callback p
  end.

Definition run (p : page) (es : list event) : page := fold_left step es p.

End Selection.

(** ** Scroll reveal: [initScrollReveal] (lines 64-82) *)

Module Reveal.

(** The IntersectionObserver: the observed elements, each with the
    [isIntersecting] it last reported ([None] before its first report). *)
Definition observer := list (nat * option bool).

Definition observe (el : nat) (o : observer) : observer :=
  if bool_decide (el ∈ o.*1) then o else o ++ [(el, None)].

Definition unobserve (el : nat) (o : observer) : observer :=
  filter (λ t, t.1 ≠ el) o.

(** One rendering update: every observed element whose intersection with
    the viewport changed since its last report gets one entry. *)
Definition entries_of (visible : list nat) (o : observer) : list (nat * bool) :=
  omap (λ t, let cur := bool_decide (t.1 ∈ visible) in
             if bool_decide (t.2 = Some cur) then None else Some (t.1, cur)) o.

Definition report (visible : list nat) (o : observer) : observer :=
  fmap (λ t, (t.1, Some (bool_decide (t.1 ∈ visible)))) o.

(** Elements are numbered; [classes] gives each one's class list and
    [activated] lists, in order, the targets of every
    [classList.add('active')] the script performed. *)
Record page := Page {
  revealObserver : observer;
  classes : gmap nat ClassList.t;
  activated : list nat }.

Definition classList (el : nat) (p : page) : ClassList.t :=
  default ∅ (classes p !! el).

Definition add_active (el : nat) (p : page) : page :=
  Page (revealObserver p)
    (<[el := ClassList.add "active" (classList el p)]> (classes p))
    (activated p ++ [el]).

(** The observer callback, lines 72-79. *)
Definition on_entry (p : page) (entry : nat * bool) : page :=
  if entry.2 then
    let p1 := add_active entry.1 p in
    Page (unobserve entry.1 (revealObserver p1)) (classes p1) (activated p1)
  else p.

Definition callback (entries : list (nat * bool)) (p : page) : page :=
  fold_left on_entry entries p.

Definition initScrollReveal (revealElements : list nat) (classes : gmap nat ClassList.t) : page :=
  Page (fold_left (λ o el, observe el o) revealElements []) classes [].

(** A rendering update in which exactly the elements of [visible] meet the
    observer's threshold. *)
Definition frame (p : page) (visible : list nat) : page :=
  let entries := entries_of visible (revealObserver p) in
  let p1 := Page (report visible (revealObserver p)) (classes p) (activated p) in
  if bool_decide (entries = []) then p1 else callback entries p1.

Definition run (p : page) (frames : list (list nat)) : page :=
  fold_left frame frames p.

End Reveal.

(** ** Sticky header: [initStickyHeader] (lines 88-99) *)

Module Header.

(** [header] is the class list of [#main-header]; [listening] tells
    whether [handleScroll] was added to the window. *)
Record page := Page { header : option ClassList.t; listening : bool }.

Definition initStickyHeader (p : page) : page :=
  match header p with
  | None => p
  | Some h => Page (Some h) true
  end.

(** [handleScroll], lines 92-95; [scrollY] is [window.scrollY], a number
    of pixels that need not be whole. *)
Definition handleScroll (scrollY : QArith_base.Q) (p : page) : page :=
  let isScrolled := negb (QArith_base.Qle_bool scrollY (QArith_base.inject_Z 50)) in
  Page (ClassList.toggle_force "scrolled" isScrolled <$> header p) (listening p).

(** A [scroll] event of the window. *)
Definition on_scroll (p : page) (scrollY : QArith_base.Q) : page :=
  if listening p then handleScroll scrollY p else p.

Definition run (p : page) (ys : list QArith_base.Q) : page := fold_left on_scroll ys p.

End Header.

(** ** Anchor scrolling and the mobile menu: [initSmoothScroll],
       [initMobileMenu] (lines 105-150) *)

Module Nav.
Import Js.

(** [#menu-toggle] *)
Record toggle := Toggle { tclass : ClassList.t; listening : bool }.

(** [nav] is the class list of [#main-nav]; [scrolls] lists the [top] of
    every [window.scrollTo] so far. *)
Record page := Page {
  nav : option ClassList.t;
  menuToggle : option toggle;
  scrolls : list Z }.

(** What [document.querySelector(targetId)] does with an anchor's [href]:
    it throws on an ill-formed selector, finds nothing, or finds an element
    (given by the [top] of its bounding rectangle). *)
Inductive query :=
| Invalid
| Missing
| Found (top : Z).

Definition initMobileMenu (p : page) : page :=
  match menuToggle p, nav p with
  | Some t, Some _ => Page (nav p) (Some (Toggle (tclass t) true)) (scrolls p)
  | _, _ => p
  end.

(** The click listener of the menu toggle, lines 146-149. *)
Definition on_toggle_click (p : page) : page :=
  match menuToggle p, nav p with
  | Some t, Some n =>
      let '(n', isOpen) := ClassList.toggle "active" n in
      Page (Some n')
        (Some (Toggle (ClassList.toggle_force "open" isOpen (tclass t)) (listening t)))
        (scrolls p)
  | _, _ => p
  end.

(** The click listener of an [a[href^="#"]], lines 107-132;
    [pageYOffset] is [window.pageYOffset] at the time of the click. *)
Definition on_anchor_click (targetId : string) (q : query) (pageYOffset : Z) (p : page)
  : page * completion :=
  if bool_decide (targetId = "#") then (p, Normal)
  else
    match q with
    | Invalid => (p, Throw SyntaxError)
    | Missing => (p, Normal)
    | Found elementPosition =>
        let headerOffset := 90%Z in
        let offsetPosition := (elementPosition + pageYOffset - headerOffset)%Z in
        let p1 := Page (nav p) (menuToggle p) (scrolls p ++ [offsetPosition]) in
        match nav p1 with
        | Some n =>
            if ClassList.contains "active" n then
              let p2 := Page (Some (ClassList.remove "active" n)) (menuToggle p1)
                          (scrolls p1) in
              match menuToggle p2 with
              | None =>
                  (p2, Throw (TypeError "Cannot read properties of null (reading 'classList')"))
              | Some t =>
                  (Page (nav p2)
                     (Some (Toggle (ClassList.remove "open" (tclass t)) (listening t)))
                     (scrolls p2), Normal)
              end
            else (p1, Normal)
        | None => (p1, Normal)
        end
    end.

Inductive event :=
| ToggleClick
| AnchorClick (targetId : string) (q : query) (pageYOffset : Z).

Definition step (p : page) (e : event) : page :=
  match e with
  | ToggleClick =>
      match menuToggle p with
      | Some t => if listening t then on_toggle_click p else p
      | None => p
      end
  | AnchorClick targetId q pageYOffset => (on_anchor_click targetId q pageYOffset p).1
  end.

Definition run (p : page) (es : list event) : page := fold_left step es p.

Definition menu_open (p : page) : bool :=
  match nav p with
  | Some n => ClassList.contains "active" n
  | None => false
  end.

End Nav.

End V1.

(** * Second revision (script.js lines 268-496) *)

Module V2.

(** ** Contact form: [initContactForm], [showSuccessMessage] (lines 445-496) *)

Module Contact.
Import Js Dom Timers.

(** The submit button.  [btnText] is
    [submitBtn.querySelector('.btn-text') || submitBtn], the element whose
    [innerText] carries the label: [has_btn_text] tells which of the two it
    is and [label] is that element's [innerText]. *)
Record button := Button { has_btn_text : bool; label : string; disabled : bool }.

Record form := Form {
  action : string;
  fields : list field;
  submitBtn : option button;
  overlays : list overlay }.

Record request := Request { rid : N; originalText : string; sent : post }.

Inductive callback :=
| Restore (text : string)  (* () => { btnText.innerText = originalText; submitBtn.disabled = false } *)
| Activate (o : N).        (* () => successOverlay.classList.add('active') *)

(** [unhandled] collects the exceptions that escape the async listener;
    [body_overflow] is [document.body.style.overflow], which the overlay's
    close button writes. *)
Record world := World {
  timers : queue callback;
  contactForm : option form;
  inflight : list request;
  next_rid : N;
  next_oid : N;
  body_overflow : string;
  unhandled : list error }.

Definition with_timers (q : queue callback) (w : world) : world :=
  World q (contactForm w) (inflight w) (next_rid w) (next_oid w)
    (body_overflow w) (unhandled w).

Definition with_form (g : form → form) (w : world) : world :=
  World (timers w) (g <$> contactForm w) (inflight w) (next_rid w) (next_oid w)
    (body_overflow w) (unhandled w).

Definition with_inflight (rs : list request) (w : world) : world :=
  World (timers w) (contactForm w) rs (next_rid w) (next_oid w)
    (body_overflow w) (unhandled w).

Definition with_button (g : button → button) (f : form) : form :=
  Form (action f) (fields f) (g <$> submitBtn f) (overlays f).

Definition with_fields (g : list field → list field) (f : form) : form :=
  Form (action f) (g (fields f)) (submitBtn f) (overlays f).

Definition with_overlays (g : list overlay → list overlay) (f : form) : form :=
  Form (action f) (fields f) (submitBtn f) (g (overlays f)).

Definition schedule (c : callback) (delay : N) (w : world) : world :=
  with_timers (setTimeout c delay (timers w)).2 w.

Definition button_of (w : world) : option button := contactForm w ≫= submitBtn.

Definition lookup_request (r : N) (w : world) : option request :=
  List.find (λ q, bool_decide (rid q = r)) (inflight w).

Definition drop_request (r : N) (w : world) : world :=
  with_inflight (filter (λ q, rid q ≠ r) (inflight w)) w.

(** [showSuccessMessage(form)], lines 483-496. *)
Definition showSuccessMessage (w : world) : world :=
  let o := next_oid w in
  let successOverlay := Overlay o {[ "form-success-overlay" ]} "Inquiry Received" in
  let w1 :=
    World (timers w)
      ((λ f, Form (action f) (fields f) (submitBtn f)
               (overlays f ++ [successOverlay])) <$> contactForm w)
      (inflight w) (next_rid w) (o + 1) (body_overflow w) (unhandled w) in
  schedule (Activate o) 10 w1.

(** The synchronous part of the submit listener, lines 449-465.  There is
    no check that the button exists: [submitBtn.querySelector] on [null]
    throws out of the listener. *)
Definition on_submit (f : form) (w : world) : world :=
  match submitBtn f with
  | None =>
      World (timers w) (contactForm w) (inflight w) (next_rid w) (next_oid w)
        (body_overflow w)
        (unhandled w ++
           [TypeError "Cannot read properties of null (reading 'querySelector')"])
  | Some b =>
      let originalText := label b in
      let formData := formData (fields f) in
      let w1 := with_form (with_button
                  (λ b, Button (has_btn_text b) "Sending..." true)) w in
      World (timers w1) (contactForm w1)
        (inflight w1 ++
           [Request (next_rid w) originalText
              (Post (action f) formData "application/json")])
        (next_rid w + 1) (next_oid w1) (body_overflow w1) (unhandled w1)
  end.

(** The [catch] block, lines 473-479. *)
Definition on_catch (r : request) (w : world) : world :=
  let w1 := drop_request (rid r) w in
  let w2 := with_form (with_button
              (λ b, Button (has_btn_text b) "Error - Try Again" (disabled b))) w1 in
  schedule (Restore (originalText r)) 3000 w2.

(** The continuation after [await fetch(...)] resolved, lines 467-472. *)
Definition on_response (r : request) (ok : bool) (w : world) : world :=
  if ok then
    let w1 := showSuccessMessage (drop_request (rid r) w) in
    with_form (with_fields (fmap reset_field)) w1
  else on_catch r w.

Definition run_callback (c : callback) (w : world) : world :=
  match c with
  | Restore text =>
      with_form (with_button (λ b, Button (has_btn_text b) text false)) w
  | Activate o =>
      with_form (with_overlays (fmap (activate o))) w
  end.

Inductive event :=
| Submit
| Input (i : nat) (v : string)
| CloseOverlay (o : N)
| Tick
| FetchResolve (r : N) (ok : bool)
| FetchReject (r : N).

(** The browser fires no [submit] event through a disabled submit button. *)
Definition submittable (f : form) : bool :=
  match submitBtn f with
  | Some b => negb (disabled b)
  | None => true
  end.

Definition step (w : world) (e : event) : world :=
  match e with
  | Submit =>
      match contactForm w with
      | Some f => if submittable f then on_submit f w else w
      | None => w
      end
  | Input i v =>
      with_form (with_fields
        (alter (λ f, Field (fname f) v (defaultValue f)) i)) w
  | CloseOverlay o =>
      let w1 := with_form (with_overlays (filter (λ ov, oid ov ≠ o))) w in
      World (timers w1) (contactForm w1) (inflight w1) (next_rid w1) (next_oid w1)
        "" (unhandled w1)
  | Tick => tick timers with_timers run_callback w
  | FetchResolve r ok =>
      match lookup_request r w with
      | Some q => on_response q ok w
      | None => w
      end
  | FetchReject r =>
      match lookup_request r w with
      | Some q => on_catch q w
      | None => w
      end
  end.

Definition run (w : world) (es : list event) : world := fold_left step es w.

Definition load (f : option form) (overflow : string) : world :=
  World Timers.empty f [] 0 0 overflow [].

Definition is_tick (e : event) : bool :=
  match e with Tick => true | _ => false end.

Definition elapsed (es : list event) : N :=
  N.of_nat (length (filter (λ e, is_tick e = true) es)).

End Contact.

(** ** Protocol cards and selector list: [initProtocolSelection],
       [updateProtocolSelection] (lines 302-350) *)

Module Selection.
Import Js Timers.

Record card := Card { data_value : option string; cursor : string; listening : bool }.

(** A [.selector-item]. *)
Record item := Item { item_value : option string; iclass : ClassList.t; ilistening : bool }.

(** [#program], the dropdown: the [value] it reads and the values of its
    options. *)
Record select := Select { value : string; options : list string }.

(** [programSelect.value = v] *)
Definition set_value (v : string) (s : select) : select :=
  Select (Dom.select_value (options s) v) (options s).

Inductive callback :=
| UnhighlightForm.  (* () => form.classList.remove('selection-highlight') *)

(** [programSelect] is [#program]; [header] the [offsetHeight] of
    [#main-header]; [exposed] whether [window.updateProtocolSelection] was
    set. *)
Record page := Page {
  cards : list card;
  selectorItems : list item;
  programSelect : option select;
  contactSection : option Z;
  header : option Z;
  contact_form : option ClassList.t;
  pageYOffset : Z;
  scrolls : list Z;
  timers : queue callback;
  exposed : bool }.

Definition set_program (v : string) (p : page) : page :=
  Page (cards p) (selectorItems p) (set_value v <$> programSelect p) (contactSection p)
    (header p) (contact_form p) (pageYOffset p) (scrolls p) (timers p) (exposed p).

Definition with_items (g : list item → list item) (p : page) : page :=
  Page (cards p) (g (selectorItems p)) (programSelect p) (contactSection p)
    (header p) (contact_form p) (pageYOffset p) (scrolls p) (timers p) (exposed p).

Definition with_contact_form (g : ClassList.t → ClassList.t) (p : page) : page :=
  Page (cards p) (selectorItems p) (programSelect p) (contactSection p)
    (header p) (g <$> contact_form p) (pageYOffset p) (scrolls p) (timers p) (exposed p).

Definition scrollTo (top : Z) (p : page) : page :=
  Page (cards p) (selectorItems p) (programSelect p) (contactSection p)
    (header p) (contact_form p) (pageYOffset p) (scrolls p ++ [top]) (timers p) (exposed p).

Definition schedule (c : callback) (delay : N) (p : page) : page :=
  Page (cards p) (selectorItems p) (programSelect p) (contactSection p)
    (header p) (contact_form p) (pageYOffset p) (scrolls p)
    (setTimeout c delay (timers p)).2 (exposed p).

(** [item.classList.toggle('active', item.getAttribute('data-value') === value)] *)
Definition mark (value : string) (it : item) : item :=
  Item (item_value it)
    (ClassList.toggle_force "active" (bool_decide (item_value it = Some value)) (iclass it))
    (ilistening it).

(** [updateProtocolSelection(value, shouldScroll)], lines 325-346. *)
Definition updateProtocolSelection (value : string) (shouldScroll : bool) (p : page)
  : page * completion :=
  let p1 := set_program value p in
  let p2 := with_items (fmap (mark value)) p1 in
  match shouldScroll, contactSection p2 with
  | true, Some top =>
      match header p2 with
      | None =>
          (p2, Throw (TypeError "Cannot read properties of null (reading 'offsetHeight')"))
      | Some offsetHeight =>
          let headerHeight := if bool_decide (offsetHeight = 0%Z) then 80%Z else offsetHeight in
          let elementPosition := (top + pageYOffset p2)%Z in
          let p3 := scrollTo (elementPosition - headerHeight)%Z p2 in
          match contact_form p3 with
          | Some _ =>
              (schedule UnhighlightForm 1200
                 (with_contact_form (ClassList.add "selection-highlight") p3), Normal)
          | None => (p3, Normal)
          end
      end
  | _, _ => (p2, Normal)
  end.

Definition initProtocolSelection (p : page) : page :=
  match programSelect p with
  | None => p
  | Some _ =>
      Page (fmap (λ c, Card (data_value c) "pointer" true) (cards p))
        (fmap (λ it, Item (item_value it) (iclass it) true) (selectorItems p))
        (programSelect p) (contactSection p) (header p) (contact_form p)
        (pageYOffset p) (scrolls p) (timers p) true
  end.

(** The click listeners, lines 312-315 and 319-322. *)
Definition on_card_click (c : card) (p : page) : page * completion :=
  if truthy (data_value c)
  then updateProtocolSelection (default "" (data_value c)) true p
  else (p, Normal).

Definition on_item_click (it : item) (p : page) : page * completion :=
  if truthy (item_value it)
  then updateProtocolSelection (default "" (item_value it)) false p
  else (p, Normal).

Definition click_card (i : nat) (p : page) : page * completion :=
  match cards p !! i with
  | Some c => if listening c then on_card_click c p else (p, Normal)
  | None => (p, Normal)
  end.

Definition click_item (i : nat) (p : page) : page * completion :=
  match selectorItems p !! i with
  | Some it => if ilistening it then on_item_click it p else (p, Normal)
  | None => (p, Normal)
  end.


Definition with_timers (q : queue callback) (p : page) : page :=
  Page (cards p) (selectorItems p) (programSelect p) (contactSection p)
    (header p) (contact_form p) (pageYOffset p) (scrolls p) q (exposed p).

(** The callback handed to [setTimeout], line 343. *)
Definition run_callback (c : callback) (p : page) : page :=
  match c with
  | UnhighlightForm =>
      with_contact_form (ClassList.remove "selection-highlight") p
  end.

(** The page over time: clicks on cards and on list selectors, and
    milliseconds passing. *)
Inductive event :=
| CardClick (i : nat)
| ItemClick (i : nat)
| Tick.

Definition step (p : page) (e : event) : page :=
  match e with
  | CardClick i => (click_card i p).1
  | ItemClick i => (click_item i p).1
  | Tick => tick timers with_timers run_callback p
  end.

Definition run (p : page) (es : list event) : page := fold_left step es p.

End Selection.

(** ** Anchor scrolling and the mobile menu: [initSmoothScroll],
       [initMobileMenu] (lines 394-440) *)

Module Nav.
Import Js.

(** [#menu-toggle] *)
Record toggle := Toggle {
  tclass : ClassList.t;
  aria_expanded : option string;
  listening : bool }.

(** [nav] is the class list of [#main-nav], [header] the [offsetHeight] of
    [#main-header], [body_overflow] is [document.body.style.overflow]. *)
Record page := Page {
  nav : option ClassList.t;
  menuToggle : option toggle;
  body_overflow : string;
  header : option Z;
  pageYOffset : Z;
  scrolls : list Z }.

(** What [document.querySelector(targetId)] does with an anchor's [href]:
    it throws on an ill-formed selector, finds nothing, or finds an element
    (given by the [top] of its bounding rectangle). *)
Inductive query :=
| Invalid
| Missing
| Found (top : Z).

Definition initMobileMenu (p : page) : page :=
  match menuToggle p, nav p with
  | Some t, Some _ =>
      Page (nav p) (Some (Toggle (tclass t) (aria_expanded t) true))
        (body_overflow p) (header p) (pageYOffset p) (scrolls p)
  | _, _ => p
  end.

(** The click listener of the menu toggle, lines 434-439.  It is attached
    only when both elements exist. *)
Definition on_toggle_click (p : page) : page :=
  match menuToggle p, nav p with
  | Some t, Some n =>
      let '(n', isOpen) := ClassList.toggle "active" n in
      Page (Some n')
        (Some (Toggle (ClassList.toggle_force "open" isOpen (tclass t))
                 (Some (if isOpen then "true" else "false")) (listening t)))
        (if isOpen then "hidden" else "")
        (header p) (pageYOffset p) (scrolls p)
  | _, _ => p
  end.

(** The click listener of an [a[href^="#"]], lines 396-421. *)
Definition on_anchor_click (targetId : string) (q : query) (p : page)
  : page * completion :=
  if bool_decide (targetId = "#") || bool_decide (targetId = "") then (p, Normal)
  else
    match q with
    | Invalid => (p, Throw SyntaxError)
    | Missing => (p, Normal)
    | Found top =>
        match header p with
        | None =>
            (p, Throw (TypeError "Cannot read properties of null (reading 'offsetHeight')"))
        | Some offsetHeight =>
            let headerHeight := if bool_decide (offsetHeight = 0%Z) then 80%Z else offsetHeight in
            let elementPosition := (top + pageYOffset p)%Z in
            let p1 := Page (nav p) (menuToggle p) (body_overflow p) (header p)
                        (pageYOffset p) (scrolls p ++ [(elementPosition - headerHeight)%Z]) in
            match nav p1 with
            | Some n =>
                if ClassList.contains "active" n then
                  let p2 := Page (Some (ClassList.remove "active" n)) (menuToggle p1)
                              (body_overflow p1) (header p1) (pageYOffset p1) (scrolls p1) in
                  match menuToggle p2 with
                  | None =>
                      (p2, Throw (TypeError "Cannot read properties of null (reading 'classList')"))
                  | Some t =>
                      (Page (nav p2)
                         (Some (Toggle (ClassList.remove "open" (tclass t))
                                  (Some "false") (listening t)))
                         "" (header p2) (pageYOffset p2) (scrolls p2), Normal)
                  end
                else (p1, Normal)
            | None => (p1, Normal)
            end
        end
    end.

(** Clicks the page can receive: on the menu toggle, on an in-page anchor,
    and on the close button of a success overlay, whose inline handler ends
    with [document.body.style.overflow = ''] (line 491). *)
Inductive event :=
| ToggleClick
| AnchorClick (targetId : string) (q : query)
| OverlayClose.

Definition step (p : page) (e : event) : page :=
  match e with
  | ToggleClick =>
      match menuToggle p with
      | Some t => if listening t then on_toggle_click p else p
      | None => p
      end
  | AnchorClick targetId q => (on_anchor_click targetId q p).1
  | OverlayClose =>
      Page (nav p) (menuToggle p) "" (header p) (pageYOffset p) (scrolls p)
  end.

Definition run (p : page) (es : list event) : page := fold_left step es p.

Definition menu_open (p : page) : bool :=
  match nav p with
  | Some n => ClassList.contains "active" n
  | None => false
  end.

Definition scroll_locked (p : page) : bool :=
  bool_decide (body_overflow p = "hidden").

End Nav.

(** ** Scroll reveal with stagger: [initScrollReveal] (lines 356-375) *)

Module Reveal.
Import Timers.

Definition observer := V1.Reveal.observer.

(** The only timer callback: [() => entry.target.classList.add('active')]. *)
Record page := Page {
  revealObserver : observer;
  classes : gmap nat ClassList.t;
  activated : list nat;
  timers : queue nat }.

Definition classList (el : nat) (p : page) : ClassList.t :=
  default ∅ (classes p !! el).

Definition with_timers (q : queue nat) (p : page) : page :=
  Page (revealObserver p) (classes p) (activated p) q.

Definition add_active (el : nat) (p : page) : page :=
  Page (revealObserver p)
    (<[el := ClassList.add "active" (classList el p)]> (classes p))
    (activated p ++ [el]) (timers p).

(** The body of [appearing.forEach((entry, index) => ...)], lines 367-370. *)
Definition on_appearing (p : page) (ie : nat * (nat * bool)) : page :=
  let '(index, entry) := ie in
  let q := (setTimeout entry.1 (N.of_nat index * 150) (timers p)).2 in
  Page (V1.Reveal.unobserve entry.1 (revealObserver p)) (classes p) (activated p) q.

(** The observer callback, lines 363-372. *)
Definition callback (entries : list (nat * bool)) (p : page) : page :=
  let appearing := filter (λ e, e.2 = true) entries in
  fold_left on_appearing (zip (seq 0 (length appearing)) appearing) p.

Definition initScrollReveal (revealElements : list nat) (classes : gmap nat ClassList.t) : page :=
  Page (fold_left (λ o el, V1.Reveal.observe el o) revealElements []) classes []
    Timers.empty.

Inductive event :=
| Frame (visible : list nat)
| Tick.

Definition frame (p : page) (visible : list nat) : page :=
  let entries := V1.Reveal.entries_of visible (revealObserver p) in
  let p1 := Page (V1.Reveal.report visible (revealObserver p)) (classes p)
              (activated p) (timers p) in
  if bool_decide (entries = []) then p1 else callback entries p1.

Definition step (p : page) (e : event) : page :=
  match e with
  | Frame visible => frame p visible
  | Tick => tick timers with_timers add_active p
  end.

Definition run (p : page) (es : list event) : page := fold_left step es p.

End Reveal.

(** ** Preloader: [initPreloader] (lines 285-296) *)

Module Preloader.
Import Timers.

Inductive callback :=
| FadeOut   (* () => { preloader.classList.add('fade-out'); setTimeout(..., 800) } *)
| Remove.   (* () => preloader.remove() *)

(** [preloader] is the class list of [#preloader] if the page has one,
    [in_document] whether that element is still in the document, and
    [listening] whether the [load] listener was added to the window. *)
Record page := Page {
  preloader : option ClassList.t;
  in_document : bool;
  listening : bool;
  timers : queue callback }.

Definition with_timers (q : queue callback) (p : page) : page :=
  Page (preloader p) (in_document p) (listening p) q.

Definition schedule (c : callback) (delay : N) (p : page) : page :=
  with_timers (setTimeout c delay (timers p)).2 p.

Definition initPreloader (p : page) : page :=
  match preloader p with
  | None => p
  | Some _ => Page (preloader p) (in_document p) true (timers p)
  end.

(** The [load] listener, lines 289-295. *)
Definition on_load (p : page) : page := schedule FadeOut 500 p.

Definition run_callback (c : callback) (p : page) : page :=
  match c with
  | FadeOut =>
      schedule Remove 800
        (Page (ClassList.add "fade-out" <$> preloader p) (in_document p)
           (listening p) (timers p))
  | Remove => Page (preloader p) false (listening p) (timers p)
  end.

(** The window's [load] event, and milliseconds passing. *)
Inductive event :=
| Load
| Tick.

Definition step (p : page) (e : event) : page :=
  match e with
  | Load => if listening p then on_load p else p
  | Tick => tick timers with_timers run_callback p
  end.

Definition run (p : page) (es : list event) : page := fold_left step es p.

End Preloader.

(** ** Sticky header: [initStickyHeader] (lines 380-389) *)

Module Header.

Record page := Page { header : option ClassList.t; listening : bool }.

Definition initStickyHeader (p : page) : page :=
  match header p with
  | None => p
  | Some h => Page (Some h) true
  end.

(** [handleScroll], lines 384-386. *)
Definition handleScroll (scrollY : QArith_base.Q) (p : page) : page :=
  Page (ClassList.toggle_force "scrolled"
          (negb (QArith_base.Qle_bool scrollY (QArith_base.inject_Z 30))) <$> header p)
    (listening p).

Definition on_scroll (p : page) (scrollY : QArith_base.Q) : page :=
  if listening p then handleScroll scrollY p else p.

Definition run (p : page) (ys : list QArith_base.Q) : page := fold_left on_scroll ys p.

End Header.

End V2.

(** * Vocabulary of the properties *)

(** Timer handles are fresh: no two pending timers share one, and the
    counter is past all of them. *)
Definition fresh_ids {A} (q : Timers.queue A) : Prop :=
  NoDup (fmap Timers.tid (Timers.pending q)) ∧
  Forall (λ t, Timers.tid t < Timers.next_id q) (Timers.pending q).

(** The timers in [keep] are pending, and every other pending timer is
    of the background kind [bg]. *)
Definition kept {A} (bg : Timers.timer A → Prop) (keep : list (Timers.timer A))
    (q : Timers.queue A) : Prop :=
  fresh_ids q ∧
  Forall (λ t, t ∈ keep ∨ bg t) (Timers.pending q) ∧
  Forall (λ t, t ∈ Timers.pending q) keep.

(** ** Phases of a submission, first revision *)

Module Phase1.
Import Js Dom Timers V1.Contact.

Definition clock (w : world) : N := now (timers w).
Definition overlays_of (w : world) : list overlay :=
  default [] (overlays <$> contactForm w).
Definition fields_of (w : world) : list field :=
  default [] (fields <$> contactForm w).

(** A timer that only turns on the [active] class of an overlay numbered
    below [n]. *)
Definition activation (n : N) (t : timer callback) : Prop :=
  ∃ o, act t = Activate o ∧ o < n.

(** Apart from the timers in [keep], which are pending, only activations
    of overlays below [n] are. *)
Definition settled_q (keep : list (timer callback)) (n : N) (q : queue callback) : Prop :=
  kept (activation n) keep q.

Definition settled (keep : list (timer callback)) (n : N) (w : world) : Prop :=
  settled_q keep n (timers w).

(** ... and none of [keep] is due yet. *)
Definition calm (keep : list (timer callback)) (n : N) (w : world) : Prop :=
  settled keep n w ∧ Forall (λ t, clock w < due t) keep.

(** The page without its timers and overlays. *)
Definition rest (w : world) : world :=
  with_form (with_overlays (λ _, [])) (with_timers Timers.empty w).

(** [w'] differs from [w] by overlay activations below [n] at most. *)
Definition background (n : N) (w w' : world) : Prop :=
  clock w' = clock w ∧ next_id (timers w') = next_id (timers w) ∧
  rest w' = rest w ∧ next_oid w' = next_oid w ∧
  (Forall (λ ov, n ≤ oid ov) (overlays_of w) → overlays_of w' = overlays_of w).

(** No submission is under way and none is being reverted. *)
Definition idle (w : world) : Prop :=
  inflight w = [] ∧ calm [] (next_oid w) w.

(** Request [r] awaits its response; the abort timer will fire at [D];
    the button is [b], disabled. *)
Definition in_flight (r : request) (D : N) (b : button) (w : world) : Prop :=
  inflight w = [r] ∧ awaiting r = AwaitFetch ∧
  calm [Timer (timeoutId r) D (Abort (rid r))] (next_oid w) w ∧
  button_of w = Some b ∧ disabled b = true.

(** Request [r] got a response that was not ok and awaits its body. *)
Definition parsing (r : request) (b : button) (w : world) : Prop :=
  inflight w = [r] ∧ awaiting r = AwaitJson ∧ calm [] (next_oid w) w ∧
  button_of w = Some b ∧ disabled b = true.

(** The attempt failed; at [D] the button gets the label [L] back. *)
Definition reverting (L : string) (D : N) (b : button) (w : world) : Prop :=
  inflight w = [] ∧
  (∃ id, calm [Timer id D (Restore L)] (next_oid w) w) ∧
  button_of w = Some b ∧ disabled b = true.

(** Where a page can be. *)
Definition phase (w : world) : Prop :=
  idle w ∨ (∃ r D b, in_flight r D b w) ∨ (∃ r b, parsing r b w) ∨
  (∃ L D b, reverting L D b w).

(** Events that settle nothing: the user acting and time passing. *)
Definition passive (e : event) : bool :=
  match e with
  | Submit | Input _ _ | CloseOverlay _ | Tick => true
  | _ => false
  end.

Definition quiet (es : list event) : Prop := Forall (λ e, passive e = true) es.

(** The events of an attempt, from the submission to its failure: the
    network rejects the fetch; or the response is not ok and its body is
    parsed, or fails to parse; or ten seconds pass without a response.
    [r] numbers the request. *)
Inductive failed_attempt (r : N) : list event → Prop :=
| failed_network pre :
    quiet pre → elapsed pre < 10000 →
    failed_attempt r (Submit :: pre ++ [FetchReject r])
| failed_rejected pre mid data :
    quiet pre → elapsed pre < 10000 → quiet mid →
    failed_attempt r (Submit :: pre ++ FetchResolve r false :: mid ++ [JsonResolve r data])
| failed_unparsed pre mid :
    quiet pre → elapsed pre < 10000 → quiet mid →
    failed_attempt r (Submit :: pre ++ FetchResolve r false :: mid ++ [JsonReject r])
| failed_timeout pre :
    quiet pre → elapsed pre = 9999 →
    failed_attempt r (Submit :: pre ++ [Tick]).

(** The events of an attempt that fails before the ten seconds are over:
    the network rejects the fetch, or the response is not ok and its body
    is parsed, or fails to parse. *)
Inductive failed_early (r : N) : list event → Prop :=
| early_network pre :
    quiet pre → elapsed pre < 10000 →
    failed_early r (Submit :: pre ++ [FetchReject r])
| early_rejected pre mid data :
    quiet pre → elapsed pre < 10000 → quiet mid →
    failed_early r (Submit :: pre ++ FetchResolve r false :: mid ++ [JsonResolve r data])
| early_unparsed pre mid :
    quiet pre → elapsed pre < 10000 → quiet mid →
    failed_early r (Submit :: pre ++ FetchResolve r false :: mid ++ [JsonReject r]).

(** The labels the [catch] block writes. *)
Definition error_label (s : string) : Prop :=
  s = "Error - Try Again" ∨ s = "Timeout - Try Again".

(** Every abort timer among [ts] belongs to a request among [rs] that
    still awaits its response. *)
Definition guarded (ts : list (timer callback)) (rs : list request) : Prop :=
  ∀ t r, t ∈ ts → act t = Abort r →
    ∃ q, q ∈ rs ∧ rid q = r ∧ awaiting q = AwaitFetch ∧ timeoutId q = tid t.

Definition abort_guarded (w : world) : Prop :=
  guarded (pending (timers w)) (inflight w).

(** ... and requests and timers are numbered apart. *)
Definition coherent (w : world) : Prop :=
  abort_guarded w ∧ NoDup (rid <$> inflight w) ∧
  Forall (λ q, rid q < next_rid w ∧ timeoutId q < next_id (timers w)) (inflight w) ∧
  Forall (λ t, tid t < next_id (timers w)) (pending (timers w)).

End Phase1.

(** ** Phases of a submission, second revision *)

Module Phase2.
Import Js Dom Timers V2.Contact.

Definition clock (w : world) : N := now (timers w).
Definition overlays_of (w : world) : list overlay :=
  default [] (overlays <$> contactForm w).
Definition fields_of (w : world) : list field :=
  default [] (fields <$> contactForm w).

Definition activation (n : N) (t : timer callback) : Prop :=
  ∃ o, act t = Activate o ∧ o < n.

Definition settled_q (keep : list (timer callback)) (n : N) (q : queue callback) : Prop :=
  kept (activation n) keep q.

Definition settled (keep : list (timer callback)) (n : N) (w : world) : Prop :=
  settled_q keep n (timers w).

Definition calm (keep : list (timer callback)) (n : N) (w : world) : Prop :=
  settled keep n w ∧ Forall (λ t, clock w < due t) keep.

Definition rest (w : world) : world :=
  with_form (with_overlays (λ _, [])) (with_timers Timers.empty w).

Definition background (n : N) (w w' : world) : Prop :=
  clock w' = clock w ∧ next_id (timers w') = next_id (timers w) ∧
  rest w' = rest w ∧ next_oid w' = next_oid w ∧
  (Forall (λ ov, n ≤ oid ov) (overlays_of w) → overlays_of w' = overlays_of w).

Definition idle (w : world) : Prop :=
  inflight w = [] ∧ calm [] (next_oid w) w.

(** Request [r] awaits its response; no timer bounds the wait. *)
Definition in_flight (r : request) (b : button) (w : world) : Prop :=
  inflight w = [r] ∧ calm [] (next_oid w) w ∧
  button_of w = Some b ∧ disabled b = true.

Definition reverting (L : string) (D : N) (b : button) (w : world) : Prop :=
  inflight w = [] ∧
  (∃ id, calm [Timer id D (Restore L)] (next_oid w) w) ∧
  button_of w = Some b ∧ disabled b = true.

Definition phase (w : world) : Prop :=
  idle w ∨ (∃ r b, in_flight r b w) ∨ (∃ L D b, reverting L D b w).

Definition passive (e : event) : bool :=
  match e with
  | Submit | Input _ _ | CloseOverlay _ | Tick => true
  | _ => false
  end.

Definition quiet (es : list event) : Prop := Forall (λ e, passive e = true) es.

(** The events of an attempt, from the submission to its failure: the
    network rejects the fetch (which is also how a timeout of the browser
    shows), or the response is not ok. *)
Inductive failed_attempt (r : N) : list event → Prop :=
| failed_network pre :
    quiet pre → failed_attempt r (Submit :: pre ++ [FetchReject r])
| failed_rejected pre :
    quiet pre → failed_attempt r (Submit :: pre ++ [FetchResolve r false]).

End Phase2.

(** ** Scroll reveal *)

Module Revealed.

(** How often [el] received [classList.add('active')]. *)
Definition activations (el : nat) (log : list nat) : nat :=
  length (filter (λ x, x = el) log).

(** First revision: no element was activated twice, no element is
    observed twice, and no activated element is still observed. *)
Definition tidy1 (p : V1.Reveal.page) : Prop :=
  NoDup (V1.Reveal.activated p) ∧
  NoDup ((V1.Reveal.revealObserver p).*1) ∧
  ∀ el, el ∈ V1.Reveal.activated p → el ∉ ((V1.Reveal.revealObserver p).*1).

(** Second revision: the same, counting the elements whose activation is
    scheduled. *)
Definition scheduled (p : V2.Reveal.page) : list nat :=
  Timers.act <$> Timers.pending (V2.Reveal.timers p).

Definition tidy2 (p : V2.Reveal.page) : Prop :=
  NoDup (V2.Reveal.activated p) ∧
  NoDup ((V2.Reveal.revealObserver p).*1) ∧
  NoDup (scheduled p) ∧
  (∀ el, el ∈ V2.Reveal.activated p →
     (el ∉ (V2.Reveal.revealObserver p).*1) ∧ (el ∉ scheduled p)) ∧
  (∀ el, el ∈ scheduled p → el ∉ ((V2.Reveal.revealObserver p).*1)).

End Revealed.

(** What the scroll reveal owes to the viewport. *)
Module Seen.

(** [el] met the observer's threshold in one of the rendering updates. *)
Definition seen (el : nat) (frames : list (list nat)) : Prop :=
  Exists (λ visible, el ∈ visible) frames.

(** First revision, after the rendering updates [frames] of a page whose
    elements [els] are observed and had the classes [classes0]: the
    activated elements are the observed ones that were seen, the others
    are still observed and were last reported as not intersecting (or not
    at all), and an element has gained [active] exactly if it was
    activated. *)
Definition faithful1 (els : list nat) (classes0 : gmap nat ClassList.t)
    (frames : list (list nat)) (p : V1.Reveal.page) : Prop :=
  (∀ el, el ∈ V1.Reveal.activated p ↔ el ∈ els ∧ seen el frames) ∧
  (∀ el, el ∈ (V1.Reveal.revealObserver p).*1 ↔ el ∈ els ∧ ¬ seen el frames) ∧
  (∀ t, t ∈ V1.Reveal.revealObserver p → t.2 ≠ Some true) ∧
  (∀ el, V1.Reveal.classList el p =
         if decide (el ∈ V1.Reveal.activated p)
         then ClassList.add "active" (default ∅ (classes0 !! el))
         else default ∅ (classes0 !! el)).

End Seen.

(** The staggered activations of the second revision. *)
Module Stagger.

(** The timers one batch sets, numbered from [id]: the [i]-th element
    that appears is due [i * 150] ms after [now]. *)
Fixpoint staggered (id now : N) (i : nat) (els : list nat) : list (Timers.timer nat) :=
  match els with
  | [] => []
  | el :: els' =>
      Timers.Timer id (now + N.of_nat i * 150) el :: staggered (id + 1) now (S i) els'
  end.

(** Deadlines never decrease along the list. *)
Fixpoint ascending {A} (l : list (Timers.timer A)) : Prop :=
  match l with
  | [] => True
  | t :: l' => Forall (λ u, Timers.due t ≤ Timers.due u) l' ∧ ascending l'
  end.

End Stagger.

(** ** Mobile menu and scroll lock, second revision *)

Module Locked.
Import V2.Nav.

(** The page is scroll-locked only while the menu is open, and only a
    page that has the menu toggle gets locked. *)
Definition lock_follows_menu (p : page) : Prop :=
  scroll_locked p = true → menu_open p = true ∧ menuToggle p ≠ None.

(** Both elements of the menu exist and the toggle has its listener. *)
Definition menu_installed (p : page) : Prop :=
  ∃ t n, menuToggle p = Some t ∧ listening t = true ∧ nav p = Some n.

End Locked.

(** ** Protocol selection, second revision *)

Module Selected.
Import V2.Selection.





(** The active list selectors are those whose [data-value] is what the
    field reads. *)
Definition in_step (p : page) : Prop :=
  ∃ v, value <$> programSelect p = Some v ∧
       Forall (λ it, "active" ∈ iclass it ↔ item_value it = Some v) (selectorItems p).






End Selected.

(** ** Sample pages *)

Module Sample.

Definition fields : list Dom.field :=
  [Dom.Field "name" "Ana" ""; Dom.Field "email" "ana@example.org" "";
   Dom.Field "program" "elite" "basic"].

(** A contact form of the first revision with its button idle. *)
Definition form1 : V1.Contact.form :=
  V1.Contact.Form "https://formspree.io/f/demo" fields
    (Some (V1.Contact.Button "Start Protocol" false "")) [] "".

Definition page1 : V1.Contact.world := V1.Contact.load (Some form1).

(** The same for the second revision, the label in a [.btn-text] span. *)
Definition form2 : V2.Contact.form :=
  V2.Contact.Form "https://formspree.io/f/demo" fields
    (Some (V2.Contact.Button true "Send Inquiry" false)) [].

Definition page2 : V2.Contact.world := V2.Contact.load (Some form2) "".

(** First revision: one card, the [#program] field, but no [#contact]. *)
Definition cards1 : V1.Selection.page :=
  V1.Selection.Page [V1.Selection.Card (Some "elite") "" false]
    (Some (V1.Selection.Select "" ∅ [""; "basic"; "pro"; "elite"]))
    None (Some ∅) 0%Z [] Timers.empty.


(** Second revision: header, navigation and toggle, menu closed. *)
Definition nav2 : V2.Nav.page :=
  V2.Nav.Page (Some ∅) (Some (V2.Nav.Toggle ∅ None false)) "" (Some 72%Z) 0%Z [].

End Sample.

(** ** Highlights of the protocol selection *)

Module Highlight1.
Import Timers V1.Selection.

Definition form_highlit (p : page) : Prop :=
  ∃ c, contact_form p = Some c ∧ "selection-highlight" ∈ c.

Definition field_highlit (p : page) : Prop :=
  ∃ s, programSelect p = Some s ∧ "field-highlight" ∈ sclass s.

(** Every highlight is backed by a pending timer that takes it away, and
    every pending timer is due within [d] milliseconds. *)
Definition backed (d : N) (p : page) : Prop :=
  fresh_ids (timers p) ∧
  Forall (λ t, due t ≤ now (timers p) + d) (pending (timers p)) ∧
  (form_highlit p → ∃ t, t ∈ pending (timers p) ∧ act t = UnhighlightForm) ∧
  (field_highlit p → ∃ t, t ∈ pending (timers p) ∧ act t = UnhighlightField).

End Highlight1.

Module Highlight2.
Import Timers V2.Selection.

Definition form_highlit (p : page) : Prop :=
  ∃ c, contact_form p = Some c ∧ "selection-highlight" ∈ c.

Definition backed (d : N) (p : page) : Prop :=
  fresh_ids (timers p) ∧
  Forall (λ t, due t ≤ now (timers p) + d) (pending (timers p)) ∧
  (form_highlit p → ∃ t, t ∈ pending (timers p) ∧ act t = UnhighlightForm).

End Highlight2.

(** ** The menu toggle and the menu *)

Module Synced.

(** First revision: both elements exist and the toggle carries [open]
    exactly if the menu carries [active]. *)
Definition in_sync1 (p : V1.Nav.page) : Prop :=
  ∃ t n, V1.Nav.menuToggle p = Some t ∧ V1.Nav.nav p = Some n ∧
    ("open" ∈ V1.Nav.tclass t ↔ "active" ∈ n).

(** Second revision: the same, and [aria-expanded] says whether the menu
    is open. *)
Definition in_sync2 (p : V2.Nav.page) : Prop :=
  ∃ t n, V2.Nav.menuToggle p = Some t ∧ V2.Nav.nav p = Some n ∧
    ("open" ∈ V2.Nav.tclass t ↔ "active" ∈ n) ∧
    V2.Nav.aria_expanded t =
      Some (if ClassList.contains "active" n then "true" else "false").

Definition menu_installed1 (p : V1.Nav.page) : Prop :=
  ∃ t n, V1.Nav.menuToggle p = Some t ∧ V1.Nav.listening t = true ∧
         V1.Nav.nav p = Some n.

(** An open menu has its toggle. *)
Definition toggle_at_hand1 (p : V1.Nav.page) : Prop :=
  V1.Nav.menu_open p = true → V1.Nav.menuToggle p ≠ None.

Definition toggle_at_hand2 (p : V2.Nav.page) : Prop :=
  V2.Nav.menu_open p = true → V2.Nav.menuToggle p ≠ None.

End Synced.

(** ** The label a submission will give back *)

Module Labelled.

(** First revision: the page is in one of its four phases, and [L] is the
    label of the button when it is enabled, the label the request in flight
    remembers, and the label the pending restore will write. *)
Definition labelled1 (L : string) (w : V1.Contact.world) : Prop :=
  (Phase1.idle w ∧
   ∀ b, V1.Contact.button_of w = Some b → V1.Contact.disabled b = false →
        V1.Contact.innerText b = L) ∨
  (∃ r D b, Phase1.in_flight r D b w ∧ V1.Contact.originalText r = L) ∨
  (∃ r b, Phase1.parsing r b w ∧ V1.Contact.originalText r = L) ∨
  (∃ D b, Phase1.reverting L D b w).

Definition labelled2 (L : string) (w : V2.Contact.world) : Prop :=
  (Phase2.idle w ∧
   ∀ b, V2.Contact.button_of w = Some b → V2.Contact.disabled b = false →
        V2.Contact.label b = L) ∨
  (∃ r b, Phase2.in_flight r b w ∧ V2.Contact.originalText r = L) ∨
  (∃ D b, Phase2.reverting L D b w).

End Labelled.

(** ** Histories of the contact form *)

Module History1.
Import V1.Contact.

(** An ok response. *)
Definition is_success (e : event) : bool :=
  match e with FetchResolve _ true => true | _ => false end.

(** The user typing. *)
Definition is_input (e : event) : bool :=
  match e with Input _ _ => true | _ => false end.

End History1.

Module History2.
Import V2.Contact.

Definition is_success (e : event) : bool :=
  match e with FetchResolve _ true => true | _ => false end.

Definition is_input (e : event) : bool :=
  match e with Input _ _ => true | _ => false end.

Definition is_submit (e : event) : bool :=
  match e with Submit => true | _ => false end.

(** How often the user asked for submission. *)
Definition submissions (es : list event) : nat :=
  length (filter (λ e, is_submit e = true) es).

End History2.

(** ** More sample pages *)

Module Pages.

(** First revision: a card, the [#program] field, the [#contact] section
    640 px below the top of the viewport and the [.contact-form]. *)
Definition selection1 : V1.Selection.page :=
  V1.Selection.Page [V1.Selection.Card (Some "elite") "" false]
    (Some (V1.Selection.Select "" ∅ [""; "basic"; "pro"; "elite"]))
    (Some 640%Z) (Some ∅) 100%Z [] Timers.empty.

(** Second revision: a card and a list selector for "elite", the field,
    the section, a header 72 px high and the form. *)
Definition selection2 : V2.Selection.page :=
  V2.Selection.Page [V2.Selection.Card (Some "elite") "" false]
    [V2.Selection.Item (Some "basic") {[ "active" ]} false;
     V2.Selection.Item (Some "elite") ∅ false]
    (Some (V2.Selection.Select "basic" ["basic"; "elite"]))
    (Some 640%Z) (Some 72%Z) (Some ∅) 100%Z [] Timers.empty false.

(** Contact forms whose submit button is missing. *)
Definition buttonless1 : V1.Contact.form :=
  V1.Contact.Form "https://formspree.io/f/demo" Sample.fields None [] "".

Definition buttonless2 : V2.Contact.form :=
  V2.Contact.Form "https://formspree.io/f/demo" Sample.fields None [].

(** First revision: navigation and toggle, menu closed. *)
Definition nav1 : V1.Nav.page :=
  V1.Nav.Page (Some ∅) (Some (V1.Nav.Toggle ∅ false)) [].

(** Second revision: a page that shows its preloader. *)
Definition loading2 : V2.Preloader.page :=
  V2.Preloader.Page (Some {[ "preloader" ]}) true false Timers.empty.

End Pages.

(** * Timers *)

Section TimerFacts.
Context {A : Type}.
Implicit Types (q : Timers.queue A) (t u : Timers.timer A) (l : list (Timers.timer A)).
Import Timers.

Lemma insert_due_perm t l : insert_due t l ≡ₚ t :: l.
Proof.
  induction l as [|u l IH]; simpl; [done|].
  case_bool_decide; [done|].
  rewrite IH. apply Permutation_swap.
Qed.

Lemma by_due_perm l : by_due l ≡ₚ l.
Proof.
  unfold by_due.
  enough (∀ acc, fold_left (λ acc t, insert_due t acc) l acc ≡ₚ acc ++ l) as H
    by apply (H []).
  induction l as [|t l IH]; intros acc; simpl.
  - by rewrite app_nil_r.
  - rewrite IH, insert_due_perm. simpl. apply Permutation_middle.
Qed.

Lemma elem_of_due_now t q :
  t ∈ due_now q ↔ t ∈ pending q ∧ due t ≤ now q.
Proof.
  unfold due_now. rewrite by_due_perm, list_elem_of_filter. tauto.
Qed.

Lemma fresh_ids_setTimeout a d q :
  fresh_ids q → fresh_ids (setTimeout a d q).2.
Proof.
  intros [Hnd Hlt]. split; simpl.
  - rewrite map_app. simpl. apply NoDup_app. split; [done|]. split.
    + intros x Hx Hx'. apply list_elem_of_singleton in Hx'. subst x.
      apply list_elem_of_fmap in Hx as (t & Ht & Hin).
      rewrite Forall_forall in Hlt. specialize (Hlt _ Hin). lia.
    + apply NoDup_singleton.
  - apply Forall_app. split.
    + eapply Forall_impl; [exact Hlt|]. simpl. intros. lia.
    + apply Forall_singleton. simpl. lia.
Qed.

Lemma fresh_ids_clearTimeout id q :
  fresh_ids q → fresh_ids (clearTimeout id q).
Proof.
  intros [Hnd Hlt]. split; simpl.
  - clear Hlt. induction (pending q) as [|t l IH]; simpl; [constructor|].
    apply NoDup_cons in Hnd as [Hn Hnd].
    rewrite filter_cons. case_decide; [|by apply IH].
    simpl. apply NoDup_cons. split; [|by apply IH].
    intros Hin. apply Hn. apply list_elem_of_fmap in Hin as (u & -> & Hu).
    apply list_elem_of_filter in Hu as [_ Hu]. apply list_elem_of_fmap. eauto.
  - apply Forall_forall. intros t Ht. apply list_elem_of_filter in Ht as [_ Ht].
    rewrite Forall_forall in Hlt. by apply Hlt.
Qed.

Lemma fresh_ids_advance q : fresh_ids q → fresh_ids (advance q).
Proof. done. Qed.

(** With fresh handles, a handle names one timer. *)
Lemma fresh_ids_inj q t u :
  fresh_ids q → t ∈ pending q → u ∈ pending q → tid t = tid u → t = u.
Proof.
  intros [Hnd _] Ht Hu Heq.
  apply list_elem_of_lookup in Ht as [i Hi], Hu as [j Hj].
  assert (i = j) as ->.
  { eapply NoDup_lookup; [exact Hnd| |]; rewrite list_lookup_fmap.
    - by rewrite Hi.
    - rewrite Hj. simpl. by rewrite Heq. }
  congruence.
Qed.

Lemma find_tid_Some id l t :
  List.find (λ t, bool_decide (tid t = id)) l = Some t → t ∈ l ∧ tid t = id.
Proof.
  intros H. apply find_some in H as [Hin Hb].
  apply bool_decide_eq_true in Hb. split; [|done]. by apply list_elem_of_In.
Qed.

Lemma find_tid_None id l :
  List.find (λ t, bool_decide (tid t = id)) l = None → id ∉ fmap tid l.
Proof.
  intros H Hin. apply list_elem_of_fmap in Hin as (t & -> & Ht).
  apply list_elem_of_In in Ht.
  pose proof (find_none _ _ H _ Ht) as Hb. simpl in Hb.
  by apply bool_decide_eq_false in Hb.
Qed.

Lemma elem_of_clearTimeout t id q :
  t ∈ pending (clearTimeout id q) ↔ t ∈ pending q ∧ tid t ≠ id.
Proof. simpl. rewrite list_elem_of_filter. tauto. Qed.

Lemma elem_of_setTimeout t a d q :
  t ∈ pending (setTimeout a d q).2 ↔
  t ∈ pending q ∨ t = Timer (next_id q) (now q + d) a.
Proof. simpl. rewrite elem_of_app, list_elem_of_singleton. tauto. Qed.

(** ** Kept and background timers *)

Section Kept.
Variable bg : timer A → Prop.
Implicit Types keep : list (timer A).

Lemma kept_weaken (bg' : timer A → Prop) keep q :
  (∀ t, bg t → bg' t) → kept bg keep q → kept bg' keep q.
Proof.
  intros Hbg (Hf & Hall & Hk). split_and!; [done| |done].
  eapply Forall_impl; [exact Hall|]. intros t [?|?]; [by left|right; by apply Hbg].
Qed.

Lemma kept_clear_other keep q id :
  kept bg keep q → id ∉ tid <$> keep → kept bg keep (clearTimeout id q).
Proof.
  intros (Hf & Hall & Hk) Hid. split_and!.
  - by apply fresh_ids_clearTimeout.
  - apply Forall_forall. intros t Ht. apply elem_of_clearTimeout in Ht as [Ht _].
    rewrite Forall_forall in Hall. by apply Hall.
  - apply Forall_forall. intros t Ht. apply elem_of_clearTimeout. split.
    + rewrite Forall_forall in Hk. by apply Hk.
    + intros <-. apply Hid. apply list_elem_of_fmap. eauto.
Qed.

Lemma kept_clear_keep t q :
  kept bg [t] q → kept bg [] (clearTimeout (tid t) q).
Proof.
  intros (Hf & Hall & Hk). split_and!.
  - by apply fresh_ids_clearTimeout.
  - apply Forall_forall. intros u Hu. apply elem_of_clearTimeout in Hu as [Hu Hne].
    rewrite Forall_forall in Hall. destruct (Hall _ Hu) as [Hin|Ha]; [|by right].
    apply list_elem_of_singleton in Hin. by subst u.
  - constructor.
Qed.

Lemma kept_set_keep a d q :
  kept bg [] q → kept bg [Timer (next_id q) (now q + d) a] (setTimeout a d q).2.
Proof.
  intros (Hf & Hall & _). split_and!.
  - by apply fresh_ids_setTimeout.
  - apply Forall_forall. intros u Hu. apply elem_of_setTimeout in Hu as [Hu| ->].
    + rewrite Forall_forall in Hall. destruct (Hall _ Hu) as [Hin|Ha]; [|by right].
      by apply elem_of_nil in Hin.
    + left. by apply list_elem_of_singleton.
  - apply Forall_singleton. apply elem_of_setTimeout. by right.
Qed.

Lemma kept_set_background keep a d q :
  kept bg keep q → bg (Timer (next_id q) (now q + d) a) →
  kept bg keep (setTimeout a d q).2.
Proof.
  intros (Hf & Hall & Hk) Ha. split_and!.
  - by apply fresh_ids_setTimeout.
  - apply Forall_forall. intros u Hu. apply elem_of_setTimeout in Hu as [Hu| ->].
    + rewrite Forall_forall in Hall. by apply Hall.
    + by right.
  - eapply Forall_impl; [exact Hk|]. intros u Hu. apply elem_of_setTimeout. by left.
Qed.

(** A kept timer may be counted among a wider background. *)
Lemma kept_absorb (bg' : timer A → Prop) t q :
  kept bg [t] q → bg' t → (∀ u, bg u → bg' u) → kept bg' [] q.
Proof.
  intros (Hf & Hall & _) Ht Hbg. split_and!; [done| |constructor].
  eapply Forall_impl; [exact Hall|]. intros u [Hu|Hu].
  - apply list_elem_of_singleton in Hu as ->. by right.
  - right. by apply Hbg.
Qed.

Lemma kept_pending t q : kept bg [t] q → t ∈ pending q.
Proof. intros (_ & _ & Hk). by apply Forall_inv in Hk. Qed.

(** A clearing that names no pending timer changes nothing. *)
Lemma clearTimeout_absent id q :
  id ∉ tid <$> pending q → clearTimeout id q = q.
Proof.
  intros Hid. destruct q as [c n l]. unfold clearTimeout. simpl in *. f_equal.
  induction l as [|t l IH]; [done|].
  rewrite filter_cons. case_decide as Ht.
  - f_equal. apply IH. intros Hin. apply Hid. rewrite fmap_cons, elem_of_cons. by right.
  - exfalso. apply Hid. rewrite fmap_cons, elem_of_cons. by left.
Qed.

End Kept.

End TimerFacts.

(** A round of the event loop, seen through an invariant. *)
Section LoopFacts.
Context {W A : Type}.
Variable get : W → Timers.queue A.
Variable put : Timers.queue A → W → W.
Variable run : A → W → W.
Local Abbreviation fire := (Timers.fire get put run).

Lemma fold_fire_inv (P : W → Prop) (ids : list N) (w : W) :
  P w →
  (∀ w id, id ∈ ids → P w → P (fire w id)) →
  P (fold_left fire ids w).
Proof.
  revert w. induction ids as [|id ids IH]; intros w Hw Hstep; simpl; [done|].
  apply IH.
  - apply Hstep; [left|done].
  - intros w' id' Hin. apply Hstep. by right.
Qed.

(** One of the due timers, [s], moves the world from [P] to [Q]; the
    others preserve both. *)
Lemma fold_fire_switch (P Q : W → Prop) (s : N) (ids : list N) (w : W) :
  s ∈ ids → P w →
  (∀ w id, id ∈ ids → id ≠ s → P w → P (fire w id)) →
  (∀ w, P w → Q (fire w s)) →
  (∀ w id, id ∈ ids → Q w → Q (fire w id)) →
  Q (fold_left fire ids w).
Proof.
  revert w. induction ids as [|id ids IH]; intros w Hs Hw HP HPQ HQ; simpl.
  - by apply elem_of_nil in Hs.
  - destruct (decide (id = s)) as [->|Hne].
    + apply fold_fire_inv; [by apply HPQ|].
      intros w' id' Hin. apply HQ. by right.
    + apply IH.
      * apply elem_of_cons in Hs as [->|Hs]; [done|exact Hs].
      * apply HP; [left|done|done].
      * intros w' id' Hin. apply HP. by right.
      * exact HPQ.
      * intros w' id' Hin. apply HQ. by right.
Qed.

End LoopFacts.

(** Rounds of the event loop in which background timers fire, relating the
    world before and after by [B]. *)
Section LoopKept.
Context {W A : Type}.
Variable get : W → Timers.queue A.
Variable put : Timers.queue A → W → W.
Variable run : A → W → W.
Variable bg : Timers.timer A → Prop.
Variable B : W → W → Prop.
Hypothesis get_put : ∀ q w, get (put q w) = q.
Hypothesis B_refl : ∀ w, B w w.
Hypothesis B_trans : ∀ w1 w2 w3, B w1 w2 → B w2 w3 → B w1 w3.
Hypothesis run_bg : ∀ keep w t,
  kept bg keep (get w) → t ∈ Timers.pending (get w) → bg t →
  Timers.tid t ∉ Timers.tid <$> keep →
  let w' := run (Timers.act t) (put (Timers.clearTimeout (Timers.tid t) (get w)) w) in
  kept bg keep (get w') ∧ B w w'.
Import Timers.
Local Abbreviation fire := (Timers.fire get put run).
Local Abbreviation tick := (Timers.tick get put run).

Lemma fire_bg keep w id :
  kept bg keep (get w) → id ∉ tid <$> keep →
  kept bg keep (get (fire w id)) ∧ B w (fire w id).
Proof.
  intros Hs Hid. unfold Timers.fire.
  destruct (List.find _ _) as [t|] eqn:Hfind; [|by split].
  apply find_tid_Some in Hfind as [Hin <-].
  pose proof Hs as (_ & Hall & _). rewrite Forall_forall in Hall.
  destruct (Hall _ Hin) as [Hk|Hbg].
  { exfalso. apply Hid. apply list_elem_of_fmap. eauto. }
  by apply run_bg.
Qed.

(** A millisecond in which none of [keep] comes due. *)
Lemma tick_bg keep w :
  kept bg keep (get w) → Forall (λ t, now (get w) + 1 < due t) keep →
  kept bg keep (get (tick w)) ∧ B (put (advance (get w)) w) (tick w).
Proof.
  intros Hs Hdue. unfold Timers.tick.
  set (w0 := put (advance (get w)) w).
  assert (kept bg keep (get w0)) as Hs0 by (unfold w0; by rewrite get_put).
  assert (∀ id, id ∈ tid <$> due_now (get w0) → id ∉ tid <$> keep) as Hids.
  { intros id Hid Hk.
    apply list_elem_of_fmap in Hid as (t & -> & Ht).
    apply elem_of_due_now in Ht as [Ht Hle].
    apply list_elem_of_fmap in Hk as (k & Heq & Hk).
    destruct Hs0 as (Hf & _ & Hkeep). rewrite Forall_forall in Hkeep, Hdue.
    assert (t = k) as -> by (eapply fresh_ids_inj; eauto).
    specialize (Hdue _ Hk). unfold w0 in Hle. rewrite get_put in Hle. simpl in Hle. lia. }
  apply (fold_fire_inv get put run (λ w', kept bg keep (get w') ∧ B w0 w')).
  - by split.
  - intros w' id Hid [Hs' Hb'].
    destruct (fire_bg keep w' id Hs' (Hids _ Hid)) as [? ?].
    split; [done|]. by eapply B_trans.
Qed.

(** The millisecond in which the kept timer [s] fires, leaving [keep']
    kept and [F] established. *)
Lemma tick_kept_fires s keep' w (F : W → Prop) :
  kept bg [s] (get w) → due s = now (get w) + 1 →
  (∀ t, t ∈ keep' → next_id (get w) ≤ tid t) →
  (∀ w1, kept bg [s] (get w1) → B (put (advance (get w)) w) w1 →
     let w2 := run (act s) (put (clearTimeout (tid s) (get w1)) w1) in
     kept bg keep' (get w2) ∧ F w2) →
  (∀ w2 w3, F w2 → B w2 w3 → F w3) →
  kept bg keep' (get (tick w)) ∧ F (tick w).
Proof.
  intros Hs Hdue Hnew Hfire Hclosed. unfold Timers.tick.
  set (w0 := put (advance (get w)) w).
  assert (kept bg [s] (get w0)) as Hs0 by (unfold w0; by rewrite get_put).
  assert (s ∈ pending (get w0)) as Hin by (by eapply kept_pending).
  assert (∀ id, id ∈ tid <$> due_now (get w0) → id < next_id (get w)) as Hold.
  { intros id Hid. apply list_elem_of_fmap in Hid as (t & -> & Ht).
    apply elem_of_due_now in Ht as [Ht _].
    destruct Hs0 as ((_ & Hlt) & _ & _). rewrite Forall_forall in Hlt.
    specialize (Hlt _ Ht). unfold w0 in Hlt. by rewrite get_put in Hlt. }
  apply (fold_fire_switch get put run
           (λ w1, kept bg [s] (get w1) ∧ B w0 w1)
           (λ w2, kept bg keep' (get w2) ∧ F w2) (tid s)).
  - apply list_elem_of_fmap. exists s. split; [done|].
    apply elem_of_due_now. split; [done|]. unfold w0. rewrite get_put. simpl. lia.
  - by split.
  - intros w1 id Hid Hne [Hs1 Hb1].
    destruct (fire_bg [s] w1 id Hs1) as [? ?].
    { rewrite fmap_cons, fmap_nil. by intros ->%list_elem_of_singleton. }
    split; [done|]. by eapply B_trans.
  - intros w1 [Hs1 Hb1]. unfold Timers.fire.
    destruct (List.find _ _) as [t|] eqn:Hfind.
    + apply find_tid_Some in Hfind as [Ht Heq].
      pose proof (kept_pending _ _ _ Hs1) as Hk1.
      assert (t = s) as -> by (eapply fresh_ids_inj; eauto; apply Hs1).
      by apply Hfire.
    + apply find_tid_None in Hfind. exfalso. apply Hfind.
      pose proof (kept_pending _ _ _ Hs1) as Hk1.
      apply list_elem_of_fmap. eauto.
  - intros w2 id Hid [Hs2 HF].
    destruct (fire_bg keep' w2 id Hs2) as [? ?].
    { intros Hk. apply list_elem_of_fmap in Hk as (t & -> & Ht).
      specialize (Hnew _ Ht). specialize (Hold _ Hid). lia. }
    split; [done|]. by eapply Hclosed.
Qed.

End LoopKept.

(** * Contact form, first revision *)

Section Contact1.
Import Js Dom Timers V1.Contact Phase1.
Implicit Types (w : world) (q : queue callback) (t : timer callback)
  (keep : list (timer callback)) (r : request) (b : button) (e : event).

(** Unfolds the record plumbing of the model. *)
Ltac plumb :=
  unfold on_catch, on_response, on_submit, cancel, drop_request, schedule,
    showSuccessMessage, with_timers, with_form, with_inflight, with_button,
    with_fields, with_overlays, button_of, clock, overlays_of, fields_of,
    settled in *;
  simpl in *.

(** ** The queue under [setTimeout] and [clearTimeout] *)

Lemma settled_q_mono keep n m q :
  n ≤ m → settled_q keep n q → settled_q keep m q.
Proof.
  intros Hnm. apply kept_weaken. intros t (o & ? & ?). exists o. split; [done|lia].
Qed.

Lemma settled_q_clear_other keep n q id :
  settled_q keep n q → id ∉ tid <$> keep →
  settled_q keep n (clearTimeout id q).
Proof. apply kept_clear_other. Qed.

Lemma settled_q_clear_keep t n q :
  settled_q [t] n q → settled_q [] n (clearTimeout (tid t) q).
Proof. apply kept_clear_keep. Qed.

Lemma settled_q_set_keep c d n q :
  settled_q [] n q →
  settled_q [Timer (next_id q) (now q + d) c] n (setTimeout c d q).2.
Proof. apply kept_set_keep. Qed.

(** ** Background activations *)

Lemma activate_below n (l : list overlay) o :
  Forall (λ ov, n ≤ oid ov) l → o < n → activate o <$> l = l.
Proof.
  intros Hl Ho. induction Hl as [|ov l Hov _ IH]; [done|].
  rewrite fmap_cons, IH. f_equal. unfold activate.
  case_bool_decide; [lia|done].
Qed.

Lemma rest_with_overlays g q w :
  rest (with_form (with_overlays g) (with_timers q w)) = rest w.
Proof. destruct w as [? [[]|] ? ? ? ?]; reflexivity. Qed.

Lemma overlays_with_overlays g q w :
  overlays_of (with_form (with_overlays g) (with_timers q w)) = g (overlays_of w) ∨
  contactForm w = None.
Proof. destruct w as [? [[]|] ? ? ? ?]; [left|right]; reflexivity. Qed.

Lemma background_refl n w : background n w w.
Proof. by split_and!. Qed.

Lemma background_trans n w1 w2 w3 :
  background n w1 w2 → background n w2 w3 → background n w1 w3.
Proof.
  intros (Hc & Hi & Hr & Hn & Ho) (Hc' & Hi' & Hr' & Hn' & Ho'). split_and!; [congruence..|].
  intros H. rewrite Ho'; [by apply Ho|]. by rewrite Ho.
Qed.

Lemma run_background keep n w t :
  settled keep n w → t ∈ pending (timers w) → activation n t →
  tid t ∉ tid <$> keep →
  let w' := run_callback (act t) (with_timers (clearTimeout (tid t) (timers w)) w) in
  settled keep n w' ∧ background n w w'.
Proof.
  intros Hs Hin (o & Ho & Hlt) Hid. rewrite Ho. simpl. split.
  - unfold settled in *. destruct w as [? [[]|] ? ? ? ?]; simpl in *;
      by apply (settled_q_clear_other keep n).
  - split_and!.
    + by destruct w as [? [[]|] ? ? ? ?].
    + by destruct w as [? [[]|] ? ? ? ?].
    + apply rest_with_overlays.
    + by destruct w as [? [[]|] ? ? ? ?].
    + intros Hov. destruct (overlays_with_overlays (fmap (activate o))
        (clearTimeout (tid t) (timers w)) w) as [->|Hnone].
      * by apply (activate_below n).
      * by destruct w as [? [[]|] ? ? ? ?].
Qed.

Lemma timers_with_timers q w : timers (with_timers q w) = q.
Proof. done. Qed.

(** A millisecond in which none of [keep] comes due. *)
Lemma tick_background keep n w :
  settled keep n w → Forall (λ t, clock w + 1 < due t) keep →
  let w' := step w Tick in
  settled keep n w' ∧ clock w' = clock w + 1 ∧
  next_id (timers w') = next_id (timers w) ∧ rest w' = rest w ∧
  next_oid w' = next_oid w ∧
  (Forall (λ ov, n ≤ oid ov) (overlays_of w) → overlays_of w' = overlays_of w).
Proof.
  intros Hs Hdue.
  destruct (tick_bg timers with_timers run_callback (activation n) (background n)
              timers_with_timers (background_refl n) (background_trans n)
              (λ keep, run_background keep n) keep w Hs Hdue)
    as [H1 (Hc & Hi & Hr & Hn & Ho)].
  cbv zeta. change (step w Tick) with (tick timers with_timers run_callback w).
  split_and!; [done|by rewrite Hc; destruct w|by rewrite Hi; destruct w
              |by rewrite Hr; destruct w as [? [[]|] ? ? ? ?]
              |by rewrite Hn; destruct w|].
  intros Hov. rewrite Ho; by destruct w as [? [[]|] ? ? ? ?].
Qed.

(** ** Passive events while the button is disabled *)

Lemma button_of_rest w : button_of (rest w) = button_of w.
Proof. by destruct w as [? [[]|] ? ? ? ?]. Qed.

Lemma inflight_rest w : inflight (rest w) = inflight w.
Proof. by destruct w as [? [[]|] ? ? ? ?]. Qed.

Lemma console_rest w : console (rest w) = console w.
Proof. by destruct w as [? [[]|] ? ? ? ?]. Qed.

Lemma fields_of_rest w : fields_of (rest w) = fields_of w.
Proof. by destruct w as [? [[]|] ? ? ? ?]. Qed.

Lemma elapsed_cons e es :
  elapsed (e :: es) = (if is_tick e then 1 else 0) + elapsed es.
Proof.
  unfold elapsed. rewrite filter_cons. destruct (is_tick e); simpl; lia.
Qed.

Lemma elapsed_app es es' : elapsed (es ++ es') = elapsed es + elapsed es'.
Proof.
  induction es as [|e es IH]; simpl; [done|].
  rewrite !elapsed_cons, IH. lia.
Qed.

Lemma run_app w es es' : run w (es ++ es') = run (run w es) es'.
Proof. apply fold_left_app. Qed.

Lemma passive_locked keep n w e b :
  settled keep n w → button_of w = Some b → disabled b = true →
  passive e = true →
  Forall (λ t, clock w + (if is_tick e then 1 else 0) < due t) keep →
  let w' := step w e in
  settled keep n w' ∧ clock w' = clock w + (if is_tick e then 1 else 0) ∧
  button_of w' = Some b ∧ inflight w' = inflight w ∧
  next_oid w' = next_oid w ∧ console w' = console w ∧
  (overlays_of w = [] → overlays_of w' = []).
Proof.
  intros Hs Hb Hd He Hdue. destruct e; try discriminate He.
  - (* Submit: the browser does not deliver it *)
    simpl. destruct w as [? [[? ? [b'|] ? ?]|] ? ? ? ?]; try discriminate Hb.
    simpl in *. injection Hb as ->. unfold submittable. simpl. rewrite Hd. simpl.
    split_and!; try done. unfold clock. simpl. lia.
  - simpl. destruct w as [? [[]|] ? ? ? ?]; simpl in *;
      split_and!; try done; unfold clock; simpl; lia.
  - simpl. destruct w as [? [[]|] ? ? ? ?]; simpl in *;
      split_and!; try done; try (unfold clock; simpl; lia).
    unfold overlays_of. simpl. by intros ->.
  - destruct (tick_background keep n w Hs Hdue) as (Hs' & Hc & _ & Hr & Hn & Ho).
    split_and!; try done.
    + rewrite <- button_of_rest, Hr, button_of_rest. done.
    + rewrite <- inflight_rest, Hr, inflight_rest. done.
    + rewrite <- console_rest, Hr, console_rest. done.
    + intros Hnil. rewrite Ho; [done|]. rewrite Hnil. constructor.
Qed.

Lemma run_locked keep n es w b :
  settled keep n w → button_of w = Some b → disabled b = true →
  Forall (λ e, passive e = true) es →
  Forall (λ t, clock w + elapsed es < due t) keep →
  let w' := run w es in
  settled keep n w' ∧ clock w' = clock w + elapsed es ∧
  button_of w' = Some b ∧ inflight w' = inflight w ∧
  next_oid w' = next_oid w ∧ console w' = console w ∧
  (overlays_of w = [] → overlays_of w' = []).
Proof.
  revert w. induction es as [|e es IH]; intros w Hs Hb Hd Hes Hdue; simpl.
  - split_and!; try done. unfold elapsed. simpl. lia.
  - apply Forall_cons in Hes as [He Hes].
    rewrite elapsed_cons in Hdue.
    destruct (passive_locked keep n w e b Hs Hb Hd He) as (Hs1 & Hc1 & Hb1 & Hi1 & Hn1 & Hk1 & Ho1).
    { eapply Forall_impl; [exact Hdue|]. simpl. intros. lia. }
    destruct (IH (step w e) Hs1 Hb1 Hd Hes) as (Hs2 & Hc2 & Hb2 & Hi2 & Hn2 & Hk2 & Ho2).
    { eapply Forall_impl; [exact Hdue|]. simpl. intros. rewrite Hc1. lia. }
    fold (run (step w e) es).
    split_and!; try done; try congruence.
    + rewrite Hc2, Hc1, elapsed_cons. lia.
    + intros. apply Ho2. by apply Ho1.
Qed.

(** ** The transitions of one attempt *)

Lemma submit_starts w b :
  idle w → button_of w = Some b → disabled b = false →
  let w' := step w Submit in
  ∃ r, rid r = next_rid w ∧ originalText r = innerText b ∧
    in_flight r (clock w + 10000) (Button "Initializing Protocol..." true "0.7") w' ∧
    clock w' = clock w ∧ next_oid w' = next_oid w ∧
    overlays_of w' = overlays_of w ∧ console w' = console w.
Proof.
  intros [Hi [Hs _]] Hb Hd.
  destruct w as [q [[a fs [b'|] ovs pos]|] rs nr no cs]; try discriminate Hb.
  simpl in *. injection Hb as ->. subst rs.
  unfold submittable. simpl. rewrite Hd. simpl.
  exists (Request nr (innerText b) (next_id q) AwaitFetch
            (Post a (formData fs) "application/json")).
  split_and!; try reflexivity.
  split_and!; try reflexivity.
  split.
  - apply (settled_q_set_keep (Abort nr) 10000 no q Hs).
  - apply Forall_singleton. unfold clock. simpl. lia.
Qed.

Lemma lookup_single r p w :
  inflight w = [r] → awaiting r = p → lookup_request (rid r) p w = Some r.
Proof.
  intros Hi Hp. unfold lookup_request. rewrite Hi. simpl.
  rewrite bool_decide_eq_true_2; done.
Qed.

Lemma drop_single r w :
  inflight w = [r] → inflight (drop_request (rid r) w) = [].
Proof.
  intros Hi. unfold drop_request. simpl. rewrite Hi, filter_cons.
  case_decide; done.
Qed.

(** What the [catch] block leaves behind once the abort timer is out of
    the way. *)
Lemma on_catch_reverts r (e : error) b n w :
  inflight w = [r] → settled_q [] n (clearTimeout (timeoutId r) (timers w)) →
  button_of w = Some b → disabled b = true →
  let w' := on_catch r e w in
  let lbl := if String.eqb (name e) "AbortError"
             then "Timeout - Try Again" else "Error - Try Again" in
  inflight w' = [] ∧
  settled [Timer (next_id (timers w)) (clock w + 3000) (Restore (originalText r))] n w' ∧
  button_of w' = Some (Button lbl true "1") ∧
  clock w' = clock w ∧ next_oid w' = next_oid w ∧
  console w' = console w ++ [e] ∧ overlays_of w' = overlays_of w ∧
  fields_of w' = fields_of w.
Proof.
  intros Hi Hs Hb Hd.
  destruct w as [q [[a fs [b'|] ovs pos]|] rs nr no cs]; try discriminate Hb.
  plumb. injection Hb as ->. subst rs.
  rewrite filter_cons. rewrite decide_False by (intros H; by apply H). simpl.
  rewrite Hd. split_and!; try reflexivity.
  apply (settled_q_set_keep (Restore (originalText r)) 3000 n
           (clearTimeout (timeoutId r) q) Hs).
Qed.

Lemma reverting_intro L D b id w :
  inflight w = [] → settled [Timer id D (Restore L)] (next_oid w) w →
  clock w < D → button_of w = Some b → disabled b = true →
  reverting L D b w.
Proof.
  intros Hi Hs Hc Hb Hd. split_and!; try done.
  exists id. split; [done|]. by apply Forall_singleton.
Qed.

(** The network rejects the fetch. *)
Lemma reject_reverts r D b w :
  in_flight r D b w →
  let w' := step w (FetchReject (rid r)) in
  reverting (originalText r) (clock w + 3000) (Button "Error - Try Again" true "1") w' ∧
  clock w' = clock w ∧ overlays_of w' = overlays_of w.
Proof.
  intros (Hi & Hp & [Hs Hdue] & Hb & Hd). simpl.
  rewrite (lookup_single r AwaitFetch w Hi Hp).
  destruct (on_catch_reverts r (TypeError "Failed to fetch") b (next_oid w) w)
    as (Hi' & Hs' & Hb' & Hc' & Hn' & _ & Ho' & _); try done.
  { apply (settled_q_clear_keep (Timer (timeoutId r) D (Abort (rid r))) _ _ Hs). }
  split_and!; try done.
  rewrite <- Hn' in Hs'.
  eapply reverting_intro; try done.
  fold (clock w). lia.
Qed.

(** The response is not ok: the handler goes on to read its body. *)
Lemma refusal_parses r D b w :
  in_flight r D b w →
  let w' := step w (FetchResolve (rid r) false) in
  parsing (Request (rid r) (originalText r) (timeoutId r) AwaitJson (sent r)) b w' ∧
  clock w' = clock w ∧ overlays_of w' = overlays_of w.
Proof.
  intros (Hi & Hp & [Hs Hdue] & Hb & Hd). simpl.
  rewrite (lookup_single r AwaitFetch w Hi Hp).
  destruct w as [q [[a fs [b'|] ovs pos]|] rs nr no cs]; try discriminate Hb.
  unfold parsing, calm. plumb. subst rs. simpl. rewrite bool_decide_eq_true_2 by done.
  split_and!; try done.
  apply (settled_q_clear_keep (Timer (timeoutId r) D (Abort (rid r))) _ _ Hs).
Qed.

Lemma name_rejection data : String.eqb (name (rejection data)) "AbortError" = false.
Proof. destruct data as [|err|]; simpl; [done| |done]. by destruct (truthy err). Qed.

(** The body arrives, or fails to parse. *)
Lemma body_reverts r b w (e : error) :
  parsing r b w → String.eqb (name e) "AbortError" = false →
  let w' := on_catch r e w in
  reverting (originalText r) (clock w + 3000) (Button "Error - Try Again" true "1") w' ∧
  clock w' = clock w ∧ overlays_of w' = overlays_of w.
Proof.
  intros (Hi & Hp & [Hs Hdue] & Hb & Hd) He.
  destruct (on_catch_reverts r e b (next_oid w) w)
    as (Hi' & Hs' & Hb' & Hc' & Hn' & _ & Ho' & _); try done.
  { apply (settled_q_clear_other [] _ _ _ Hs). apply not_elem_of_nil. }
  rewrite He in Hb'. split_and!; try done.
  rewrite <- Hn' in Hs'.
  eapply reverting_intro; try done.
  fold (clock w). lia.
Qed.

(** The response is ok. *)
Lemma success_settles r D b w :
  in_flight r D b w →
  let w' := step w (FetchResolve (rid r) true) in
  inflight w' = [] ∧
  calm [Timer (next_id (timers w)) (clock w + 10) (Activate (next_oid w))] (next_oid w) w' ∧
  button_of w' = Some (Button (originalText r) false "1") ∧
  overlays_of w' =
    overlays_of w ++ [Overlay (next_oid w) {[ "form-success-overlay" ]} "Protocol Initialized"] ∧
  fields_of w' = reset_field <$> fields_of w ∧
  clock w' = clock w ∧ next_oid w' = next_oid w + 1.
Proof.
  intros (Hi & Hp & [Hs Hdue] & Hb & Hd). simpl.
  rewrite (lookup_single r AwaitFetch w Hi Hp).
  destruct w as [q [[a fs [b'|] ovs pos]|] rs nr no cs]; try discriminate Hb.
  plumb. subst rs. simpl.
  rewrite filter_cons. rewrite decide_False by (intros H; by apply H). simpl.
  unfold calm. plumb.
  split_and!; try done.
  - apply (settled_q_set_keep (Activate no) 10 no (clearTimeout (timeoutId r) q)).
    apply (settled_q_clear_keep (Timer (timeoutId r) D (Abort (rid r))) _ _ Hs).
  - apply Forall_singleton. simpl. lia.
Qed.

(** Once its timer is counted among the background activations, a fresh
    overlay leaves the page idle. *)
Lemma settled_q_absorb t o n q :
  settled_q [t] n q → act t = Activate o → o ≤ n → settled_q [] (n + 1) q.
Proof.
  intros Hs Ht Ho. eapply kept_absorb; [exact Hs| |].
  - exists o. split; [done|lia].
  - intros u (o' & ? & ?). exists o'. split; [done|lia].
Qed.

Lemma success_idle r D b w :
  in_flight r D b w → idle (step w (FetchResolve (rid r) true)).
Proof.
  intros H. destruct (success_settles r D b w H) as (Hi & [Hs _] & _ & _ & _ & _ & Hn).
  split; [done|]. split; [|constructor]. unfold settled. rewrite Hn.
  eapply settled_q_absorb; [exact Hs|done|lia].
Qed.

(** ** The millisecond in which a kept timer fires *)

Lemma settled_keep_pending s n w : settled [s] n w → s ∈ pending (timers w).
Proof. intros (_ & _ & Hk). by apply Forall_inv in Hk. Qed.

Lemma tick_fires s keep' n w (F : world → Prop) :
  settled [s] n w → due s = clock w + 1 →
  (∀ t, t ∈ keep' → next_id (timers w) ≤ tid t) →
  (∀ w1, settled [s] n w1 →
     background n (with_timers (advance (timers w)) w) w1 →
     let w2 := run_callback (act s)
                 (with_timers (clearTimeout (tid s) (timers w1)) w1) in
     settled keep' n w2 ∧ F w2) →
  (∀ w2 w3, F w2 → background n w2 w3 → F w3) →
  let w' := step w Tick in settled keep' n w' ∧ F w'.
Proof.
  intros Hs Hdue Hnew Hfire Hclosed.
  by apply (tick_kept_fires timers with_timers run_callback (activation n)
              (background n) timers_with_timers (background_refl n)
              (background_trans n) (λ keep, run_background keep n) s keep' w F).
Qed.

Lemma background_facts n w w' :
  background n w w' →
  button_of w' = button_of w ∧ inflight w' = inflight w ∧
  console w' = console w ∧ fields_of w' = fields_of w.
Proof.
  intros (_ & _ & Hr & _). split_and!.
  - by rewrite <- button_of_rest, Hr, button_of_rest.
  - by rewrite <- inflight_rest, Hr, inflight_rest.
  - by rewrite <- console_rest, Hr, console_rest.
  - by rewrite <- fields_of_rest, Hr, fields_of_rest.
Qed.

(** Ten seconds without a response: the abort timer fires. *)
Lemma timeout_reverts r D b w :
  in_flight r D b w → clock w + 1 = D →
  let w' := step w Tick in
  reverting (originalText r) (D + 3000) (Button "Timeout - Try Again" true "1") w' ∧
  clock w' = D ∧ console w' = console w ++ [AbortError].
Proof.
  intros (Hi & Hp & [Hs Hdue] & Hb & Hd) HD.
  set (s := Timer (timeoutId r) D (Abort (rid r))) in *.
  set (k := Timer (next_id (timers w)) (D + 3000) (Restore (originalText r))).
  destruct (tick_fires s [k] (next_oid w) w
    (λ w2, inflight w2 = [] ∧
           button_of w2 = Some (Button "Timeout - Try Again" true "1") ∧
           clock w2 = D ∧ console w2 = console w ++ [AbortError] ∧
           next_oid w2 = next_oid w)) as (Hs' & Hi' & Hb' & Hc' & Hk' & Hn');
    try done.
  - intros t ->%list_elem_of_singleton. unfold k. simpl. lia.
  - intros w1 Hs1 Hbg.
    destruct (background_facts _ _ _ Hbg) as (Hb1 & Hi1 & Hk1 & _).
    destruct Hbg as (Hc1 & Hid1 & _ & Hn1 & _).
    set (w1c := with_timers (clearTimeout (tid s) (timers w1)) w1).
    assert (inflight w1c = [r]) as Hic.
    { unfold w1c. destruct w1, w. plumb. congruence. }
    assert (run_callback (Abort (rid r)) w1c = on_catch r AbortError w1c) as Hrun.
    { unfold run_callback. rewrite Hic. simpl. by rewrite bool_decide_eq_true_2. }
    change (act s) with (Abort (rid r)). cbv zeta. fold w1c. rewrite Hrun.
    destruct (on_catch_reverts r AbortError b (next_oid w) w1c)
      as (Hi2 & Hs2 & Hb2 & Hc2 & Hn2 & Hk2 & _); try done.
    + unfold w1c. destruct w1. simpl.
      apply (settled_q_clear_other [] _ _ _); [|apply not_elem_of_nil].
      apply (settled_q_clear_keep s _ _ Hs1).
    + unfold w1c. destruct w1 as [? [[]|] ? ? ? ?], w as [? [[]|] ? ? ? ?];
        plumb; congruence.
    + assert (clock w1c = D) as HcD.
      { unfold w1c. destruct w1, w. plumb. lia. }
      assert (next_id (timers w1c) = next_id (timers w)) as Hnid.
      { unfold w1c. destruct w1, w. plumb. lia. }
      rewrite HcD, Hnid in Hs2. split; [exact Hs2|].
      split_and!; try done; try congruence.
      rewrite Hk2. f_equal. unfold w1c. destruct w1, w. plumb. congruence.
  - intros w2 w3 (? & ? & ? & ? & ?) Hbg.
    destruct (background_facts _ _ _ Hbg) as (Hb1 & Hi1 & Hk1 & _).
    destruct Hbg as (Hc1 & _ & _ & Hn1 & _).
    split_and!; congruence.
  - split_and!; try done.
    rewrite <- Hn' in Hs'. eapply reverting_intro; try done. lia.
Qed.

(** Three seconds after a failure: the label and the button come back. *)
Lemma revert_restores L D b w :
  reverting L D b w → clock w + 1 = D →
  let w' := step w Tick in
  idle w' ∧ button_of w' = Some (Button L false (opacity b)) ∧ clock w' = D.
Proof.
  intros (Hi & (id & Hs & Hdue) & Hb & Hd) HD.
  set (s := Timer id D (Restore L)) in *.
  destruct (tick_fires s [] (next_oid w) w
    (λ w2, inflight w2 = [] ∧ button_of w2 = Some (Button L false (opacity b)) ∧
           clock w2 = D ∧ next_oid w2 = next_oid w)) as (Hs' & Hi' & Hb' & Hc' & Hn');
    try done.
  - intros t Ht. by apply elem_of_nil in Ht.
  - intros w1 Hs1 Hbg.
    destruct (background_facts _ _ _ Hbg) as (Hb1 & Hi1 & Hk1 & _).
    destruct Hbg as (Hc1 & Hid1 & _ & Hn1 & _).
    simpl. split.
    + destruct w1 as [? [[]|] ? ? ? ?]; plumb;
        apply (settled_q_clear_keep s _ _ Hs1).
    + destruct w1 as [? [[? ? [?|] ? ?]|] ? ? ? ?], w as [? [[? ? [?|] ? ?]|] ? ? ? ?];
        plumb; try discriminate; split_and!; try congruence; try lia.
  - intros w2 w3 (? & ? & ? & ?) Hbg.
    destruct (background_facts _ _ _ Hbg) as (Hb1 & Hi1 & Hk1 & _).
    destruct Hbg as (Hc1 & _ & _ & Hn1 & _).
    split_and!; congruence.
  - rewrite <- Hn' in Hs'. split_and!; try done.
Qed.

(** ** Whole attempts *)

Lemma run_cons w e es : run w (e :: es) = run (step w e) es.
Proof. reflexivity. Qed.

Lemma run_snoc w es e : run w (es ++ [e]) = step (run w es) e.
Proof. by rewrite run_app. Qed.

Lemma step_fetch_reject w (k : N) :
  step w (FetchReject k) =
  match lookup_request k AwaitFetch w with
  | Some q => on_catch q (TypeError "Failed to fetch") w
  | None => w
  end.
Proof. reflexivity. Qed.

Lemma step_json_resolve w (k : N) data :
  step w (JsonResolve k data) =
  match lookup_request k AwaitJson w with
  | Some q => on_catch q (rejection data) w
  | None => w
  end.
Proof. reflexivity. Qed.

Lemma step_json_reject w (k : N) :
  step w (JsonReject k) =
  match lookup_request k AwaitJson w with
  | Some q => on_catch q SyntaxError w
  | None => w
  end.
Proof. reflexivity. Qed.

#[local] Arguments step : simpl never.
#[local] Arguments run : simpl never.

Lemma flight_holds r D b w es :
  in_flight r D b w → quiet es → clock w + elapsed es < D →
  in_flight r D b (run w es) ∧ clock (run w es) = clock w + elapsed es ∧
  next_oid (run w es) = next_oid w ∧ console (run w es) = console w ∧
  (overlays_of w = [] → overlays_of (run w es) = []).
Proof.
  intros (Hi & Hp & [Hs Hdue] & Hb & Hd) Hes Hlt.
  destruct (run_locked _ (next_oid w) es w b Hs Hb Hd Hes)
    as (Hs' & Hc' & Hb' & Hi' & Hn' & Hk' & Ho').
  { apply Forall_singleton. simpl. lia. }
  unfold in_flight, calm. rewrite Hn'.
  split_and!; try done; try congruence.
  apply Forall_singleton. simpl. lia.
Qed.

Lemma parse_holds r b w es :
  parsing r b w → quiet es →
  parsing r b (run w es) ∧ clock (run w es) = clock w + elapsed es ∧
  (overlays_of w = [] → overlays_of (run w es) = []).
Proof.
  intros (Hi & Hp & [Hs Hdue] & Hb & Hd) Hes.
  destruct (run_locked _ (next_oid w) es w b Hs Hb Hd Hes)
    as (Hs' & Hc' & Hb' & Hi' & Hn' & Hk' & Ho'); [constructor|].
  unfold parsing, calm. rewrite Hn'.
  split_and!; try done; try congruence.
Qed.

Lemma revert_holds L D b w es :
  reverting L D b w → quiet es → clock w + elapsed es < D →
  reverting L D b (run w es) ∧ clock (run w es) = clock w + elapsed es.
Proof.
  intros (Hi & (id & Hs & Hdue) & Hb & Hd) Hes Hlt.
  destruct (run_locked _ (next_oid w) es w b Hs Hb Hd Hes)
    as (Hs' & Hc' & Hb' & Hi' & Hn' & Hk' & Ho').
  { apply Forall_singleton. simpl. lia. }
  split; [|done]. rewrite <- Hn' in Hs'.
  eapply reverting_intro; try done; try congruence; try lia.
Qed.

(** Every failed attempt ends with the error label on the disabled button
    and the restoring timer three seconds ahead. *)
Lemma failed_attempt_reverts w b es :
  idle w → button_of w = Some b → disabled b = false →
  failed_attempt (next_rid w) es →
  ∃ lbl, error_label lbl ∧
    reverting (innerText b) (clock (run w es) + 3000) (Button lbl true "1") (run w es).
Proof.
  intros Hidle Hb Hd Hes.
  destruct (submit_starts w b Hidle Hb Hd) as (r & Hr & HL & Hfl & Hc & _).
  rewrite <- Hr in Hes. rewrite <- HL.
  destruct Hes as [pre Hpre Hlt|pre mid data Hpre Hlt Hmid|pre mid Hpre Hlt Hmid|pre Hpre Hlt];
    rewrite run_cons;
    destruct (flight_holds r _ _ _ pre Hfl Hpre) as (Hfl1 & Hc1 & _); try lia.
  - (* network *)
    exists "Error - Try Again". split; [by left|]. rewrite run_snoc.
    destruct (reject_reverts r _ _ _ Hfl1) as (Hrev & Hc2 & _).
    cbv zeta in Hc2. rewrite Hc2. exact Hrev.
  - (* rejected *)
    exists "Error - Try Again". split; [by left|].
    destruct (refusal_parses r _ _ _ Hfl1) as (Hpa & Hc2 & _).
    rewrite run_app, run_cons, run_snoc.
    destruct (parse_holds _ _ _ mid Hpa Hmid) as (Hpa1 & Hc3 & _).
    pose proof Hpa1 as (Hi1 & Hp1 & _).
    rewrite step_json_resolve.
    pose proof (lookup_single _ AwaitJson _ Hi1 Hp1) as Hlk. simpl in Hlk.
    rewrite Hlk.
    destruct (body_reverts _ _ _ (rejection data) Hpa1 (name_rejection data))
      as (Hrev & Hc4 & _).
    cbv zeta in Hc4. rewrite Hc4. exact Hrev.
  - (* unparsed *)
    exists "Error - Try Again". split; [by left|].
    destruct (refusal_parses r _ _ _ Hfl1) as (Hpa & Hc2 & _).
    rewrite run_app, run_cons, run_snoc.
    destruct (parse_holds _ _ _ mid Hpa Hmid) as (Hpa1 & Hc3 & _).
    pose proof Hpa1 as (Hi1 & Hp1 & _).
    rewrite step_json_reject.
    pose proof (lookup_single _ AwaitJson _ Hi1 Hp1) as Hlk. simpl in Hlk.
    rewrite Hlk.
    destruct (body_reverts _ _ _ SyntaxError Hpa1 eq_refl) as (Hrev & Hc4 & _).
    cbv zeta in Hc4. rewrite Hc4. exact Hrev.
  - (* timeout *)
    exists "Timeout - Try Again". split; [by right|]. rewrite run_snoc.
    destruct (timeout_reverts r _ _ _ Hfl1) as (Hrev & Hc2 & _); [lia|].
    cbv zeta in Hc2. rewrite Hc2. exact Hrev.
Qed.

(** An attempt that fails before the ten seconds are over ends with the
    generic label. *)
Lemma failed_early_reverts w b es :
  idle w → button_of w = Some b → disabled b = false →
  failed_early (next_rid w) es →
  reverting (innerText b) (clock (run w es) + 3000)
    (Button "Error - Try Again" true "1") (run w es).
Proof.
  intros Hidle Hb Hd Hes.
  destruct (submit_starts w b Hidle Hb Hd) as (r & Hr & HL & Hfl & Hc & _).
  rewrite <- Hr in Hes. rewrite <- HL.
  destruct Hes as [pre Hpre Hlt|pre mid data Hpre Hlt Hmid|pre mid Hpre Hlt Hmid];
    rewrite run_cons;
    destruct (flight_holds r _ _ _ pre Hfl Hpre) as (Hfl1 & Hc1 & _); try lia.
  - (* network *)
    rewrite run_snoc.
    destruct (reject_reverts r _ _ _ Hfl1) as (Hrev & Hc2 & _).
    cbv zeta in Hc2. rewrite Hc2. exact Hrev.
  - (* rejected *)
    destruct (refusal_parses r _ _ _ Hfl1) as (Hpa & Hc2 & _).
    rewrite run_app, run_cons, run_snoc.
    destruct (parse_holds _ _ _ mid Hpa Hmid) as (Hpa1 & Hc3 & _).
    pose proof Hpa1 as (Hi1 & Hp1 & _).
    rewrite step_json_resolve.
    pose proof (lookup_single _ AwaitJson _ Hi1 Hp1) as Hlk. simpl in Hlk.
    rewrite Hlk.
    destruct (body_reverts _ _ _ (rejection data) Hpa1 (name_rejection data))
      as (Hrev & Hc4 & _).
    cbv zeta in Hc4. rewrite Hc4. exact Hrev.
  - (* unparsed *)
    destruct (refusal_parses r _ _ _ Hfl1) as (Hpa & Hc2 & _).
    rewrite run_app, run_cons, run_snoc.
    destruct (parse_holds _ _ _ mid Hpa Hmid) as (Hpa1 & Hc3 & _).
    pose proof Hpa1 as (Hi1 & Hp1 & _).
    rewrite step_json_reject.
    pose proof (lookup_single _ AwaitJson _ Hi1 Hp1) as Hlk. simpl in Hlk.
    rewrite Hlk.
    destruct (body_reverts _ _ _ SyntaxError Hpa1 eq_refl) as (Hrev & Hc4 & _).
    cbv zeta in Hc4. rewrite Hc4. exact Hrev.
Qed.

(** From the failure on: the error label stays for three seconds, then
    the original label is back and the button is enabled. *)
Lemma reverting_round_trip L D b w post :
  reverting L D b w → quiet post →
  (clock w + elapsed post < D → button_of (run w post) = Some b) ∧
  (clock w + elapsed post + 1 = D →
     button_of (run w (post ++ [Tick])) = Some (Button L false (opacity b)) ∧
     idle (run w (post ++ [Tick]))).
Proof.
  intros Hrev Hpost. split; intros Hlt.
  - destruct (revert_holds L D b w post Hrev Hpost Hlt) as [(_ & _ & Hb & _) _]. done.
  - destruct (revert_holds L D b w post Hrev Hpost) as [Hrev' Hc]; [lia|].
    rewrite run_snoc.
    destruct (revert_restores L D b _ Hrev') as (Hidle & Hb & _); [lia|]. done.
Qed.

(** The whole of a timeout. *)
Lemma timeout_attempt w b pre :
  idle w → button_of w = Some b → disabled b = false →
  quiet pre → elapsed pre = 9999 →
  let w0 := run w (Submit :: pre) in
  let w1 := step w0 Tick in
  (∃ r, inflight w0 = [r] ∧ rid r = next_rid w ∧ awaiting r = AwaitFetch) ∧
  clock w1 = clock w + 10000 ∧ inflight w1 = [] ∧
  console w1 = console w ++ [AbortError] ∧
  button_of w1 = Some (Button "Timeout - Try Again" true "1").
Proof.
  intros Hidle Hb Hd Hpre Hlt.
  destruct (submit_starts w b Hidle Hb Hd) as (r & Hr & HL & Hfl & Hc & _ & _ & Hk).
  cbv zeta. rewrite run_cons.
  destruct (flight_holds r _ _ _ pre Hfl Hpre) as (Hfl1 & Hc1 & _ & Hk1 & _); [lia|].
  destruct (timeout_reverts r _ _ _ Hfl1) as (Hrev & Hc2 & Hk2); [lia|].
  destruct Hrev as (Hi2 & _ & Hb2 & _). destruct Hfl1 as (Hi1 & Hp1 & _).
  split_and!; try done.
  - by exists r.
  - rewrite Hk2, Hk1, Hk. done.
Qed.

(** ** The success overlay *)

Lemma close_overlay w o :
  overlays_of (step w (CloseOverlay o)) = filter (λ ov, oid ov ≠ o) (overlays_of w).
Proof. unfold step. by destruct w as [? [[]|] ? ? ? ?]. Qed.

Lemma overlay_activates id D o ov w :
  calm [Timer id D (Activate o)] o w → clock w + 1 = D →
  overlays_of w = [ov] → oid ov = o →
  overlays_of (step w Tick) = [activate o ov].
Proof.
  intros [Hs Hdue] HD Hov Ho.
  set (s := Timer id D (Activate o)) in *.
  destruct (tick_fires s [] o w (λ w2, overlays_of w2 = [activate o ov]))
    as (_ & H); try done.
  - intros t Ht. by apply elem_of_nil in Ht.
  - intros w1 Hs1 (_ & _ & _ & _ & Hbg). split.
    + destruct w1 as [? [[]|] ? ? ? ?]; plumb;
        apply (settled_q_clear_keep s _ _ Hs1).
    + assert (overlays_of w1 = [ov]) as Hov1.
      { rewrite Hbg; destruct w as [? [[]|] ? ? ? ?]; plumb; try done.
        rewrite Hov. apply Forall_singleton. lia. }
      destruct w1 as [? [[]|] ? ? ? ?]; plumb; [|done]. by rewrite Hov1.
  - intros w2 w3 Hw2 (_ & _ & _ & _ & Hbg). rewrite Hbg; [done|].
    rewrite Hw2. apply Forall_singleton. unfold activate.
    rewrite bool_decide_eq_true_2 by done. simpl. lia.
Qed.

Lemma elapsed_repeat_tick k : elapsed (repeat Tick k) = N.of_nat k.
Proof.
  induction k as [|k IH]; [done|].
  change (repeat Tick (S k)) with (Tick :: repeat Tick k).
  rewrite elapsed_cons, IH. simpl. lia.
Qed.

Lemma quiet_repeat_tick k : quiet (repeat Tick k).
Proof. induction k; constructor; done. Qed.

(** While an activation is pending and only time passes, the overlays
    stay as they are. *)
Lemma overlays_wait id D o w k :
  calm [Timer id D (Activate o)] o w →
  Forall (λ ov, o ≤ oid ov) (overlays_of w) →
  clock w + N.of_nat k < D →
  let w' := run w (repeat Tick k) in
  calm [Timer id D (Activate o)] o w' ∧ clock w' = clock w + N.of_nat k ∧
  overlays_of w' = overlays_of w.
Proof.
  revert w. induction k as [|k IH]; intros w [Hs Hdue] Hov Hlt.
  - cbv zeta. change (run w (repeat Tick 0)) with w. split_and!; try done. lia.
  - change (repeat Tick (S k)) with (Tick :: repeat Tick k). cbv zeta. rewrite run_cons.
    destruct (tick_background _ o w Hs) as (Hs1 & Hc1 & _ & _ & _ & Ho1).
    { apply Forall_singleton. simpl. lia. }
    destruct (IH (step w Tick)) as (Hcalm & Hc2 & Ho2).
    + split; [done|]. apply Forall_singleton. simpl. lia.
    + by rewrite Ho1.
    + lia.
    + split_and!; try done; [lia|]. rewrite Ho2. by apply Ho1.
Qed.

(** A successful attempt, from a page that shows no overlay. *)
Lemma success_attempt w b pre :
  idle w → button_of w = Some b → disabled b = false →
  overlays_of w = [] → quiet pre → elapsed pre < 10000 →
  let w1 := run w (Submit :: pre ++ [FetchResolve (next_rid w) true]) in
  let o := Overlay (next_oid w) {[ "form-success-overlay" ]} "Protocol Initialized" in
  idle w1 ∧ button_of w1 = Some (Button (innerText b) false "1") ∧
  Forall (λ f, value f = defaultValue f) (fields_of w1) ∧
  overlays_of w1 = [o] ∧
  (∀ k, (k < 10)%nat → overlays_of (run w1 (repeat Tick k)) = [o]) ∧
  overlays_of (run w1 (repeat Tick 10)) = [activate (oid o) o] ∧
  overlays_of (step w1 (CloseOverlay (oid o))) = [].
Proof.
  intros Hidle Hb Hd Hov Hpre Hlt.
  destruct (submit_starts w b Hidle Hb Hd) as (r & Hr & HL & Hfl & Hc & Hn & Ho & _).
  cbv zeta. rewrite run_cons, run_snoc, <- Hr.
  destruct (flight_holds r _ _ _ pre Hfl Hpre) as (Hfl1 & Hc1 & Hn1 & _ & Ho1); [lia|].
  rewrite Ho in Ho1. specialize (Ho1 Hov).
  set (w0 := run (step w Submit) pre) in *.
  pose proof (success_idle r _ _ w0 Hfl1) as Hidle1.
  destruct (success_settles r _ _ w0 Hfl1) as (Hi2 & Hcalm & Hb2 & Ho2 & Hf2 & Hc2 & Hn2).
  rewrite Ho1, Hn1, Hn in Ho2. rewrite Hn1, Hn in Hcalm. simpl in Ho2.
  set (w1 := step w0 (FetchResolve (rid r) true)) in *.
  split_and!; try done.
  - by rewrite Hb2, HL.
  - rewrite Hf2. apply Forall_fmap, Forall_true. done.
  - intros k Hk.
    destruct (overlays_wait _ _ _ w1 k Hcalm) as (_ & _ & Hw).
    + rewrite Ho2. apply Forall_singleton. simpl. lia.
    + lia.
    + by rewrite Hw.
  - change (repeat Tick 10) with (repeat Tick 9 ++ [Tick]). rewrite run_snoc.
    destruct (overlays_wait _ _ _ w1 9 Hcalm) as (Hcalm9 & Hc9 & Hw).
    + rewrite Ho2. apply Forall_singleton. simpl. lia.
    + lia.
    + eapply overlay_activates; [exact Hcalm9|lia|by rewrite Hw|done].
  - rewrite close_overlay, Ho2, filter_cons. rewrite decide_False; [done|].
    simpl. by intros H.
Qed.

(** ** Every reachable page is in one of the four phases *)

Lemma lookup_other r (k : N) p w :
  inflight w = [r] → k ≠ rid r ∨ p ≠ awaiting r → lookup_request k p w = None.
Proof.
  intros Hi Hne. unfold lookup_request. rewrite Hi. simpl.
  rewrite bool_decide_eq_false_2; [done|]. intros [? ?]. destruct Hne; by subst.
Qed.

Lemma lookup_none (k : N) p w : inflight w = [] → lookup_request k p w = None.
Proof. intros Hi. unfold lookup_request. by rewrite Hi. Qed.

Lemma idle_step w e : idle w → phase (step w e).
Proof.
  intros Hidle. pose proof Hidle as [Hi [Hs _]].
  destruct e as [|i v|o| |k ok|k|k data|k].
  - unfold step. destruct (contactForm w) as [f|] eqn:Hf; [|by left].
    destruct (submittable f) eqn:Hsub; [|by left].
    destruct (submitBtn f) as [b|] eqn:Hb.
    + assert (button_of w = Some b) as Hbw by (unfold button_of; by rewrite Hf).
      assert (disabled b = false) as Hd.
      { unfold submittable in Hsub. rewrite Hb in Hsub. by destruct (disabled b). }
      destruct (submit_starts w b Hidle Hbw Hd) as (r & _ & _ & Hfl & _).
      unfold step in Hfl. rewrite Hf, Hsub in Hfl. right. left. by eexists _, _, _.
    + left. unfold on_submit. by rewrite Hb.
  - left. unfold step. destruct w as [? [[]|] ? ? ? ?]; by split.
  - left. unfold step. destruct w as [? [[]|] ? ? ? ?]; by split.
  - left. destruct (tick_background [] (next_oid w) w Hs) as (Hs' & _ & _ & Hr & Hn & _);
      [constructor|].
    split; [by rewrite <- inflight_rest, Hr, inflight_rest|].
    split; [|constructor]. by rewrite Hn.
  - left. unfold step. by rewrite (lookup_none _ _ _ Hi).
  - left. rewrite step_fetch_reject. by rewrite (lookup_none _ _ _ Hi).
  - left. rewrite step_json_resolve. by rewrite (lookup_none _ _ _ Hi).
  - left. rewrite step_json_reject. by rewrite (lookup_none _ _ _ Hi).
Qed.

Lemma in_flight_step r D b w e : in_flight r D b w → phase (step w e).
Proof.
  intros Hfl. pose proof Hfl as (Hi & Hp & [Hs Hdue] & Hb & Hd).
  apply Forall_inv in Hdue. simpl in Hdue.
  destruct (passive e) eqn:He.
  - destruct (decide (is_tick e = true ∧ clock w + 1 = D)) as [[Ht HD]|Hnot].
    + destruct e; try discriminate Ht.
      destruct (timeout_reverts r D b w Hfl HD) as (Hrev & _).
      right. right. right. by eexists _, _, _.
    + destruct (flight_holds r D b w [e] Hfl) as (Hfl' & _).
      * by constructor.
      * rewrite elapsed_cons. unfold elapsed. simpl.
        destruct (is_tick e); [|lia].
        assert (clock w + 1 ≠ D) by (intros ?; by apply Hnot). lia.
      * right. left. by eexists _, _, _.
  - destruct e as [|i v|o| |k ok|k|k data|k]; try discriminate He.
    + destruct (decide (k = rid r)) as [->|Hk].
      * destruct ok.
        -- left. by eapply success_idle.
        -- destruct (refusal_parses r D b w Hfl) as (Hpa & _).
           right. right. left. by eexists _, _.
      * right. left. exists r, D, b. unfold step.
        rewrite (lookup_other r k AwaitFetch w Hi); [done|by left].
    + destruct (decide (k = rid r)) as [->|Hk].
      * destruct (reject_reverts r D b w Hfl) as (Hrev & _).
        right. right. right. by eexists _, _, _.
      * right. left. exists r, D, b. rewrite step_fetch_reject.
        rewrite (lookup_other r k AwaitFetch w Hi); [done|by left].
    + right. left. exists r, D, b. rewrite step_json_resolve.
      rewrite (lookup_other r k AwaitJson w Hi); [done|right; by rewrite Hp].
    + right. left. exists r, D, b. rewrite step_json_reject.
      rewrite (lookup_other r k AwaitJson w Hi); [done|right; by rewrite Hp].
Qed.

Lemma parsing_step r b w e : parsing r b w → phase (step w e).
Proof.
  intros Hpa. pose proof Hpa as (Hi & Hp & [Hs _] & Hb & Hd).
  destruct (passive e) eqn:He.
  - destruct (parse_holds r b w [e] Hpa) as (Hpa' & _); [by constructor|].
    right. right. left. by eexists _, _.
  - destruct e as [|i v|o| |k ok|k|k data|k]; try discriminate He.
    + right. right. left. exists r, b. unfold step.
      rewrite (lookup_other r k AwaitFetch w Hi); [done|right; by rewrite Hp].
    + right. right. left. exists r, b. rewrite step_fetch_reject.
      rewrite (lookup_other r k AwaitFetch w Hi); [done|right; by rewrite Hp].
    + destruct (decide (k = rid r)) as [->|Hk].
      * rewrite step_json_resolve, (lookup_single r AwaitJson w Hi Hp).
        destruct (body_reverts r b w (rejection data) Hpa (name_rejection data))
          as (Hrev & _).
        right. right. right. by eexists _, _, _.
      * right. right. left. exists r, b. rewrite step_json_resolve.
        rewrite (lookup_other r k AwaitJson w Hi); [done|by left].
    + destruct (decide (k = rid r)) as [->|Hk].
      * rewrite step_json_reject, (lookup_single r AwaitJson w Hi Hp).
        destruct (body_reverts r b w SyntaxError Hpa eq_refl) as (Hrev & _).
        right. right. right. by eexists _, _, _.
      * right. right. left. exists r, b. rewrite step_json_reject.
        rewrite (lookup_other r k AwaitJson w Hi); [done|by left].
Qed.

Lemma reverting_step L D b w e : reverting L D b w → phase (step w e).
Proof.
  intros Hrev. pose proof Hrev as (Hi & (id & Hs & Hdue) & Hb & Hd).
  apply Forall_inv in Hdue. simpl in Hdue.
  destruct (passive e) eqn:He.
  - destruct (decide (is_tick e = true ∧ clock w + 1 = D)) as [[Ht HD]|Hnot].
    + destruct e; try discriminate Ht.
      destruct (revert_restores L D b w Hrev HD) as (Hidle & _). by left.
    + destruct (revert_holds L D b w [e] Hrev) as (Hrev' & _).
      * by constructor.
      * rewrite elapsed_cons. unfold elapsed. simpl.
        destruct (is_tick e); [|lia].
        assert (clock w + 1 ≠ D) by (intros ?; by apply Hnot). lia.
      * right. right. right. by eexists _, _, _.
  - right. right. right. exists L, D, b.
    destruct e as [|i v|o| |k ok|k|k data|k]; try discriminate He.
    + unfold step. by rewrite (lookup_none _ _ _ Hi).
    + rewrite step_fetch_reject. by rewrite (lookup_none _ _ _ Hi).
    + rewrite step_json_resolve. by rewrite (lookup_none _ _ _ Hi).
    + rewrite step_json_reject. by rewrite (lookup_none _ _ _ Hi).
Qed.

Lemma phase_step w e : phase w → phase (step w e).
Proof.
  intros [H|[(r & D & b & H)|[(r & b & H)|(L & D & b & H)]]].
  - by apply idle_step.
  - by eapply in_flight_step.
  - by eapply parsing_step.
  - by eapply reverting_step.
Qed.

Lemma phase_run w es : phase w → phase (run w es).
Proof.
  revert w. induction es as [|e es IH]; intros w Hw; [done|].
  rewrite run_cons. apply IH. by apply phase_step.
Qed.

Lemma load_idle1 f : idle (load f).
Proof.
  split; [done|]. split; [|constructor].
  split; [split|split]; simpl; constructor.
Qed.

(** On a page that was loaded and has lived through anything since, an
    enabled submit button means that nothing is in flight and nothing is
    being reverted; and at most one request is in flight. *)
Lemma reachable_enabled_idle f es b :
  button_of (run (load f) es) = Some b → disabled b = false →
  idle (run (load f) es).
Proof.
  intros Hb Hd.
  destruct (phase_run (load f) es) as [H|[(r & D & b' & H)|[(r & b' & H)|(L & D & b' & H)]]].
  - left. apply load_idle1.
  - done.
  - destruct H as (_ & _ & _ & Hb' & Hd'). congruence.
  - destruct H as (_ & _ & _ & Hb' & Hd'). congruence.
  - destruct H as (_ & _ & Hb' & Hd'). congruence.
Qed.

Lemma one_request_at_a_time f es : (length (inflight (run (load f) es)) ≤ 1)%nat.
Proof.
  destruct (phase_run (load f) es) as [H|[(r & D & b' & H)|[(r & b' & H)|(L & D & b' & H)]]].
  - left. apply load_idle1.
  - destruct H as [-> _]. simpl. lia.
  - destruct H as [-> _]. simpl. lia.
  - destruct H as [-> _]. simpl. lia.
  - destruct H as [-> _]. simpl. lia.
Qed.

End Contact1.

(** * The abort timer only lives while its request awaits the response *)

Section AbortTimer.
Import Js Dom Timers V1.Contact Phase1.
Implicit Types (w : world) (t : timer callback) (q : request) (e : event).

Lemma lookup_request_Some k p w q :
  lookup_request k p w = Some q → q ∈ inflight w ∧ rid q = k ∧ awaiting q = p.
Proof.
  intros H. apply find_some in H as [Hin Hb].
  apply bool_decide_eq_true in Hb as [? ?]. split_and!; try done.
  by apply list_elem_of_In.
Qed.

Lemma rid_inj (rs : list request) q q' :
  NoDup (rid <$> rs) → q ∈ rs → q' ∈ rs → rid q = rid q' → q = q'.
Proof.
  intros Hnd Hq Hq' Heq.
  apply list_elem_of_lookup in Hq as [i Hi], Hq' as [j Hj].
  assert (i = j) as ->.
  { eapply NoDup_lookup; [exact Hnd| |]; rewrite list_lookup_fmap.
    - by rewrite Hi.
    - rewrite Hj. simpl. by rewrite Heq. }
  congruence.
Qed.

(** The handler of [q0] is over: its timer is cleared, its closure gone. *)
Lemma guarded_settle ts rs q0 :
  guarded ts rs → NoDup (rid <$> rs) → q0 ∈ rs →
  guarded (filter (λ t, tid t ≠ timeoutId q0) ts) (filter (λ q, rid q ≠ rid q0) rs).
Proof.
  intros Hg Hnd Hq0 t r Ht Hact.
  apply list_elem_of_filter in Ht as [Hne Ht].
  destruct (Hg t r Ht Hact) as (q & Hq & Hr & Hp & Hid).
  exists q. split_and!; try done.
  apply list_elem_of_filter. split; [|done].
  intros Heq. apply Hne. rewrite <- Hid. f_equal. symmetry.
  by eapply rid_inj.
Qed.

(** The response of [q0] came and was not ok: its timer is cleared and it
    goes on to await the body. *)
Lemma guarded_refused ts rs q0 :
  guarded ts rs → NoDup (rid <$> rs) → q0 ∈ rs →
  guarded (filter (λ t, tid t ≠ timeoutId q0) ts)
    ((λ q, if bool_decide (rid q = rid q0)
           then Request (rid q) (originalText q) (timeoutId q) AwaitJson (sent q)
           else q) <$> rs).
Proof.
  intros Hg Hnd Hq0 t r Ht Hact.
  apply list_elem_of_filter in Ht as [Hne Ht].
  destruct (Hg t r Ht Hact) as (q & Hq & Hr & Hp & Hid).
  exists q. split_and!; try done.
  apply list_elem_of_fmap. exists q. split; [|done].
  rewrite bool_decide_eq_false_2; [done|].
  intros Heq. apply Hne. rewrite <- Hid. f_equal. symmetry.
  by eapply rid_inj.
Qed.

Lemma guarded_weaken ts ts' rs :
  guarded ts rs → (∀ t, t ∈ ts' → t ∈ ts) → guarded ts' rs.
Proof. intros Hg Hsub t r Ht. apply Hg. by apply Hsub. Qed.

Lemma guarded_snoc ts rs t :
  guarded ts rs → (∀ r, act t ≠ Abort r) → guarded (ts ++ [t]) rs.
Proof.
  intros Hg Hna u r Hu Hact. apply elem_of_app in Hu as [Hu|Hu].
  - by eapply Hg.
  - apply list_elem_of_singleton in Hu as ->. by destruct (Hna r).
Qed.

Ltac plumb1 :=
  unfold on_catch, on_response, on_submit, cancel, drop_request, schedule,
    showSuccessMessage, with_timers, with_form, with_inflight,
    coherent, abort_guarded in *;
  simpl in *.

Lemma with_form_coherent g w : coherent w → coherent (with_form g w).
Proof. by destruct w. Qed.

Lemma cancel_coherent id w : coherent w → coherent (cancel id w).
Proof.
  destruct w as [[c n ts] f rs nr no cs]. plumb1.
  intros (Hg & Hnd & Hrs & Hts). split_and!; try done.
  - eapply guarded_weaken; [exact Hg|]. intros t Ht.
    by apply list_elem_of_filter in Ht as [_ Ht].
  - apply Forall_forall. intros t Ht. apply list_elem_of_filter in Ht as [_ Ht].
    rewrite Forall_forall in Hts. by apply Hts.
Qed.

Lemma Forall_filter_keep {X} (P Q : X → Prop) `{∀ x, Decision (Q x)} (l : list X) :
  Forall P l → Forall P (filter Q l).
Proof.
  intros Hl. apply Forall_forall. intros x Hx.
  apply list_elem_of_filter in Hx as [_ Hx]. rewrite Forall_forall in Hl. by apply Hl.
Qed.

Lemma NoDup_rid_filter (P : request → Prop) `{∀ x, Decision (P x)} (rs : list request) :
  NoDup (rid <$> rs) → NoDup (rid <$> filter P rs).
Proof.
  intros Hnd. eapply sublist_NoDup; [exact Hnd|].
  apply fmap_sublist, sublist_filter.
Qed.

Lemma on_catch_coherent q0 (err : error) w :
  coherent w → q0 ∈ inflight w → coherent (on_catch q0 err w).
Proof.
  destruct w as [[c n ts] [f|] rs nr no cs]; plumb1;
    intros (Hg & Hnd & Hrs & Hts) Hq0; split_and!.
  all: try (by apply NoDup_rid_filter).
  all: try (apply guarded_snoc; [by apply guarded_settle|done]).
  all: try (apply Forall_filter_keep; eapply Forall_impl; [exact Hrs|];
            simpl; intros ? [? ?]; split; lia).
  all: apply Forall_app; split;
    [apply Forall_filter_keep; eapply Forall_impl; [exact Hts|]; simpl; intros; lia
    |apply Forall_singleton; simpl; lia].
Qed.

Lemma on_response_coherent q0 ok w :
  coherent w → q0 ∈ inflight w → coherent (on_response q0 ok w).
Proof.
  destruct ok.
  - destruct w as [[c n ts] [f|] rs nr no cs]; plumb1;
      intros (Hg & Hnd & Hrs & Hts) Hq0; split_and!.
    all: try (by apply NoDup_rid_filter).
    all: try (apply guarded_snoc; [by apply guarded_settle|done]).
    all: try (apply Forall_filter_keep; eapply Forall_impl; [exact Hrs|];
              simpl; intros ? [? ?]; split; lia).
    all: apply Forall_app; split;
      [apply Forall_filter_keep; eapply Forall_impl; [exact Hts|]; simpl; intros; lia
      |apply Forall_singleton; simpl; lia].
  - destruct w as [[c n ts] f rs nr no cs]; plumb1;
      intros (Hg & Hnd & Hrs & Hts) Hq0; split_and!.
    + by apply guarded_refused.
    + rewrite <- list_fmap_compose.
      replace (rid <$> rs) with ((rid ∘ (λ q, if bool_decide (rid q = rid q0)
          then Request (rid q) (originalText q) (timeoutId q) AwaitJson (sent q)
          else q)) <$> rs) in Hnd; [done|].
      apply list_fmap_ext. intros i q _. simpl. by case_bool_decide.
    + apply Forall_fmap. eapply Forall_impl; [exact Hrs|].
      intros q [? ?]. simpl. by case_bool_decide.
    + by apply Forall_filter_keep.
Qed.

Lemma on_submit_coherent f w : coherent w → coherent (on_submit f w).
Proof.
  unfold on_submit. destruct (submitBtn f) as [b|]; [|done].
  destruct w as [[c n ts] f' rs nr no cs]; plumb1.
  intros (Hg & Hnd & Hrs & Hts). split_and!.
  - intros t r Ht Hact. apply elem_of_app in Ht as [Ht|Ht].
    + destruct (Hg t r Ht Hact) as (q & Hq & ?). exists q.
      split; [|done]. apply elem_of_app. by left.
    + apply list_elem_of_singleton in Ht as ->. simpl in Hact. injection Hact as <-.
      eexists. split; [apply elem_of_app; right; by apply list_elem_of_singleton|done].
  - rewrite fmap_app. apply NoDup_app. split_and!; [done| |apply NoDup_singleton].
    intros x Hx Hx'. apply list_elem_of_singleton in Hx' as ->.
    apply list_elem_of_fmap in Hx as (q & Heq & Hq).
    rewrite Forall_forall in Hrs. destruct (Hrs _ Hq). simpl in *. lia.
  - apply Forall_app. split.
    + eapply Forall_impl; [exact Hrs|]. simpl. intros ? [? ?]. split; lia.
    + apply Forall_singleton. simpl. split; lia.
  - apply Forall_app. split.
    + eapply Forall_impl; [exact Hts|]. simpl. intros. lia.
    + apply Forall_singleton. simpl. lia.
Qed.

Lemma fire_coherent w id :
  coherent w → coherent (fire timers with_timers run_callback w id).
Proof.
  intros Hw. unfold fire. destruct (List.find _ _) as [t|]; [|done].
  pose proof (cancel_coherent id w Hw) as Hw1. fold (cancel id w).
  destruct (act t) as [k|text|o]; simpl.
  - destruct (List.find _ (inflight w)) as [q|] eqn:Hfind; [|done].
    apply on_catch_coherent; [done|].
    apply find_some in Hfind as [Hin _]. by apply list_elem_of_In.
  - by apply with_form_coherent.
  - by apply with_form_coherent.
Qed.

Lemma step_coherent w e : coherent w → coherent (step w e).
Proof.
  intros Hw. destruct e as [|i v|o| |k ok|k|k data|k]; simpl.
  - destruct (contactForm w) as [f|]; [|done].
    destruct (submittable f); [|done]. by apply on_submit_coherent.
  - by apply with_form_coherent.
  - by apply with_form_coherent.
  - unfold tick. apply fold_fire_inv; [by destruct w|].
    intros w' id _. apply fire_coherent.
  - destruct (lookup_request k AwaitFetch w) as [q|] eqn:Hq; [|done].
    apply lookup_request_Some in Hq as (Hin & _). by apply on_response_coherent.
  - destruct (lookup_request k AwaitFetch w) as [q|] eqn:Hq; [|done].
    apply lookup_request_Some in Hq as (Hin & _). by apply on_catch_coherent.
  - destruct (lookup_request k AwaitJson w) as [q|] eqn:Hq; [|done].
    apply lookup_request_Some in Hq as (Hin & _). by apply on_catch_coherent.
  - destruct (lookup_request k AwaitJson w) as [q|] eqn:Hq; [|done].
    apply lookup_request_Some in Hq as (Hin & _). by apply on_catch_coherent.
Qed.

Lemma load_coherent f : coherent (load f).
Proof.
  split_and!; simpl.
  - intros t r Ht. by apply elem_of_nil in Ht.
  - constructor.
  - constructor.
  - constructor.
Qed.

Lemma run_coherent w es : coherent w → coherent (run w es).
Proof.
  revert w. induction es as [|e es IH]; intros w Hw; [done|].
  apply IH. by apply step_coherent.
Qed.

(** Both settlement paths leave the request's timer cleared. *)
Lemma settlement_clears w k q :
  coherent w → lookup_request k AwaitFetch w = Some q →
  (∀ ok, timeoutId q ∉ tid <$> pending (timers (step w (FetchResolve k ok)))) ∧
  timeoutId q ∉ tid <$> pending (timers (step w (FetchReject k))).
Proof.
  intros (_ & _ & Hrs & _) Hq. simpl. rewrite Hq.
  apply lookup_request_Some in Hq as (Hin & _).
  rewrite Forall_forall in Hrs. destruct (Hrs _ Hin) as [_ Hlt].
  assert (∀ (ts : list (timer callback)),
            timeoutId q ∉ tid <$> filter (λ t, tid t ≠ timeoutId q) ts) as Hgone.
  { intros ts Hx. apply list_elem_of_fmap in Hx as (t & Heq & Ht).
    apply list_elem_of_filter in Ht as [Hne _]. by apply Hne. }
  split; [intros [|]|].
  - destruct w as [[c n ts] [f|] rs nr no cs]; plumb1;
      rewrite fmap_app, elem_of_app; intros [Hx|Hx]; try (by eapply Hgone);
      apply list_elem_of_singleton in Hx; simpl in Hx; lia.
  - destruct w as [[c n ts] f rs nr no cs]; plumb1. apply Hgone.
  - destruct w as [[c n ts] [f|] rs nr no cs]; plumb1;
      rewrite fmap_app, elem_of_app; intros [Hx|Hx]; try (by eapply Hgone);
      apply list_elem_of_singleton in Hx; simpl in Hx; lia.
Qed.

End AbortTimer.

(** * Contact form, second revision *)

Section Contact2.
Import Js Dom Timers V2.Contact Phase2.
Implicit Types (w : world) (q : queue callback) (t : timer callback)
  (keep : list (timer callback)) (r : request) (b : button) (e : event).

Ltac plumb2 :=
  unfold on_catch, on_response, on_submit, drop_request, schedule,
    showSuccessMessage, with_timers, with_form, with_inflight, with_button,
    with_fields, with_overlays, button_of, clock, overlays_of, fields_of,
    settled in *;
  simpl in *.

Lemma activate_below2 n (l : list overlay) o :
  Forall (λ ov, n ≤ oid ov) l → o < n → activate o <$> l = l.
Proof.
  intros Hl Ho. induction Hl as [|ov l Hov _ IH]; [done|].
  rewrite fmap_cons, IH. f_equal. unfold activate.
  case_bool_decide; [lia|done].
Qed.

Lemma background2_refl n w : background n w w.
Proof. by split_and!. Qed.

Lemma background2_trans n w1 w2 w3 :
  background n w1 w2 → background n w2 w3 → background n w1 w3.
Proof.
  intros (Hc & Hi & Hr & Hn & Ho) (Hc' & Hi' & Hr' & Hn' & Ho'). split_and!; [congruence..|].
  intros H. rewrite Ho'; [by apply Ho|]. by rewrite Ho.
Qed.

Lemma run_background2 keep n w t :
  settled keep n w → t ∈ pending (timers w) → activation n t →
  tid t ∉ tid <$> keep →
  let w' := run_callback (act t) (with_timers (clearTimeout (tid t) (timers w)) w) in
  settled keep n w' ∧ background n w w'.
Proof.
  intros Hs Hin (o & Ho & Hlt) Hid. rewrite Ho. simpl. split.
  - unfold settled in *. destruct w as [? [[]|] ? ? ? ? ?]; simpl in *;
      by apply (kept_clear_other (activation n) keep).
  - split_and!; try (by destruct w as [? [[]|] ? ? ? ? ?]).
    intros Hov. destruct w as [? [[]|] ? ? ? ? ?]; plumb2; [|done].
    f_equal. by apply (activate_below2 n).
Qed.

Lemma timers_with_timers2 q w : timers (with_timers q w) = q.
Proof. done. Qed.

Lemma tick_background2 keep n w :
  settled keep n w → Forall (λ t, clock w + 1 < due t) keep →
  let w' := step w Tick in
  settled keep n w' ∧ clock w' = clock w + 1 ∧
  next_id (timers w') = next_id (timers w) ∧ rest w' = rest w ∧
  next_oid w' = next_oid w ∧
  (Forall (λ ov, n ≤ oid ov) (overlays_of w) → overlays_of w' = overlays_of w).
Proof.
  intros Hs Hdue.
  destruct (tick_bg timers with_timers run_callback (activation n) (background n)
              timers_with_timers2 (background2_refl n) (background2_trans n)
              (λ keep, run_background2 keep n) keep w Hs Hdue)
    as [H1 (Hc & Hi & Hr & Hn & Ho)].
  cbv zeta. change (step w Tick) with (tick timers with_timers run_callback w).
  split_and!; [done|by rewrite Hc; destruct w|by rewrite Hi; destruct w
              |by rewrite Hr; destruct w as [? [[]|] ? ? ? ? ?]
              |by rewrite Hn; destruct w|].
  intros Hov. rewrite Ho; by destruct w as [? [[]|] ? ? ? ? ?].
Qed.

Lemma tick_fires2 s keep' n w (F : world → Prop) :
  settled [s] n w → due s = clock w + 1 →
  (∀ t, t ∈ keep' → next_id (timers w) ≤ tid t) →
  (∀ w1, settled [s] n w1 →
     background n (with_timers (advance (timers w)) w) w1 →
     let w2 := run_callback (act s)
                 (with_timers (clearTimeout (tid s) (timers w1)) w1) in
     settled keep' n w2 ∧ F w2) →
  (∀ w2 w3, F w2 → background n w2 w3 → F w3) →
  let w' := step w Tick in settled keep' n w' ∧ F w'.
Proof.
  intros Hs Hdue Hnew Hfire Hclosed.
  by apply (tick_kept_fires timers with_timers run_callback (activation n)
              (background n) timers_with_timers2 (background2_refl n)
              (background2_trans n) (λ keep, run_background2 keep n) s keep' w F).
Qed.

Lemma background2_facts n w w' :
  background n w w' →
  button_of w' = button_of w ∧ inflight w' = inflight w ∧
  fields_of w' = fields_of w ∧ body_overflow w' = body_overflow w.
Proof.
  intros (_ & _ & Hr & _).
  assert (∀ w, button_of (rest w) = button_of w ∧ inflight (rest w) = inflight w ∧
               fields_of (rest w) = fields_of w ∧
               body_overflow (rest w) = body_overflow w) as Hrest
    by (by intros [? [[]|] ? ? ? ? ?]).
  destruct (Hrest w) as (<- & <- & <- & <-), (Hrest w') as (<- & <- & <- & <-).
  by rewrite Hr.
Qed.

(** ** Passive events while the button is disabled *)

Lemma elapsed2_cons e es :
  elapsed (e :: es) = (if is_tick e then 1 else 0) + elapsed es.
Proof.
  unfold elapsed. rewrite filter_cons. destruct (is_tick e); simpl; lia.
Qed.

Lemma run2_app w es es' : run w (es ++ es') = run (run w es) es'.
Proof. apply fold_left_app. Qed.

Lemma run2_cons w e es : run w (e :: es) = run (step w e) es.
Proof. reflexivity. Qed.

Lemma run2_snoc w es e : run w (es ++ [e]) = step (run w es) e.
Proof. by rewrite run2_app. Qed.

Lemma passive_locked2 keep n w e b :
  settled keep n w → button_of w = Some b → disabled b = true →
  passive e = true →
  Forall (λ t, clock w + (if is_tick e then 1 else 0) < due t) keep →
  let w' := step w e in
  settled keep n w' ∧ clock w' = clock w + (if is_tick e then 1 else 0) ∧
  button_of w' = Some b ∧ inflight w' = inflight w ∧
  next_oid w' = next_oid w ∧
  (overlays_of w = [] → overlays_of w' = []).
Proof.
  intros Hs Hb Hd He Hdue. destruct e; try discriminate He.
  - simpl. destruct w as [? [[? ? [b'|] ?]|] ? ? ? ? ?]; try discriminate Hb.
    simpl in *. injection Hb as ->. unfold submittable. simpl. rewrite Hd. simpl.
    split_and!; try done. unfold clock. simpl. lia.
  - simpl. destruct w as [? [[]|] ? ? ? ? ?]; simpl in *;
      split_and!; try done; unfold clock; simpl; lia.
  - simpl. destruct w as [? [[]|] ? ? ? ? ?]; simpl in *;
      split_and!; try done; try (unfold clock; simpl; lia).
    unfold overlays_of. simpl. by intros ->.
  - destruct (tick_background2 keep n w Hs Hdue) as (Hs' & Hc & _ & Hr & Hn & Ho).
    assert (∀ w, button_of (rest w) = button_of w ∧ inflight (rest w) = inflight w)
      as Hrest by (by intros [? [[]|] ? ? ? ? ?]).
    destruct (Hrest w) as (Hb0 & Hi0), (Hrest (step w Tick)) as (Hb1 & Hi1).
    split_and!; try done.
    + rewrite <- Hb1, Hr, Hb0. done.
    + rewrite <- Hi1, Hr, Hi0. done.
    + intros Hnil. rewrite Ho; [done|]. rewrite Hnil. constructor.
Qed.

Lemma run_locked2 keep n es w b :
  settled keep n w → button_of w = Some b → disabled b = true →
  quiet es →
  Forall (λ t, clock w + elapsed es < due t) keep →
  let w' := run w es in
  settled keep n w' ∧ clock w' = clock w + elapsed es ∧
  button_of w' = Some b ∧ inflight w' = inflight w ∧
  next_oid w' = next_oid w ∧
  (overlays_of w = [] → overlays_of w' = []).
Proof.
  revert w. induction es as [|e es IH]; intros w Hs Hb Hd Hes Hdue; simpl.
  - split_and!; try done. unfold elapsed. simpl. lia.
  - apply Forall_cons in Hes as [He Hes].
    rewrite elapsed2_cons in Hdue.
    destruct (passive_locked2 keep n w e b Hs Hb Hd He) as (Hs1 & Hc1 & Hb1 & Hi1 & Hn1 & Ho1).
    { eapply Forall_impl; [exact Hdue|]. simpl. intros. lia. }
    destruct (IH (step w e) Hs1 Hb1 Hd Hes) as (Hs2 & Hc2 & Hb2 & Hi2 & Hn2 & Ho2).
    { eapply Forall_impl; [exact Hdue|]. simpl. intros. rewrite Hc1. lia. }
    fold (run (step w e) es).
    split_and!; try done; try congruence.
    + rewrite Hc2, Hc1, elapsed2_cons. lia.
    + intros. apply Ho2. by apply Ho1.
Qed.

(** ** The transitions of one attempt *)

Lemma submit_starts2 w b :
  idle w → button_of w = Some b → disabled b = false →
  let w' := step w Submit in
  ∃ r, rid r = next_rid w ∧ originalText r = label b ∧
    in_flight r (Button (has_btn_text b) "Sending..." true) w' ∧
    clock w' = clock w ∧ next_oid w' = next_oid w ∧
    overlays_of w' = overlays_of w.
Proof.
  intros [Hi [Hs _]] Hb Hd.
  destruct w as [q [[a fs [b'|] ovs]|] rs nr no bo un]; try discriminate Hb.
  simpl in *. injection Hb as ->. subst rs.
  unfold submittable. simpl. rewrite Hd. simpl.
  exists (Request nr (label b) (Post a (formData fs) "application/json")).
  split_and!; try reflexivity.
  split_and!; try reflexivity. split; [exact Hs|constructor].
Qed.

Lemma lookup_single2 r w :
  inflight w = [r] → lookup_request (rid r) w = Some r.
Proof.
  intros Hi. unfold lookup_request. rewrite Hi. simpl.
  rewrite bool_decide_eq_true_2; done.
Qed.

Lemma reverting2_intro L D b id w :
  inflight w = [] → settled [Timer id D (Restore L)] (next_oid w) w →
  clock w < D → button_of w = Some b → disabled b = true →
  reverting L D b w.
Proof.
  intros Hi Hs Hc Hb Hd. split_and!; try done.
  exists id. split; [done|]. by apply Forall_singleton.
Qed.

Lemma on_catch_reverts2 r b w :
  in_flight r b w →
  let w' := on_catch r w in
  reverting (originalText r) (clock w + 3000)
    (Button (has_btn_text b) "Error - Try Again" true) w' ∧
  clock w' = clock w ∧ overlays_of w' = overlays_of w.
Proof.
  intros (Hi & [Hs _] & Hb & Hd).
  destruct w as [q [[a fs [b'|] ovs]|] rs nr no bo un]; try discriminate Hb.
  plumb2. injection Hb as ->. subst rs.
  rewrite filter_cons. rewrite decide_False by (intros H; by apply H). simpl.
  rewrite Hd. split_and!; try reflexivity.
  eapply reverting2_intro; try reflexivity; [|unfold clock; simpl; lia].
  apply (kept_set_keep (activation no) (Restore (originalText r)) 3000 q Hs).
Qed.

(** The network rejects the fetch, or the response is not ok. *)
Lemma failure_reverts2 r b w e :
  in_flight r b w → e = FetchReject (rid r) ∨ e = FetchResolve (rid r) false →
  let w' := step w e in
  reverting (originalText r) (clock w + 3000)
    (Button (has_btn_text b) "Error - Try Again" true) w' ∧
  clock w' = clock w ∧ overlays_of w' = overlays_of w.
Proof.
  intros Hfl He. pose proof Hfl as (Hi & _).
  destruct He as [-> | ->]; simpl; rewrite (lookup_single2 r w Hi);
    by apply on_catch_reverts2.
Qed.

(** The response is ok: the overlay is shown and the form reset; the
    button is left as the submission set it. *)
Lemma success_settles2 r b w :
  in_flight r b w →
  let w' := step w (FetchResolve (rid r) true) in
  inflight w' = [] ∧
  calm [Timer (next_id (timers w)) (clock w + 10) (Activate (next_oid w))] (next_oid w) w' ∧
  button_of w' = Some b ∧
  overlays_of w' =
    overlays_of w ++ [Overlay (next_oid w) {[ "form-success-overlay" ]} "Inquiry Received"] ∧
  fields_of w' = reset_field <$> fields_of w ∧
  clock w' = clock w ∧ next_oid w' = next_oid w + 1.
Proof.
  intros (Hi & [Hs Hdue] & Hb & Hd). simpl.
  rewrite (lookup_single2 r w Hi).
  destruct w as [q [[a fs [b'|] ovs]|] rs nr no bo un]; try discriminate Hb.
  plumb2. subst rs. simpl.
  rewrite filter_cons. rewrite decide_False by (intros H; by apply H). simpl.
  unfold calm. plumb2.
  split_and!; try done.
  - apply (kept_set_keep (activation no) (Activate no) 10 q Hs).
  - apply Forall_singleton. simpl. lia.
Qed.

Lemma settled_q_absorb2 t o n q :
  settled_q [t] n q → act t = Activate o → o ≤ n → settled_q [] (n + 1) q.
Proof.
  intros Hs Ht Ho. eapply kept_absorb; [exact Hs| |].
  - exists o. split; [done|lia].
  - intros u (o' & ? & ?). exists o'. split; [done|lia].
Qed.

(** After a success nothing is in flight, nothing will restore the
    button, and the button is still disabled. *)
Lemma success_idle2 r b w :
  in_flight r b w →
  let w' := step w (FetchResolve (rid r) true) in
  idle w' ∧ button_of w' = Some b ∧ disabled b = true.
Proof.
  intros H. pose proof H as (_ & _ & _ & Hd).
  destruct (success_settles2 r b w H) as (Hi & [Hs _] & Hb & _ & _ & _ & Hn).
  cbv zeta. split; [|done].
  split; [done|]. split; [|constructor]. unfold settled. rewrite Hn.
  eapply settled_q_absorb2; [exact Hs|done|lia].
Qed.

Lemma revert_restores2 L D b w :
  reverting L D b w → clock w + 1 = D →
  let w' := step w Tick in
  idle w' ∧ button_of w' = Some (Button (has_btn_text b) L false) ∧ clock w' = D.
Proof.
  intros (Hi & (id & Hs & Hdue) & Hb & Hd) HD.
  set (s := Timer id D (Restore L)) in *.
  destruct (tick_fires2 s [] (next_oid w) w
    (λ w2, inflight w2 = [] ∧ button_of w2 = Some (Button (has_btn_text b) L false) ∧
           clock w2 = D ∧ next_oid w2 = next_oid w)) as (Hs' & Hi' & Hb' & Hc' & Hn');
    try done.
  - intros t Ht. by apply elem_of_nil in Ht.
  - intros w1 Hs1 Hbg.
    destruct (background2_facts _ _ _ Hbg) as (Hb1 & Hi1 & _).
    destruct Hbg as (Hc1 & Hid1 & _ & Hn1 & _).
    simpl. split.
    + destruct w1 as [? [[]|] ? ? ? ? ?]; plumb2;
        apply (kept_clear_keep (activation (next_oid w)) s _ Hs1).
    + destruct w1 as [? [[? ? [?|] ?]|] ? ? ? ? ?], w as [? [[? ? [?|] ?]|] ? ? ? ? ?];
        plumb2; try discriminate; split_and!; try congruence; try lia.
  - intros w2 w3 (? & ? & ? & ?) Hbg.
    destruct (background2_facts _ _ _ Hbg) as (Hb1 & Hi1 & _).
    destruct Hbg as (Hc1 & _ & _ & Hn1 & _).
    split_and!; congruence.
  - rewrite <- Hn' in Hs'. split_and!; try done.
Qed.

(** ** Whole attempts *)

#[local] Arguments step : simpl never.
#[local] Arguments run : simpl never.

Lemma flight_holds2 r b w es :
  in_flight r b w → quiet es →
  in_flight r b (run w es) ∧ clock (run w es) = clock w + elapsed es ∧
  next_oid (run w es) = next_oid w ∧
  (overlays_of w = [] → overlays_of (run w es) = []).
Proof.
  intros (Hi & [Hs Hdue] & Hb & Hd) Hes.
  destruct (run_locked2 _ (next_oid w) es w b Hs Hb Hd Hes)
    as (Hs' & Hc' & Hb' & Hi' & Hn' & Ho'); [constructor|].
  unfold in_flight, calm. rewrite Hn'.
  split_and!; try done; try congruence.
Qed.

Lemma revert_holds2 L D b w es :
  reverting L D b w → quiet es → clock w + elapsed es < D →
  reverting L D b (run w es) ∧ clock (run w es) = clock w + elapsed es.
Proof.
  intros (Hi & (id & Hs & Hdue) & Hb & Hd) Hes Hlt.
  destruct (run_locked2 _ (next_oid w) es w b Hs Hb Hd Hes)
    as (Hs' & Hc' & Hb' & Hi' & Hn' & Ho').
  { apply Forall_singleton. simpl. lia. }
  split; [|done]. rewrite <- Hn' in Hs'.
  eapply reverting2_intro; try done; try congruence; try lia.
Qed.

Lemma failed_attempt_reverts2 w b es :
  idle w → button_of w = Some b → disabled b = false →
  failed_attempt (next_rid w) es →
  reverting (label b) (clock (run w es) + 3000)
    (Button (has_btn_text b) "Error - Try Again" true) (run w es).
Proof.
  intros Hidle Hb Hd Hes.
  destruct (submit_starts2 w b Hidle Hb Hd) as (r & Hr & HL & Hfl & Hc & _).
  rewrite <- Hr in Hes. rewrite <- HL.
  destruct Hes as [pre Hpre|pre Hpre]; rewrite run2_cons, run2_snoc;
    destruct (flight_holds2 r _ _ pre Hfl Hpre) as (Hfl1 & Hc1 & _).
  - destruct (failure_reverts2 r _ _ (FetchReject (rid r)) Hfl1) as (Hrev & Hc2 & _);
      [by left|].
    cbv zeta in Hc2. rewrite Hc2. exact Hrev.
  - destruct (failure_reverts2 r _ _ (FetchResolve (rid r) false) Hfl1) as (Hrev & Hc2 & _);
      [by right|].
    cbv zeta in Hc2. rewrite Hc2. exact Hrev.
Qed.

Lemma reverting_round_trip2 L D b w post :
  reverting L D b w → quiet post →
  (clock w + elapsed post < D → button_of (run w post) = Some b) ∧
  (clock w + elapsed post + 1 = D →
     button_of (run w (post ++ [Tick])) = Some (Button (has_btn_text b) L false) ∧
     idle (run w (post ++ [Tick]))).
Proof.
  intros Hrev Hpost. split; intros Hlt.
  - destruct (revert_holds2 L D b w post Hrev Hpost Hlt) as [(_ & _ & Hb & _) _]. done.
  - destruct (revert_holds2 L D b w post Hrev Hpost) as [Hrev' Hc]; [lia|].
    rewrite run2_snoc.
    destruct (revert_restores2 L D b _ Hrev') as (Hidle & Hb & _); [lia|]. done.
Qed.

(** ** The success overlay *)

Lemma elapsed2_repeat_tick k : elapsed (repeat Tick k) = N.of_nat k.
Proof.
  induction k as [|k IH]; [done|].
  change (repeat Tick (S k)) with (Tick :: repeat Tick k).
  rewrite elapsed2_cons, IH. simpl. lia.
Qed.

Lemma quiet2_repeat_tick k : quiet (repeat Tick k).
Proof. induction k; constructor; done. Qed.

Lemma close_overlay2 w o :
  overlays_of (step w (CloseOverlay o)) = filter (λ ov, oid ov ≠ o) (overlays_of w).
Proof. unfold step. by destruct w as [? [[]|] ? ? ? ? ?]. Qed.

Lemma overlay_activates2 id D o ov w :
  calm [Timer id D (Activate o)] o w → clock w + 1 = D →
  overlays_of w = [ov] → oid ov = o →
  overlays_of (step w Tick) = [activate o ov].
Proof.
  intros [Hs Hdue] HD Hov Ho.
  set (s := Timer id D (Activate o)) in *.
  destruct (tick_fires2 s [] o w (λ w2, overlays_of w2 = [activate o ov]))
    as (_ & H); try done.
  - intros t Ht. by apply elem_of_nil in Ht.
  - intros w1 Hs1 (_ & _ & _ & _ & Hbg). split.
    + destruct w1 as [? [[]|] ? ? ? ? ?]; plumb2;
        apply (kept_clear_keep (activation o) s _ Hs1).
    + assert (overlays_of w1 = [ov]) as Hov1.
      { rewrite Hbg; destruct w as [? [[]|] ? ? ? ? ?]; plumb2; try done.
        rewrite Hov. apply Forall_singleton. lia. }
      destruct w1 as [? [[]|] ? ? ? ? ?]; plumb2; [|done]. by rewrite Hov1.
  - intros w2 w3 Hw2 (_ & _ & _ & _ & Hbg). rewrite Hbg; [done|].
    rewrite Hw2. apply Forall_singleton. unfold activate.
    rewrite bool_decide_eq_true_2 by done. simpl. lia.
Qed.

Lemma overlays_wait2 id D o w k :
  calm [Timer id D (Activate o)] o w →
  Forall (λ ov, o ≤ oid ov) (overlays_of w) →
  clock w + N.of_nat k < D →
  let w' := run w (repeat Tick k) in
  calm [Timer id D (Activate o)] o w' ∧ clock w' = clock w + N.of_nat k ∧
  overlays_of w' = overlays_of w.
Proof.
  revert w. induction k as [|k IH]; intros w [Hs Hdue] Hov Hlt.
  - cbv zeta. change (run w (repeat Tick 0)) with w. split_and!; try done. lia.
  - change (repeat Tick (S k)) with (Tick :: repeat Tick k). cbv zeta. rewrite run2_cons.
    destruct (tick_background2 _ o w Hs) as (Hs1 & Hc1 & _ & _ & _ & Ho1).
    { apply Forall_singleton. simpl. lia. }
    destruct (IH (step w Tick)) as (Hcalm & Hc2 & Ho2).
    + split; [done|]. apply Forall_singleton. simpl. lia.
    + by rewrite Ho1.
    + lia.
    + split_and!; try done; [lia|]. rewrite Ho2. by apply Ho1.
Qed.

(** A successful attempt, from a page that shows no overlay. *)
Lemma success_attempt2 w b pre :
  idle w → button_of w = Some b → disabled b = false →
  overlays_of w = [] → quiet pre →
  let w1 := run w (Submit :: pre ++ [FetchResolve (next_rid w) true]) in
  let o := Overlay (next_oid w) {[ "form-success-overlay" ]} "Inquiry Received" in
  idle w1 ∧ button_of w1 = Some (Button (has_btn_text b) "Sending..." true) ∧
  Forall (λ f, value f = defaultValue f) (fields_of w1) ∧
  overlays_of w1 = [o] ∧
  (∀ k, (k < 10)%nat → overlays_of (run w1 (repeat Tick k)) = [o]) ∧
  overlays_of (run w1 (repeat Tick 10)) = [activate (oid o) o] ∧
  overlays_of (step w1 (CloseOverlay (oid o))) = [].
Proof.
  intros Hidle Hb Hd Hov Hpre.
  destruct (submit_starts2 w b Hidle Hb Hd) as (r & Hr & HL & Hfl & Hc & Hn & Ho).
  cbv zeta. rewrite run2_cons, run2_snoc, <- Hr.
  destruct (flight_holds2 r _ _ pre Hfl Hpre) as (Hfl1 & Hc1 & Hn1 & Ho1).
  rewrite Ho in Ho1. specialize (Ho1 Hov).
  set (w0 := run (step w Submit) pre) in *.
  destruct (success_idle2 r _ w0 Hfl1) as (Hidle1 & Hb1 & _).
  destruct (success_settles2 r _ w0 Hfl1) as (Hi2 & Hcalm & Hb2 & Ho2 & Hf2 & Hc2 & Hn2).
  rewrite Ho1, Hn1, Hn in Ho2. rewrite Hn1, Hn in Hcalm. simpl in Ho2.
  set (w1 := step w0 (FetchResolve (rid r) true)) in *.
  split_and!; try done.
  - rewrite Hf2. apply Forall_fmap, Forall_true. done.
  - intros k Hk.
    destruct (overlays_wait2 _ _ _ w1 k Hcalm) as (_ & _ & Hw).
    + rewrite Ho2. apply Forall_singleton. simpl. lia.
    + lia.
    + by rewrite Hw.
  - change (repeat Tick 10) with (repeat Tick 9 ++ [Tick]). rewrite run2_snoc.
    destruct (overlays_wait2 _ _ _ w1 9 Hcalm) as (Hcalm9 & Hc9 & Hw).
    + rewrite Ho2. apply Forall_singleton. simpl. lia.
    + lia.
    + eapply overlay_activates2; [exact Hcalm9|lia|by rewrite Hw|done].
  - rewrite close_overlay2, Ho2, filter_cons. rewrite decide_False; [done|].
    simpl. by intros H.
Qed.

(** Nothing that happens after a success, short of a reload, enables the
    button again. *)
Lemma success_leaves_disabled2 w b pre post :
  idle w → button_of w = Some b → disabled b = false →
  quiet pre → quiet post →
  let w1 := run w (Submit :: pre ++ [FetchResolve (next_rid w) true]) in
  button_of (run w1 post) = Some (Button (has_btn_text b) "Sending..." true).
Proof.
  intros Hidle Hb Hd Hpre Hpost.
  destruct (submit_starts2 w b Hidle Hb Hd) as (r & Hr & HL & Hfl & _).
  cbv zeta. rewrite run2_cons, run2_snoc, <- Hr.
  destruct (flight_holds2 r _ _ pre Hfl Hpre) as (Hfl1 & _).
  destruct (success_idle2 r _ _ Hfl1) as ((_ & Hs & _) & Hb1 & Hd1).
  destruct (run_locked2 [] _ post _ _ Hs Hb1 Hd1 Hpost) as (_ & _ & Hb2 & _);
    [constructor|done].
Qed.

(** ** Every reachable page is in one of the three phases *)

Lemma lookup2_other r (k : N) w :
  inflight w = [r] → k ≠ rid r → lookup_request k w = None.
Proof.
  intros Hi Hne. unfold lookup_request. rewrite Hi. simpl.
  rewrite bool_decide_eq_false_2; [done|]. intros Heq. by apply Hne.
Qed.

Lemma lookup2_none (k : N) w : inflight w = [] → lookup_request k w = None.
Proof. intros Hi. unfold lookup_request. by rewrite Hi. Qed.

Lemma idle_step2 w e : idle w → phase (step w e).
Proof.
  intros Hidle. pose proof Hidle as [Hi [Hs _]].
  destruct e as [|i v|o| |k ok|k].
  - unfold step. destruct (contactForm w) as [f|] eqn:Hf; [|by left].
    destruct (submittable f) eqn:Hsub; [|by left].
    destruct (submitBtn f) as [b|] eqn:Hb.
    + assert (button_of w = Some b) as Hbw by (unfold button_of; by rewrite Hf).
      assert (disabled b = false) as Hd.
      { unfold submittable in Hsub. rewrite Hb in Hsub. by destruct (disabled b). }
      destruct (submit_starts2 w b Hidle Hbw Hd) as (r & _ & _ & Hfl & _).
      unfold step in Hfl. rewrite Hf, Hsub in Hfl. right. left. by eexists _, _.
    + left. unfold on_submit. rewrite Hb. by destruct w.
  - left. unfold step. destruct w as [? [[]|] ? ? ? ? ?]; by split.
  - left. unfold step. destruct w as [? [[]|] ? ? ? ? ?]; by split.
  - left. destruct (tick_background2 [] (next_oid w) w Hs) as (Hs' & _ & _ & Hr & Hn & _);
      [constructor|].
    assert (∀ w, inflight (rest w) = inflight w) as Hrest
      by (by intros [? [[]|] ? ? ? ? ?]).
    split; [by rewrite <- Hrest, Hr, Hrest|].
    split; [|constructor]. by rewrite Hn.
  - left. unfold step. by rewrite (lookup2_none _ _ Hi).
  - left. unfold step. by rewrite (lookup2_none _ _ Hi).
Qed.

Lemma in_flight_step2 r b w e : in_flight r b w → phase (step w e).
Proof.
  intros Hfl. pose proof Hfl as (Hi & [Hs _] & Hb & Hd).
  destruct (passive e) eqn:He.
  - destruct (flight_holds2 r b w [e] Hfl) as (Hfl' & _); [by constructor|].
    right. left. by eexists _, _.
  - destruct e as [|i v|o| |k ok|k]; try discriminate He.
    + destruct (decide (k = rid r)) as [->|Hk].
      * destruct ok.
        -- left. by destruct (success_idle2 r b w Hfl).
        -- destruct (failure_reverts2 r b w (FetchResolve (rid r) false) Hfl)
             as (Hrev & _); [by right|].
           right. right. by eexists _, _, _.
      * right. left. exists r, b. unfold step.
        by rewrite (lookup2_other r k w Hi).
    + destruct (decide (k = rid r)) as [->|Hk].
      * destruct (failure_reverts2 r b w (FetchReject (rid r)) Hfl)
          as (Hrev & _); [by left|].
        right. right. by eexists _, _, _.
      * right. left. exists r, b. unfold step.
        by rewrite (lookup2_other r k w Hi).
Qed.

Lemma reverting_step2 L D b w e : reverting L D b w → phase (step w e).
Proof.
  intros Hrev. pose proof Hrev as (Hi & (id & Hs & Hdue) & Hb & Hd).
  apply Forall_inv in Hdue. simpl in Hdue.
  destruct (passive e) eqn:He.
  - destruct (decide (is_tick e = true ∧ clock w + 1 = D)) as [[Ht HD]|Hnot].
    + destruct e; try discriminate Ht.
      destruct (revert_restores2 L D b w Hrev HD) as (Hidle & _). by left.
    + destruct (revert_holds2 L D b w [e] Hrev) as (Hrev' & _).
      * by constructor.
      * rewrite elapsed2_cons. unfold elapsed. simpl.
        destruct (is_tick e); [|lia].
        assert (clock w + 1 ≠ D) by (intros ?; by apply Hnot). lia.
      * right. right. by eexists _, _, _.
  - right. right. exists L, D, b.
    destruct e as [|i v|o| |k ok|k]; try discriminate He.
    + unfold step. by rewrite (lookup2_none _ _ Hi).
    + unfold step. by rewrite (lookup2_none _ _ Hi).
Qed.

Lemma phase_step2 w e : phase w → phase (step w e).
Proof.
  intros [H|[(r & b & H)|(L & D & b & H)]].
  - by apply idle_step2.
  - by eapply in_flight_step2.
  - by eapply reverting_step2.
Qed.

Lemma phase_run2 w es : phase w → phase (run w es).
Proof.
  revert w. induction es as [|e es IH]; intros w Hw; [done|].
  rewrite run2_cons. apply IH. by apply phase_step2.
Qed.

Lemma load_idle2 f o : idle (load f o).
Proof.
  split; [done|]. split; [|constructor].
  split; [split|split]; simpl; constructor.
Qed.

(** On a page that was loaded and has lived through anything since, an
    enabled submit button means that nothing is in flight and nothing is
    being reverted; and at most one request is in flight. *)
Lemma reachable_enabled_idle2 f o es b :
  button_of (run (load f o) es) = Some b → disabled b = false →
  idle (run (load f o) es).
Proof.
  intros Hb Hd.
  destruct (phase_run2 (load f o) es) as [H|[(r & b' & H)|(L & D & b' & H)]].
  - left. apply load_idle2.
  - done.
  - destruct H as (_ & _ & Hb' & Hd'). congruence.
  - destruct H as (_ & _ & Hb' & Hd'). congruence.
Qed.

Lemma one_request_at_a_time2 f o es :
  (length (inflight (run (load f o) es)) ≤ 1)%nat.
Proof.
  destruct (phase_run2 (load f o) es) as [H|[(r & b' & H)|(L & D & b' & H)]].
  - left. apply load_idle2.
  - destruct H as [-> _]. simpl. lia.
  - destruct H as [-> _]. simpl. lia.
  - destruct H as [-> _]. simpl. lia.
Qed.

End Contact2.

(** * Scroll reveal: an element is activated at most once *)

Section Reveal.
Import Revealed.

Lemma activations_absent el (log : list nat) :
  el ∉ log → activations el log = 0%nat.
Proof.
  unfold activations. induction log as [|x l IH]; intros Hel; [done|].
  apply not_elem_of_cons in Hel as [Hne Hel].
  rewrite filter_cons. case_decide; [by subst|]. by apply IH.
Qed.

Lemma activations_NoDup el (log : list nat) :
  NoDup log → (activations el log ≤ 1)%nat.
Proof.
  induction 1 as [|x l Hx Hl IH]; [unfold activations; simpl; lia|].
  unfold activations in *. rewrite filter_cons. case_decide as Heq; simpl; [|done].
  subst x. pose proof (activations_absent el l Hx) as H0.
  unfold activations in H0. lia.
Qed.

(** ** The observer *)

Lemma observe_NoDup el (o : V1.Reveal.observer) :
  NoDup (o.*1) → NoDup ((V1.Reveal.observe el o).*1).
Proof.
  intros Ho. unfold V1.Reveal.observe. case_bool_decide as Hin; [done|].
  rewrite fmap_app. apply NoDup_app. split_and!; [done| |apply NoDup_singleton].
  intros x Hx Hx'. apply list_elem_of_singleton in Hx' as ->. done.
Qed.

Lemma init_NoDup (els : list nat) (o : V1.Reveal.observer) :
  NoDup (o.*1) → NoDup ((fold_left (λ o el, V1.Reveal.observe el o) els o).*1).
Proof.
  revert o. induction els as [|el els IH]; intros o Ho; simpl; [done|].
  apply IH. by apply observe_NoDup.
Qed.

Lemma unobserve_sublist el (o : V1.Reveal.observer) :
  (V1.Reveal.unobserve el o).*1 `sublist_of` o.*1.
Proof. apply fmap_sublist, sublist_filter. Qed.

Lemma unobserve_elem el x (o : V1.Reveal.observer) :
  x ∈ (V1.Reveal.unobserve el o).*1 ↔ x ∈ o.*1 ∧ x ≠ el.
Proof.
  unfold V1.Reveal.unobserve. rewrite !list_elem_of_fmap. split.
  - intros (t & -> & Ht). apply list_elem_of_filter in Ht as [Hne Ht]. eauto.
  - intros [(t & -> & Ht) Hne]. exists t. split; [done|].
    apply list_elem_of_filter. done.
Qed.

Lemma report_targets visible (o : V1.Reveal.observer) :
  (V1.Reveal.report visible o).*1 = o.*1.
Proof.
  unfold V1.Reveal.report. rewrite <- list_fmap_compose. by apply list_fmap_ext.
Qed.

Lemma entries_sublist visible (o : V1.Reveal.observer) :
  (V1.Reveal.entries_of visible o).*1 `sublist_of` o.*1.
Proof.
  unfold V1.Reveal.entries_of. induction o as [|t o IH]; simpl; [constructor|].
  case_bool_decide; simpl.
  - by apply sublist_cons.
  - by apply sublist_skip.
Qed.

(** Each batch names an element at most once, and only observed ones. *)
Lemma entries_fit visible (o : V1.Reveal.observer) :
  NoDup (o.*1) →
  NoDup ((V1.Reveal.entries_of visible o).*1) ∧
  ∀ x, x ∈ (V1.Reveal.entries_of visible o).*1 → x ∈ o.*1.
Proof.
  intros Ho. pose proof (entries_sublist visible o) as Hsub. split.
  - by eapply sublist_NoDup.
  - intros x Hx. by eapply elem_of_sublist.
Qed.

(** ** First revision *)

Lemma on_entry_tidy1 p (entry : nat * bool) :
  tidy1 p → entry.1 ∈ (V1.Reveal.revealObserver p).*1 →
  tidy1 (V1.Reveal.on_entry p entry) ∧
  ∀ x, x ∈ (V1.Reveal.revealObserver p).*1 → x ≠ entry.1 →
       x ∈ (V1.Reveal.revealObserver (V1.Reveal.on_entry p entry)).*1.
Proof.
  intros (Ha & Ho & Hd) Hin. unfold V1.Reveal.on_entry.
  destruct entry as [el [|]]; simpl in *; [|by split].
  unfold tidy1. simpl. split; [split_and!|].
  - apply NoDup_app. split_and!; [done| |apply NoDup_singleton].
    intros x Hx Hx'. apply list_elem_of_singleton in Hx' as ->. by apply (Hd el).
  - eapply sublist_NoDup; [exact Ho|apply unobserve_sublist].
  - intros x Hx. rewrite unobserve_elem. intros [Hxo Hne].
    apply elem_of_app in Hx as [Hx|Hx]; [by apply (Hd x)|].
    by apply list_elem_of_singleton in Hx.
  - intros x Hx Hne. by apply unobserve_elem.
Qed.

Lemma callback_tidy1 (entries : list (nat * bool)) p :
  tidy1 p → NoDup (entries.*1) →
  (∀ x, x ∈ entries.*1 → x ∈ (V1.Reveal.revealObserver p).*1) →
  tidy1 (V1.Reveal.callback entries p).
Proof.
  unfold V1.Reveal.callback. revert p.
  induction entries as [|entry entries IH]; intros p Hp Hnd Hin; simpl; [done|].
  rewrite fmap_cons in Hnd. apply NoDup_cons in Hnd as [Hfresh Hnd].
  destruct (on_entry_tidy1 p entry Hp) as [Hp' Hkeep].
  { apply Hin. rewrite fmap_cons. by left. }
  apply IH; [done|done|].
  intros x Hx. apply Hkeep.
  - apply Hin. rewrite fmap_cons. by right.
  - by intros ->.
Qed.

Lemma frame_tidy1 p visible : tidy1 p → tidy1 (V1.Reveal.frame p visible).
Proof.
  intros (Ha & Ho & Hd). unfold V1.Reveal.frame.
  set (p1 := V1.Reveal.Page _ _ _).
  assert (tidy1 p1) as Hp1.
  { split_and!; simpl; [done|by rewrite report_targets|].
    intros el. rewrite report_targets. apply Hd. }
  case_bool_decide as Hnil; [done|].
  destruct (entries_fit visible (V1.Reveal.revealObserver p) Ho) as [Hnd Hin].
  apply callback_tidy1; [done|done|].
  intros x Hx. simpl. rewrite report_targets. by apply Hin.
Qed.

Lemma run_tidy1 p frames : tidy1 p → tidy1 (V1.Reveal.run p frames).
Proof.
  unfold V1.Reveal.run. revert p.
  induction frames as [|v frames IH]; intros p Hp; simpl; [done|].
  apply IH. by apply frame_tidy1.
Qed.

Lemma init_tidy1 els classes : tidy1 (V1.Reveal.initScrollReveal els classes).
Proof.
  split_and!; simpl.
  - constructor.
  - apply init_NoDup. constructor.
  - intros el Hel. by apply elem_of_nil in Hel.
Qed.

(** ** Second revision *)

Lemma scheduled_inj (ts : list (Timers.timer nat)) t u :
  NoDup (Timers.act <$> ts) → t ∈ ts → u ∈ ts → Timers.act t = Timers.act u → t = u.
Proof.
  intros Hnd Ht Hu Heq.
  apply list_elem_of_lookup in Ht as [i Hi], Hu as [j Hj].
  assert (i = j) as ->.
  { eapply NoDup_lookup; [exact Hnd| |]; rewrite list_lookup_fmap.
    - by rewrite Hi.
    - rewrite Hj. simpl. by rewrite Heq. }
  congruence.
Qed.

Lemma fire_tidy2 p id :
  tidy2 p →
  tidy2 (Timers.fire V2.Reveal.timers V2.Reveal.with_timers V2.Reveal.add_active p id).
Proof.
  intros (Ha & Ho & Hs & Hd & He). unfold Timers.fire.
  destruct (List.find _ _) as [t|] eqn:Hfind; [|done].
  apply find_tid_Some in Hfind as [Hin Hid].
  unfold tidy2, scheduled in *. destruct p as [o cl log [c n ts]]. simpl in *.
  assert (Timers.act t ∈ Timers.act <$> ts) as Hsched
    by (apply list_elem_of_fmap; eauto).
  assert (∀ x, x ∈ Timers.act <$> filter (λ u, Timers.tid u ≠ id) ts →
               x ∈ Timers.act <$> ts ∧ x ≠ Timers.act t) as Hrest.
  { intros x Hx. apply list_elem_of_fmap in Hx as (u & -> & Hu).
    apply list_elem_of_filter in Hu as [Hne Hu]. split.
    - apply list_elem_of_fmap. eauto.
    - intros Heq. apply Hne. rewrite <- Hid. f_equal.
      by eapply scheduled_inj. }
  split_and!.
  - apply NoDup_app. split_and!; [done| |apply NoDup_singleton].
    intros x Hx Hx'. apply list_elem_of_singleton in Hx' as ->.
    destruct (Hd _ Hx) as [_ Hns]. done.
  - done.
  - eapply sublist_NoDup; [exact Hs|]. apply fmap_sublist, sublist_filter.
  - intros x Hx. apply elem_of_app in Hx as [Hx|Hx].
    + destruct (Hd _ Hx) as [Hno Hns]. split; [done|].
      intros Hx'. apply Hrest in Hx' as [? _]. done.
    + apply list_elem_of_singleton in Hx as ->. split; [by apply He|].
      intros Hx'. apply Hrest in Hx' as [_ ?]. done.
  - intros x Hx. apply Hrest in Hx as [Hx _]. by apply He.
Qed.

Lemma on_appearing_tidy2 p (ie : nat * (nat * bool)) :
  tidy2 p → ie.2.1 ∈ (V2.Reveal.revealObserver p).*1 →
  tidy2 (V2.Reveal.on_appearing p ie) ∧
  ∀ x, x ∈ (V2.Reveal.revealObserver p).*1 → x ≠ ie.2.1 →
       x ∈ (V2.Reveal.revealObserver (V2.Reveal.on_appearing p ie)).*1.
Proof.
  intros (Ha & Ho & Hs & Hd & He) Hin. destruct ie as [index [el vis]].
  unfold tidy2, scheduled in *. destruct p as [o cl log [c n ts]]. simpl in *.
  split; [split_and!|].
  - done.
  - eapply sublist_NoDup; [exact Ho|apply unobserve_sublist].
  - rewrite fmap_app. apply NoDup_app. split_and!; [done| |apply NoDup_singleton].
    intros x Hx Hx'. apply list_elem_of_singleton in Hx' as ->. simpl in *.
    by apply (He el).
  - intros x Hx. destruct (Hd _ Hx) as [Hno Hns]. split.
    + rewrite unobserve_elem. by intros [? _].
    + rewrite fmap_app, elem_of_app. intros [?|Hx']; [done|].
      apply list_elem_of_singleton in Hx'. simpl in Hx'. by subst x.
  - intros x. rewrite fmap_app, elem_of_app, unobserve_elem. intros [Hx|Hx].
    + intros [? _]. by apply (He x).
    + apply list_elem_of_singleton in Hx. simpl in Hx. by intros [_ ?].
  - intros x Hx Hne. by apply unobserve_elem.
Qed.

Lemma appearing_tidy2 (ies : list (nat * (nat * bool))) p :
  tidy2 p → NoDup ((ies.*2).*1) →
  (∀ ie, ie ∈ ies → ie.2.1 ∈ (V2.Reveal.revealObserver p).*1) →
  tidy2 (fold_left V2.Reveal.on_appearing ies p).
Proof.
  revert p. induction ies as [|ie ies IH]; intros p Hp Hnd Hin; simpl; [done|].
  rewrite !fmap_cons in Hnd. apply NoDup_cons in Hnd as [Hfresh Hnd].
  destruct (on_appearing_tidy2 p ie Hp) as [Hp' Hkeep]; [apply Hin; by left|].
  apply IH; [done|done|].
  intros ie' Hie'. apply Hkeep; [apply Hin; by right|].
  intros Heq. apply Hfresh. rewrite <- Heq.
  apply list_elem_of_fmap. exists ie'.2. split; [done|].
  apply list_elem_of_fmap. eauto.
Qed.

Lemma callback_tidy2 (entries : list (nat * bool)) p :
  tidy2 p → NoDup (entries.*1) →
  (∀ x, x ∈ entries.*1 → x ∈ (V2.Reveal.revealObserver p).*1) →
  tidy2 (V2.Reveal.callback entries p).
Proof.
  intros Hp Hnd Hin. unfold V2.Reveal.callback.
  set (appearing := filter (λ e : nat * bool, e.2 = true) entries).
  assert ((zip (seq 0 (length appearing)) appearing).*2 = appearing) as Hzip.
  { apply snd_zip. by rewrite length_seq. }
  apply appearing_tidy2; [done| |].
  - rewrite Hzip.
    eapply sublist_NoDup; [exact Hnd|]. apply fmap_sublist, sublist_filter.
  - intros [index entry] Hie. simpl.
    assert (entry ∈ appearing) as Hentry.
    { rewrite <- Hzip. apply list_elem_of_fmap. by exists (index, entry). }
    apply list_elem_of_filter in Hentry as [_ Hentry].
    apply Hin. apply list_elem_of_fmap. eauto.
Qed.

Lemma step_tidy2 p e : tidy2 p → tidy2 (V2.Reveal.step p e).
Proof.
  intros Hp. destruct e as [visible|]; simpl.
  - unfold V2.Reveal.frame. set (p1 := V2.Reveal.Page _ _ _ _).
    destruct Hp as (Ha & Ho & Hs & Hd & He).
    assert (tidy2 p1) as Hp1.
    { unfold tidy2, scheduled in *. simpl. rewrite report_targets. done. }
    case_bool_decide as Hnil; [done|].
    destruct (entries_fit visible (V2.Reveal.revealObserver p) Ho) as [Hnd Hin].
    apply callback_tidy2; [done|done|].
    intros x Hx. simpl. rewrite report_targets. by apply Hin.
  - unfold Timers.tick. apply fold_fire_inv.
    + by destruct p as [? ? ? []].
    + intros p' id _. apply fire_tidy2.
Qed.

Lemma run_tidy2 p es : tidy2 p → tidy2 (V2.Reveal.run p es).
Proof.
  unfold V2.Reveal.run. revert p.
  induction es as [|e es IH]; intros p Hp; simpl; [done|].
  apply IH. by apply step_tidy2.
Qed.

Lemma init_tidy2 els classes : tidy2 (V2.Reveal.initScrollReveal els classes).
Proof.
  split_and!; simpl.
  - constructor.
  - apply init_NoDup. constructor.
  - constructor.
  - intros el Hel. by apply elem_of_nil in Hel.
  - intros el Hel. by apply elem_of_nil in Hel.
Qed.

End Reveal.

(** * Mobile menu and scroll lock *)

Section Nav.
Import Js V2.Nav Locked.

Lemma contains_add c (l : ClassList.t) :
  ClassList.contains c (ClassList.add c l) = true.
Proof.
  unfold ClassList.contains, ClassList.add.
  apply bool_decide_eq_true, elem_of_union. right. by apply elem_of_singleton.
Qed.

Lemma contains_remove c (l : ClassList.t) :
  ClassList.contains c (ClassList.remove c l) = false.
Proof.
  unfold ClassList.contains, ClassList.remove.
  apply bool_decide_eq_false. rewrite elem_of_difference, elem_of_singleton. tauto.
Qed.

(** Right after the toggle's listener ran, the lock mirrors the menu. *)
Lemma toggle_syncs p t n :
  menuToggle p = Some t → nav p = Some n →
  let p' := on_toggle_click p in
  scroll_locked p' = menu_open p' ∧ menuToggle p' ≠ None.
Proof.
  intros Ht Hn. unfold on_toggle_click. rewrite Ht, Hn.
  unfold ClassList.toggle. destruct (ClassList.contains "active" n) eqn:Hc; simpl.
  - split; [|done]. unfold scroll_locked, menu_open. simpl.
    by rewrite contains_remove.
  - split; [|done]. unfold scroll_locked, menu_open. simpl.
    by rewrite contains_add.
Qed.

(** When the anchor listener closes the menu and runs to its end, it has
    cleared the lock. *)
Lemma anchor_close_unlocks targetId q p :
  let r := on_anchor_click targetId q p in
  r.2 = Normal → menu_open p = true → menu_open r.1 = false →
  body_overflow r.1 = "".
Proof.
  unfold on_anchor_click, menu_open.
  destruct (bool_decide _ || bool_decide _); simpl; [congruence|].
  destruct q as [| |top]; simpl; [done|congruence|].
  destruct (header p) as [h|]; simpl; [|done].
  destruct (nav p) as [n|] eqn:Hn; simpl; [|done].
  destruct (ClassList.contains "active" n) eqn:Hc; simpl; [|congruence].
  destruct (menuToggle p) as [t|]; simpl; done.
Qed.

(** On a page with its header and its toggle, the anchor listener closes
    an open menu: it runs to its end, the menu is closed, the toggle shows
    it closed and the lock is cleared. *)
Lemma anchor_closes_menu targetId top h t p :
  targetId ≠ "#" → targetId ≠ "" →
  header p = Some h → menuToggle p = Some t → menu_open p = true →
  let r := on_anchor_click targetId (Found top) p in
  r.2 = Normal ∧ menu_open r.1 = false ∧ body_overflow r.1 = "" ∧
  menuToggle r.1 =
    Some (Toggle (ClassList.remove "open" (tclass t)) (Some "false") (listening t)).
Proof.
  intros H1 H2 Hh Ht Ho. unfold on_anchor_click, menu_open in *.
  rewrite !bool_decide_eq_false_2 by done. simpl. rewrite Hh. simpl.
  destruct (nav p) as [n|]; [|done]. rewrite Ho. simpl. rewrite Ht. simpl.
  split_and!; try done. apply contains_remove.
Qed.

(** While the menu is closed the anchor listener leaves menu and lock as
    they are. *)
Lemma anchor_keeps_closed targetId q p :
  menu_open p = false →
  let r := on_anchor_click targetId q p in
  nav r.1 = nav p ∧ menuToggle r.1 = menuToggle p ∧ body_overflow r.1 = body_overflow p.
Proof.
  intros Ho. unfold on_anchor_click, menu_open in *.
  destruct (bool_decide _ || bool_decide _); simpl; [done|].
  destruct q as [| |top]; simpl; [done|done|].
  destruct (header p) as [h|]; simpl; [|done].
  destruct (nav p) as [n|]; simpl; [|done]. by rewrite Ho.
Qed.

(** No handler removes the header or the toggle. *)
Lemma step_keeps_elements p e :
  header (step p e) = header p ∧ (menuToggle p ≠ None → menuToggle (step p e) ≠ None).
Proof.
  destruct e as [|targetId q|]; simpl.
  - destruct (menuToggle p) as [t|] eqn:Ht; [|done].
    destruct (listening t); [|by rewrite Ht]. unfold on_toggle_click. rewrite Ht.
    destruct (nav p) as [n|]; [|by rewrite Ht].
    by destruct (ClassList.toggle "active" n).
  - unfold on_anchor_click.
    destruct (bool_decide _ || bool_decide _); simpl; [done|].
    destruct q as [| |top]; simpl; [done|done|].
    destruct (header p) as [h|] eqn:Hh; simpl; [|done].
    destruct (nav p) as [n|]; simpl; [|done].
    destruct (ClassList.contains "active" n); simpl; [|done].
    by destruct (menuToggle p).
  - done.
Qed.

Lemma run_keeps_elements p es :
  header (run p es) = header p ∧ (menuToggle p ≠ None → menuToggle (run p es) ≠ None).
Proof.
  unfold run. revert p. induction es as [|e es IH]; intros p; simpl; [done|].
  destruct (IH (step p e)) as [Hh Ht]. destruct (step_keeps_elements p e) as [Hh' Ht'].
  split; [congruence|]. intros H. by apply Ht, Ht'.
Qed.

Lemma init_keeps_elements p :
  header (initMobileMenu p) = header p ∧
  (menuToggle p ≠ None → menuToggle (initMobileMenu p) ≠ None).
Proof.
  unfold initMobileMenu.
  destruct (menuToggle p) as [t|] eqn:Ht; [|by rewrite Ht].
  destruct (nav p); simpl; by rewrite ?Ht.
Qed.

Lemma step_lock_follows_menu p e :
  lock_follows_menu p → lock_follows_menu (step p e).
Proof.
  destruct e as [|targetId q|]; simpl.
  - intros Hp. destruct (menuToggle p) as [t|] eqn:Ht; [|done].
    destruct (listening t); [|done].
    destruct (nav p) as [n|] eqn:Hn.
    + destruct (toggle_syncs p t n Ht Hn) as [Hsync Hsome].
      intros Hl. split; [|done]. by rewrite <- Hsync.
    + unfold on_toggle_click. by rewrite Ht, Hn.
  - unfold lock_follows_menu, on_anchor_click, scroll_locked, menu_open.
    destruct (bool_decide _ || bool_decide _); simpl; [done|].
    destruct q as [| |top]; simpl; [done|done|].
    destruct (header p) as [h|] eqn:Hh; simpl; [|done].
    destruct (nav p) as [n|] eqn:Hn; simpl; [|done].
    destruct (ClassList.contains "active" n) eqn:Hc; simpl. 2:{ by rewrite Hc. }
    destruct (menuToggle p) as [t|] eqn:Ht; simpl.
    + intros _ Hl. discriminate Hl.
    + intros Hp Hl. destruct (Hp Hl) as [_ Hsome]. done.
  - intros _ Hl. unfold scroll_locked in Hl. simpl in Hl. discriminate Hl.
Qed.

Lemma run_lock_follows_menu p es :
  lock_follows_menu p → lock_follows_menu (run p es).
Proof.
  unfold run. revert p. induction es as [|e es IH]; intros p Hp; simpl; [done|].
  apply IH. by apply step_lock_follows_menu.
Qed.

Lemma init_lock_follows_menu p :
  body_overflow p ≠ "hidden" → lock_follows_menu (initMobileMenu p).
Proof.
  intros Hb Hl. exfalso. apply Hb.
  unfold initMobileMenu, scroll_locked in Hl.
  destruct (menuToggle p), (nav p); simpl in Hl; by apply bool_decide_eq_true in Hl.
Qed.

Lemma step_menu_installed p e : menu_installed p → menu_installed (step p e).
Proof.
  intros (t & n & Ht & Hl & Hn). destruct e as [|targetId q|]; simpl.
  - rewrite Ht, Hl. unfold on_toggle_click. rewrite Ht, Hn.
    destruct (ClassList.toggle "active" n) as [n' isOpen]. by eexists _, _.
  - unfold on_anchor_click.
    destruct (bool_decide _ || bool_decide _); simpl; [by exists t, n|].
    destruct q as [| |top]; simpl; [by exists t, n|by exists t, n|].
    destruct (header p) as [h|]; simpl; [|by exists t, n].
    rewrite Hn. destruct (ClassList.contains "active" n); simpl; [|by exists t, n].
    rewrite Ht. simpl. by eexists _, _.
  - by exists t, n.
Qed.

Lemma run_menu_installed p es : menu_installed p → menu_installed (run p es).
Proof.
  unfold run. revert p. induction es as [|e es IH]; intros p Hp; simpl; [done|].
  apply IH. by apply step_menu_installed.
Qed.

Lemma init_menu_installed p :
  menuToggle p ≠ None → nav p ≠ None → menu_installed (initMobileMenu p).
Proof.
  intros Ht Hn. unfold initMobileMenu.
  destruct (menuToggle p) as [t|]; [|done]. destruct (nav p) as [n|]; [|done].
  by eexists _, _.
Qed.

End Nav.
(** * Protocol selection *)

Section Selection.
Import Js.

Lemma truthy_Some v : v ≠ "" → truthy (Some v) = true.
Proof.
  intros Hv. simpl. apply negb_true_iff, String.eqb_neq. done.
Qed.

Lemma truthy_false_inv (o : option string) :
  truthy o = false → o = None ∨ o = Some "".
Proof.
  destruct o as [s|]; simpl; [|by left].
  intros H. apply negb_false_iff, String.eqb_eq in H. right. by subst.
Qed.



Lemma select_value_missing (options : list string) v :
  v ∉ options → Dom.select_value options v = "".
Proof. intros Hv. unfold Dom.select_value. by rewrite bool_decide_eq_false_2. Qed.

(** ** Second revision *)





End Selection.

Section SelectionRuns.
Import Js Selected V2.Selection.
Implicit Types (p q : page) (it : item).



















End SelectionRuns.

(** ** First revision *)

Section SelectionRuns1.
Import Js Selected V1.Selection.
Implicit Types (p q : page).


Lemma init_card1 p s i c :
  programSelect p = Some s →
  cards p !! i = Some c →
  cards (initProtocolSelection p) !! i = Some (Card (data_value c) "pointer" true) ∧
  programSelect (initProtocolSelection p) = Some s ∧
  contactSection (initProtocolSelection p) = contactSection p.
Proof.
  intros Hs Hc. unfold initProtocolSelection.
  rewrite Hs.
  assert (cards p ≠ []) as Hne by (intros H; by rewrite H in Hc).
  rewrite bool_decide_eq_false_2 by done.
  rewrite bool_decide_eq_false_2 by done. simpl.
  split_and!; [|done|done].
  by rewrite list_lookup_fmap, Hc.
Qed.





End SelectionRuns1.

(** * The claims *)

(** C1.  A submission whose response is ok, sent from a page that shows
    no overlay.  Both revisions show the success overlay and reset the
    fields of the form.  The first revision also gives the submit button
    its original label back and enables it; the second leaves the button as
    the submission set it, labelled "Sending..." and disabled. *)
Theorem success_restores_button_only_in_first_revision :
  (∀ f history b pre,
     let w := V1.Contact.run (V1.Contact.load f) history in
     V1.Contact.button_of w = Some b →
     V1.Contact.disabled b = false → Phase1.overlays_of w = [] →
     Phase1.quiet pre → V1.Contact.elapsed pre < 10000 →
     let w1 := V1.Contact.run w
                 (V1.Contact.Submit :: pre ++
                    [V1.Contact.FetchResolve (V1.Contact.next_rid w) true]) in
     Phase1.overlays_of w1 =
       [Dom.Overlay (V1.Contact.next_oid w) {[ "form-success-overlay" ]}
          "Protocol Initialized"] ∧
     Forall (λ f, Dom.value f = Dom.defaultValue f) (Phase1.fields_of w1) ∧
     V1.Contact.button_of w1 =
       Some (V1.Contact.Button (V1.Contact.innerText b) false "1")) ∧
  (∀ f overflow history b pre,
     let w := V2.Contact.run (V2.Contact.load f overflow) history in
     V2.Contact.button_of w = Some b →
     V2.Contact.disabled b = false → Phase2.overlays_of w = [] →
     Phase2.quiet pre →
     let w1 := V2.Contact.run w
                 (V2.Contact.Submit :: pre ++
                    [V2.Contact.FetchResolve (V2.Contact.next_rid w) true]) in
     Phase2.overlays_of w1 =
       [Dom.Overlay (V2.Contact.next_oid w) {[ "form-success-overlay" ]}
          "Inquiry Received"] ∧
     Forall (λ f, Dom.value f = Dom.defaultValue f) (Phase2.fields_of w1) ∧
     V2.Contact.button_of w1 =
       Some (V2.Contact.Button (V2.Contact.has_btn_text b) "Sending..." true)).
Proof.
  split.
  - intros f history b pre w Hb Hd Hov Hpre Hlt.
    pose proof (reachable_enabled_idle f history b Hb Hd) as Hidle.
    destruct (success_attempt w b pre Hidle Hb Hd Hov Hpre Hlt)
      as (_ & Hb1 & Hf & Ho & _). done.
  - intros f overflow history b pre w Hb Hd Hov Hpre.
    pose proof (reachable_enabled_idle2 f overflow history b Hb Hd) as Hidle.
    destruct (success_attempt2 w b pre Hidle Hb Hd Hov Hpre)
      as (_ & Hb1 & Hf & Ho & _). done.
Qed.

Lemma success_restores_button_only_in_first_revision_witness :
  V1.Contact.button_of
    (V1.Contact.run Sample.page1
       [V1.Contact.Submit; V1.Contact.Tick; V1.Contact.FetchResolve 0 true]) =
    Some (V1.Contact.Button "Start Protocol" false "1") ∧
  V2.Contact.button_of
    (V2.Contact.run Sample.page2
       [V2.Contact.Submit; V2.Contact.Tick; V2.Contact.FetchResolve 0 true]) =
    Some (V2.Contact.Button true "Sending..." true).
Proof.
  split.
  - assert (Phase1.quiet [V1.Contact.Tick]) as Hq by (repeat constructor).
    pose proof (proj1 success_restores_button_only_in_first_revision
                  (Some Sample.form1) [] _ [V1.Contact.Tick]
                  eq_refl eq_refl eq_refl Hq eq_refl) as (_ & _ & H).
    exact H.
  - assert (Phase2.quiet [V2.Contact.Tick]) as Hq by (repeat constructor).
    pose proof (proj2 success_restores_button_only_in_first_revision
                  (Some Sample.form2) "" [] _ [V2.Contact.Tick]
                  eq_refl eq_refl eq_refl Hq) as (_ & _ & H).
    exact H.
Defined.

(** C2.  A submission that ends in a response that is not ok, in a
    network failure or in a timeout: at that moment the button carries an
    error label and is disabled; it stays so through whatever the user does
    for less than 3000 ms; and the tick that completes 3000 ms puts the
    original label back and enables the button - in both revisions. *)
Theorem failure_round_trips_button :
  (∀ f history b es post,
     let w := V1.Contact.run (V1.Contact.load f) history in
     V1.Contact.button_of w = Some b →
     V1.Contact.disabled b = false →
     Phase1.failed_attempt (V1.Contact.next_rid w) es → Phase1.quiet post →
     let w1 := V1.Contact.run w es in
     ∃ lbl, Phase1.error_label lbl ∧
       V1.Contact.button_of w1 = Some (V1.Contact.Button lbl true "1") ∧
       (V1.Contact.elapsed post < 3000 →
          V1.Contact.button_of (V1.Contact.run w1 post) =
            Some (V1.Contact.Button lbl true "1")) ∧
       (V1.Contact.elapsed post = 2999 →
          V1.Contact.button_of (V1.Contact.run w1 (post ++ [V1.Contact.Tick])) =
            Some (V1.Contact.Button (V1.Contact.innerText b) false "1"))) ∧
  (∀ f overflow history b es post,
     let w := V2.Contact.run (V2.Contact.load f overflow) history in
     V2.Contact.button_of w = Some b →
     V2.Contact.disabled b = false →
     Phase2.failed_attempt (V2.Contact.next_rid w) es → Phase2.quiet post →
     let w1 := V2.Contact.run w es in
     let failed := V2.Contact.Button (V2.Contact.has_btn_text b) "Error - Try Again" true in
     V2.Contact.button_of w1 = Some failed ∧
     (V2.Contact.elapsed post < 3000 →
        V2.Contact.button_of (V2.Contact.run w1 post) = Some failed) ∧
     (V2.Contact.elapsed post = 2999 →
        V2.Contact.button_of (V2.Contact.run w1 (post ++ [V2.Contact.Tick])) =
          Some (V2.Contact.Button (V2.Contact.has_btn_text b)
                  (V2.Contact.label b) false))).
Proof.
  split.
  - intros f history b es post w Hb Hd Hes Hpost.
    pose proof (reachable_enabled_idle f history b Hb Hd) as Hidle.
    destruct (failed_attempt_reverts w b es Hidle Hb Hd Hes) as (lbl & Hl & Hrev).
    exists lbl. split; [done|].
    destruct (reverting_round_trip _ _ _ _ post Hrev Hpost) as [Hstay Hback].
    pose proof Hrev as (_ & _ & Hb1 & _).
    split_and!; [done| |].
    + intros Hlt. apply Hstay. unfold Phase1.clock. lia.
    + intros Hlt. apply Hback. unfold Phase1.clock. lia.
  - intros f overflow history b es post w Hb Hd Hes Hpost.
    pose proof (reachable_enabled_idle2 f overflow history b Hb Hd) as Hidle.
    pose proof (failed_attempt_reverts2 w b es Hidle Hb Hd Hes) as Hrev.
    destruct (reverting_round_trip2 _ _ _ _ post Hrev Hpost) as [Hstay Hback].
    pose proof Hrev as (_ & _ & Hb1 & _).
    split_and!; [done| |].
    + intros Hlt. apply Hstay. unfold Phase2.clock. lia.
    + intros Hlt. apply Hback. unfold Phase2.clock. lia.
Qed.


Lemma failure_round_trips_button_witness :
  V1.Contact.button_of
    (V1.Contact.run
       (V1.Contact.run Sample.page1
          [V1.Contact.Submit; V1.Contact.Tick; V1.Contact.FetchReject 0])
       (repeat V1.Contact.Tick 2999 ++ [V1.Contact.Tick])) =
    Some (V1.Contact.Button "Start Protocol" false "1") ∧
  V2.Contact.button_of
    (V2.Contact.run
       (V2.Contact.run Sample.page2
          [V2.Contact.Submit; V2.Contact.Tick; V2.Contact.FetchResolve 0 false])
       (repeat V2.Contact.Tick 2999 ++ [V2.Contact.Tick])) =
    Some (V2.Contact.Button true "Send Inquiry" false).
Proof.
  split.
  - assert (Phase1.failed_attempt (V1.Contact.next_rid Sample.page1)
              [V1.Contact.Submit; V1.Contact.Tick; V1.Contact.FetchReject 0]) as Hes.
    { apply (Phase1.failed_network 0 [V1.Contact.Tick]);
        [repeat constructor|reflexivity]. }
    destruct (proj1 failure_round_trips_button (Some Sample.form1) [] _ _
                (repeat V1.Contact.Tick 2999) eq_refl eq_refl Hes
                (quiet_repeat_tick 2999)) as (lbl & _ & _ & _ & H).
    apply H. rewrite elapsed_repeat_tick. reflexivity.
  - assert (Phase2.failed_attempt (V2.Contact.next_rid Sample.page2)
              [V2.Contact.Submit; V2.Contact.Tick; V2.Contact.FetchResolve 0 false]) as Hes.
    { apply (Phase2.failed_rejected 0 [V2.Contact.Tick]). repeat constructor. }
    destruct (proj2 failure_round_trips_button (Some Sample.form2) "" [] _ _
                (repeat V2.Contact.Tick 2999) eq_refl eq_refl Hes
                (quiet2_repeat_tick 2999)) as (_ & _ & H).
    apply H. rewrite elapsed2_repeat_tick. reflexivity.
Defined.

(** C3.  In both revisions, on a page that was loaded and has lived
    through any events since, at most one request is in flight, and while
    one is, the submit button is disabled and a submit event starts
    nothing.  But in the second revision the button that a submission
    disabled is never enabled again once the response was ok: whatever the
    user does and however long they wait, it stays disabled under the label
    "Sending...". *)
Theorem success_leaves_button_disabled_in_second_revision :
  (∀ f history,
     let w := V1.Contact.run (V1.Contact.load f) history in
     (length (V1.Contact.inflight w) ≤ 1)%nat ∧
     (V1.Contact.inflight w ≠ [] →
      ∃ b, V1.Contact.button_of w = Some b ∧ V1.Contact.disabled b = true ∧
           V1.Contact.step w V1.Contact.Submit = w)) ∧
  (∀ f overflow history,
     let w := V2.Contact.run (V2.Contact.load f overflow) history in
     (length (V2.Contact.inflight w) ≤ 1)%nat ∧
     (V2.Contact.inflight w ≠ [] →
      ∃ b, V2.Contact.button_of w = Some b ∧ V2.Contact.disabled b = true ∧
           V2.Contact.step w V2.Contact.Submit = w)) ∧
  (∀ f overflow history b pre post,
     let w := V2.Contact.run (V2.Contact.load f overflow) history in
     V2.Contact.button_of w = Some b →
     V2.Contact.disabled b = false →
     Phase2.quiet pre → Phase2.quiet post →
     let w1 := V2.Contact.run w
                 (V2.Contact.Submit :: pre ++
                    [V2.Contact.FetchResolve (V2.Contact.next_rid w) true]) in
     V2.Contact.button_of (V2.Contact.run w1 post) =
       Some (V2.Contact.Button (V2.Contact.has_btn_text b) "Sending..." true)).
Proof.
  split_and!.
  - intros f history w. split; [apply one_request_at_a_time|].
    intros Hne.
    destruct (phase_run (V1.Contact.load f) history)
      as [H|[(r & D & b & H)|[(r & b & H)|(L & D & b & H)]]].
    + left. apply load_idle1.
    + by destruct H as [H _].
    + destruct H as (_ & _ & _ & Hb & Hd). exists b. split_and!; try done.
      revert Hb. unfold V1.Contact.step, V1.Contact.button_of. fold w.
      destruct (V1.Contact.contactForm w) as [c|]; [|done]. simpl. intros Hb.
      unfold V1.Contact.submittable. by rewrite Hb, Hd.
    + destruct H as (_ & _ & _ & Hb & Hd). exists b. split_and!; try done.
      revert Hb. unfold V1.Contact.step, V1.Contact.button_of. fold w.
      destruct (V1.Contact.contactForm w) as [c|]; [|done]. simpl. intros Hb.
      unfold V1.Contact.submittable. by rewrite Hb, Hd.
    + by destruct H as [H _].
  - intros f overflow history w. split; [apply one_request_at_a_time2|].
    intros Hne.
    destruct (phase_run2 (V2.Contact.load f overflow) history)
      as [H|[(r & b & H)|(L & D & b & H)]].
    + left. apply load_idle2.
    + by destruct H as [H _].
    + destruct H as (_ & _ & Hb & Hd). exists b. split_and!; try done.
      revert Hb. unfold V2.Contact.step, V2.Contact.button_of. fold w.
      destruct (V2.Contact.contactForm w) as [c|]; [|done]. simpl. intros Hb.
      unfold V2.Contact.submittable. by rewrite Hb, Hd.
    + by destruct H as [H _].
  - intros f overflow history b pre post w Hb Hd Hpre Hpost.
    pose proof (reachable_enabled_idle2 f overflow history b Hb Hd) as Hidle.
    by apply success_leaves_disabled2.
Qed.

Lemma success_leaves_button_disabled_in_second_revision_witness :
  V2.Contact.button_of
    (V2.Contact.run
       (V2.Contact.run Sample.page2
          [V2.Contact.Submit; V2.Contact.Tick; V2.Contact.FetchResolve 0 true])
       [V2.Contact.Tick; V2.Contact.CloseOverlay 0; V2.Contact.Submit; V2.Contact.Tick]) =
    Some (V2.Contact.Button true "Sending..." true).
Proof.
  apply (proj2 (proj2 success_leaves_button_disabled_in_second_revision)
           (Some Sample.form2) "" []
           (V2.Contact.Button true "Send Inquiry" false)
           [V2.Contact.Tick]
           [V2.Contact.Tick; V2.Contact.CloseOverlay 0; V2.Contact.Submit; V2.Contact.Tick]).
  - reflexivity.
  - reflexivity.
  - repeat constructor.
  - repeat constructor.
Defined.

(** C4.  First revision: if 9999 ms pass after the submission with no
    response, the request still awaits it, and the next millisecond aborts
    it: the request is gone, an AbortError was caught, and the button reads
    "Timeout - Try Again".  That label is the timeout's alone: an attempt
    from the same page that fails before the ten seconds are over - the
    network rejects the fetch, or the response is not ok, whether its body
    parses or not - leaves the button reading "Error - Try Again", which
    is not what the timeout leaves. *)
Theorem timeout_aborts_with_timeout_label :
  ∀ f history b pre,
    let w := V1.Contact.run (V1.Contact.load f) history in
    V1.Contact.button_of w = Some b →
    V1.Contact.disabled b = false →
    Phase1.quiet pre → V1.Contact.elapsed pre = 9999 →
    let w0 := V1.Contact.run w (V1.Contact.Submit :: pre) in
    let w1 := V1.Contact.step w0 V1.Contact.Tick in
    (∃ r, V1.Contact.inflight w0 = [r] ∧ V1.Contact.rid r = V1.Contact.next_rid w ∧
          V1.Contact.awaiting r = V1.Contact.AwaitFetch) ∧
    Phase1.clock w1 = Phase1.clock w + 10000 ∧
    V1.Contact.inflight w1 = [] ∧
    V1.Contact.console w1 = V1.Contact.console w ++ [Js.AbortError] ∧
    V1.Contact.button_of w1 =
      Some (V1.Contact.Button "Timeout - Try Again" true "1") ∧
    (∀ es, Phase1.failed_early (V1.Contact.next_rid w) es →
       V1.Contact.button_of (V1.Contact.run w es) =
         Some (V1.Contact.Button "Error - Try Again" true "1") ∧
       V1.Contact.button_of (V1.Contact.run w es) ≠ V1.Contact.button_of w1).
Proof.
  intros f history b pre w Hb Hd Hpre Hlt.
  pose proof (reachable_enabled_idle f history b Hb Hd) as Hidle.
  destruct (timeout_attempt w b pre Hidle Hb Hd Hpre Hlt) as (H1 & H2 & H3 & H4 & H5).
  split_and!; try done.
  intros es Hes.
  pose proof (failed_early_reverts w b es Hidle Hb Hd Hes) as (_ & _ & Hb' & _).
  split; [exact Hb'|]. cbv zeta in H5. rewrite Hb', H5. discriminate.
Qed.

Lemma timeout_aborts_with_timeout_label_witness :
  V1.Contact.button_of
    (V1.Contact.step
       (V1.Contact.run Sample.page1
          (V1.Contact.Submit :: repeat V1.Contact.Tick (N.to_nat 9999)))
       V1.Contact.Tick) =
    Some (V1.Contact.Button "Timeout - Try Again" true "1") ∧
  V1.Contact.button_of
    (V1.Contact.run Sample.page1
       [V1.Contact.Submit; V1.Contact.Tick; V1.Contact.FetchReject 0]) =
    Some (V1.Contact.Button "Error - Try Again" true "1").
Proof.
  assert (V1.Contact.elapsed (repeat V1.Contact.Tick (N.to_nat 9999)) = 9999) as He.
  { rewrite elapsed_repeat_tick. apply N2Nat.id. }
  destruct (timeout_aborts_with_timeout_label (Some Sample.form1) [] _
              (repeat V1.Contact.Tick (N.to_nat 9999)) eq_refl eq_refl
              (quiet_repeat_tick (N.to_nat 9999)) He) as (_ & _ & _ & _ & H & Hg).
  split; [exact H|].
  apply Hg. apply (Phase1.early_network 0 [V1.Contact.Tick]);
    [repeat constructor|reflexivity].
Defined.

(** C5.  Two listeners that fail instead of doing nothing when an element
    they need is absent.  First revision: a click on a card with a
    [data-value], on a page that has the [#program] field but no [#contact]
    section, throws a TypeError.  Second revision: a click on an in-page
    anchor whose target exists, on a page without [#main-header], throws a
    TypeError. *)
Theorem listeners_throw_when_an_element_is_missing :
  (∀ p s i c v,
     V1.Selection.programSelect p = Some s →
     V1.Selection.cards p !! i = Some c →
     V1.Selection.data_value c = Some v → v ≠ "" →
     V1.Selection.contactSection p = None →
     (V1.Selection.click_card i (V1.Selection.initProtocolSelection p)).2 =
       Js.Throw (Js.TypeError
         "Cannot read properties of null (reading 'getBoundingClientRect')")) ∧
  (∀ p targetId top,
     targetId ≠ "#" → targetId ≠ "" → V2.Nav.header p = None →
     (V2.Nav.on_anchor_click targetId (V2.Nav.Found top) p).2 =
       Js.Throw (Js.TypeError
         "Cannot read properties of null (reading 'offsetHeight')")).
Proof.
  split.
  - intros p s i c v Hs Hc Hv Hne Hnone.
    destruct (init_card1 p s i c Hs Hc) as (Hc' & Hs' & Hcs').
    unfold V1.Selection.click_card. rewrite Hc'. cbn [V1.Selection.listening].
    unfold V1.Selection.on_card_click. cbn [V1.Selection.data_value].
    rewrite Hv, (truthy_Some v Hne). simpl. by rewrite Hcs', Hnone.
  - intros p targetId top H1 H2 Hh. unfold V2.Nav.on_anchor_click.
    rewrite !bool_decide_eq_false_2 by done. simpl. by rewrite Hh.
Qed.

Lemma listeners_throw_when_an_element_is_missing_witness :
  (V1.Selection.click_card 0 (V1.Selection.initProtocolSelection Sample.cards1)).2 =
    Js.Throw (Js.TypeError
      "Cannot read properties of null (reading 'getBoundingClientRect')") ∧
  (V2.Nav.on_anchor_click "#contact" (V2.Nav.Found 640)
     (V2.Nav.Page (Some ∅) None "" None 0 [])).2 =
    Js.Throw (Js.TypeError
      "Cannot read properties of null (reading 'offsetHeight')").
Proof.
  split.
  - apply (proj1 listeners_throw_when_an_element_is_missing Sample.cards1
             (V1.Selection.Select "" ∅ [""; "basic"; "pro"; "elite"]) 0%nat
             (V1.Selection.Card (Some "elite") "" false) "elite");
      [reflexivity|reflexivity|reflexivity|discriminate|reflexivity].
  - apply (proj2 listeners_throw_when_an_element_is_missing);
      [discriminate|discriminate|reflexivity].
Defined.





(** C8.  Whatever elements the scroll-reveal initializer observes and
    however the viewport moves afterwards (and, in the second revision,
    however its timers interleave with the rendering updates), no element
    receives [classList.add('active')] more than once. *)
Theorem reveal_activates_at_most_once :
  (∀ revealElements classes frames el,
     (Revealed.activations el
        (V1.Reveal.activated
           (V1.Reveal.run (V1.Reveal.initScrollReveal revealElements classes) frames))
      ≤ 1)%nat) ∧
  (∀ revealElements classes events el,
     (Revealed.activations el
        (V2.Reveal.activated
           (V2.Reveal.run (V2.Reveal.initScrollReveal revealElements classes) events))
      ≤ 1)%nat).
Proof.
  split.
  - intros els classes frames el. apply activations_NoDup.
    apply (run_tidy1 _ frames (init_tidy1 els classes)).
  - intros els classes events el. apply activations_NoDup.
    apply (run_tidy2 _ events (init_tidy2 els classes)).
Qed.

(** C9.  Second revision, from a page whose body is not scroll-locked when
    the script starts, after any sequence of clicks on the menu toggle, on
    in-page anchors and on overlay close buttons: the body is scroll-locked
    only if the menu is open; where the menu exists, a click on its toggle
    leaves the body locked exactly if it leaves the menu open; and the
    anchor listener's auto-close clears the lock: on a page with its header
    and its toggle, a click on an anchor whose target exists, while the
    menu is open, runs to its end and leaves the menu closed and the body
    unlocked, and while the menu is closed it leaves menu and lock as they
    are. *)
Theorem scroll_lock_follows_menu :
  ∀ p0 es,
    V2.Nav.body_overflow p0 ≠ "hidden" →
    let p := V2.Nav.run (V2.Nav.initMobileMenu p0) es in
    (V2.Nav.scroll_locked p = true → V2.Nav.menu_open p = true) ∧
    (V2.Nav.menuToggle p0 ≠ None → V2.Nav.nav p0 ≠ None →
     let p' := V2.Nav.step p V2.Nav.ToggleClick in
     V2.Nav.scroll_locked p' = V2.Nav.menu_open p') ∧
    (∀ targetId q,
       let r := V2.Nav.on_anchor_click targetId q p in
       r.2 = Js.Normal → V2.Nav.menu_open p = true → V2.Nav.menu_open r.1 = false →
       V2.Nav.body_overflow r.1 = "") ∧
    (∀ targetId top,
       targetId ≠ "#" → targetId ≠ "" →
       V2.Nav.header p0 ≠ None → V2.Nav.menuToggle p0 ≠ None →
       V2.Nav.menu_open p = true →
       let r := V2.Nav.on_anchor_click targetId (V2.Nav.Found top) p in
       r.2 = Js.Normal ∧ V2.Nav.menu_open r.1 = false ∧
       V2.Nav.body_overflow r.1 = "" ∧ V2.Nav.scroll_locked r.1 = false) ∧
    (∀ targetId q,
       V2.Nav.menu_open p = false →
       let r := V2.Nav.on_anchor_click targetId q p in
       V2.Nav.menu_open r.1 = false ∧
       V2.Nav.body_overflow r.1 = V2.Nav.body_overflow p ∧
       V2.Nav.scroll_locked r.1 = false).
Proof.
  intros p0 es H0 p.
  pose proof (run_lock_follows_menu _ es (init_lock_follows_menu p0 H0)) as Hp.
  fold p in Hp. split_and!.
  - intros Hl. by destruct (Hp Hl).
  - intros Ht Hn.
    destruct (run_menu_installed _ es (init_menu_installed p0 Ht Hn))
      as (t & n & Ht' & Hl' & Hn').
    fold p in Ht', Hn'. simpl. rewrite Ht', Hl'.
    by destruct (toggle_syncs p t n Ht' Hn').
  - intros targetId q. apply anchor_close_unlocks.
  - intros targetId top H1 H2 Hh Ht Ho.
    destruct (init_keeps_elements p0) as [Hh0 Ht0].
    destruct (run_keeps_elements (V2.Nav.initMobileMenu p0) es) as [Hh1 Ht1].
    fold p in Hh1, Ht1.
    destruct (V2.Nav.header p) as [h|] eqn:Hhp; [|congruence].
    destruct (V2.Nav.menuToggle p) as [t|] eqn:Htp; [|by destruct Ht1; auto].
    destruct (anchor_closes_menu targetId top h t p H1 H2 Hhp Htp Ho)
      as (Hn & Hc & Hb & _).
    cbv zeta. split_and!; [done|done|done|].
    unfold V2.Nav.scroll_locked. by rewrite Hb.
  - intros targetId q Ho.
    destruct (anchor_keeps_closed targetId q p Ho) as (Hn & _ & Hb).
    cbv zeta in *. split_and!; [|done|].
    + unfold V2.Nav.menu_open in *. by rewrite Hn.
    + unfold V2.Nav.scroll_locked. rewrite Hb.
      destruct (V2.Nav.scroll_locked p) eqn:Hl; [|exact Hl].
      destruct (Hp Hl) as [Hm _]. congruence.
Qed.

Lemma scroll_lock_follows_menu_witness :
  (V2.Nav.scroll_locked
     (V2.Nav.run (V2.Nav.initMobileMenu Sample.nav2) [V2.Nav.ToggleClick]) = true ∧
   V2.Nav.menu_open
     (V2.Nav.run (V2.Nav.initMobileMenu Sample.nav2) [V2.Nav.ToggleClick]) = true) ∧
  (V2.Nav.menu_open
     (V2.Nav.run (V2.Nav.initMobileMenu Sample.nav2)
        [V2.Nav.ToggleClick; V2.Nav.AnchorClick "#contact" (V2.Nav.Found 640)]) = false ∧
   V2.Nav.scroll_locked
     (V2.Nav.run (V2.Nav.initMobileMenu Sample.nav2)
        [V2.Nav.ToggleClick; V2.Nav.AnchorClick "#contact" (V2.Nav.Found 640)]) = false).
Proof.
  assert (V2.Nav.body_overflow Sample.nav2 ≠ "hidden") as H0 by discriminate.
  split.
  - destruct (scroll_lock_follows_menu Sample.nav2 [] H0) as (_ & H & _).
    pose proof (H ltac:(discriminate) ltac:(discriminate)) as Hs.
    change (V2.Nav.scroll_locked
              (V2.Nav.run (V2.Nav.initMobileMenu Sample.nav2) [V2.Nav.ToggleClick]) =
            V2.Nav.menu_open
              (V2.Nav.run (V2.Nav.initMobileMenu Sample.nav2) [V2.Nav.ToggleClick]))
      in Hs.
    split; [rewrite Hs|]; reflexivity.
  - destruct (scroll_lock_follows_menu Sample.nav2 [V2.Nav.ToggleClick] H0)
      as (_ & _ & _ & H & _).
    destruct (H "#contact" 640%Z) as (_ & Hm & _ & Hl);
      [discriminate|discriminate|discriminate|discriminate|reflexivity|].
    split; [exact Hm|exact Hl].
Defined.

(** C10.  First revision, in every state the page can reach from its
    load, whatever happens: a pending abort timer belongs to a request that
    still awaits its response; and when the fetch of a request settles, by
    a response (ok or not) or by a rejection, the handler has cleared that
    request's abort timer. *)
Theorem abort_timer_only_while_in_flight :
  ∀ f es,
    let w := V1.Contact.run (V1.Contact.load f) es in
    Phase1.abort_guarded w ∧
    ∀ k q,
      V1.Contact.lookup_request k V1.Contact.AwaitFetch w = Some q →
      (∀ ok, V1.Contact.timeoutId q ∉
               Timers.tid <$> Timers.pending
                 (V1.Contact.timers (V1.Contact.step w (V1.Contact.FetchResolve k ok)))) ∧
      (V1.Contact.timeoutId q ∉
         Timers.tid <$> Timers.pending
           (V1.Contact.timers (V1.Contact.step w (V1.Contact.FetchReject k)))).
Proof.
  intros f es w.
  pose proof (run_coherent _ es (load_coherent f)) as Hw. fold w in Hw.
  split; [apply Hw|].
  intros k q Hq. by apply settlement_clears.
Qed.

Lemma abort_timer_only_while_in_flight_witness :
  (1 : N) ∉
    Timers.tid <$> Timers.pending
      (V1.Contact.timers
         (V1.Contact.step
            (V1.Contact.run Sample.page1 [V1.Contact.Submit; V1.Contact.Tick])
            (V1.Contact.FetchResolve 0 false))).
Proof.
  destruct (abort_timer_only_while_in_flight (Some Sample.form1)
              [V1.Contact.Submit; V1.Contact.Tick]) as [_ H].
  destruct (H 0 (V1.Contact.Request 0 "Start Protocol" 1 V1.Contact.AwaitFetch
                   (Dom.Post "https://formspree.io/f/demo"
                      (Dom.formData Sample.fields) "application/json"))
              eq_refl) as [H1 _].
  exact (H1 false).
Defined.
(** * Rounds of the event loop whose callbacks leave the timers alone *)

Section LoopPure.
Context {W A : Type}.
Variable get : W → Timers.queue A.
Variable put : Timers.queue A → W → W.
Variable run : A → W → W.
Hypothesis get_put : ∀ q w, get (put q w) = q.
Hypothesis put_put : ∀ q q' w, put q (put q' w) = put q w.
Hypothesis run_put : ∀ a q w, run a (put q w) = put q (run a w).
Import Timers.
Implicit Types (q : queue A) (t d : timer A) (D l : list (timer A)).
Local Abbreviation fire := (Timers.fire get put run).
Local Abbreviation tick := (Timers.tick get put run).
Local Abbreviation run_all := (fold_left (λ w t, run (act t) w)).

Lemma filter_agree (P Q : timer A → Prop) `{∀ t, Decision (P t)} `{∀ t, Decision (Q t)} l :
  (∀ t, t ∈ l → P t ↔ Q t) → filter P l = filter Q l.
Proof.
  induction l as [|t l IH]; intros HPQ; [done|].
  rewrite !filter_cons.
  assert (filter P l = filter Q l) as ->.
  { apply IH. intros u Hu. apply HPQ. by right. }
  destruct (HPQ t) as [H1 H2]; [left|].
  case_decide; case_decide; tauto.
Qed.

Lemma find_tid_fresh q d :
  fresh_ids q → d ∈ pending q →
  List.find (λ t, bool_decide (tid t = tid d)) (pending q) = Some d.
Proof.
  intros Hf Hd.
  destruct (List.find _ _) as [t|] eqn:Hfind.
  - apply find_tid_Some in Hfind as [Ht Heq]. f_equal. by eapply fresh_ids_inj.
  - apply find_tid_None in Hfind. exfalso. apply Hfind.
    apply list_elem_of_fmap. eauto.
Qed.

(** Firing distinct pending timers one after the other runs their
    callbacks in that order and removes them from the queue. *)
Lemma fire_all D q w :
  fresh_ids q → NoDup (tid <$> D) → (∀ t, t ∈ D → t ∈ pending q) →
  fold_left fire (tid <$> D) (put q w) =
  put (Queue (now q) (next_id q) (filter (λ t, tid t ∉ tid <$> D) (pending q)))
    (run_all D w).
Proof.
  revert q w. induction D as [|d D IH]; intros q w Hf Hnd Hin; simpl.
  - f_equal. destruct q as [c n l]. simpl. f_equal.
    clear Hf Hin. induction l as [|t l IHl]; [done|].
    rewrite filter_cons. case_decide as Ht; [by f_equal|].
    by apply elem_of_nil in Ht.
  - rewrite fmap_cons in Hnd. apply NoDup_cons in Hnd as [Hd Hnd].
    unfold Timers.fire at 2. rewrite get_put.
    rewrite (find_tid_fresh q d Hf) by (apply Hin; left).
    rewrite put_put, run_put.
    rewrite IH; [|by apply fresh_ids_clearTimeout|done|].
    + f_equal. simpl. f_equal. rewrite list_filter_filter.
      apply filter_agree. intros t _. rewrite elem_of_cons. tauto.
    + intros t Ht. apply elem_of_clearTimeout. split; [apply Hin; by right|].
      intros Heq. apply Hd. rewrite <- Heq. apply list_elem_of_fmap. eauto.
Qed.

(** One millisecond: the clock advances, the timers that are due run in
    the order of their deadlines and leave the queue. *)
Lemma tick_pure w :
  fresh_ids (get w) →
  tick w =
  put (Queue (now (get w) + 1) (next_id (get w))
         (filter (λ t, now (get w) + 1 < due t) (pending (get w))))
    (run_all (due_now (advance (get w))) w).
Proof.
  intros Hf. unfold Timers.tick. cbv zeta. rewrite get_put.
  assert (NoDup (tid <$> due_now (advance (get w)))) as Hnd.
  { unfold due_now. rewrite by_due_perm. simpl.
    eapply sublist_NoDup; [apply Hf|]. apply fmap_sublist, sublist_filter. }
  rewrite fire_all; [|by apply fresh_ids_advance|done|].
  - f_equal. simpl. f_equal. apply filter_agree. intros t Ht. split.
    + intros Hn. destruct (decide (now (get w) + 1 < due t)) as [|Hge]; [done|].
      exfalso. apply Hn. apply list_elem_of_fmap. exists t. split; [done|].
      apply elem_of_due_now. simpl. split; [done|lia].
    + intros Hlt Hn. apply list_elem_of_fmap in Hn as (u & Heq & Hu).
      apply elem_of_due_now in Hu as [Hu Hle]. simpl in Hu, Hle.
      assert (t = u) as -> by (by eapply fresh_ids_inj).
      lia.
  - intros t Ht. apply elem_of_due_now in Ht as [Ht _]. exact Ht.
Qed.

(** A millisecond in which no timer is due only advances the clock. *)
Lemma tick_idle w :
  Forall (λ t, now (get w) + 1 < due t) (pending (get w)) →
  tick w = put (advance (get w)) w.
Proof.
  intros Hall. unfold Timers.tick. cbv zeta. rewrite get_put.
  assert (due_now (advance (get w)) = []) as ->; [|done].
  unfold due_now. simpl.
  assert (filter (λ t, due t ≤ now (get w) + 1) (pending (get w)) = []) as ->; [|done].
  induction Hall as [|t l Ht Hl IH]; [done|].
  rewrite filter_cons. case_decide; [lia|done].
Qed.

End LoopPure.
(** * Class lists *)

Section ClassLists.
Implicit Types (c : string) (l : gset string).

Lemma remove_add c l : ClassList.remove c (ClassList.add c l) = l ∖ {[ c ]}.
Proof.
  unfold ClassList.remove, ClassList.add. apply set_eq. intros x.
  rewrite !elem_of_difference, elem_of_union. tauto.
Qed.

Lemma add_remove c l : c ∉ l → ClassList.remove c (ClassList.add c l) = l.
Proof.
  intros Hc. rewrite remove_add. apply set_eq. intros x.
  rewrite elem_of_difference, elem_of_singleton. split; [tauto|].
  intros Hx. split; [done|]. by intros ->.
Qed.

Lemma remove_absent c l : c ∉ l → ClassList.remove c l = l.
Proof.
  intros Hc. unfold ClassList.remove. apply set_eq. intros x.
  rewrite elem_of_difference, elem_of_singleton. split; [tauto|].
  intros Hx. split; [done|]. by intros ->.
Qed.

Lemma add_present c l : c ∈ l → ClassList.add c l = l.
Proof.
  intros Hc. unfold ClassList.add. apply set_eq. intros x.
  rewrite elem_of_union, elem_of_singleton. split; [|tauto].
  intros [?| ->]; done.
Qed.

Lemma add_idem c l : ClassList.add c (ClassList.add c l) = ClassList.add c l.
Proof.
  apply add_present. unfold ClassList.add. apply elem_of_union. right.
  by apply elem_of_singleton.
Qed.

Lemma remove_idem c l :
  ClassList.remove c (ClassList.remove c l) = ClassList.remove c l.
Proof.
  apply remove_absent. unfold ClassList.remove. rewrite elem_of_difference.
  intros [_ H]. apply H. by apply elem_of_singleton.
Qed.

End ClassLists.

(** * Highlights of the protocol selection, first revision *)

Section Highlight1.
Import Js Timers V1.Selection Highlight1.
Implicit Types (p : page) (c : callback) (D : list (timer callback)).

Lemma sel1_get_put (q : queue callback) p : timers (with_timers q p) = q.
Proof. done. Qed.

Lemma sel1_put_put (q q' : queue callback) p :
  with_timers q (with_timers q' p) = with_timers q p.
Proof. done. Qed.

Lemma sel1_run_put c (q : queue callback) p :
  run_callback c (with_timers q p) = with_timers q (run_callback c p).
Proof. by destruct c. Qed.

Lemma sel1_tick p :
  fresh_ids (timers p) →
  step p Tick =
  with_timers
    (Queue (now (timers p) + 1) (next_id (timers p))
       (filter (λ t, now (timers p) + 1 < due t) (pending (timers p))))
    (fold_left (λ p t, run_callback (act t) p) (due_now (advance (timers p))) p).
Proof.
  intros Hf. apply (tick_pure timers with_timers run_callback); auto using sel1_run_put.
Qed.

Lemma sel1_tick_idle p :
  Forall (λ t, now (timers p) + 1 < due t) (pending (timers p)) →
  step p Tick = with_timers (advance (timers p)) p.
Proof. intros H. by apply (tick_idle timers with_timers run_callback). Qed.

(** What a round of callbacks leaves of the two highlights. *)
Lemma callbacks_form D p :
  form_highlit (fold_left (λ p t, run_callback (act t) p) D p) →
  form_highlit p ∧ ∀ t, t ∈ D → act t ≠ UnhighlightForm.
Proof.
  revert p. induction D as [|d D IH]; intros p; simpl.
  - intros H. split; [done|]. intros t Ht. by apply elem_of_nil in Ht.
  - intros H. apply IH in H as [(c & Hc & Hin) Hall].
    assert (form_highlit p ∧ act d ≠ UnhighlightForm) as [Hp Hd].
    { destruct (act d); simpl in Hc.
      - destruct (contact_form p) as [c0|]; simplify_eq/=.
        unfold ClassList.remove in Hin.
        apply elem_of_difference in Hin as [_ Hin]. exfalso. apply Hin.
        by apply elem_of_singleton.
      - split; [by exists c|done]. }
    split; [done|]. intros t [->|Ht]%elem_of_cons; [done|by apply Hall].
Qed.

Lemma callbacks_field D p :
  field_highlit (fold_left (λ p t, run_callback (act t) p) D p) →
  field_highlit p ∧ ∀ t, t ∈ D → act t ≠ UnhighlightField.
Proof.
  revert p. induction D as [|d D IH]; intros p; simpl.
  - intros H. split; [done|]. intros t Ht. by apply elem_of_nil in Ht.
  - intros H. apply IH in H as [(s & Hs & Hin) Hall].
    assert (field_highlit p ∧ act d ≠ UnhighlightField) as [Hp Hd].
    { destruct (act d); simpl in Hs.
      - split; [by exists s|done].
      - destruct (programSelect p) as [s0|]; simplify_eq/=.
        unfold ClassList.remove in Hin.
        apply elem_of_difference in Hin as [_ Hin]. exfalso. apply Hin.
        by apply elem_of_singleton. }
    split; [done|]. intros t [->|Ht]%elem_of_cons; [done|by apply Hall].
Qed.

Lemma fresh_ids_filter {A} (P : timer A → Prop) `{∀ t, Decision (P t)}
    (n : N) (q : queue A) :
  fresh_ids q → fresh_ids (Queue n (next_id q) (filter P (pending q))).
Proof.
  intros [Hnd Hlt]. split; simpl.
  - eapply sublist_NoDup; [exact Hnd|]. apply fmap_sublist, sublist_filter.
  - apply Forall_forall. intros t Ht. apply list_elem_of_filter in Ht as [_ Ht].
    rewrite Forall_forall in Hlt. by apply Hlt.
Qed.

(** A millisecond brings every deadline one closer. *)
Lemma tick_backed d p : backed (d + 1) p → backed d (step p Tick).
Proof.
  intros (Hf & Hdue & Hform & Hfield).
  rewrite sel1_tick by done.
  set (D := due_now (advance (timers p))).
  split_and!; simpl.
  - by apply fresh_ids_filter.
  - apply Forall_forall. intros t Ht. apply list_elem_of_filter in Ht as [_ Ht].
    rewrite Forall_forall in Hdue. specialize (Hdue _ Ht). lia.
  - intros (c & Hc & Hin).
    destruct (callbacks_form D p) as [Hp Hall]; [by exists c|].
    destruct (Hform Hp) as (t & Ht & Ha). exists t. split; [|done].
    apply list_elem_of_filter. split; [|done].
    destruct (decide (now (timers p) + 1 < due t)) as [|Hge]; [done|].
    exfalso. apply (Hall t); [|done].
    apply elem_of_due_now. simpl. split; [done|lia].
  - intros (s & Hs & Hin).
    destruct (callbacks_field D p) as [Hp Hall]; [by exists s|].
    destruct (Hfield Hp) as (t & Ht & Ha). exists t. split; [|done].
    apply list_elem_of_filter. split; [|done].
    destruct (decide (now (timers p) + 1 < due t)) as [|Hge]; [done|].
    exfalso. apply (Hall t); [|done].
    apply elem_of_due_now. simpl. split; [done|lia].
Qed.

Lemma backed_mono d d' p : d ≤ d' → backed d p → backed d' p.
Proof.
  intros Hle (Hf & Hdue & Hform & Hfield). split_and!; [done| |done|done].
  eapply Forall_impl; [exact Hdue|]. simpl. intros. lia.
Qed.

(** A click leaves every highlight backed. *)
Lemma click_backed i p : backed 1500 p → backed 1500 (click_card i p).1.
Proof.
  intros Hb. unfold click_card.
  destruct (cards p !! i) as [c|]; [|done].
  destruct (listening c); [|done].
  unfold on_card_click. destruct (truthy (data_value c)); [|done]. simpl.
  destruct Hb as (Hf & Hdue & Hform & Hfield).
  assert (∀ v, field_highlit (with_select (set_value v) p) →
               field_highlit p) as Hsel.
  { intros v (s & Hs & Hin). unfold with_select in Hs. simpl in Hs.
    destruct (programSelect p) as [s0|] eqn:Hs0; simplify_eq/=. by exists s0. }
  destruct (contactSection p) as [top|]; simpl.
  2:{ split_and!; [done|done|done|]. intros H. apply Hsel in H. by apply Hfield in H. }
  destruct (contact_form p) as [fc|] eqn:Hfc; simpl.
  2:{ split_and!; [done|done| |].
      - intros (c0 & Hc0 & _). simpl in Hc0. congruence.
      - intros H. apply Hsel in H. by apply Hfield in H. }
  split_and!.
  - apply fresh_ids_setTimeout. simpl. by apply fresh_ids_setTimeout.
  - cbn. rewrite !Forall_app, !Forall_singleton. split_and!; simpl; [|lia|lia].
    eapply Forall_impl; [exact Hdue|]. simpl. intros. lia.
  - intros _. eexists. split; [|].
    + cbn. rewrite !elem_of_app. left. right. by apply list_elem_of_singleton.
    + done.
  - intros _. eexists. split; [|].
    + cbn. rewrite !elem_of_app. right. by apply list_elem_of_singleton.
    + done.
Qed.

Lemma step_backed p e : backed 1500 p → backed 1500 (step p e).
Proof.
  intros Hb. destruct e as [i|].
  - by apply click_backed.
  - apply (backed_mono 1499); [lia|]. apply tick_backed.
    eapply backed_mono; [|exact Hb]. lia.
Qed.

Lemma sel1_run_cons p e es : run p (e :: es) = run (step p e) es.
Proof. done. Qed.

Lemma sel1_run_app p es es' : run p (es ++ es') = run (run p es) es'.
Proof. unfold run. by rewrite fold_left_app. Qed.

Lemma run_backed p es : backed 1500 p → backed 1500 (run p es).
Proof.
  revert p. induction es as [|e es IH]; intros p Hb; [done|].
  rewrite sel1_run_cons. by apply IH, step_backed.
Qed.

(** [n] milliseconds bring every deadline [n] closer. *)
Lemma ticks_backed (n : nat) d p :
  backed (d + N.of_nat n) p → backed d (run p (repeat Tick n)).
Proof.
  revert p. induction n as [|n IH]; intros p Hb; cbn [repeat].
  - eapply backed_mono; [|exact Hb]. lia.
  - rewrite sel1_run_cons. apply IH. apply tick_backed.
    eapply backed_mono; [|exact Hb]. lia.
Qed.

(** With no deadline ahead, nothing is pending and nothing highlighted. *)
Lemma backed_now p :
  backed 1 p →
  let p' := step p Tick in
  pending (timers p') = [] ∧ ¬ form_highlit p' ∧ ¬ field_highlit p'.
Proof.
  intros Hb. pose proof (tick_backed 0 p Hb) as (_ & _ & Hform & Hfield).
  destruct Hb as (Hf & Hdue & _ & _).
  assert (pending (timers (step p Tick)) = []) as Hnil.
  { rewrite sel1_tick by done. simpl.
    induction Hdue as [|t l Ht Hl IHl]; [done|].
    rewrite filter_cons. case_decide; [lia|done]. }
  cbv zeta. rewrite Hnil in Hform, Hfield. split_and!; [done| |].
  - intros H. destruct (Hform H) as (t & Ht & _). by apply elem_of_nil in Ht.
  - intros H. destruct (Hfield H) as (t & Ht & _). by apply elem_of_nil in Ht.
Qed.

Lemma init_backed p :
  pending (timers p) = [] → ¬ form_highlit p → ¬ field_highlit p →
  backed 1500 (initProtocolSelection p).
Proof.
  intros Hnil Hform Hfield.
  assert (backed 1500 p) as Hb.
  { split_and!; [|by rewrite Hnil|done|done]. split; rewrite Hnil; constructor. }
  unfold initProtocolSelection. destruct (_ || _); [done|].
  destruct Hb as (Hf & Hdue & _ & _). split_and!; [done|done| |].
  - intros (c & Hc & Hin). exfalso. apply Hform. by exists c.
  - intros (s & Hs & Hin). exfalso. apply Hfield. by exists s.
Qed.

(** While no timer is due, milliseconds only advance the clock. *)
Lemma ticks_wait (n : nat) p :
  Forall (λ t, now (timers p) + N.of_nat n < due t) (pending (timers p)) →
  run p (repeat Tick n) =
  with_timers (Queue (now (timers p) + N.of_nat n) (next_id (timers p))
                 (pending (timers p))) p.
Proof.
  revert p. induction n as [|n IH]; intros p Hdue; cbn [repeat].
  - destruct p as [? ? ? ? ? ? [c k l]]. unfold with_timers. simpl.
    by rewrite N.add_0_r.
  - rewrite sel1_run_cons, sel1_tick_idle.
    + rewrite IH; simpl.
      * unfold with_timers. simpl. do 2 f_equal. lia.
      * eapply Forall_impl; [exact Hdue|]. simpl. intros. lia.
    + eapply Forall_impl; [exact Hdue|]. simpl. intros. lia.
Qed.

(** A click on a card with a value, on a page that has the field, the
    section and the form. *)
Lemma card_click_complete p s top fc i k v :
  programSelect p = Some s → contactSection p = Some top →
  contact_form p = Some fc → cards p !! i = Some k → listening k = true →
  data_value k = Some v → v ≠ "" →
  click_card i p =
  (Page (cards p)
     (Some (Select (Dom.select_value (options s) v)
               (ClassList.add "field-highlight" (sclass s)) (options s)))
     (Some top) (Some (ClassList.add "selection-highlight" fc))
     (pageYOffset p) (scrolls p ++ [(top + pageYOffset p - 90)%Z])
     (Queue (now (timers p)) (next_id (timers p) + 1 + 1)
        ((pending (timers p) ++
          [Timer (next_id (timers p)) (now (timers p) + 1500) UnhighlightForm]) ++
          [Timer (next_id (timers p) + 1) (now (timers p) + 1500) UnhighlightField])),
   Normal).
Proof.
  intros Hs Htop Hfc Hc Hl Hv Hne.
  unfold click_card. rewrite Hc, Hl. unfold on_card_click.
  rewrite Hv. rewrite (truthy_Some v Hne). simpl.
  rewrite Htop. simpl. rewrite Hfc. simpl.
  unfold schedule, with_select, with_contact_form, with_timers, scrollTo. simpl.
  by rewrite Hs, Hfc, Htop.
Qed.

(** The two highlights of a click on a page at rest last 1500 ms. *)
Lemma click_timeline p s top fc i k v :
  programSelect p = Some s → contactSection p = Some top →
  contact_form p = Some fc → cards p !! i = Some k → listening k = true →
  data_value k = Some v → v ≠ "" → pending (timers p) = [] →
  let p1 := (click_card i p).1 in
  (∀ n : nat, (n < 1500)%nat →
     contact_form (run p1 (repeat Tick n)) =
       Some (ClassList.add "selection-highlight" fc) ∧
     programSelect (run p1 (repeat Tick n)) =
       Some (Select (Dom.select_value (options s) v)
               (ClassList.add "field-highlight" (sclass s)) (options s))) ∧
  contact_form (run p1 (repeat Tick (N.to_nat 1500))) =
    Some (fc ∖ {[ "selection-highlight" ]}) ∧
  programSelect (run p1 (repeat Tick (N.to_nat 1500))) =
    Some (Select (Dom.select_value (options s) v)
            (sclass s ∖ {[ "field-highlight" ]}) (options s)) ∧
  pending (timers (run p1 (repeat Tick (N.to_nat 1500)))) = [].
Proof.
  intros Hs Htop Hfc Hc Hl Hv Hne Hnil. cbv zeta.
  rewrite (card_click_complete p s top fc i k v) by done.
  rewrite Hnil. cbn [fst app].
  set (t1 := Timer (next_id (timers p)) (now (timers p) + 1500) UnhighlightForm).
  set (t2 := Timer (next_id (timers p) + 1) (now (timers p) + 1500) UnhighlightField).
  set (p1 := Page _ _ _ _ _ _ _).
  assert (∀ n : nat, (n < 1500)%nat →
            run p1 (repeat Tick n) =
            with_timers (Queue (now (timers p) + N.of_nat n)
                           (next_id (timers p) + 1 + 1) [t1; t2]) p1) as Hwait.
  { intros n Hn. rewrite ticks_wait; [done|].
    unfold p1, t1, t2. simpl. repeat constructor; simpl; lia. }
  split.
  { intros n Hn. by rewrite Hwait. }
  replace (N.to_nat 1500) with (N.to_nat 1499 + 1)%nat by lia.
  rewrite repeat_app, sel1_run_app, Hwait by lia. cbn [repeat run fold_left].
  rewrite N2Nat.id.
  rewrite sel1_tick.
  2:{ unfold t1, t2. split; simpl.
      - apply NoDup_cons. split; [|apply NoDup_singleton].
        rewrite list_elem_of_singleton. lia.
      - repeat constructor; simpl; lia. }
  cbn [timers with_timers now next_id pending advance].
  unfold due_now. cbn [now pending advance].
  rewrite !filter_cons, !filter_nil.
  rewrite !(decide_True (P := (_ ≤ _))) by (unfold t1, t2; simpl; lia).
  rewrite !(decide_False (P := (_ < _))) by (unfold t1, t2; simpl; lia).
  unfold by_due. cbn [fold_left insert_due].
  rewrite bool_decide_eq_false_2 by (unfold t1, t2; simpl; lia).
  cbn [fold_left]. unfold t1, t2, p1. simpl. unfold with_sclass. simpl.
  by rewrite !remove_add.
Qed.

End Highlight1.
(** * Highlight of the protocol selection, second revision *)

Section Highlight2.
Import Js Timers V2.Selection Highlight2.
Implicit Types (p : page) (c : callback) (D : list (timer callback)).

Lemma sel2_run_put c (q : queue callback) p :
  run_callback c (with_timers q p) = with_timers q (run_callback c p).
Proof. by destruct c. Qed.

Lemma sel2_tick p :
  fresh_ids (timers p) →
  step p Tick =
  with_timers
    (Queue (now (timers p) + 1) (next_id (timers p))
       (filter (λ t, now (timers p) + 1 < due t) (pending (timers p))))
    (fold_left (λ p t, run_callback (act t) p) (due_now (advance (timers p))) p).
Proof.
  intros Hf. apply (tick_pure timers with_timers run_callback); auto using sel2_run_put.
Qed.

Lemma sel2_tick_idle p :
  Forall (λ t, now (timers p) + 1 < due t) (pending (timers p)) →
  step p Tick = with_timers (advance (timers p)) p.
Proof. intros H. by apply (tick_idle timers with_timers run_callback). Qed.

Lemma callbacks_form2 D p :
  form_highlit (fold_left (λ p t, run_callback (act t) p) D p) →
  form_highlit p ∧ D = [].
Proof.
  revert p. induction D as [|d D IH]; intros p; simpl; [done|].
  intros H. apply IH in H as [(c & Hc & Hin) _]. exfalso.
  destruct (act d); simpl in Hc.
  destruct (contact_form p) as [c0|]; simplify_eq/=.
  unfold ClassList.remove in Hin.
  apply elem_of_difference in Hin as [_ Hin]. apply Hin.
  by apply elem_of_singleton.
Qed.

Lemma tick_backed2 d p : backed (d + 1) p → backed d (step p Tick).
Proof.
  intros (Hf & Hdue & Hform).
  rewrite sel2_tick by done.
  set (D := due_now (advance (timers p))).
  split_and!; simpl.
  - by apply fresh_ids_filter.
  - apply Forall_forall. intros t Ht. apply list_elem_of_filter in Ht as [_ Ht].
    rewrite Forall_forall in Hdue. specialize (Hdue _ Ht). lia.
  - intros (c & Hc & Hin).
    destruct (callbacks_form2 D p) as [Hp HD]; [by exists c|].
    destruct (Hform Hp) as (t & Ht & Ha). exists t. split; [|done].
    apply list_elem_of_filter. split; [|done].
    destruct (decide (now (timers p) + 1 < due t)) as [|Hge]; [done|].
    exfalso. assert (t ∈ D) as HtD.
    { apply elem_of_due_now. simpl. split; [done|lia]. }
    rewrite HD in HtD. by apply elem_of_nil in HtD.
Qed.

Lemma backed2_mono d d' p : d ≤ d' → backed d p → backed d' p.
Proof.
  intros Hle (Hf & Hdue & Hform). split_and!; [done| |done].
  eapply Forall_impl; [exact Hdue|]. simpl. intros. lia.
Qed.

Lemma update_backed v scroll p :
  backed 1200 p → backed 1200 (updateProtocolSelection v scroll p).1.
Proof.
  intros (Hf & Hdue & Hform). unfold updateProtocolSelection.
  assert (backed 1200 (with_items (fmap (mark v)) (set_program v p))) as Hb.
  { split_and!; [done|done|]. intros (c & Hc & Hin). apply Hform. by exists c. }
  destruct scroll; [|done]. cbn [contactSection with_items set_program].
  destruct (contactSection p) as [top|]; [|done].
  cbn [header with_items set_program].
  destruct (header p) as [h|]; [|done].
  cbn [contact_form scrollTo with_items set_program].
  destruct (contact_form p) as [fc|] eqn:Hfc; cbn [fst].
  - split_and!.
    + by apply fresh_ids_setTimeout.
    + cbn. rewrite Forall_app, Forall_singleton. split; simpl; [|lia].
      eapply Forall_impl; [exact Hdue|]. simpl. intros. lia.
    + intros _. eexists. split; [|].
      * cbn. rewrite elem_of_app. right. by apply list_elem_of_singleton.
      * done.
  - split_and!; [done|done|]. intros (c & Hc & _). simpl in Hc. congruence.
Qed.

Lemma step_backed2 p e : backed 1200 p → backed 1200 (step p e).
Proof.
  intros Hb. destruct e as [i|i|]; simpl.
  - unfold click_card. destruct (cards p !! i) as [k|]; [|done].
    destruct (listening k); [|done]. unfold on_card_click.
    destruct (truthy (data_value k)); [|done]. by apply update_backed.
  - unfold click_item. destruct (selectorItems p !! i) as [k|]; [|done].
    destruct (ilistening k); [|done]. unfold on_item_click.
    destruct (truthy (item_value k)); [|done]. by apply update_backed.
  - apply (backed2_mono 1199); [lia|]. apply tick_backed2.
    eapply backed2_mono; [|exact Hb]. lia.
Qed.

Lemma sel2_run_cons p e es : run p (e :: es) = run (step p e) es.
Proof. done. Qed.

Lemma sel2_run_app p es es' : run p (es ++ es') = run (run p es) es'.
Proof. unfold run. by rewrite fold_left_app. Qed.

Lemma run_backed2 p es : backed 1200 p → backed 1200 (run p es).
Proof.
  revert p. induction es as [|e es IH]; intros p Hb; [done|].
  rewrite sel2_run_cons. by apply IH, step_backed2.
Qed.

Lemma ticks_backed2 (n : nat) d p :
  backed (d + N.of_nat n) p → backed d (run p (repeat Tick n)).
Proof.
  revert p. induction n as [|n IH]; intros p Hb; cbn [repeat].
  - eapply backed2_mono; [|exact Hb]. lia.
  - rewrite sel2_run_cons. apply IH. apply tick_backed2.
    eapply backed2_mono; [|exact Hb]. lia.
Qed.

Lemma backed2_now p :
  backed 1 p →
  let p' := step p Tick in
  pending (timers p') = [] ∧ ¬ form_highlit p'.
Proof.
  intros Hb. pose proof (tick_backed2 0 p Hb) as (_ & _ & Hform).
  destruct Hb as (Hf & Hdue & _).
  assert (pending (timers (step p Tick)) = []) as Hnil.
  { rewrite sel2_tick by done. simpl.
    induction Hdue as [|t l Ht Hl IHl]; [done|].
    rewrite filter_cons. case_decide; [lia|done]. }
  cbv zeta. rewrite Hnil in Hform. split; [done|].
  intros H. destruct (Hform H) as (t & Ht & _). by apply elem_of_nil in Ht.
Qed.

Lemma init_backed2 p :
  pending (timers p) = [] → ¬ form_highlit p →
  backed 1200 (initProtocolSelection p).
Proof.
  intros Hnil Hform.
  assert (backed 1200 p) as Hb.
  { split_and!; [|by rewrite Hnil|done]. split; rewrite Hnil; constructor. }
  unfold initProtocolSelection. destruct (programSelect p); [|done].
  destruct Hb as (Hf & Hdue & _). split_and!; [done|done|].
  intros (c & Hc & Hin). exfalso. apply Hform. by exists c.
Qed.

Lemma ticks_wait2 (n : nat) p :
  Forall (λ t, now (timers p) + N.of_nat n < due t) (pending (timers p)) →
  run p (repeat Tick n) =
  with_timers (Queue (now (timers p) + N.of_nat n) (next_id (timers p))
                 (pending (timers p))) p.
Proof.
  revert p. induction n as [|n IH]; intros p Hdue; cbn [repeat].
  - destruct p as [? ? ? ? ? ? ? ? [c k l] ?]. unfold with_timers. simpl.
    by rewrite N.add_0_r.
  - rewrite sel2_run_cons, sel2_tick_idle.
    + rewrite IH; simpl.
      * unfold with_timers. simpl. do 2 f_equal. lia.
      * eapply Forall_impl; [exact Hdue|]. simpl. intros. lia.
    + eapply Forall_impl; [exact Hdue|]. simpl. intros. lia.
Qed.

(** [offsetHeight || 80] *)
Lemma update_scrolls v p top h fc :
  contactSection p = Some top → header p = Some h → contact_form p = Some fc →
  updateProtocolSelection v true p =
  (Page (cards p) (mark v <$> selectorItems p) (set_value v <$> programSelect p)
     (Some top) (Some h) (Some (ClassList.add "selection-highlight" fc))
     (pageYOffset p)
     (scrolls p ++ [(top + pageYOffset p - (if bool_decide (h = 0%Z) then 80 else h))%Z])
     (Queue (now (timers p)) (next_id (timers p) + 1)
        (pending (timers p) ++
         [Timer (next_id (timers p)) (now (timers p) + 1200) UnhighlightForm]))
     (exposed p), Normal).
Proof.
  intros Htop Hh Hfc. unfold updateProtocolSelection.
  cbn [contactSection with_items set_program]. rewrite Htop.
  cbn [header with_items set_program]. rewrite Hh.
  cbn [contact_form scrollTo with_items set_program]. rewrite Hfc.
  unfold schedule, with_contact_form, scrollTo, with_items, set_program. simpl.
  by rewrite Htop, Hh, Hfc.
Qed.

(** The highlight of a scrolling selection on a page at rest lasts
    1200 ms. *)
Lemma update_timeline v p top h fc :
  contactSection p = Some top → header p = Some h → contact_form p = Some fc →
  pending (timers p) = [] →
  let p1 := (updateProtocolSelection v true p).1 in
  (∀ n : nat, (n < 1200)%nat →
     contact_form (run p1 (repeat Tick n)) =
       Some (ClassList.add "selection-highlight" fc)) ∧
  contact_form (run p1 (repeat Tick (N.to_nat 1200))) =
    Some (fc ∖ {[ "selection-highlight" ]}) ∧
  pending (timers (run p1 (repeat Tick (N.to_nat 1200)))) = [].
Proof.
  intros Htop Hh Hfc Hnil. cbv zeta.
  rewrite (update_scrolls v p top h fc) by done.
  rewrite Hnil. cbn [fst app].
  set (t1 := Timer (next_id (timers p)) (now (timers p) + 1200) UnhighlightForm).
  set (p1 := Page _ _ _ _ _ _ _ _ _ _).
  assert (∀ n : nat, (n < 1200)%nat →
            run p1 (repeat Tick n) =
            with_timers (Queue (now (timers p) + N.of_nat n)
                           (next_id (timers p) + 1) [t1]) p1) as Hwait.
  { intros n Hn. rewrite ticks_wait2; [done|].
    unfold p1, t1. simpl. repeat constructor; simpl; lia. }
  split.
  { intros n Hn. by rewrite Hwait. }
  replace (N.to_nat 1200) with (N.to_nat 1199 + 1)%nat by lia.
  rewrite repeat_app, sel2_run_app, Hwait by lia. cbn [repeat run fold_left].
  rewrite N2Nat.id.
  rewrite sel2_tick.
  2:{ unfold t1. split; simpl.
      - apply NoDup_singleton.
      - repeat constructor; simpl; lia. }
  cbn [timers with_timers now next_id pending advance].
  unfold due_now. cbn [now pending advance].
  rewrite !filter_cons, !filter_nil.
  rewrite !(decide_True (P := (_ ≤ _))) by (unfold t1; simpl; lia).
  rewrite !(decide_False (P := (_ < _))) by (unfold t1; simpl; lia).
  unfold by_due. cbn [fold_left insert_due].
  unfold t1, p1. simpl.
  by rewrite !remove_add.
Qed.

End Highlight2.
(** * Protocol selection over time *)

(** X1.  Highlights never stick.  On a page that starts with no timer
    pending and no highlight, whatever cards (and, in the second revision,
    list selectors) are clicked and whenever: 1500 ms after the last click
    of the first revision the form and the field carry no highlight class
    and no timer is pending; in the second revision the same holds for the
    form after 1200 ms. *)
Theorem selection_highlights_fade :
  (∀ p0 es,
     Timers.pending (V1.Selection.timers p0) = [] →
     ¬ Highlight1.form_highlit p0 → ¬ Highlight1.field_highlit p0 →
     let p := V1.Selection.run (V1.Selection.initProtocolSelection p0)
                (es ++ repeat V1.Selection.Tick (N.to_nat 1500)) in
     ¬ Highlight1.form_highlit p ∧ ¬ Highlight1.field_highlit p ∧
     Timers.pending (V1.Selection.timers p) = []) ∧
  (∀ p0 es,
     Timers.pending (V2.Selection.timers p0) = [] →
     ¬ Highlight2.form_highlit p0 →
     let p := V2.Selection.run (V2.Selection.initProtocolSelection p0)
                (es ++ repeat V2.Selection.Tick (N.to_nat 1200)) in
     ¬ Highlight2.form_highlit p ∧
     Timers.pending (V2.Selection.timers p) = []).
Proof.
  split.
  - intros p0 es Hnil Hform Hfield p. unfold p.
    replace (N.to_nat 1500) with (N.to_nat 1499 + 1)%nat by lia.
    rewrite repeat_app, !sel1_run_app.
    pose proof (run_backed _ es (init_backed p0 Hnil Hform Hfield)) as Hb.
    apply (backed_mono _ (1 + N.of_nat (N.to_nat 1499))) in Hb; [|lia].
    apply ticks_backed in Hb.
    destruct (backed_now _ Hb) as (H1 & H2 & H3). done.
  - intros p0 es Hnil Hform p. unfold p.
    replace (N.to_nat 1200) with (N.to_nat 1199 + 1)%nat by lia.
    rewrite repeat_app, !sel2_run_app.
    pose proof (run_backed2 _ es (init_backed2 p0 Hnil Hform)) as Hb.
    apply (backed2_mono _ (1 + N.of_nat (N.to_nat 1199))) in Hb; [|lia].
    apply ticks_backed2 in Hb.
    destruct (backed2_now _ Hb) as (H1 & H2). done.
Qed.

Lemma selection_highlights_fade_witness :
  let p := V1.Selection.run (V1.Selection.initProtocolSelection Pages.selection1)
             ([V1.Selection.CardClick 0; V1.Selection.Tick; V1.Selection.CardClick 0] ++
              repeat V1.Selection.Tick (N.to_nat 1500)) in
  ¬ Highlight1.form_highlit p ∧ ¬ Highlight1.field_highlit p ∧
  Timers.pending (V1.Selection.timers p) = [].
Proof.
  apply (proj1 selection_highlights_fade Pages.selection1
           [V1.Selection.CardClick 0; V1.Selection.Tick; V1.Selection.CardClick 0]).
  - reflexivity.
  - intros (c & Hc & Hin). simpl in Hc. injection Hc as <-. by apply not_elem_of_empty in Hin.
  - intros (s & Hs & Hin). simpl in Hs. injection Hs as <-. by apply not_elem_of_empty in Hin.
Defined.

(** X2.  First revision: a click on a card that carries a value, on a
    page with the field, the section and the form and with no timer
    pending, ends normally; the field reads the value if one of its options
    has it and the empty string if none has; the page scrolls once, to the
    section's position less 90 px; form and field carry their highlight
    classes for the next 1499 ms and have lost them, with every other class
    and the field's reading as they were, after 1500 ms. *)
Theorem card_click_highlights_for_1500_ms :
  ∀ p0 s top fc i c v,
    V1.Selection.programSelect p0 = Some s →
    V1.Selection.contactSection p0 = Some top →
    V1.Selection.contact_form p0 = Some fc →
    V1.Selection.cards p0 !! i = Some c →
    V1.Selection.data_value c = Some v → v ≠ "" →
    Timers.pending (V1.Selection.timers p0) = [] →
    let r := V1.Selection.click_card i (V1.Selection.initProtocolSelection p0) in
    r.2 = Js.Normal ∧
    V1.Selection.scrolls r.1 =
      V1.Selection.scrolls p0 ++ [(top + V1.Selection.pageYOffset p0 - 90)%Z] ∧
    (∀ n : nat, (n < 1500)%nat →
       let p := V1.Selection.run r.1 (repeat V1.Selection.Tick n) in
       V1.Selection.contact_form p = Some (fc ∪ {[ "selection-highlight" ]}) ∧
       V1.Selection.programSelect p =
         Some (V1.Selection.Select
                 (if bool_decide (v ∈ V1.Selection.options s) then v else "")
                 (V1.Selection.sclass s ∪ {[ "field-highlight" ]})
                 (V1.Selection.options s))) ∧
    (let p := V1.Selection.run r.1 (repeat V1.Selection.Tick (N.to_nat 1500)) in
     V1.Selection.contact_form p = Some (fc ∖ {[ "selection-highlight" ]}) ∧
     V1.Selection.programSelect p =
       Some (V1.Selection.Select
               (if bool_decide (v ∈ V1.Selection.options s) then v else "")
               (V1.Selection.sclass s ∖ {[ "field-highlight" ]})
               (V1.Selection.options s))).
Proof.
  intros p0 s top fc i c v Hs Htop Hfc Hc Hv Hne Hnil r.
  set (p := V1.Selection.initProtocolSelection p0) in *.
  assert (p = V1.Selection.Page
                ((λ c, V1.Selection.Card (V1.Selection.data_value c) "pointer" true)
                   <$> V1.Selection.cards p0)
                (Some s) (Some top) (Some fc) (V1.Selection.pageYOffset p0)
                (V1.Selection.scrolls p0) (V1.Selection.timers p0)) as Hp.
  { unfold p, V1.Selection.initProtocolSelection. rewrite Hs.
    assert (V1.Selection.cards p0 ≠ []) as Hcs by (intros H; by rewrite H in Hc).
    rewrite !bool_decide_eq_false_2 by done. simpl. by rewrite Htop, Hfc. }
  assert (V1.Selection.cards p !! i =
          Some (V1.Selection.Card (Some v) "pointer" true)) as Hc'.
  { rewrite Hp. simpl. by rewrite list_lookup_fmap, Hc, <- Hv. }
  assert (Timers.pending (V1.Selection.timers p) = []) as Hnil' by (by rewrite Hp).
  set (k := V1.Selection.Card (Some v) "pointer" true) in *.
  assert (V1.Selection.programSelect p = Some s) as Hs' by (by rewrite Hp).
  assert (V1.Selection.contactSection p = Some top) as Htop' by (by rewrite Hp).
  assert (V1.Selection.contact_form p = Some fc) as Hfc' by (by rewrite Hp).
  pose proof (card_click_complete p s top fc i k v Hs' Htop' Hfc' Hc'
                eq_refl eq_refl Hne) as Hclick.
  destruct (click_timeline p s top fc i k v Hs' Htop' Hfc' Hc'
              eq_refl eq_refl Hne Hnil') as (Hw & Hf1 & Hf2 & _).
  unfold r. split_and!.
  - by rewrite Hclick.
  - rewrite Hclick, Hp. done.
  - intros n Hn. exact (Hw n Hn).
  - exact Hf1.
  - exact Hf2.
Qed.

Lemma card_click_highlights_for_1500_ms_witness :
  let r := V1.Selection.click_card 0 (V1.Selection.initProtocolSelection Pages.selection1) in
  V1.Selection.scrolls r.1 = [650%Z] ∧
  V1.Selection.contact_form
    (V1.Selection.run r.1 (repeat V1.Selection.Tick (N.to_nat 1500))) =
    Some (∅ ∖ {[ "selection-highlight" ]}) ∧
  V1.Selection.value <$> V1.Selection.programSelect
    (V1.Selection.run r.1 (repeat V1.Selection.Tick (N.to_nat 1500))) = Some "elite".
Proof.
  destruct (card_click_highlights_for_1500_ms Pages.selection1
              (V1.Selection.Select "" ∅ [""; "basic"; "pro"; "elite"]) 640%Z ∅ 0%nat
              (V1.Selection.Card (Some "elite") "" false) "elite"
              eq_refl eq_refl eq_refl eq_refl eq_refl) as (_ & H1 & _ & H2 & H3);
    [discriminate|reflexivity|].
  split_and!; [exact H1|exact H2|]. by rewrite H3.
Defined.
(** * Protocol selection, second revision: scrolling and composition *)

Section Selection2.
Import Js Timers V2.Selection.
Implicit Types (p : page) (it : item).

Lemma toggle_force_absorb c (b b' : bool) (l : gset string) :
  ClassList.toggle_force c b (ClassList.toggle_force c b' l) =
  ClassList.toggle_force c b l.
Proof.
  unfold ClassList.toggle_force. destruct b, b'.
  - apply add_idem.
  - unfold ClassList.add, ClassList.remove. apply set_eq. intros x.
    rewrite !elem_of_union, elem_of_difference, !elem_of_singleton.
    destruct (decide (x = c)); tauto.
  - rewrite remove_add. done.
  - apply remove_idem.
Qed.

Lemma mark_absorb v v' it : mark v (mark v' it) = mark v it.
Proof. unfold mark. simpl. by rewrite toggle_force_absorb. Qed.

(** A selection that does not scroll. *)
Lemma update_still v p :
  updateProtocolSelection v false p =
  (with_items (fmap (mark v)) (set_program v p), Normal).
Proof. done. Qed.

Lemma update_absorb v v' p :
  updateProtocolSelection v false (updateProtocolSelection v' false p).1 =
  updateProtocolSelection v false p.
Proof.
  rewrite !update_still. cbn [fst]. f_equal.
  unfold with_items, set_program. simpl. f_equal.
  - rewrite <- list_fmap_compose. apply list_fmap_ext. intros k it _. simpl.
    apply mark_absorb.
  - by destruct (programSelect p).
Qed.

(** A list selector that a click reaches: it is listened to and carries
    the value [v]. *)
Lemma click_item_reaches j it v p :
  selectorItems p !! j = Some it → ilistening it = true →
  item_value it = Some v → v ≠ "" →
  click_item j p = updateProtocolSelection v false p.
Proof.
  intros Hj Hl Hv Hne. unfold click_item, on_item_click.
  by rewrite Hj, Hl, Hv, (truthy_Some v Hne).
Qed.

Lemma click_item_keeps i j it p :
  selectorItems p !! j = Some it →
  ∃ it', selectorItems (click_item i p).1 !! j = Some it' ∧
         ilistening it' = ilistening it ∧ item_value it' = item_value it.
Proof.
  intros Hj. unfold click_item.
  destruct (selectorItems p !! i) as [k|]; [|by exists it].
  destruct (ilistening k); [|by exists it].
  unfold on_item_click. destruct (truthy (item_value k)); [|by exists it].
  rewrite update_still. unfold with_items, set_program. simpl.
  rewrite list_lookup_fmap, Hj. simpl. by eexists.
Qed.

Lemma click_item_absorb i j it v p :
  selectorItems p !! j = Some it → ilistening it = true →
  item_value it = Some v → v ≠ "" →
  click_item j (click_item i p).1 = click_item j p.
Proof.
  intros Hj Hl Hv Hne.
  destruct (click_item_keeps i j it p Hj) as (it' & Hj' & Hl' & Hv').
  rewrite (click_item_reaches j it' v) by congruence.
  rewrite (click_item_reaches j it v p) by done.
  unfold click_item.
  destruct (selectorItems p !! i) as [k|]; [|done].
  destruct (ilistening k); [|done].
  unfold on_item_click. destruct (truthy (item_value k)); [|done].
  apply update_absorb.
Qed.

Lemma sel2_tick_rest p :
  pending (timers p) = [] → step p Tick = with_timers (advance (timers p)) p.
Proof. intros Hnil. apply sel2_tick_idle. rewrite Hnil. constructor. Qed.

(** What stays as it is while nothing scrolls: no timer is pending, and
    the scroll log, the form's classes and the section are those of [p0]. *)
Lemma still_step p0 p e :
  pending (timers p) = [] ∧ scrolls p = scrolls p0 ∧
  contact_form p = contact_form p0 ∧ contactSection p = contactSection p0 →
  (∀ i, e ≠ CardClick i) ∨ contactSection p0 = None →
  let p' := step p e in
  pending (timers p') = [] ∧ scrolls p' = scrolls p0 ∧
  contact_form p' = contact_form p0 ∧ contactSection p' = contactSection p0.
Proof.
  intros (Hnil & Hs & Hf & Hc) He. destruct e as [i|i|]; cbv zeta.
  - destruct He as [He|He]; [by destruct (He i)|]. cbn [step].
    unfold click_card. destruct (cards p !! i) as [k|]; [|done].
    destruct (listening k); [|done]. unfold on_card_click.
    destruct (truthy (data_value k)); [|done].
    unfold updateProtocolSelection. cbn [contactSection with_items set_program].
    rewrite Hc, He. simpl. split_and!; congruence.
  - cbn [step]. unfold click_item. destruct (selectorItems p !! i) as [k|]; [|done].
    destruct (ilistening k); [|done]. unfold on_item_click.
    destruct (truthy (item_value k)); [|done]. by rewrite update_still.
  - rewrite sel2_tick_rest by done. simpl. done.
Qed.

Lemma still_run p0 es p :
  pending (timers p) = [] ∧ scrolls p = scrolls p0 ∧
  contact_form p = contact_form p0 ∧ contactSection p = contactSection p0 →
  Forall (λ e, (∀ i, e ≠ CardClick i) ∨ contactSection p0 = None) es →
  let p' := run p es in
  pending (timers p') = [] ∧ scrolls p' = scrolls p0 ∧
  contact_form p' = contact_form p0 ∧ contactSection p' = contactSection p0.
Proof.
  revert p. induction es as [|e es IH]; intros p Hp Hes; [done|].
  apply Forall_cons in Hes as [He Hes].
  cbv zeta. rewrite sel2_run_cons. apply IH; [|done]. by apply still_step.
Qed.

Lemma init_still p :
  scrolls (initProtocolSelection p) = scrolls p ∧
  contact_form (initProtocolSelection p) = contact_form p ∧
  contactSection (initProtocolSelection p) = contactSection p ∧
  timers (initProtocolSelection p) = timers p ∧
  header (initProtocolSelection p) = header p ∧
  pageYOffset (initProtocolSelection p) = pageYOffset p.
Proof. unfold initProtocolSelection. by destruct (programSelect p). Qed.

End Selection2.

(** X3.  Second revision: a click on a card that carries a value, on a
    page with the field, the section, the header and the form and with no
    timer pending, ends normally and scrolls the page once, to the section's
    position less the header's height, or less 80 px when that height is 0;
    the form carries the highlight class for the next 1199 ms and has lost
    it, with every other class as it was, after 1200 ms. *)
Theorem card_click_scrolls_below_header :
  ∀ p0 s top h fc i c v,
    V2.Selection.programSelect p0 = Some s →
    V2.Selection.contactSection p0 = Some top →
    V2.Selection.header p0 = Some h →
    V2.Selection.contact_form p0 = Some fc →
    V2.Selection.cards p0 !! i = Some c →
    V2.Selection.data_value c = Some v → v ≠ "" →
    Timers.pending (V2.Selection.timers p0) = [] →
    let r := V2.Selection.click_card i (V2.Selection.initProtocolSelection p0) in
    r.2 = Js.Normal ∧
    V2.Selection.scrolls r.1 =
      V2.Selection.scrolls p0 ++
        [(top + V2.Selection.pageYOffset p0 - (if bool_decide (h = 0) then 80 else h))%Z] ∧
    (∀ n : nat, (n < 1200)%nat →
       V2.Selection.contact_form (V2.Selection.run r.1 (repeat V2.Selection.Tick n)) =
         Some (fc ∪ {[ "selection-highlight" ]})) ∧
    V2.Selection.contact_form
      (V2.Selection.run r.1 (repeat V2.Selection.Tick (N.to_nat 1200))) =
      Some (fc ∖ {[ "selection-highlight" ]}).
Proof.
  intros p0 s top h fc i c v Hs Htop Hh Hfc Hc Hv Hne Hnil r.
  set (p := V2.Selection.initProtocolSelection p0) in *.
  destruct (init_still p0) as (Hs1 & Hf1 & Hc1 & Ht1 & Hh1 & Hy1). fold p in Hs1, Hf1, Hc1, Ht1, Hh1, Hy1.
  assert (V2.Selection.click_card i p = V2.Selection.updateProtocolSelection v true p) as Hr.
  { unfold V2.Selection.click_card.
    assert (V2.Selection.cards p !! i =
            Some (V2.Selection.Card (V2.Selection.data_value c) "pointer" true)) as ->.
    { unfold p, V2.Selection.initProtocolSelection. rewrite Hs. simpl.
      by rewrite list_lookup_fmap, Hc. }
    cbn [V2.Selection.listening]. unfold V2.Selection.on_card_click.
    cbn [V2.Selection.data_value]. by rewrite Hv, (truthy_Some v Hne). }
  assert (V2.Selection.contactSection p = Some top) as Htop' by congruence.
  assert (V2.Selection.header p = Some h) as Hh' by congruence.
  assert (V2.Selection.contact_form p = Some fc) as Hfc' by congruence.
  assert (Timers.pending (V2.Selection.timers p) = []) as Hnil' by congruence.
  destruct (update_timeline v p top h fc Htop' Hh' Hfc' Hnil') as (Hw & Hf & _).
  unfold r. rewrite Hr. split_and!.
  - by rewrite (update_scrolls v p top h fc).
  - rewrite (update_scrolls v p top h fc) by done. simpl. by rewrite Hs1, Hy1.
  - intros n Hn. exact (Hw n Hn).
  - exact Hf.
Qed.

Lemma card_click_scrolls_below_header_witness :
  let r := V2.Selection.click_card 0 (V2.Selection.initProtocolSelection Pages.selection2) in
  V2.Selection.scrolls r.1 = [668%Z] ∧
  V2.Selection.contact_form
    (V2.Selection.run r.1 (repeat V2.Selection.Tick (N.to_nat 1200))) =
    Some (∅ ∖ {[ "selection-highlight" ]}).
Proof.
  destruct (card_click_scrolls_below_header Pages.selection2
              (V2.Selection.Select "basic" ["basic"; "elite"]) 640%Z 72%Z ∅ 0%nat
              (V2.Selection.Card (Some "elite") "" false) "elite"
              eq_refl eq_refl eq_refl eq_refl eq_refl eq_refl) as (_ & H1 & _ & H2);
    [discriminate|reflexivity|].
  split; [exact H1|exact H2].
Defined.

(** X4.  Second revision, on a page that starts with no timer pending:
    however many list selectors are clicked and however much time passes,
    the page is never scrolled, the form's classes never change and no timer
    is set; and the same holds for clicks on cards too when the page has no
    [#contact] section. *)
Theorem selector_clicks_never_scroll :
  ∀ p0 es,
    Timers.pending (V2.Selection.timers p0) = [] →
    Forall (λ e, (∀ i, e ≠ V2.Selection.CardClick i) ∨
                 V2.Selection.contactSection p0 = None) es →
    let p := V2.Selection.run (V2.Selection.initProtocolSelection p0) es in
    V2.Selection.scrolls p = V2.Selection.scrolls p0 ∧
    V2.Selection.contact_form p = V2.Selection.contact_form p0 ∧
    Timers.pending (V2.Selection.timers p) = [].
Proof.
  intros p0 es Hnil Hes p.
  destruct (init_still p0) as (Hs1 & Hf1 & Hc1 & Ht1 & _).
  destruct (still_run p0 es (V2.Selection.initProtocolSelection p0)) as (H1 & H2 & H3 & _).
  - rewrite Ht1. done.
  - done.
  - done.
Qed.

Lemma selector_clicks_never_scroll_witness :
  V2.Selection.scrolls
    (V2.Selection.run (V2.Selection.initProtocolSelection Pages.selection2)
       [V2.Selection.ItemClick 1; V2.Selection.Tick; V2.Selection.ItemClick 0]) = [].
Proof.
  destruct (selector_clicks_never_scroll Pages.selection2
              [V2.Selection.ItemClick 1; V2.Selection.Tick; V2.Selection.ItemClick 0])
    as (H & _).
  - reflexivity.
  - repeat (apply List.Forall_cons; [left; discriminate|]). apply List.Forall_nil.
  - exact H.
Defined.

(** X5.  Second revision: the last click on a list selector wins.  After
    any clicks on list selectors, a click on a selector that carries a value
    leaves the page exactly as that click alone would have. *)
Theorem last_selector_click_wins :
  ∀ p (before : list nat) j it v,
    V2.Selection.selectorItems p !! j = Some it →
    V2.Selection.ilistening it = true →
    V2.Selection.item_value it = Some v → v ≠ "" →
    V2.Selection.run p (V2.Selection.ItemClick <$> (before ++ [j])) =
    V2.Selection.run p [V2.Selection.ItemClick j].
Proof.
  intros p before. revert p.
  induction before as [|i before IH]; intros p j it v Hj Hl Hv Hne; [done|].
  cbn [app fmap list_fmap]. rewrite sel2_run_cons. cbn [V2.Selection.step].
  destruct (click_item_keeps i j it p Hj) as (it' & Hj' & Hl' & Hv').
  rewrite (IH _ j it' v) by congruence.
  cbn [V2.Selection.run fold_left V2.Selection.step].
  by rewrite (click_item_absorb i j it v).
Qed.

Lemma last_selector_click_wins_witness :
  V2.Selection.run (V2.Selection.initProtocolSelection Pages.selection2)
    (V2.Selection.ItemClick <$> ([1; 0; 0] ++ [1]))%nat =
  V2.Selection.run (V2.Selection.initProtocolSelection Pages.selection2)
    [V2.Selection.ItemClick 1].
Proof.
  apply (last_selector_click_wins
           (V2.Selection.initProtocolSelection Pages.selection2) [1; 0; 0]%nat 1%nat
           (V2.Selection.Item (Some "elite") ∅ true) "elite");
    [reflexivity|reflexivity|reflexivity|discriminate].
Defined.
(** * Contact form, first revision: what is sent, logged and kept *)

Section Contact1More.
Import Js Dom Timers V1.Contact Phase1 History1.
Implicit Types (w : world) (r : request) (b : button) (e : event) (f : form).

Ltac plumb_more :=
  unfold on_catch, on_response, on_submit, cancel, drop_request, schedule,
    showSuccessMessage, with_timers, with_form, with_inflight, with_button,
    with_fields, with_overlays, button_of, clock, overlays_of, fields_of in *;
  simpl in *.

(** The request a submission sends. *)
Lemma submit_sends w f b :
  contactForm w = Some f → submitBtn f = Some b → disabled b = false →
  inflight w = [] →
  inflight (step w Submit) =
    [Request (next_rid w) (innerText b) (next_id (timers w)) AwaitFetch
       (Post (action f) (formData (fields f)) "application/json")].
Proof.
  intros Hf Hb Hd Hi. cbn [step]. rewrite Hf. unfold submittable.
  rewrite Hb, Hd. simpl. unfold on_submit. rewrite Hb. simpl. by rewrite Hi.
Qed.

(** A property that ignores the timers and survives every callback
    survives a millisecond. *)
Lemma tick_inv (P : world → Prop) w :
  (∀ q w, P w → P (with_timers q w)) →
  (∀ c w, P w → P (run_callback c w)) →
  P w → P (step w Tick).
Proof.
  intros Hq Hc Hw. cbn [step]. unfold Timers.tick.
  apply fold_fire_inv; [by apply Hq|].
  intros w' id _ Hw'. unfold Timers.fire.
  destruct (List.find _ _) as [t|]; [|done]. by apply Hc, Hq.
Qed.

Lemma catch_keeps r (err : error) w :
  overlays_of (on_catch r err w) = overlays_of w ∧
  fields_of (on_catch r err w) = fields_of w ∧
  console (on_catch r err w) = console w ++ [err].
Proof. plumb_more. by destruct (contactForm w). Qed.

Lemma callback_keeps_fields c w : fields_of (run_callback c w) = fields_of w.
Proof.
  destruct c as [k|text|o]; simpl.
  - destruct (List.find _ _); [|done]. apply catch_keeps.
  - plumb_more. by destruct (contactForm w).
  - plumb_more. by destruct (contactForm w).
Qed.

Lemma callback_keeps_none c w :
  overlays_of w = [] → overlays_of (run_callback c w) = [].
Proof.
  intros Hw. destruct c as [k|text|o]; simpl.
  - destruct (List.find _ _); [|done]. by rewrite (proj1 (catch_keeps _ _ _)).
  - plumb_more. by destruct (contactForm w).
  - plumb_more. destruct (contactForm w) as [f|]; [|done]. simpl in *. by rewrite Hw.
Qed.

(** Without an ok response no overlay appears. *)
Lemma step_shows_nothing w e :
  is_success e = false → overlays_of w = [] → overlays_of (step w e) = [].
Proof.
  intros He Hw. destruct e as [|i v|o| |k ok|k|k data|k].
  - cbn [step]. destruct (contactForm w) as [f|] eqn:Hf; [|done].
    destruct (submittable f); [|done]. unfold on_submit.
    destruct (submitBtn f); [|done]. plumb_more. by rewrite Hf in *.
  - plumb_more. by destruct (contactForm w).
  - plumb_more. destruct (contactForm w) as [f|]; [|done]. simpl in *. by rewrite Hw.
  - apply (tick_inv (λ w, overlays_of w = [])); [done| |done].
    intros c w'. apply callback_keeps_none.
  - destruct ok; [done|]. cbn [step].
    destruct (lookup_request k AwaitFetch w); [|done]. plumb_more.
    by destruct (contactForm w).
  - cbn [step]. destruct (lookup_request k AwaitFetch w); [|done].
    by rewrite (proj1 (catch_keeps _ _ _)).
  - cbn [step]. destruct (lookup_request k AwaitJson w); [|done].
    by rewrite (proj1 (catch_keeps _ _ _)).
  - cbn [step]. destruct (lookup_request k AwaitJson w); [|done].
    by rewrite (proj1 (catch_keeps _ _ _)).
Qed.

(** Without an ok response and without typing the fields stay. *)
Lemma step_keeps_fields w e :
  is_success e = false → is_input e = false → fields_of (step w e) = fields_of w.
Proof.
  intros He Hi. destruct e as [|i v|o| |k ok|k|k data|k]; try discriminate Hi.
  - cbn [step]. destruct (contactForm w) as [f|] eqn:Hf; [|done].
    destruct (submittable f); [|done]. unfold on_submit.
    destruct (submitBtn f); [|done]. plumb_more. by rewrite Hf.
  - plumb_more. by destruct (contactForm w).
  - apply (tick_inv (λ w', fields_of w' = fields_of w)); [done| |done].
    intros c w' <-. apply callback_keeps_fields.
  - destruct ok; [done|]. cbn [step].
    destruct (lookup_request k AwaitFetch w); [|done]. plumb_more.
    by destruct (contactForm w).
  - cbn [step]. destruct (lookup_request k AwaitFetch w); [|done].
    apply catch_keeps.
  - cbn [step]. destruct (lookup_request k AwaitJson w); [|done].
    apply catch_keeps.
  - cbn [step]. destruct (lookup_request k AwaitJson w); [|done].
    apply catch_keeps.
Qed.

Lemma run_shows_nothing w es :
  Forall (λ e, is_success e = false) es → overlays_of w = [] →
  overlays_of (run w es) = [].
Proof.
  revert w. induction es as [|e es IH]; intros w Hes Hw; [done|].
  apply Forall_cons in Hes as [He Hes]. rewrite run_cons.
  apply IH; [done|]. by apply step_shows_nothing.
Qed.

Lemma run_keeps_fields w es :
  Forall (λ e, is_success e = false ∧ is_input e = false) es →
  fields_of (run w es) = fields_of w.
Proof.
  revert w. induction es as [|e es IH]; intros w Hes; [done|].
  apply Forall_cons in Hes as [[He Hi] Hes]. rewrite run_cons.
  rewrite IH by done. by apply step_keeps_fields.
Qed.

(** ** A form without a submit button *)

Lemma buttonless_step w e :
  contactForm w ≫= submitBtn = None ∧ inflight w = [] ∧
  pending (timers w) = [] ∧ console w = [] →
  let w' := step w e in
  contactForm w' ≫= submitBtn = None ∧ inflight w' = [] ∧
  pending (timers w') = [] ∧ console w' = [].
Proof.
  intros (Hb & Hi & Hp & Hc).
  destruct e as [|i v|o| |k ok|k|k data|k]; cbv zeta.
  - cbn [step]. destruct (contactForm w) as [f|] eqn:Hf; [|by rewrite Hf].
    simpl in Hb. unfold submittable, on_submit. rewrite Hb. by rewrite Hf.
  - plumb_more. by destruct (contactForm w).
  - plumb_more. by destruct (contactForm w).
  - cbn [step].
    rewrite (tick_idle timers with_timers run_callback) by (done || by rewrite Hp).
    done.
  - cbn [step]. by rewrite lookup_none.
  - cbn [step]. by rewrite lookup_none.
  - cbn [step]. by rewrite lookup_none.
  - cbn [step]. by rewrite lookup_none.
Qed.

Lemma buttonless_run w es :
  contactForm w ≫= submitBtn = None ∧ inflight w = [] ∧
  pending (timers w) = [] ∧ console w = [] →
  let w' := run w es in
  contactForm w' ≫= submitBtn = None ∧ inflight w' = [] ∧
  pending (timers w') = [] ∧ console w' = [].
Proof.
  revert w. induction es as [|e es IH]; intros w Hw; [done|].
  cbv zeta. rewrite run_cons. by apply IH, buttonless_step.
Qed.

(** ** What a failed attempt logs *)

Lemma response_keeps_console r ok w :
  console (on_response r ok w) = console w.
Proof. destruct ok; plumb_more; done. Qed.

(** From the submission to the moment before the fetch settles. *)
Lemma flight_reached w b pre :
  idle w → button_of w = Some b → disabled b = false →
  quiet pre → elapsed pre < 10000 →
  let w1 := run w (Submit :: pre) in
  ∃ r D, rid r = next_rid w ∧
    in_flight r D (Button "Initializing Protocol..." true "0.7") w1 ∧
    console w1 = console w.
Proof.
  intros Hidle Hb Hd Hpre Hlt.
  destruct (submit_starts w b Hidle Hb Hd) as (r & Hr & _ & Hfl & Hc & _ & _ & Hcon).
  destruct (flight_holds r _ _ _ pre Hfl Hpre) as (Hfl1 & _ & _ & Hcon1 & _); [lia|].
  cbv zeta. rewrite run_cons. exists r, (clock w + 10000).
  split_and!; [done|done|congruence].
Qed.

(** ... and to the moment before the body of a response that was not ok
    settles. *)
Lemma parse_reached w b pre mid :
  idle w → button_of w = Some b → disabled b = false →
  quiet pre → elapsed pre < 10000 → quiet mid →
  let w1 := run w (Submit :: pre ++ FetchResolve (next_rid w) false :: mid) in
  ∃ r, rid r = next_rid w ∧
    parsing r (Button "Initializing Protocol..." true "0.7") w1 ∧
    console w1 = console w.
Proof.
  intros Hidle Hb Hd Hpre Hlt Hmid.
  destruct (flight_reached w b pre Hidle Hb Hd Hpre Hlt) as (r & D & Hr & Hfl & Hcon).
  cbv zeta. rewrite app_comm_cons, run_app, run_cons, <- Hr.
  destruct (refusal_parses r D _ _ Hfl) as (Hp & _ & _).
  set (r' := Request _ _ _ _ _) in Hp.
  assert (console (step (run w (Submit :: pre)) (FetchResolve (rid r) false)) = console w)
    as Hcon2.
  { cbn [step]. rewrite (lookup_single r AwaitFetch); [|apply Hfl|apply Hfl].
    by rewrite response_keeps_console. }
  destruct (parse_holds r' _ _ mid Hp Hmid) as (Hp1 & _ & _).
  pose proof Hp as (_ & _ & [Hs _] & Hb2 & Hd2).
  destruct (run_locked [] _ mid _ _ Hs Hb2 Hd2 Hmid) as (_ & _ & _ & _ & _ & Hcon3 & _);
    [constructor|].
  exists r'. split_and!; [done|done|congruence].
Qed.

End Contact1More.
(** * Contact form, second revision: what is sent and kept *)

Section Contact2More.
Import Js Dom Timers V2.Contact Phase2 History2.
Implicit Types (w : world) (r : request) (b : button) (e : event) (f : form).

Ltac plumb_more2 :=
  unfold on_catch, on_response, on_submit, drop_request, schedule,
    showSuccessMessage, with_timers, with_form, with_inflight, with_button,
    with_fields, with_overlays, button_of, clock, overlays_of, fields_of in *;
  simpl in *.

Lemma submit_sends2 w f b :
  contactForm w = Some f → submitBtn f = Some b → disabled b = false →
  inflight w = [] →
  inflight (step w Submit) =
    [Request (next_rid w) (label b)
       (Post (action f) (formData (fields f)) "application/json")].
Proof.
  intros Hf Hb Hd Hi. cbn [step]. rewrite Hf. unfold submittable.
  rewrite Hb, Hd. simpl. unfold on_submit. rewrite Hb. simpl. by rewrite Hi.
Qed.

Lemma tick_inv2 (P : world → Prop) w :
  (∀ q w, P w → P (with_timers q w)) →
  (∀ c w, P w → P (run_callback c w)) →
  P w → P (step w Tick).
Proof.
  intros Hq Hc Hw. cbn [step]. unfold Timers.tick.
  apply fold_fire_inv; [by apply Hq|].
  intros w' id _ Hw'. unfold Timers.fire.
  destruct (List.find _ _) as [t|]; [|done]. by apply Hc, Hq.
Qed.

Lemma catch_keeps2 r w :
  overlays_of (on_catch r w) = overlays_of w ∧
  fields_of (on_catch r w) = fields_of w.
Proof. plumb_more2. by destruct (contactForm w). Qed.

Lemma callback_keeps_fields2 c w : fields_of (run_callback c w) = fields_of w.
Proof. destruct c as [text|o]; plumb_more2; by destruct (contactForm w). Qed.

Lemma callback_keeps_none2 c w :
  overlays_of w = [] → overlays_of (run_callback c w) = [].
Proof.
  intros Hw. destruct c as [text|o]; plumb_more2.
  - by destruct (contactForm w).
  - destruct (contactForm w) as [f|]; [|done]. simpl in *. by rewrite Hw.
Qed.

Lemma step_shows_nothing2 w e :
  is_success e = false → overlays_of w = [] → overlays_of (step w e) = [].
Proof.
  intros He Hw. destruct e as [|i v|o| |k ok|k].
  - cbn [step]. destruct (contactForm w) as [f|] eqn:Hf; [|done].
    destruct (submittable f); [|done]. unfold on_submit.
    destruct (submitBtn f); plumb_more2; by rewrite Hf in *.
  - plumb_more2. by destruct (contactForm w).
  - plumb_more2. destruct (contactForm w) as [f|]; [|done]. simpl in *. by rewrite Hw.
  - apply (tick_inv2 (λ w, overlays_of w = [])); [done| |done].
    intros c w'. apply callback_keeps_none2.
  - destruct ok; [done|]. cbn [step].
    destruct (lookup_request k w); [|done]. cbn [on_response].
    by rewrite (proj1 (catch_keeps2 _ _)).
  - cbn [step]. destruct (lookup_request k w); [|done].
    by rewrite (proj1 (catch_keeps2 _ _)).
Qed.

Lemma step_keeps_fields2 w e :
  is_success e = false → is_input e = false → fields_of (step w e) = fields_of w.
Proof.
  intros He Hi. destruct e as [|i v|o| |k ok|k]; try discriminate Hi.
  - cbn [step]. destruct (contactForm w) as [f|] eqn:Hf; [|done].
    destruct (submittable f); [|done]. unfold on_submit.
    destruct (submitBtn f); plumb_more2; by rewrite Hf.
  - plumb_more2. by destruct (contactForm w).
  - apply (tick_inv2 (λ w', fields_of w' = fields_of w)); [done| |done].
    intros c w' <-. apply callback_keeps_fields2.
  - destruct ok; [done|]. cbn [step].
    destruct (lookup_request k w); [|done]. apply catch_keeps2.
  - cbn [step]. destruct (lookup_request k w); [|done]. apply catch_keeps2.
Qed.

Lemma run_shows_nothing2 w es :
  Forall (λ e, is_success e = false) es → overlays_of w = [] →
  overlays_of (run w es) = [].
Proof.
  revert w. induction es as [|e es IH]; intros w Hes Hw; [done|].
  apply Forall_cons in Hes as [He Hes]. rewrite run2_cons.
  apply IH; [done|]. by apply step_shows_nothing2.
Qed.

Lemma run_keeps_fields2 w es :
  Forall (λ e, is_success e = false ∧ is_input e = false) es →
  fields_of (run w es) = fields_of w.
Proof.
  revert w. induction es as [|e es IH]; intros w Hes; [done|].
  apply Forall_cons in Hes as [[He Hi] Hes]. rewrite run2_cons.
  rewrite IH by done. by apply step_keeps_fields2.
Qed.

(** ** A form without a submit button *)

Lemma submissions_cons e es :
  submissions (e :: es) = ((if is_submit e then 1 else 0) + submissions es)%nat.
Proof.
  unfold submissions. rewrite filter_cons. by destruct e.
Qed.

Lemma buttonless_step2 w e :
  (∃ f, contactForm w = Some f ∧ submitBtn f = None) ∧ inflight w = [] ∧
  pending (timers w) = [] →
  let w' := step w e in
  ((∃ f, contactForm w' = Some f ∧ submitBtn f = None) ∧ inflight w' = [] ∧
   pending (timers w') = []) ∧
  unhandled w' =
    unhandled w ++
    (if is_submit e
     then [TypeError "Cannot read properties of null (reading 'querySelector')"]
     else []).
Proof.
  intros ((f & Hf & Hb) & Hi & Hp).
  destruct e as [|i v|o| |k ok|k]; cbv zeta; cbn [is_submit]; rewrite ?app_nil_r.
  - cbn [step]. rewrite Hf. unfold submittable, on_submit. rewrite Hb. simpl.
    split_and!; eauto.
  - plumb_more2. rewrite Hf. simpl. split_and!; eauto.
  - plumb_more2. rewrite Hf. simpl. split_and!; eauto.
  - cbn [step].
    rewrite (tick_idle timers with_timers run_callback) by (done || by rewrite Hp).
    split_and!; eauto.
  - cbn [step]. rewrite lookup2_none by done. split_and!; eauto.
  - cbn [step]. rewrite lookup2_none by done. split_and!; eauto.
Qed.

Lemma buttonless_run2 w es :
  (∃ f, contactForm w = Some f ∧ submitBtn f = None) ∧ inflight w = [] ∧
  pending (timers w) = [] →
  let w' := run w es in
  inflight w' = [] ∧ pending (timers w') = [] ∧
  unhandled w' =
    unhandled w ++
    repeat (TypeError "Cannot read properties of null (reading 'querySelector')")
      (submissions es).
Proof.
  revert w. induction es as [|e es IH]; intros w Hw.
  - cbv zeta. simpl. rewrite app_nil_r. by destruct Hw as (_ & ? & ?).
  - cbv zeta. rewrite run2_cons.
    destruct (buttonless_step2 w e Hw) as (Hw' & Hu).
    destruct (IH _ Hw') as (Hi & Hp & Hu'). split_and!; [done|done|].
    rewrite Hu', Hu, submissions_cons, <- app_assoc. f_equal.
    by destruct (is_submit e).
Qed.

(** From the submission to any moment before the fetch settles. *)
Lemma flight_reached2 w b post :
  idle w → button_of w = Some b → disabled b = false → quiet post →
  let w1 := run w (Submit :: post) in
  ∃ r, rid r = next_rid w ∧
    in_flight r (Button (has_btn_text b) "Sending..." true) w1.
Proof.
  intros Hidle Hb Hd Hpost.
  destruct (submit_starts2 w b Hidle Hb Hd) as (r & Hr & _ & Hfl & _).
  destruct (flight_holds2 r _ _ post Hfl Hpost) as (Hfl1 & _).
  cbv zeta. rewrite run2_cons. by exists r.
Qed.

End Contact2More.
(** * Contact form: further properties *)

(** X6.  What a submission sends is fixed when it starts.  On a page that
    was loaded and has lived through any events since, a submission through
    the enabled button puts exactly one request in flight, to the form's
    [action], accepting JSON, with the names and values the fields had at
    that moment; whatever the user types or does while the response is
    awaited (in the first revision, within the 10 s), that request is still
    the one in flight and what it carries is unchanged. *)
Theorem request_carries_the_fields_at_submit :
  (∀ f0 history f b pre,
     let w := V1.Contact.run (V1.Contact.load f0) history in
     V1.Contact.contactForm w = Some f → V1.Contact.submitBtn f = Some b →
     V1.Contact.disabled b = false →
     Phase1.quiet pre → V1.Contact.elapsed pre < 10000 →
     V1.Contact.sent <$>
       V1.Contact.inflight (V1.Contact.run w (V1.Contact.Submit :: pre)) =
     [Dom.Post (V1.Contact.action f) (Dom.formData (V1.Contact.fields f))
        "application/json"]) ∧
  (∀ f0 overflow history f b pre,
     let w := V2.Contact.run (V2.Contact.load f0 overflow) history in
     V2.Contact.contactForm w = Some f → V2.Contact.submitBtn f = Some b →
     V2.Contact.disabled b = false →
     Phase2.quiet pre →
     V2.Contact.sent <$>
       V2.Contact.inflight (V2.Contact.run w (V2.Contact.Submit :: pre)) =
     [Dom.Post (V2.Contact.action f) (Dom.formData (V2.Contact.fields f))
        "application/json"]).
Proof.
  split.
  - intros f0 history f b pre w Hf Hb Hd Hpre Hlt.
    assert (V1.Contact.button_of w = Some b) as Hbw.
    { unfold V1.Contact.button_of. by rewrite Hf. }
    pose proof (reachable_enabled_idle f0 history b Hbw Hd) as Hidle.
    destruct (submit_starts w b Hidle Hbw Hd) as (r & _ & _ & Hfl & Hc & _).
    pose proof (submit_sends w f b Hf Hb Hd (proj1 Hidle)) as Hsent.
    destruct (flight_holds r _ _ _ pre Hfl Hpre) as ((Hi & _) & _); [lia|].
    rewrite run_cons, Hi.
    destruct Hfl as (Hi0 & _). rewrite Hi0 in Hsent. injection Hsent as ->. done.
  - intros f0 overflow history f b pre w Hf Hb Hd Hpre.
    assert (V2.Contact.button_of w = Some b) as Hbw.
    { unfold V2.Contact.button_of. by rewrite Hf. }
    pose proof (reachable_enabled_idle2 f0 overflow history b Hbw Hd) as Hidle.
    destruct (submit_starts2 w b Hidle Hbw Hd) as (r & _ & _ & Hfl & _).
    pose proof (submit_sends2 w f b Hf Hb Hd (proj1 Hidle)) as Hsent.
    destruct (flight_holds2 r _ _ pre Hfl Hpre) as ((Hi & _) & _).
    rewrite run2_cons, Hi.
    destruct Hfl as (Hi0 & _). rewrite Hi0 in Hsent. injection Hsent as ->. done.
Qed.

Lemma request_carries_the_fields_at_submit_witness :
  V1.Contact.sent <$>
    V1.Contact.inflight
      (V1.Contact.run Sample.page1
         [V1.Contact.Submit; V1.Contact.Input 0 "Bea"; V1.Contact.Tick]) =
  [Dom.Post "https://formspree.io/f/demo"
     [("name", "Ana"); ("email", "ana@example.org"); ("program", "elite")]
     "application/json"].
Proof.
  apply (proj1 request_carries_the_fields_at_submit (Some Sample.form1) []
           Sample.form1 (V1.Contact.Button "Start Protocol" false "")
           [V1.Contact.Input 0 "Bea"; V1.Contact.Tick]).
  - reflexivity.
  - reflexivity.
  - reflexivity.
  - repeat constructor.
  - reflexivity.
Defined.

(** X7.  A contact form without a submit button.  In the first revision
    every submission does nothing: no request is sent, no timer set,
    nothing logged, whatever else happens.  In the second revision every
    submission throws a TypeError out of the listener before anything is
    sent: as many errors escape as submissions were made, and no request or
    timer ever exists. *)
Theorem submission_without_a_button :
  (∀ f es,
     V1.Contact.submitBtn f = None →
     let w := V1.Contact.run (V1.Contact.load (Some f)) es in
     V1.Contact.inflight w = [] ∧ Timers.pending (V1.Contact.timers w) = [] ∧
     V1.Contact.console w = []) ∧
  (∀ f overflow es,
     V2.Contact.submitBtn f = None →
     let w := V2.Contact.run (V2.Contact.load (Some f) overflow) es in
     V2.Contact.inflight w = [] ∧ Timers.pending (V2.Contact.timers w) = [] ∧
     V2.Contact.unhandled w =
       repeat (Js.TypeError "Cannot read properties of null (reading 'querySelector')")
         (History2.submissions es)).
Proof.
  split.
  - intros f es Hb w.
    destruct (buttonless_run (V1.Contact.load (Some f)) es) as (_ & H1 & H2 & H3); [|done].
    simpl. by rewrite Hb.
  - intros f overflow es Hb w.
    destruct (buttonless_run2 (V2.Contact.load (Some f) overflow) es) as (H1 & H2 & H3);
      [|done].
    simpl. split_and!; eauto.
Qed.

Lemma submission_without_a_button_witness :
  V2.Contact.unhandled
    (V2.Contact.run (V2.Contact.load (Some Pages.buttonless2) "")
       [V2.Contact.Submit; V2.Contact.Tick; V2.Contact.Submit]) =
  [Js.TypeError "Cannot read properties of null (reading 'querySelector')";
   Js.TypeError "Cannot read properties of null (reading 'querySelector')"].
Proof.
  destruct (proj2 submission_without_a_button Pages.buttonless2 ""
              [V2.Contact.Submit; V2.Contact.Tick; V2.Contact.Submit] eq_refl)
    as (_ & _ & H).
  exact H.
Defined.

(** X8.  Without an ok response nothing is shown and nothing is cleared.
    In both revisions, from any state of the page without an overlay, no
    sequence of events that holds no ok response makes an overlay appear;
    and from any state, no sequence of events that holds neither an ok
    response nor typing changes a field of the form: failures, timeouts and
    the restoring of the button leave the user's input as it is. *)
Theorem failures_show_nothing_and_clear_nothing :
  (∀ w es,
     Phase1.overlays_of w = [] →
     Forall (λ e, History1.is_success e = false) es →
     Phase1.overlays_of (V1.Contact.run w es) = []) ∧
  (∀ w es,
     Forall (λ e, History1.is_success e = false ∧ History1.is_input e = false) es →
     Phase1.fields_of (V1.Contact.run w es) = Phase1.fields_of w) ∧
  (∀ w es,
     Phase2.overlays_of w = [] →
     Forall (λ e, History2.is_success e = false) es →
     Phase2.overlays_of (V2.Contact.run w es) = []) ∧
  (∀ w es,
     Forall (λ e, History2.is_success e = false ∧ History2.is_input e = false) es →
     Phase2.fields_of (V2.Contact.run w es) = Phase2.fields_of w).
Proof.
  split_and!.
  - intros w es Hw Hes. by apply run_shows_nothing.
  - intros w es Hes. by apply run_keeps_fields.
  - intros w es Hw Hes. by apply run_shows_nothing2.
  - intros w es Hes. by apply run_keeps_fields2.
Qed.

Lemma failures_show_nothing_and_clear_nothing_witness :
  Phase1.fields_of
    (V1.Contact.run Sample.page1
       [V1.Contact.Submit; V1.Contact.Tick; V1.Contact.FetchResolve 0 false;
        V1.Contact.JsonResolve 0 (Js.JObject (Some "quota"))]) =
  Sample.fields.
Proof.
  apply (proj1 (proj2 failures_show_nothing_and_clear_nothing) Sample.page1).
  repeat (apply List.Forall_cons; [by split|]). apply List.Forall_nil.
Defined.

(** X9.  First revision: what a failed attempt logs.  A submission from
    a reachable page through the enabled button logs exactly one error when
    it fails, and none when it succeeds: the TypeError of the network when
    the fetch is rejected; when the response is not ok, the error made from
    its body, or a SyntaxError when the body does not parse.  The error made
    from a body carries the body's [error] member when that is a non-empty
    string, and "Form submission failed" when the member is missing or
    empty or the body is no object. *)
Theorem failed_attempts_log_their_error :
  ∀ f0 history b pre,
    let w := V1.Contact.run (V1.Contact.load f0) history in
    let k := V1.Contact.next_rid w in
    V1.Contact.button_of w = Some b → V1.Contact.disabled b = false →
    Phase1.quiet pre → V1.Contact.elapsed pre < 10000 →
    V1.Contact.console
      (V1.Contact.run w (V1.Contact.Submit :: pre ++ [V1.Contact.FetchReject k])) =
      V1.Contact.console w ++ [Js.TypeError "Failed to fetch"] ∧
    (∀ mid data, Phase1.quiet mid →
       V1.Contact.console
         (V1.Contact.run w
            (V1.Contact.Submit :: pre ++ V1.Contact.FetchResolve k false ::
               mid ++ [V1.Contact.JsonResolve k data])) =
       V1.Contact.console w ++ [V1.Contact.rejection data]) ∧
    (∀ mid, Phase1.quiet mid →
       V1.Contact.console
         (V1.Contact.run w
            (V1.Contact.Submit :: pre ++ V1.Contact.FetchResolve k false ::
               mid ++ [V1.Contact.JsonReject k])) =
       V1.Contact.console w ++ [Js.SyntaxError]) ∧
    V1.Contact.console
      (V1.Contact.run w (V1.Contact.Submit :: pre ++ [V1.Contact.FetchResolve k true])) =
      V1.Contact.console w ∧
    (∀ m, m ≠ "" → V1.Contact.rejection (Js.JObject (Some m)) = Js.Error m) ∧
    (∀ data, data = Js.JObject None ∨ data = Js.JObject (Some "") ∨ data = Js.JOther →
       V1.Contact.rejection data = Js.Error "Form submission failed").
Proof.
  intros f0 history b pre w k Hb Hd Hpre Hlt.
  pose proof (reachable_enabled_idle f0 history b Hb Hd) as Hidle.
  destruct (flight_reached w b pre Hidle Hb Hd Hpre Hlt) as (r & D & Hr & Hfl & Hcon).
  fold k in Hr.
  pose proof (lookup_single r V1.Contact.AwaitFetch _ (proj1 Hfl) (proj1 (proj2 Hfl)))
    as Hlk.
  rewrite Hr in Hlk.
  split_and!.
  - rewrite app_comm_cons, run_snoc. cbn [V1.Contact.step].
    rewrite Hlk.
    rewrite (proj2 (proj2 (catch_keeps _ _ _))). by rewrite Hcon.
  - intros mid data Hmid.
    destruct (parse_reached w b pre mid Hidle Hb Hd Hpre Hlt Hmid) as (r' & Hr' & Hp & Hc').
    fold k in Hr', Hp, Hc'.
    replace (V1.Contact.Submit :: pre ++ V1.Contact.FetchResolve k false ::
               mid ++ [V1.Contact.JsonResolve k data])
      with ((V1.Contact.Submit :: pre ++ V1.Contact.FetchResolve k false :: mid) ++
              [V1.Contact.JsonResolve k data])
      by (by rewrite !app_comm_cons, <- app_assoc).
    rewrite run_snoc. cbn [V1.Contact.step].
    pose proof (lookup_single r' V1.Contact.AwaitJson _ (proj1 Hp) (proj1 (proj2 Hp)))
      as Hlk'.
    rewrite Hr' in Hlk'. rewrite Hlk'.
    rewrite (proj2 (proj2 (catch_keeps _ _ _))). by rewrite Hc'.
  - intros mid Hmid.
    destruct (parse_reached w b pre mid Hidle Hb Hd Hpre Hlt Hmid) as (r' & Hr' & Hp & Hc').
    fold k in Hr', Hp, Hc'.
    replace (V1.Contact.Submit :: pre ++ V1.Contact.FetchResolve k false ::
               mid ++ [V1.Contact.JsonReject k])
      with ((V1.Contact.Submit :: pre ++ V1.Contact.FetchResolve k false :: mid) ++
              [V1.Contact.JsonReject k])
      by (by rewrite !app_comm_cons, <- app_assoc).
    rewrite run_snoc. cbn [V1.Contact.step].
    pose proof (lookup_single r' V1.Contact.AwaitJson _ (proj1 Hp) (proj1 (proj2 Hp)))
      as Hlk'.
    rewrite Hr' in Hlk'. rewrite Hlk'.
    rewrite (proj2 (proj2 (catch_keeps _ _ _))). by rewrite Hc'.
  - rewrite app_comm_cons, run_snoc. cbn [V1.Contact.step].
    rewrite Hlk. by rewrite response_keeps_console.
  - intros m Hm. simpl. destruct (String.eqb m "") eqn:He; [|done].
    by apply String.eqb_eq in He.
  - intros data [->|[->| ->]]; done.
Qed.

Lemma failed_attempts_log_their_error_witness :
  V1.Contact.console
    (V1.Contact.run Sample.page1
       [V1.Contact.Submit; V1.Contact.Tick; V1.Contact.FetchResolve 0 false;
        V1.Contact.Tick; V1.Contact.JsonResolve 0 (Js.JObject (Some "quota"))]) =
  [Js.Error "quota"].
Proof.
  assert (Phase1.quiet [V1.Contact.Tick]) as Hq by (repeat constructor).
  destruct (failed_attempts_log_their_error (Some Sample.form1) [] _
              [V1.Contact.Tick] eq_refl eq_refl Hq eq_refl) as (_ & H & _).
  exact (H [V1.Contact.Tick] (Js.JObject (Some "quota")) Hq).
Defined.

(** X10.  Waits that nothing bounds.  First revision: once a response
    that is not ok has arrived, the abort timer is gone, so while the body
    of that response is awaited the button stays disabled under its loading
    label for as long as the body does not settle.  Second revision: there
    is no timeout at all, so the button stays disabled under "Sending..."
    for as long as the fetch does not settle. *)
Theorem waits_without_a_timeout :
  (∀ f0 history b pre post,
     let w := V1.Contact.run (V1.Contact.load f0) history in
     V1.Contact.button_of w = Some b → V1.Contact.disabled b = false →
     Phase1.quiet pre → V1.Contact.elapsed pre < 10000 → Phase1.quiet post →
     let w1 := V1.Contact.run w
                 (V1.Contact.Submit :: pre ++
                    V1.Contact.FetchResolve (V1.Contact.next_rid w) false :: post) in
     V1.Contact.button_of w1 =
       Some (V1.Contact.Button "Initializing Protocol..." true "0.7") ∧
     length (V1.Contact.inflight w1) = 1%nat) ∧
  (∀ f0 overflow history b post,
     let w := V2.Contact.run (V2.Contact.load f0 overflow) history in
     V2.Contact.button_of w = Some b → V2.Contact.disabled b = false →
     Phase2.quiet post →
     let w1 := V2.Contact.run w (V2.Contact.Submit :: post) in
     V2.Contact.button_of w1 =
       Some (V2.Contact.Button (V2.Contact.has_btn_text b) "Sending..." true) ∧
     length (V2.Contact.inflight w1) = 1%nat).
Proof.
  split.
  - intros f0 history b pre post w Hb Hd Hpre Hlt Hpost w1.
    pose proof (reachable_enabled_idle f0 history b Hb Hd) as Hidle.
    destruct (parse_reached w b pre post Hidle Hb Hd Hpre Hlt Hpost)
      as (r & _ & (Hi & _ & _ & Hb1 & _) & _).
    unfold w1. by rewrite Hb1, Hi.
  - intros f0 overflow history b post w Hb Hd Hpost w1.
    pose proof (reachable_enabled_idle2 f0 overflow history b Hb Hd) as Hidle.
    destruct (flight_reached2 w b post Hidle Hb Hd Hpost)
      as (r & _ & (Hi & _ & Hb1 & _)).
    unfold w1. by rewrite Hb1, Hi.
Qed.

Lemma waits_without_a_timeout_witness :
  V2.Contact.button_of
    (V2.Contact.run Sample.page2
       (V2.Contact.Submit :: repeat V2.Contact.Tick (N.to_nat 60000))) =
  Some (V2.Contact.Button true "Sending..." true).
Proof.
  destruct (proj2 waits_without_a_timeout (Some Sample.form2) "" [] _
              (repeat V2.Contact.Tick (N.to_nat 60000)) eq_refl eq_refl
              (quiet2_repeat_tick _)) as (H & _).
  exact H.
Defined.
(** * Mobile menu and anchors: the toggle and the menu *)

Section Nav1.
Import Js V1.Nav Synced.
Implicit Types (p : page) (e : event).

Lemma nav1_run_cons p e es : run p (e :: es) = run (step p e) es.
Proof. done. Qed.

Lemma nav1_run_app p es es' : run p (es ++ es') = run (run p es) es'.
Proof. unfold run. by rewrite fold_left_app. Qed.

Lemma toggle_syncs1 p :
  menu_installed1 p → in_sync1 (step p ToggleClick).
Proof.
  intros (t & n & Ht & Hl & Hn). cbn [step]. rewrite Ht, Hl.
  unfold on_toggle_click. rewrite Ht, Hn. unfold ClassList.toggle.
  destruct (ClassList.contains "active" n) eqn:Hc; simpl; eexists _, _;
    (split_and!; [done|done|]); unfold ClassList.remove, ClassList.add; simpl.
  - rewrite !elem_of_difference, !elem_of_singleton. split; intros [_ H]; by destruct H.
  - rewrite !elem_of_union, !elem_of_singleton. split; intros _; by right.
Qed.

Lemma step_installed1 p e : menu_installed1 p → menu_installed1 (step p e).
Proof.
  intros (t & n & Ht & Hl & Hn). destruct e as [|targetId q y]; cbn [step].
  - rewrite Ht, Hl. unfold on_toggle_click. rewrite Ht, Hn.
    destruct (ClassList.toggle "active" n) as [n' isOpen]. by eexists _, _.
  - unfold on_anchor_click.
    destruct (bool_decide _); simpl; [by exists t, n|].
    destruct q as [| |top]; simpl; [by exists t, n|by exists t, n|].
    rewrite Hn. destruct (ClassList.contains "active" n); simpl; [|by exists t, n].
    rewrite Ht. simpl. by eexists _, _.
Qed.

Lemma run_installed1 p es : menu_installed1 p → menu_installed1 (run p es).
Proof.
  revert p. induction es as [|e es IH]; intros p Hp; [done|].
  rewrite nav1_run_cons. by apply IH, step_installed1.
Qed.

Lemma init_installed1 p :
  menuToggle p ≠ None → nav p ≠ None → menu_installed1 (initMobileMenu p).
Proof.
  intros Ht Hn. unfold initMobileMenu.
  destruct (menuToggle p) as [t|]; [|done]. destruct (nav p) as [n|]; [|done].
  by eexists _, _.
Qed.

Lemma step_sync1 p e :
  menu_installed1 p → in_sync1 p → in_sync1 (step p e).
Proof.
  intros Hi (t & n & Ht & Hn & Hs). destruct e as [|targetId q y].
  - by apply toggle_syncs1.
  - cbn [step]. unfold on_anchor_click.
    destruct (bool_decide _); simpl; [by exists t, n|].
    destruct q as [| |top]; simpl; [by exists t, n|by exists t, n|].
    rewrite Hn. destruct (ClassList.contains "active" n); simpl; [|by exists t, n].
    rewrite Ht. simpl. eexists _, _. split_and!; [done|done|].
    unfold ClassList.remove. simpl. rewrite !elem_of_difference, !elem_of_singleton.
    split; intros [_ H]; by destruct H.
Qed.

Lemma run_sync1 p es :
  menu_installed1 p → in_sync1 p → in_sync1 (run p es).
Proof.
  revert p. induction es as [|e es IH]; intros p Hi Hs; [done|].
  rewrite nav1_run_cons. apply IH; [by apply step_installed1|by apply step_sync1].
Qed.

(** Two clicks on the toggle give the menu its classes back. *)
Lemma toggle_twice1 p :
  menu_installed1 p → nav (run p [ToggleClick; ToggleClick]) = nav p.
Proof.
  intros (t & n & Ht & Hl & Hn).
  destruct p as [nv mt sc]. simpl in Ht, Hn. subst nv mt.
  destruct t as [tc l]. simpl in Hl. subst l.
  unfold run. simpl. unfold on_toggle_click. simpl. unfold ClassList.toggle.
  destruct (ClassList.contains "active" n) eqn:Hc; simpl.
  - rewrite contains_remove. simpl. f_equal.
    apply bool_decide_eq_true in Hc.
    unfold ClassList.add, ClassList.remove. apply set_eq. intros x.
    rewrite elem_of_union, elem_of_difference, elem_of_singleton.
    destruct (decide (x = "active")) as [->|]; tauto.
  - rewrite contains_add. simpl. f_equal.
    apply bool_decide_eq_false in Hc. by apply add_remove.
Qed.

Lemma step_toggle_at_hand1 p e : toggle_at_hand1 p → toggle_at_hand1 (step p e).
Proof.
  intros Hp. destruct e as [|targetId q y]; cbn [step].
  - destruct (menuToggle p) as [t|] eqn:Ht; [|done].
    destruct (listening t); [|done]. unfold on_toggle_click. rewrite Ht.
    destruct (nav p) as [n|] eqn:Hn; [|done].
    destruct (ClassList.toggle "active" n). by intros _.
  - unfold on_anchor_click, toggle_at_hand1, menu_open in *.
    destruct (bool_decide _); simpl; [done|].
    destruct q as [| |top]; simpl; [done|done|].
    destruct (nav p) as [n|] eqn:Hn; simpl; [|by rewrite ?Hn].
    destruct (ClassList.contains "active" n) eqn:Hc; simpl; [|by rewrite ?Hn, ?Hc].
    destruct (menuToggle p) as [t|] eqn:Ht; simpl.
    + by intros _.
    + by rewrite contains_remove.
Qed.

Lemma run_toggle_at_hand1 p es : toggle_at_hand1 p → toggle_at_hand1 (run p es).
Proof.
  revert p. induction es as [|e es IH]; intros p Hp; [done|].
  rewrite nav1_run_cons. by apply IH, step_toggle_at_hand1.
Qed.

Lemma init_toggle_at_hand1 p :
  toggle_at_hand1 p → toggle_at_hand1 (initMobileMenu p).
Proof.
  intros Hp. unfold initMobileMenu.
  destruct (menuToggle p) as [t|] eqn:Ht; [|done].
  destruct (nav p) as [n|] eqn:Hn; [|done].
  by intros _.
Qed.

(** With the toggle at hand the anchor listener runs to its end. *)
Lemma anchor_completes1 targetId q y p :
  toggle_at_hand1 p → q ≠ Invalid →
  let r := on_anchor_click targetId q y p in
  r.2 = Normal ∧
  (∀ top, q = Found top → targetId ≠ "#" →
     scrolls r.1 = scrolls p ++ [(top + y - 90)%Z]) ∧
  (targetId = "#" ∨ q = Missing → r.1 = p).
Proof.
  intros Hp Hq. unfold on_anchor_click, toggle_at_hand1, menu_open in *.
  case_bool_decide as Hid; simpl.
  { split_and!; [done| |done]. by intros top _ ?. }
  destruct q as [| |top]; simpl; [done| |].
  { split_and!; [done|by intros ? ?|done]. }
  assert (∀ top', Found top = Found top' → top = top') as Hinj by (by intros ? [= ->]).
  destruct (nav p) as [n|] eqn:Hn; simpl.
  2:{ split_and!; [done| |by intros [?|?]]. intros top' ->%Hinj _. done. }
  destruct (ClassList.contains "active" n) eqn:Hc; simpl.
  2:{ split_and!; [done| |by intros [?|?]]. intros top' ->%Hinj _. done. }
  destruct (menuToggle p) as [t|] eqn:Ht; simpl.
  - split_and!; [done| |by intros [?|?]]. intros top' ->%Hinj _. done.
  - by destruct Hp.
Qed.

End Nav1.

Section Nav2.
Import Js V2.Nav Locked Synced.
Implicit Types (p : page) (e : event).

Lemma nav2_run_cons p e es : run p (e :: es) = run (step p e) es.
Proof. done. Qed.

Lemma nav2_run_app p es es' : run p (es ++ es') = run (run p es) es'.
Proof. unfold run. by rewrite fold_left_app. Qed.

Lemma toggle_syncs2 p :
  menu_installed p → in_sync2 (step p ToggleClick).
Proof.
  intros (t & n & Ht & Hl & Hn). cbn [step]. rewrite Ht, Hl.
  unfold on_toggle_click. rewrite Ht, Hn. unfold ClassList.toggle.
  destruct (ClassList.contains "active" n) eqn:Hc; simpl; eexists _, _;
    (split_and!; [done|done| |]); simpl.
  - unfold ClassList.remove.
    rewrite !elem_of_difference, !elem_of_singleton. split; intros [_ H]; by destruct H.
  - by rewrite contains_remove.
  - unfold ClassList.add.
    rewrite !elem_of_union, !elem_of_singleton. split; intros _; by right.
  - by rewrite contains_add.
Qed.

Lemma step_sync2 p e :
  menu_installed p → in_sync2 p → in_sync2 (step p e).
Proof.
  intros Hi (t & n & Ht & Hn & Hs & Ha). destruct e as [|targetId q|].
  - by apply toggle_syncs2.
  - cbn [step]. unfold on_anchor_click.
    destruct (bool_decide _ || bool_decide _); simpl; [by exists t, n|].
    destruct q as [| |top]; simpl; [by exists t, n|by exists t, n|].
    destruct (header p) as [h|]; simpl; [|by exists t, n].
    rewrite Hn. destruct (ClassList.contains "active" n) eqn:Hc; simpl.
    2:{ exists t, n. simpl. by rewrite Hc. }
    rewrite Ht. simpl. eexists _, _. split_and!; [done|done| |].
    + unfold ClassList.remove. simpl.
      rewrite !elem_of_difference, !elem_of_singleton.
      split; intros [_ H]; by destruct H.
    + by rewrite contains_remove.
  - by exists t, n.
Qed.

Lemma run_sync2 p es :
  menu_installed p → in_sync2 p → in_sync2 (run p es).
Proof.
  revert p. induction es as [|e es IH]; intros p Hi Hs; [done|].
  rewrite nav2_run_cons. apply IH; [by apply step_menu_installed|by apply step_sync2].
Qed.

Lemma toggle_twice2 p :
  menu_installed p → nav (run p [ToggleClick; ToggleClick]) = nav p.
Proof.
  intros (t & n & Ht & Hl & Hn).
  destruct p as [nv mt ov hd py sc]. simpl in Ht, Hn. subst nv mt.
  destruct t as [tc ar l]. simpl in Hl. subst l.
  unfold run. simpl. unfold on_toggle_click. simpl. unfold ClassList.toggle.
  destruct (ClassList.contains "active" n) eqn:Hc; simpl.
  - rewrite contains_remove. simpl. f_equal.
    apply bool_decide_eq_true in Hc.
    unfold ClassList.add, ClassList.remove. apply set_eq. intros x.
    rewrite elem_of_union, elem_of_difference, elem_of_singleton.
    destruct (decide (x = "active")) as [->|]; tauto.
  - rewrite contains_add. simpl. f_equal.
    apply bool_decide_eq_false in Hc. by apply add_remove.
Qed.

(** The header stays, and an open menu keeps its toggle. *)
Lemma step_toggle_at_hand2 h p e :
  header p = Some h ∧ toggle_at_hand2 p →
  header (step p e) = Some h ∧ toggle_at_hand2 (step p e).
Proof.
  intros [Hh Hp]. destruct e as [|targetId q|]; cbn [step].
  - destruct (menuToggle p) as [t|] eqn:Ht; [|done].
    destruct (listening t); [|done]. unfold on_toggle_click. rewrite Ht.
    destruct (nav p) as [n|] eqn:Hn; [|done].
    destruct (ClassList.toggle "active" n). split; [done|]. by intros _.
  - unfold on_anchor_click, toggle_at_hand2, menu_open in *.
    destruct (bool_decide _ || bool_decide _); simpl; [done|].
    destruct q as [| |top]; simpl; [done|done|].
    rewrite Hh. simpl.
    destruct (nav p) as [n|] eqn:Hn; simpl; [|by rewrite ?Hn].
    destruct (ClassList.contains "active" n) eqn:Hc; simpl; [|by rewrite ?Hn, ?Hc].
    destruct (menuToggle p) as [t|] eqn:Ht; simpl.
    + split; [done|]. by intros _.
    + split; [done|]. by rewrite contains_remove.
  - done.
Qed.

Lemma run_toggle_at_hand2 h p es :
  header p = Some h ∧ toggle_at_hand2 p →
  header (run p es) = Some h ∧ toggle_at_hand2 (run p es).
Proof.
  revert p. induction es as [|e es IH]; intros p Hp; [done|].
  rewrite nav2_run_cons. by apply IH, step_toggle_at_hand2.
Qed.

Lemma init_toggle_at_hand2 h p :
  header p = Some h → toggle_at_hand2 p →
  header (initMobileMenu p) = Some h ∧ toggle_at_hand2 (initMobileMenu p).
Proof.
  intros Hh Hp. unfold initMobileMenu.
  destruct (menuToggle p) as [t|] eqn:Ht; [|done].
  destruct (nav p) as [n|] eqn:Hn; [|done].
  split; [done|]. by intros _.
Qed.

Lemma anchor_completes2 targetId q h p :
  header p = Some h → toggle_at_hand2 p → q ≠ Invalid →
  let r := on_anchor_click targetId q p in
  r.2 = Normal ∧
  (∀ top, q = Found top → targetId ≠ "#" → targetId ≠ "" →
     scrolls r.1 =
       scrolls p ++ [(top + pageYOffset p - (if bool_decide (h = 0) then 80 else h))%Z]) ∧
  (targetId = "#" ∨ targetId = "" ∨ q = Missing → r.1 = p).
Proof.
  intros Hh Hp Hq. unfold on_anchor_click, toggle_at_hand2, menu_open in *.
  destruct (bool_decide (targetId = "#")) eqn:H1; simpl.
  { apply bool_decide_eq_true in H1. split_and!; [done| |done]. by intros top _ ?. }
  destruct (bool_decide (targetId = "")) eqn:H2; simpl.
  { apply bool_decide_eq_true in H2. split_and!; [done| |done]. by intros top _ _ ?. }
  apply bool_decide_eq_false in H1, H2.
  destruct q as [| |top]; simpl; [done| |].
  { split_and!; [done|by intros ? ?|done]. }
  assert (∀ top', Found top = Found top' → top = top') as Hinj by (by intros ? [= ->]).
  rewrite Hh. simpl.
  destruct (nav p) as [n|] eqn:Hn; simpl.
  2:{ split_and!; [done| |by intros [?|[?|?]]]. intros top' ->%Hinj _ _. done. }
  destruct (ClassList.contains "active" n) eqn:Hc; simpl.
  2:{ split_and!; [done| |by intros [?|[?|?]]]. intros top' ->%Hinj _ _. done. }
  destruct (menuToggle p) as [t|] eqn:Ht; simpl.
  - split_and!; [done| |by intros [?|[?|?]]]. intros top' ->%Hinj _ _. done.
  - by destruct Hp.
Qed.

End Nav2.
(** * Mobile menu and anchors: further properties *)

(** X11.  The menu toggle shows the state of the menu.  On a page that
    has the toggle and the navigation, from the first click on the toggle
    on and whatever is clicked afterwards, the toggle carries the class
    [open] exactly if the navigation carries [active]; in the second
    revision its [aria-expanded] attribute is "true" exactly then and
    "false" otherwise.  In both revisions two clicks on the toggle in a row
    leave the navigation with exactly the classes it had. *)
Theorem toggle_state_follows_menu :
  (∀ p0 es1 es2,
     V1.Nav.menuToggle p0 ≠ None → V1.Nav.nav p0 ≠ None →
     Synced.in_sync1
       (V1.Nav.run (V1.Nav.initMobileMenu p0) (es1 ++ V1.Nav.ToggleClick :: es2))) ∧
  (∀ p0 es1 es2,
     V2.Nav.menuToggle p0 ≠ None → V2.Nav.nav p0 ≠ None →
     Synced.in_sync2
       (V2.Nav.run (V2.Nav.initMobileMenu p0) (es1 ++ V2.Nav.ToggleClick :: es2))) ∧
  (∀ p0 es,
     V1.Nav.menuToggle p0 ≠ None → V1.Nav.nav p0 ≠ None →
     let p := V1.Nav.run (V1.Nav.initMobileMenu p0) es in
     V1.Nav.nav (V1.Nav.run p [V1.Nav.ToggleClick; V1.Nav.ToggleClick]) = V1.Nav.nav p) ∧
  (∀ p0 es,
     V2.Nav.menuToggle p0 ≠ None → V2.Nav.nav p0 ≠ None →
     let p := V2.Nav.run (V2.Nav.initMobileMenu p0) es in
     V2.Nav.nav (V2.Nav.run p [V2.Nav.ToggleClick; V2.Nav.ToggleClick]) = V2.Nav.nav p).
Proof.
  split_and!.
  - intros p0 es1 es2 Ht Hn.
    pose proof (run_installed1 _ es1 (init_installed1 p0 Ht Hn)) as Hi.
    rewrite nav1_run_app, nav1_run_cons.
    apply run_sync1; [by apply step_installed1|by apply toggle_syncs1].
  - intros p0 es1 es2 Ht Hn.
    pose proof (run_menu_installed _ es1 (init_menu_installed p0 Ht Hn)) as Hi.
    rewrite nav2_run_app, nav2_run_cons.
    apply run_sync2; [by apply step_menu_installed|by apply toggle_syncs2].
  - intros p0 es Ht Hn p. apply toggle_twice1.
    apply run_installed1. by apply init_installed1.
  - intros p0 es Ht Hn p. apply toggle_twice2.
    apply run_menu_installed. by apply init_menu_installed.
Qed.

Lemma toggle_state_follows_menu_witness :
  Synced.in_sync2
    (V2.Nav.run (V2.Nav.initMobileMenu Sample.nav2)
       ([V2.Nav.AnchorClick "#about" (V2.Nav.Found 900)] ++
        V2.Nav.ToggleClick ::
        [V2.Nav.AnchorClick "#contact" (V2.Nav.Found 640); V2.Nav.OverlayClose])).
Proof.
  apply (proj1 (proj2 toggle_state_follows_menu) Sample.nav2); discriminate.
Defined.

(** X12.  Anchor clicks that run to their end.  In the first revision,
    on a page where an open menu has its toggle, and in the second
    revision on such a page that also has the header, whatever was clicked
    before: a click on an in-page anchor whose [href] is a well-formed
    selector ends normally.  If the [href] is "#" (or, in the second
    revision, empty) or names no element, the page is unchanged; otherwise
    the page is scrolled once, to the target's position less 90 px in the
    first revision, and less the header's height (80 px if that height is
    0) in the second. *)
Theorem anchor_clicks_run_to_their_end :
  (∀ p0 es targetId q y,
     Synced.toggle_at_hand1 p0 → q ≠ V1.Nav.Invalid →
     let p := V1.Nav.run (V1.Nav.initMobileMenu p0) es in
     let r := V1.Nav.on_anchor_click targetId q y p in
     r.2 = Js.Normal ∧
     (∀ top, q = V1.Nav.Found top → targetId ≠ "#" →
        V1.Nav.scrolls r.1 = V1.Nav.scrolls p ++ [(top + y - 90)%Z]) ∧
     (targetId = "#" ∨ q = V1.Nav.Missing → r.1 = p)) ∧
  (∀ p0 es targetId q h,
     V2.Nav.header p0 = Some h → Synced.toggle_at_hand2 p0 → q ≠ V2.Nav.Invalid →
     let p := V2.Nav.run (V2.Nav.initMobileMenu p0) es in
     let r := V2.Nav.on_anchor_click targetId q p in
     r.2 = Js.Normal ∧
     (∀ top, q = V2.Nav.Found top → targetId ≠ "#" → targetId ≠ "" →
        V2.Nav.scrolls r.1 =
          V2.Nav.scrolls p ++
            [(top + V2.Nav.pageYOffset p - (if bool_decide (h = 0) then 80 else h))%Z]) ∧
     (targetId = "#" ∨ targetId = "" ∨ q = V2.Nav.Missing → r.1 = p)).
Proof.
  split.
  - intros p0 es targetId q y Hp Hq p r.
    apply anchor_completes1; [|done].
    apply run_toggle_at_hand1. by apply init_toggle_at_hand1.
  - intros p0 es targetId q h Hh Hp Hq p r.
    destruct (run_toggle_at_hand2 h _ es (init_toggle_at_hand2 h p0 Hh Hp)) as [Hh' Hp'].
    by apply anchor_completes2.
Qed.

Lemma anchor_clicks_run_to_their_end_witness :
  V2.Nav.scrolls
    (V2.Nav.on_anchor_click "#contact" (V2.Nav.Found 640)
       (V2.Nav.run (V2.Nav.initMobileMenu Sample.nav2) [V2.Nav.ToggleClick])).1 =
  [568%Z].
Proof.
  destruct (proj2 anchor_clicks_run_to_their_end Sample.nav2 [V2.Nav.ToggleClick]
              "#contact" (V2.Nav.Found 640) 72%Z eq_refl) as (_ & H & _).
  - intros _. discriminate.
  - discriminate.
  - apply (H 640%Z); [reflexivity|discriminate|discriminate].
Defined.
(** * Sticky header *)

Section Header.
Implicit Types (c : gset string) (y : QArith_base.Q).

Lemma header1_run c (l : bool) ys y :
  V1.Header.run (V1.Header.initStickyHeader (V1.Header.Page (Some c) l)) (ys ++ [y]) =
  V1.Header.Page
    (Some (ClassList.toggle_force "scrolled"
             (negb (QArith_base.Qle_bool y (QArith_base.inject_Z 50))) c)) true.
Proof.
  unfold V1.Header.run. rewrite fold_left_app.
  change (V1.Header.initStickyHeader (V1.Header.Page (Some c) l))
    with (V1.Header.Page (Some c) true).
  cbn [fold_left].
  assert (∃ c', fold_left V1.Header.on_scroll ys (V1.Header.Page (Some c) true) =
                V1.Header.Page (Some c') true ∧
                ∀ b, ClassList.toggle_force "scrolled" b c' =
                     ClassList.toggle_force "scrolled" b c) as (c' & -> & Hc').
  { clear y. induction ys as [|y ys IH] using rev_ind; [by exists c|].
    destruct IH as (c' & IH & Hc'). rewrite fold_left_app, IH. simpl.
    unfold V1.Header.on_scroll, V1.Header.handleScroll. simpl.
    eexists. split; [done|]. intros b. by rewrite toggle_force_absorb. }
  unfold V1.Header.on_scroll, V1.Header.handleScroll. simpl. by rewrite Hc'.
Qed.

Lemma header2_run c (l : bool) ys y :
  V2.Header.run (V2.Header.initStickyHeader (V2.Header.Page (Some c) l)) (ys ++ [y]) =
  V2.Header.Page
    (Some (ClassList.toggle_force "scrolled"
             (negb (QArith_base.Qle_bool y (QArith_base.inject_Z 30))) c)) true.
Proof.
  unfold V2.Header.run. rewrite fold_left_app.
  change (V2.Header.initStickyHeader (V2.Header.Page (Some c) l))
    with (V2.Header.Page (Some c) true).
  cbn [fold_left].
  assert (∃ c', fold_left V2.Header.on_scroll ys (V2.Header.Page (Some c) true) =
                V2.Header.Page (Some c') true ∧
                ∀ b, ClassList.toggle_force "scrolled" b c' =
                     ClassList.toggle_force "scrolled" b c) as (c' & -> & Hc').
  { clear y. induction ys as [|y ys IH] using rev_ind; [by exists c|].
    destruct IH as (c' & IH & Hc'). rewrite fold_left_app, IH. simpl.
    unfold V2.Header.on_scroll, V2.Header.handleScroll. simpl.
    eexists. split; [done|]. intros b. by rewrite toggle_force_absorb. }
  unfold V2.Header.on_scroll, V2.Header.handleScroll. simpl. by rewrite Hc'.
Qed.

Lemma above_threshold (n : Z) y :
  (QArith_base.Qlt (QArith_base.inject_Z n) y →
   negb (QArith_base.Qle_bool y (QArith_base.inject_Z n)) = true) ∧
  (QArith_base.Qle y (QArith_base.inject_Z n) →
   negb (QArith_base.Qle_bool y (QArith_base.inject_Z n)) = false).
Proof.
  split.
  - intros Hlt. apply negb_true_iff.
    destruct (QArith_base.Qle_bool y (QArith_base.inject_Z n)) eqn:Hb; [|done].
    apply QArith_base.Qle_bool_iff in Hb.
    by destruct (QArith_base.Qlt_not_le _ _ Hlt).
  - intros Hle. apply negb_false_iff. by apply QArith_base.Qle_bool_iff.
Qed.

End Header.

(** X13.  The sticky header follows the last scroll position.  On a page
    with the header, after any scroll events the header carries the class
    [scrolled] exactly if the last reported [scrollY] is above 50 px (first
    revision) or 30 px (second revision), and all its other classes are as
    they were when the page loaded; on a page without the header scrolling
    changes nothing. *)
Theorem header_follows_last_scroll :
  (∀ c l ys y,
     let p := V1.Header.run (V1.Header.initStickyHeader (V1.Header.Page (Some c) l))
                (ys ++ [y]) in
     (QArith_base.Qlt (QArith_base.inject_Z 50) y →
      V1.Header.header p = Some (c ∪ {[ "scrolled" ]})) ∧
     (QArith_base.Qle y (QArith_base.inject_Z 50) →
      V1.Header.header p = Some (c ∖ {[ "scrolled" ]}))) ∧
  (∀ c l ys y,
     let p := V2.Header.run (V2.Header.initStickyHeader (V2.Header.Page (Some c) l))
                (ys ++ [y]) in
     (QArith_base.Qlt (QArith_base.inject_Z 30) y →
      V2.Header.header p = Some (c ∪ {[ "scrolled" ]})) ∧
     (QArith_base.Qle y (QArith_base.inject_Z 30) →
      V2.Header.header p = Some (c ∖ {[ "scrolled" ]}))) ∧
  (∀ ys,
     V1.Header.run (V1.Header.initStickyHeader (V1.Header.Page None false)) ys =
       V1.Header.Page None false ∧
     V2.Header.run (V2.Header.initStickyHeader (V2.Header.Page None false)) ys =
       V2.Header.Page None false).
Proof.
  split_and!.
  - intros c l ys y p. unfold p. rewrite header1_run. simpl.
    destruct (above_threshold 50 y) as [H1 H2].
    split; intros H; [rewrite (H1 H)|rewrite (H2 H)]; done.
  - intros c l ys y p. unfold p. rewrite header2_run. simpl.
    destruct (above_threshold 30 y) as [H1 H2].
    split; intros H; [rewrite (H1 H)|rewrite (H2 H)]; done.
  - intros ys. split; induction ys as [|y ys IH]; done.
Qed.

Lemma header_follows_last_scroll_witness :
  V1.Header.header
    (V1.Header.run
       (V1.Header.initStickyHeader (V1.Header.Page (Some {[ "glass" ]}) false))
       ([QArith_base.inject_Z 0; QArith_base.inject_Z 400] ++
        [QArith_base.Qmake 101 2])) =
  Some ({[ "glass" ]} ∪ {[ "scrolled" ]}).
Proof.
  apply (proj1 header_follows_last_scroll {[ "glass" ]} false
           [QArith_base.inject_Z 0; QArith_base.inject_Z 400] (QArith_base.Qmake 101 2)).
  reflexivity.
Defined.
(** * Preloader *)

Section Preloader.
Import Timers V2.Preloader.
Implicit Types (p : page) (t : timer callback).

Lemma pre_run_cons p e es : run p (e :: es) = run (step p e) es.
Proof. done. Qed.

Lemma pre_run_app p es es' : run p (es ++ es') = run (run p es) es'.
Proof. unfold run. by rewrite fold_left_app. Qed.

Lemma pre_tick_idle p :
  Forall (λ t, now (timers p) + 1 < due t) (pending (timers p)) →
  step p Tick = with_timers (advance (timers p)) p.
Proof. intros H. by apply (tick_idle timers with_timers run_callback). Qed.

Lemma pre_ticks_wait (n : nat) p :
  Forall (λ t, now (timers p) + N.of_nat n < due t) (pending (timers p)) →
  run p (repeat Tick n) =
  with_timers (Queue (now (timers p) + N.of_nat n) (next_id (timers p))
                 (pending (timers p))) p.
Proof.
  revert p. induction n as [|n IH]; intros p Hdue; cbn [repeat].
  - destruct p as [? ? ? [c k l]]. unfold with_timers. simpl.
    by rewrite N.add_0_r.
  - rewrite pre_run_cons, pre_tick_idle.
    + rewrite IH; simpl.
      * unfold with_timers. simpl. do 2 f_equal. lia.
      * eapply Forall_impl; [exact Hdue|]. simpl. intros. lia.
    + eapply Forall_impl; [exact Hdue|]. simpl. intros. lia.
Qed.

(** The millisecond in which the only pending timer comes due. *)
Lemma pre_tick_fires p t :
  pending (timers p) = [t] → due t = now (timers p) + 1 →
  step p Tick =
  run_callback (act t)
    (with_timers (Queue (now (timers p) + 1) (next_id (timers p)) []) p).
Proof.
  intros Hp Hd. destruct p as [c d l [nw nid pd]]. simpl in Hp, Hd. subst pd.
  cbn [step]. unfold Timers.tick. cbv zeta.
  unfold with_timers, advance, due_now. cbn [timers now pending next_id].
  rewrite filter_cons, filter_nil.
  rewrite decide_True by lia. unfold by_due. cbn [fold_left insert_due fmap list_fmap].
  unfold Timers.fire. cbn [timers pending List.find preloader in_document listening].
  rewrite bool_decide_eq_true_2 by done.
  unfold clearTimeout. cbn [now next_id pending]. rewrite filter_cons, filter_nil.
  rewrite decide_False by (intros H; by apply H). done.
Qed.

(** The three stages after the window's [load]. *)
Lemma load_waits p (n : N) :
  pending (timers p) = [] → listening p = true → n < 500 →
  run p (Load :: repeat Tick (N.to_nat n)) =
  Page (preloader p) (in_document p) true
    (Queue (now (timers p) + n) (next_id (timers p) + 1)
       [Timer (next_id (timers p)) (now (timers p) + 500) FadeOut]).
Proof.
  intros Hp Hl Hn. rewrite pre_run_cons. cbn [step]. rewrite Hl.
  unfold on_load, schedule. rewrite pre_ticks_wait; simpl; rewrite Hp; simpl.
  - unfold with_timers. simpl. by rewrite Hl, N2Nat.id.
  - repeat constructor. simpl. lia.
Qed.

Lemma load_fades p :
  pending (timers p) = [] → listening p = true →
  run p (Load :: repeat Tick (N.to_nat 500)) =
  Page (ClassList.add "fade-out" <$> preloader p) (in_document p) true
    (Queue (now (timers p) + 500) (next_id (timers p) + 1 + 1)
       [Timer (next_id (timers p) + 1) (now (timers p) + 500 + 800) Remove]).
Proof.
  intros Hp Hl.
  replace (N.to_nat 500) with (N.to_nat 499 + 1)%nat by lia.
  rewrite repeat_app, app_comm_cons, pre_run_app, load_waits by (done || lia).
  cbn [repeat run fold_left].
  rewrite (pre_tick_fires _ (Timer (next_id (timers p)) (now (timers p) + 500) FadeOut));
    [|done|simpl; lia].
  simpl. unfold schedule, with_timers. simpl. repeat (f_equal; try lia).
Qed.

Lemma fade_waits p id (n : N) :
  pending (timers p) = [Timer id (now (timers p) + 800) Remove] → n < 800 →
  run p (repeat Tick (N.to_nat n)) =
  with_timers (Queue (now (timers p) + n) (next_id (timers p)) (pending (timers p))) p.
Proof.
  intros Hp Hn. rewrite pre_ticks_wait.
  - by rewrite N2Nat.id.
  - rewrite Hp. repeat constructor. simpl. lia.
Qed.

Lemma fade_removes p id :
  pending (timers p) = [Timer id (now (timers p) + 800) Remove] →
  run p (repeat Tick (N.to_nat 800)) =
  Page (preloader p) false (listening p)
    (Queue (now (timers p) + 800) (next_id (timers p)) []).
Proof.
  intros Hp.
  replace (N.to_nat 800) with (N.to_nat 799 + 1)%nat by lia.
  rewrite repeat_app, pre_run_app, (fade_waits p id) by (done || lia).
  cbn [repeat run fold_left].
  rewrite (pre_tick_fires _ (Timer id (now (timers p) + 800) Remove));
    [|by rewrite Hp|simpl; lia].
  simpl. repeat (f_equal; try lia).
Qed.

Lemma rest_waits p (n : nat) :
  pending (timers p) = [] →
  run p (repeat Tick n) =
  with_timers (Queue (now (timers p) + N.of_nat n) (next_id (timers p)) []) p.
Proof.
  intros Hp. rewrite pre_ticks_wait; rewrite Hp; [done|constructor].
Qed.

(** Without the element no listener is added and nothing is ever set. *)
Lemma absent_run p es :
  preloader p = None → listening p = false → pending (timers p) = [] →
  let p' := run p es in
  preloader p' = None ∧ in_document p' = in_document p ∧
  listening p' = false ∧ pending (timers p') = [].
Proof.
  revert p. induction es as [|e es IH]; intros p Hn Hl Hp; [done|].
  cbv zeta. rewrite pre_run_cons.
  assert (preloader (step p e) = None ∧ in_document (step p e) = in_document p ∧
          listening (step p e) = false ∧ pending (timers (step p e)) = [])
    as (H1 & H2 & H3 & H4).
  { destruct e; [cbn [step]; by rewrite Hl|].
    rewrite pre_tick_idle by (rewrite Hp; constructor). done. }
  destruct (IH _ H1 H3 H4) as (? & ? & ? & ?). split_and!; congruence.
Qed.

End Preloader.

(** X14.  The preloader's timeline.  On a page whose [#preloader] is in
    the document and that has no timer pending, however long the window's
    [load] event takes to come: for the first 499 ms after it the preloader
    is untouched; from 500 ms on it carries the class [fade-out], all its
    other classes as they were; and it is removed from the document 800 ms
    later, 1300 ms after the load, not before, and stays removed.  Until the
    [load] event nothing happens; and on a page without a preloader no
    listener is added and no timer is ever set. *)
Theorem preloader_fades_then_leaves :
  (∀ p0 c (k : nat) (n : N),
     V2.Preloader.preloader p0 = Some c → V2.Preloader.in_document p0 = true →
     Timers.pending (V2.Preloader.timers p0) = [] →
     let waiting := V2.Preloader.run (V2.Preloader.initPreloader p0)
                      (repeat V2.Preloader.Tick k) in
     let p := V2.Preloader.run (V2.Preloader.initPreloader p0)
                (repeat V2.Preloader.Tick k ++
                 V2.Preloader.Load :: repeat V2.Preloader.Tick (N.to_nat n)) in
     (V2.Preloader.preloader waiting = Some c ∧
      V2.Preloader.in_document waiting = true) ∧
     (n < 500 →
      V2.Preloader.preloader p = Some c ∧ V2.Preloader.in_document p = true) ∧
     (500 ≤ n → n < 1300 →
      V2.Preloader.preloader p = Some (c ∪ {[ "fade-out" ]}) ∧
      V2.Preloader.in_document p = true) ∧
     (1300 ≤ n → V2.Preloader.in_document p = false)) ∧
  (∀ p0 es,
     V2.Preloader.preloader p0 = None → V2.Preloader.listening p0 = false →
     Timers.pending (V2.Preloader.timers p0) = [] →
     let p := V2.Preloader.run (V2.Preloader.initPreloader p0) es in
     Timers.pending (V2.Preloader.timers p) = [] ∧
     V2.Preloader.in_document p = V2.Preloader.in_document p0).
Proof.
  split.
  - intros p0 c k n Hc Hd Hp waiting p.
    set (p1 := V2.Preloader.initPreloader p0) in *.
    assert (p1 = V2.Preloader.Page (Some c) true true (V2.Preloader.timers p0)) as Hp1.
    { unfold p1, V2.Preloader.initPreloader. by rewrite Hc, Hd. }
    assert (waiting =
            V2.Preloader.with_timers
              (Timers.Queue (Timers.now (V2.Preloader.timers p0) + N.of_nat k)
                 (Timers.next_id (V2.Preloader.timers p0)) []) p1) as Hw.
    { unfold waiting. rewrite rest_waits by (by rewrite Hp1). by rewrite Hp1. }
    assert (Timers.pending (V2.Preloader.timers waiting) = []) as Hwp by (by rewrite Hw).
    assert (V2.Preloader.listening waiting = true) as Hwl by (by rewrite Hw, Hp1).
    assert (V2.Preloader.preloader waiting = Some c) as Hwc by (by rewrite Hw, Hp1).
    assert (V2.Preloader.in_document waiting = true) as Hwd by (by rewrite Hw, Hp1).
    split_and!; [done|done| | |].
    + intros Hn. unfold p. rewrite pre_run_app. fold waiting.
      rewrite load_waits by done. simpl. by rewrite Hwc, Hwd.
    + intros Hge Hlt. unfold p. rewrite pre_run_app. fold waiting.
      replace (N.to_nat n) with (N.to_nat 500 + N.to_nat (n - 500))%nat by lia.
      rewrite repeat_app, app_comm_cons, pre_run_app, load_fades by done.
      rewrite (fade_waits _ (Timers.next_id (V2.Preloader.timers waiting) + 1))
        by (done || lia).
      simpl. by rewrite Hwc, Hwd.
    + intros Hge. unfold p. rewrite pre_run_app. fold waiting.
      replace (N.to_nat n)
        with (N.to_nat 500 + (N.to_nat 800 + N.to_nat (n - 1300)))%nat by lia.
      rewrite repeat_app, app_comm_cons, pre_run_app, load_fades by done.
      rewrite repeat_app, pre_run_app.
      rewrite (fade_removes _ (Timers.next_id (V2.Preloader.timers waiting) + 1)) by done.
      by rewrite rest_waits.
  - intros p0 es Hn Hl Hp p.
    assert (V2.Preloader.initPreloader p0 = p0) as Hi.
    { unfold V2.Preloader.initPreloader. by rewrite Hn. }
    unfold p. rewrite Hi.
    destruct (absent_run p0 es Hn Hl Hp) as (_ & H1 & _ & H2). done.
Qed.

Lemma preloader_fades_then_leaves_witness :
  let p := V2.Preloader.run (V2.Preloader.initPreloader Pages.loading2)
             (repeat V2.Preloader.Tick 3 ++
              V2.Preloader.Load :: repeat V2.Preloader.Tick (N.to_nat 700)) in
  V2.Preloader.preloader p = Some ({[ "preloader" ]} ∪ {[ "fade-out" ]}) ∧
  V2.Preloader.in_document p = true.
Proof.
  destruct (proj1 preloader_fades_then_leaves Pages.loading2 {[ "preloader" ]} 3%nat 700
              eq_refl eq_refl eq_refl) as (_ & _ & H & _).
  apply H; lia.
Defined.
(** * Contact form: the label that comes back *)

Section Labelled1.
Import Js Dom Timers V1.Contact Phase1 Labelled.
Implicit Types (w : world) (r : request) (b : button) (e : event).

Lemma idle_labelled L w e :
  idle w →
  (∀ b, button_of w = Some b → disabled b = false → innerText b = L) →
  labelled1 L (step w e).
Proof.
  intros Hidle HL. pose proof Hidle as [Hi [Hs _]].
  destruct e as [|i v|o| |k ok|k|k data|k].
  - destruct (contactForm w) as [f|] eqn:Hf.
    2:{ left. cbn [step]. by rewrite Hf. }
    destruct (submittable f) eqn:Hsub.
    2:{ left. cbn [step]. by rewrite Hf, Hsub. }
    destruct (submitBtn f) as [b|] eqn:Hb.
    + assert (button_of w = Some b) as Hbw by (unfold button_of; by rewrite Hf).
      assert (disabled b = false) as Hd.
      { unfold submittable in Hsub. rewrite Hb in Hsub. by destruct (disabled b). }
      destruct (submit_starts w b Hidle Hbw Hd) as (r & _ & Ho & Hfl & _).
      right. left. eexists _, _, _. split; [exact Hfl|]. rewrite Ho. by apply HL.
    + left. cbn [step]. rewrite Hf, Hsub. unfold on_submit. by rewrite Hb.
  - left. split.
    + unfold step. destruct w as [? [[]|] ? ? ? ?]; by split.
    + intros b. unfold step. destruct w as [? [[]|] ? ? ? ?]; apply HL.
  - left. split.
    + unfold step. destruct w as [? [[]|] ? ? ? ?]; by split.
    + intros b. unfold step. destruct w as [? [[]|] ? ? ? ?]; apply HL.
  - left.
    destruct (tick_background [] (next_oid w) w Hs) as (Hs' & _ & _ & Hr & Hn & _);
      [constructor|].
    split.
    + split; [by rewrite <- inflight_rest, Hr, inflight_rest|].
      split; [|constructor]. by rewrite Hn.
    + intros b. rewrite <- button_of_rest, Hr, button_of_rest. apply HL.
  - left. cbn [step]. by rewrite (lookup_none _ _ _ Hi).
  - left. rewrite step_fetch_reject. by rewrite (lookup_none _ _ _ Hi).
  - left. rewrite step_json_resolve. by rewrite (lookup_none _ _ _ Hi).
  - left. rewrite step_json_reject. by rewrite (lookup_none _ _ _ Hi).
Qed.

Lemma in_flight_labelled r D b w e :
  in_flight r D b w → labelled1 (originalText r) (step w e).
Proof.
  intros Hfl. pose proof Hfl as (Hi & Hp & [Hs Hdue] & Hb & Hd).
  apply Forall_inv in Hdue. simpl in Hdue.
  destruct (passive e) eqn:He.
  - destruct (decide (is_tick e = true ∧ clock w + 1 = D)) as [[Ht HD]|Hnot].
    + destruct e; try discriminate Ht.
      destruct (timeout_reverts r D b w Hfl HD) as (Hrev & _).
      right. right. right. by eexists _, _.
    + destruct (flight_holds r D b w [e] Hfl) as (Hfl' & _).
      * by constructor.
      * rewrite elapsed_cons. unfold elapsed. simpl.
        destruct (is_tick e); [|lia].
        assert (clock w + 1 ≠ D) by (intros ?; by apply Hnot). lia.
      * right. left. by eexists _, _, _.
  - destruct e as [|i v|o| |k ok|k|k data|k]; try discriminate He.
    + destruct (decide (k = rid r)) as [->|Hk].
      * destruct ok.
        -- destruct (success_settles r D b w Hfl) as (_ & _ & Hb' & _).
           left. split; [by eapply success_idle|].
           intros b' Hb'' _. rewrite Hb' in Hb''. by injection Hb'' as <-.
        -- destruct (refusal_parses r D b w Hfl) as (Hpa & _).
           right. right. left. by eexists _, _.
      * right. left. exists r, D, b. cbn [step].
        rewrite (lookup_other r k AwaitFetch w Hi); [done|by left].
    + destruct (decide (k = rid r)) as [->|Hk].
      * destruct (reject_reverts r D b w Hfl) as (Hrev & _).
        right. right. right. by eexists _, _.
      * right. left. exists r, D, b. rewrite step_fetch_reject.
        rewrite (lookup_other r k AwaitFetch w Hi); [done|by left].
    + right. left. exists r, D, b. rewrite step_json_resolve.
      rewrite (lookup_other r k AwaitJson w Hi); [done|right; by rewrite Hp].
    + right. left. exists r, D, b. rewrite step_json_reject.
      rewrite (lookup_other r k AwaitJson w Hi); [done|right; by rewrite Hp].
Qed.

Lemma parsing_labelled r b w e :
  parsing r b w → labelled1 (originalText r) (step w e).
Proof.
  intros Hpa. pose proof Hpa as (Hi & Hp & [Hs _] & Hb & Hd).
  destruct (passive e) eqn:He.
  - destruct (parse_holds r b w [e] Hpa) as (Hpa' & _); [by constructor|].
    right. right. left. by eexists _, _.
  - destruct e as [|i v|o| |k ok|k|k data|k]; try discriminate He.
    + right. right. left. exists r, b. cbn [step].
      rewrite (lookup_other r k AwaitFetch w Hi); [done|right; by rewrite Hp].
    + right. right. left. exists r, b. rewrite step_fetch_reject.
      rewrite (lookup_other r k AwaitFetch w Hi); [done|right; by rewrite Hp].
    + destruct (decide (k = rid r)) as [->|Hk].
      * rewrite step_json_resolve, (lookup_single r AwaitJson w Hi Hp).
        destruct (body_reverts r b w (rejection data) Hpa (name_rejection data))
          as (Hrev & _).
        right. right. right. by eexists _, _.
      * right. right. left. exists r, b. rewrite step_json_resolve.
        rewrite (lookup_other r k AwaitJson w Hi); [done|by left].
    + destruct (decide (k = rid r)) as [->|Hk].
      * rewrite step_json_reject, (lookup_single r AwaitJson w Hi Hp).
        destruct (body_reverts r b w SyntaxError Hpa eq_refl) as (Hrev & _).
        right. right. right. by eexists _, _.
      * right. right. left. exists r, b. rewrite step_json_reject.
        rewrite (lookup_other r k AwaitJson w Hi); [done|by left].
Qed.

Lemma reverting_labelled L D b w e :
  reverting L D b w → labelled1 L (step w e).
Proof.
  intros Hrev. pose proof Hrev as (Hi & (id & Hs & Hdue) & Hb & Hd).
  apply Forall_inv in Hdue. simpl in Hdue.
  destruct (passive e) eqn:He.
  - destruct (decide (is_tick e = true ∧ clock w + 1 = D)) as [[Ht HD]|Hnot].
    + destruct e; try discriminate Ht.
      destruct (revert_restores L D b w Hrev HD) as (Hidle & Hb' & _).
      left. split; [done|]. intros b' Hb'' _. rewrite Hb' in Hb''.
      by injection Hb'' as <-.
    + destruct (revert_holds L D b w [e] Hrev) as (Hrev' & _).
      * by constructor.
      * rewrite elapsed_cons. unfold elapsed. simpl.
        destruct (is_tick e); [|lia].
        assert (clock w + 1 ≠ D) by (intros ?; by apply Hnot). lia.
      * right. right. right. by eexists _, _.
  - right. right. right. exists D, b.
    destruct e as [|i v|o| |k ok|k|k data|k]; try discriminate He.
    + cbn [step]. by rewrite (lookup_none _ _ _ Hi).
    + rewrite step_fetch_reject. by rewrite (lookup_none _ _ _ Hi).
    + rewrite step_json_resolve. by rewrite (lookup_none _ _ _ Hi).
    + rewrite step_json_reject. by rewrite (lookup_none _ _ _ Hi).
Qed.

Lemma labelled_step L w e : labelled1 L w → labelled1 L (step w e).
Proof.
  intros [[H HL]|[(r & D & b & H & <-)|[(r & b & H & <-)|(D & b & H)]]].
  - by apply idle_labelled.
  - by eapply in_flight_labelled.
  - by eapply parsing_labelled.
  - by eapply reverting_labelled.
Qed.

Lemma labelled_run L w es : labelled1 L w → labelled1 L (run w es).
Proof.
  revert w. induction es as [|e es IH]; intros w Hw; [done|].
  rewrite run_cons. by apply IH, labelled_step.
Qed.

(** What the label is good for. *)
Lemma labelled_facts L w :
  labelled1 L w →
  (∀ b, button_of w = Some b → disabled b = false → innerText b = L) ∧
  (∀ r, r ∈ inflight w → originalText r = L) ∧
  (∀ t text, t ∈ pending (timers w) → act t = Restore text → text = L).
Proof.
  intros [[H HL]|[(r & D & b & H & <-)|[(r & b & H & <-)|(D & b & H)]]].
  - split_and!; [done| |].
    + intros r Hr. destruct H as [Hi _]. rewrite Hi in Hr. by apply elem_of_nil in Hr.
    + intros t text Ht Ha. destruct H as (_ & (_ & Hall & _) & _).
      rewrite Forall_forall in Hall. destruct (Hall _ Ht) as [Hk|(o & Ho & _)].
      * by apply elem_of_nil in Hk.
      * congruence.
  - destruct H as (Hi & _ & ((_ & Hall & _) & _) & Hb & Hd). split_and!.
    + intros b' Hb' Hd'. congruence.
    + intros r' Hr. rewrite Hi in Hr. by apply list_elem_of_singleton in Hr as ->.
    + intros t text Ht Ha. rewrite Forall_forall in Hall.
      destruct (Hall _ Ht) as [Hk|(o & Ho & _)]; [|congruence].
      apply list_elem_of_singleton in Hk. subst t. simpl in Ha. congruence.
  - destruct H as (Hi & _ & ((_ & Hall & _) & _) & Hb & Hd). split_and!.
    + intros b' Hb' Hd'. congruence.
    + intros r' Hr. rewrite Hi in Hr. by apply list_elem_of_singleton in Hr as ->.
    + intros t text Ht Ha. rewrite Forall_forall in Hall.
      destruct (Hall _ Ht) as [Hk|(o & Ho & _)]; [|congruence].
      by apply elem_of_nil in Hk.
  - destruct H as (Hi & (id & (_ & Hall & _) & _) & Hb & Hd). split_and!.
    + intros b' Hb' Hd'. congruence.
    + intros r' Hr. rewrite Hi in Hr. by apply elem_of_nil in Hr.
    + intros t text Ht Ha. rewrite Forall_forall in Hall.
      destruct (Hall _ Ht) as [Hk|(o & Ho & _)]; [|congruence].
      apply list_elem_of_singleton in Hk. subst t. simpl in Ha. congruence.
Qed.

Lemma load_labelled f b :
  submitBtn f = Some b → labelled1 (innerText b) (load (Some f)).
Proof.
  intros Hb. left. split; [apply load_idle1|].
  intros b' Hb' _. unfold button_of in Hb'. simpl in Hb'. congruence.
Qed.

End Labelled1.

Section Labelled2.
Import Js Dom Timers V2.Contact Phase2 Labelled.
Implicit Types (w : world) (r : request) (b : button) (e : event).

Lemma idle_labelled2 L w e :
  idle w →
  (∀ b, button_of w = Some b → disabled b = false → label b = L) →
  labelled2 L (step w e).
Proof.
  intros Hidle HL. pose proof Hidle as [Hi [Hs _]].
  destruct e as [|i v|o| |k ok|k].
  - destruct (contactForm w) as [f|] eqn:Hf.
    2:{ left. cbn [step]. by rewrite Hf. }
    destruct (submittable f) eqn:Hsub.
    2:{ left. cbn [step]. by rewrite Hf, Hsub. }
    destruct (submitBtn f) as [b|] eqn:Hb.
    + assert (button_of w = Some b) as Hbw by (unfold button_of; by rewrite Hf).
      assert (disabled b = false) as Hd.
      { unfold submittable in Hsub. rewrite Hb in Hsub. by destruct (disabled b). }
      destruct (submit_starts2 w b Hidle Hbw Hd) as (r & _ & Ho & Hfl & _).
      right. left. eexists _, _. split; [exact Hfl|]. rewrite Ho. by apply HL.
    + left. cbn [step]. rewrite Hf, Hsub. unfold on_submit. rewrite Hb.
      split; [by destruct w|]. intros b'. unfold button_of. simpl.
      rewrite Hf. simpl. congruence.
  - left. split.
    + unfold step. destruct w as [? [[]|] ? ? ? ? ?]; by split.
    + intros b. unfold step. destruct w as [? [[]|] ? ? ? ? ?]; apply HL.
  - left. split.
    + unfold step. destruct w as [? [[]|] ? ? ? ? ?]; by split.
    + intros b. unfold step. destruct w as [? [[]|] ? ? ? ? ?]; apply HL.
  - left.
    destruct (tick_background2 [] (next_oid w) w Hs) as (Hs' & _ & _ & Hr & Hn & _);
      [constructor|].
    assert (∀ w, inflight (rest w) = inflight w) as Hrest
      by (by intros [? [[]|] ? ? ? ? ?]).
    assert (∀ w, button_of (rest w) = button_of w) as Hrestb
      by (by intros [? [[]|] ? ? ? ? ?]).
    split.
    + split; [by rewrite <- Hrest, Hr, Hrest|].
      split; [|constructor]. by rewrite Hn.
    + intros b. rewrite <- Hrestb, Hr, Hrestb. apply HL.
  - left. cbn [step]. by rewrite (lookup2_none _ _ Hi).
  - left. cbn [step]. by rewrite (lookup2_none _ _ Hi).
Qed.

Lemma in_flight_labelled2 r b w e :
  in_flight r b w → labelled2 (originalText r) (step w e).
Proof.
  intros Hfl. pose proof Hfl as (Hi & [Hs _] & Hb & Hd).
  destruct (passive e) eqn:He.
  - destruct (flight_holds2 r b w [e] Hfl) as (Hfl' & _); [by constructor|].
    right. left. by eexists _, _.
  - destruct e as [|i v|o| |k ok|k]; try discriminate He.
    + destruct (decide (k = rid r)) as [->|Hk].
      * destruct ok.
        -- destruct (success_idle2 r b w Hfl) as (Hidle & Hb' & Hd').
           left. split; [done|]. intros b' Hb'' Hd''. congruence.
        -- destruct (failure_reverts2 r b w (FetchResolve (rid r) false) Hfl)
             as (Hrev & _); [by right|].
           right. right. by eexists _, _.
      * right. left. exists r, b. cbn [step].
        by rewrite (lookup2_other r k w Hi).
    + destruct (decide (k = rid r)) as [->|Hk].
      * destruct (failure_reverts2 r b w (FetchReject (rid r)) Hfl)
          as (Hrev & _); [by left|].
        right. right. by eexists _, _.
      * right. left. exists r, b. cbn [step].
        by rewrite (lookup2_other r k w Hi).
Qed.

Lemma reverting_labelled2 L D b w e :
  reverting L D b w → labelled2 L (step w e).
Proof.
  intros Hrev. pose proof Hrev as (Hi & (id & Hs & Hdue) & Hb & Hd).
  apply Forall_inv in Hdue. simpl in Hdue.
  destruct (passive e) eqn:He.
  - destruct (decide (is_tick e = true ∧ clock w + 1 = D)) as [[Ht HD]|Hnot].
    + destruct e; try discriminate Ht.
      destruct (revert_restores2 L D b w Hrev HD) as (Hidle & Hb' & _).
      left. split; [done|]. intros b' Hb'' _. rewrite Hb' in Hb''.
      by injection Hb'' as <-.
    + destruct (revert_holds2 L D b w [e] Hrev) as (Hrev' & _).
      * by constructor.
      * rewrite elapsed2_cons. unfold elapsed. simpl.
        destruct (is_tick e); [|lia].
        assert (clock w + 1 ≠ D) by (intros ?; by apply Hnot). lia.
      * right. right. by eexists _, _.
  - right. right. exists D, b.
    destruct e as [|i v|o| |k ok|k]; try discriminate He.
    + cbn [step]. by rewrite (lookup2_none _ _ Hi).
    + cbn [step]. by rewrite (lookup2_none _ _ Hi).
Qed.

Lemma labelled_step2 L w e : labelled2 L w → labelled2 L (step w e).
Proof.
  intros [[H HL]|[(r & b & H & <-)|(D & b & H)]].
  - by apply idle_labelled2.
  - by eapply in_flight_labelled2.
  - by eapply reverting_labelled2.
Qed.

Lemma labelled_run2 L w es : labelled2 L w → labelled2 L (run w es).
Proof.
  revert w. induction es as [|e es IH]; intros w Hw; [done|].
  rewrite run2_cons. by apply IH, labelled_step2.
Qed.

Lemma labelled_facts2 L w :
  labelled2 L w →
  (∀ b, button_of w = Some b → disabled b = false → label b = L) ∧
  (∀ r, r ∈ inflight w → originalText r = L) ∧
  (∀ t text, t ∈ pending (timers w) → act t = Restore text → text = L).
Proof.
  intros [[H HL]|[(r & b & H & <-)|(D & b & H)]].
  - split_and!; [done| |].
    + intros r Hr. destruct H as [Hi _]. rewrite Hi in Hr. by apply elem_of_nil in Hr.
    + intros t text Ht Ha. destruct H as (_ & (_ & Hall & _) & _).
      rewrite Forall_forall in Hall. destruct (Hall _ Ht) as [Hk|(o & Ho & _)].
      * by apply elem_of_nil in Hk.
      * congruence.
  - destruct H as (Hi & ((_ & Hall & _) & _) & Hb & Hd). split_and!.
    + intros b' Hb' Hd'. congruence.
    + intros r' Hr. rewrite Hi in Hr. by apply list_elem_of_singleton in Hr as ->.
    + intros t text Ht Ha. rewrite Forall_forall in Hall.
      destruct (Hall _ Ht) as [Hk|(o & Ho & _)]; [|congruence].
      by apply elem_of_nil in Hk.
  - destruct H as (Hi & (id & (_ & Hall & _) & _) & Hb & Hd). split_and!.
    + intros b' Hb' Hd'. congruence.
    + intros r' Hr. rewrite Hi in Hr. by apply elem_of_nil in Hr.
    + intros t text Ht Ha. rewrite Forall_forall in Hall.
      destruct (Hall _ Ht) as [Hk|(o & Ho & _)]; [|congruence].
      apply list_elem_of_singleton in Hk. subst t. simpl in Ha. congruence.
Qed.

Lemma load_labelled2 f o b :
  submitBtn f = Some b → labelled2 (label b) (load (Some f) o).
Proof.
  intros Hb. left. split; [apply load_idle2|].
  intros b' Hb' _. unfold button_of in Hb'. simpl in Hb'. congruence.
Qed.

End Labelled2.

(** X15.  The label that comes back is the original one.  In both
    revisions, on a page that was loaded and has lived through any events
    since (submissions, failures, timeouts, successes, typing): whenever the
    submit button is enabled it shows the label it had when the page loaded;
    the label that a request in flight remembers, and the label that a
    pending restore will write, are that label too.  A transient label
    ("Initializing Protocol...", "Sending...", "Error - Try Again",
    "Timeout - Try Again") is never taken for the original. *)
Theorem enabled_button_shows_original_label :
  (∀ f b0 es,
     V1.Contact.submitBtn f = Some b0 →
     let w := V1.Contact.run (V1.Contact.load (Some f)) es in
     (∀ b, V1.Contact.button_of w = Some b → V1.Contact.disabled b = false →
           V1.Contact.innerText b = V1.Contact.innerText b0) ∧
     (∀ r, r ∈ V1.Contact.inflight w →
           V1.Contact.originalText r = V1.Contact.innerText b0) ∧
     (∀ t text, t ∈ Timers.pending (V1.Contact.timers w) →
                Timers.act t = V1.Contact.Restore text →
                text = V1.Contact.innerText b0)) ∧
  (∀ f overflow b0 es,
     V2.Contact.submitBtn f = Some b0 →
     let w := V2.Contact.run (V2.Contact.load (Some f) overflow) es in
     (∀ b, V2.Contact.button_of w = Some b → V2.Contact.disabled b = false →
           V2.Contact.label b = V2.Contact.label b0) ∧
     (∀ r, r ∈ V2.Contact.inflight w →
           V2.Contact.originalText r = V2.Contact.label b0) ∧
     (∀ t text, t ∈ Timers.pending (V2.Contact.timers w) →
                Timers.act t = V2.Contact.Restore text →
                text = V2.Contact.label b0)).
Proof.
  split.
  - intros f b0 es Hb w. apply labelled_facts.
    apply labelled_run. by apply load_labelled.
  - intros f overflow b0 es Hb w. apply labelled_facts2.
    apply labelled_run2. by apply load_labelled2.
Qed.

Lemma enabled_button_shows_original_label_witness :
  V1.Contact.originalText <$>
    V1.Contact.inflight
      (V1.Contact.run (V1.Contact.load (Some Sample.form1))
         [V1.Contact.Submit; V1.Contact.Input 0 "Bea"; V1.Contact.Tick]) =
  ["Start Protocol"].
Proof.
  destruct (proj1 enabled_button_shows_original_label Sample.form1
              (V1.Contact.Button "Start Protocol" false "")
              [V1.Contact.Submit; V1.Contact.Input 0 "Bea"; V1.Contact.Tick] eq_refl)
    as (_ & H & _).
  set (r := V1.Contact.Request 0 "Start Protocol" 1 V1.Contact.AwaitFetch
              (Dom.Post "https://formspree.io/f/demo" (Dom.formData Sample.fields)
                 "application/json")).
  change ([V1.Contact.originalText r] = ["Start Protocol"]).
  rewrite (H r); [reflexivity|]. by apply list_elem_of_singleton.
Defined.
(** * Scroll reveal, first revision: what is activated *)

Section Reveal1.
Import V1.Reveal Seen.
Implicit Types (p : page) (o : observer) (entries : list (nat * bool)).

Lemma seen_snoc el frames visible :
  seen el (frames ++ [visible]) ↔ seen el frames ∨ el ∈ visible.
Proof.
  unfold seen. rewrite Exists_app, Exists_cons, Exists_nil. tauto.
Qed.

Lemma elem_of_filter_fst (P : nat → Prop) `{∀ x, Decision (P x)} o el :
  el ∈ (filter (λ t, P t.1) o).*1 ↔ el ∈ o.*1 ∧ P el.
Proof.
  rewrite !list_elem_of_fmap. split.
  - intros (t & -> & Ht). apply list_elem_of_filter in Ht as [HP Ht]. eauto.
  - intros [(t & -> & Ht) HP]. exists t. split; [done|].
    by apply list_elem_of_filter.
Qed.

Lemma filter_all {A} (P : A → Prop) `{∀ x, Decision (P x)} (l : list A) :
  (∀ x, P x) → filter P l = l.
Proof.
  intros HP. induction l as [|x l IH]; [done|].
  rewrite filter_cons, decide_True by done. by rewrite IH.
Qed.

Lemma filter_twice {A} (P Q R : A → Prop)
    `{∀ x, Decision (P x)} `{∀ x, Decision (Q x)} `{∀ x, Decision (R x)}
    (l : list A) :
  (∀ x, R x ↔ P x ∧ Q x) → filter P (filter Q l) = filter R l.
Proof.
  intros HR. induction l as [|x l IH]; [done|].
  rewrite (filter_cons Q), (filter_cons R).
  destruct (decide (Q x)) as [HQ|HQ].
  - rewrite filter_cons. destruct (decide (P x)) as [HP|HP].
    + rewrite decide_True by (by apply HR). by rewrite IH.
    + rewrite decide_False by (rewrite HR; tauto). done.
  - rewrite decide_False by (rewrite HR; tauto). done.
Qed.

(** The elements a batch of entries reports as intersecting. *)
Lemma callback_spec entries p :
  let ap := (filter (λ e, e.2 = true) entries).*1 in
  activated (callback entries p) = activated p ++ ap ∧
  revealObserver (callback entries p) = filter (λ t, t.1 ∉ ap) (revealObserver p) ∧
  ∀ el, classList el (callback entries p) =
        if decide (el ∈ ap) then ClassList.add "active" (classList el p)
        else classList el p.
Proof.
  unfold callback. revert p.
  induction entries as [|[x [|]] entries IH]; intros p; cbn [fold_left]; cbv zeta.
  - rewrite filter_nil, fmap_nil, app_nil_r. split_and!; [done| |].
    + symmetry. apply filter_all. intros t. apply not_elem_of_nil.
    + intros el. by rewrite decide_False by apply not_elem_of_nil.
  - destruct (IH (on_entry p (x, true))) as (Ha & Ho & Hc).
    rewrite filter_cons. rewrite decide_True by done. rewrite fmap_cons.
    cbn [fst]. cbv zeta in Ha, Ho, Hc.
    set (ap := (filter (λ e, e.2 = true) entries).*1) in *.
    split_and!.
    + rewrite Ha. unfold on_entry. simpl. by rewrite <- app_assoc.
    + rewrite Ho. unfold on_entry, unobserve. simpl.
      apply filter_twice. intros t. rewrite not_elem_of_cons. tauto.
    + intros el. rewrite Hc.
      assert (classList el (on_entry p (x, true)) =
              if decide (el = x) then ClassList.add "active" (classList el p)
              else classList el p) as ->.
      { unfold on_entry, classList, add_active. simpl.
        destruct (decide (el = x)) as [->|Hne].
        - by rewrite lookup_insert_eq.
        - by rewrite lookup_insert_ne. }
      destruct (decide (el = x)) as [->|Hne].
      * rewrite (decide_True (P := x ∈ x :: ap)) by (by left).
        destruct (decide (x ∈ ap)); [apply add_idem|done].
      * destruct (decide (el ∈ ap)) as [Hin|Hnin].
        -- rewrite decide_True; [done|by right].
        -- rewrite decide_False; [done|].
           intros [?|?]%elem_of_cons; done.
  - destruct (IH (on_entry p (x, false))) as (Ha & Ho & Hc).
    rewrite filter_cons. rewrite decide_False by done. done.
Qed.

Lemma entries_appearing visible o :
  (∀ t, t ∈ o → t.2 ≠ Some true) →
  (filter (λ e, e.2 = true) (entries_of visible o)).*1 = filter (.∈ visible) (o.*1).
Proof.
  unfold entries_of. induction o as [|t o IH]; intros Hall; [done|].
  rewrite fmap_cons, (filter_cons (.∈ visible)). cbn [omap list_omap].
  assert (t.2 ≠ Some true) as Ht by (apply Hall; by left).
  rewrite <- IH by (intros u Hu; apply Hall; by right). clear IH.
  destruct (decide (t.1 ∈ visible)) as [Hv|Hv].
  - rewrite (bool_decide_eq_true_2 _ Hv).
    rewrite bool_decide_eq_false_2 by done.
    rewrite filter_cons. by rewrite decide_True by done.
  - rewrite (bool_decide_eq_false_2 _ Hv).
    case_bool_decide; [done|].
    rewrite filter_cons. by rewrite decide_False by done.
Qed.

Lemma frame_callback p visible :
  frame p visible =
  callback (entries_of visible (revealObserver p))
    (Page (report visible (revealObserver p)) (classes p) (activated p)).
Proof.
  unfold frame. case_bool_decide as Hnil; [|done]. by rewrite Hnil.
Qed.

Lemma frame_faithful els classes0 frames p visible :
  faithful1 els classes0 frames p →
  faithful1 els classes0 (frames ++ [visible]) (frame p visible).
Proof.
  intros (Ha & Ho & Hl & Hc). rewrite frame_callback.
  set (p1 := Page _ _ _).
  destruct (callback_spec (entries_of visible (revealObserver p)) p1) as (Ha' & Ho' & Hc').
  cbv zeta in Ha', Ho', Hc'.
  assert ((filter (λ e, e.2 = true) (entries_of visible (revealObserver p))).*1 =
          filter (.∈ visible) ((revealObserver p).*1)) as Hap
    by (by apply entries_appearing).
  rewrite Hap in Ha', Ho', Hc'. clear Hap.
  set (ap := filter (.∈ visible) ((revealObserver p).*1)) in *.
  assert (∀ el, el ∈ ap ↔ (el ∈ els ∧ ¬ seen el frames) ∧ el ∈ visible) as Hin.
  { intros el. unfold ap. rewrite list_elem_of_filter, Ho. tauto. }
  split_and!.
  - intros el. rewrite Ha', elem_of_app, Hin, seen_snoc. simpl. rewrite Ha.
    destruct (decide (seen el frames)); tauto.
  - intros el. rewrite Ho'. simpl.
    pose proof (elem_of_filter_fst (λ x, x ∉ ap)
                  (report visible (revealObserver p)) el) as Hf.
    simpl in Hf. rewrite Hf, report_targets, Ho, Hin, seen_snoc.
    tauto.
  - intros t. rewrite Ho'. simpl. intros [Hnot Ht]%list_elem_of_filter.
    unfold report in Ht. apply list_elem_of_fmap in Ht as (u & -> & Hu). simpl in *.
    rewrite bool_decide_eq_false_2; [done|].
    intros Hv. apply Hnot. unfold ap. apply list_elem_of_filter. split; [done|].
    apply list_elem_of_fmap. eauto.
  - intros el. rewrite Hc'.
    assert (classList el p1 = classList el p) as -> by done.
    rewrite Hc, Ha'. simpl.
    destruct (decide (el ∈ ap)) as [H1|H1]; destruct (decide (el ∈ activated p)) as [H2|H2].
    + rewrite decide_True by (apply elem_of_app; by left). apply add_idem.
    + by rewrite decide_True by (apply elem_of_app; by right).
    + by rewrite decide_True by (apply elem_of_app; by left).
    + rewrite decide_False; [done|]. by intros [?|?]%elem_of_app.
Qed.

Lemma observed_init (els : list nat) o :
  let o' := fold_left (λ o el, observe el o) els o in
  (∀ el, el ∈ o'.*1 ↔ el ∈ o.*1 ∨ el ∈ els) ∧
  (∀ t, t ∈ o' → t ∈ o ∨ t.2 = None).
Proof.
  revert o. induction els as [|x els IH]; intros o; cbn [fold_left].
  - split; [|by left]. intros el. rewrite elem_of_nil. tauto.
  - destruct (IH (observe x o)) as [H1 H2]. cbv zeta in H1, H2. split.
    + intros el. rewrite H1, elem_of_cons. unfold observe.
      case_bool_decide as Hx.
      * split; [tauto|]. intros [?|[->|?]]; tauto.
      * rewrite fmap_app, elem_of_app. simpl. rewrite list_elem_of_singleton. tauto.
    + intros t Ht. destruct (H2 t Ht) as [Hin|?]; [|by right].
      unfold observe in Hin. case_bool_decide; [by left|].
      apply elem_of_app in Hin as [?|Hin]; [by left|].
      apply list_elem_of_singleton in Hin as ->. by right.
Qed.

Lemma init_faithful els classes0 :
  faithful1 els classes0 [] (initScrollReveal els classes0).
Proof.
  destruct (observed_init els []) as [H1 H2]. cbv zeta in H1, H2.
  split_and!; simpl.
  - intros el. unfold seen. rewrite elem_of_nil, Exists_nil. tauto.
  - intros el. rewrite H1. unfold seen. rewrite elem_of_nil, Exists_nil. tauto.
  - intros t Ht. destruct (H2 t Ht) as [Hin|Hn].
    + by apply elem_of_nil in Hin.
    + by rewrite Hn.
  - done.
Qed.

Lemma run_faithful els classes0 frames :
  faithful1 els classes0 frames (run (initScrollReveal els classes0) frames).
Proof.
  induction frames as [|visible frames IH] using rev_ind.
  - apply init_faithful.
  - unfold run. rewrite fold_left_app. simpl. by apply frame_faithful.
Qed.

End Reveal1.

(** X16.  First revision: the scroll reveal activates exactly what was
    seen.  After any rendering updates, an element has received
    [classList.add('active')] exactly if it is one of the elements the
    initializer observed and it met the observer's threshold in one of the
    updates; such an element's classes are its original ones with [active]
    added, and the classes of every other element are as they were. *)
Theorem reveal_activates_what_was_seen :
  ∀ revealElements classes frames el,
    let p := V1.Reveal.run (V1.Reveal.initScrollReveal revealElements classes) frames in
    (el ∈ V1.Reveal.activated p ↔ el ∈ revealElements ∧ Seen.seen el frames) ∧
    (el ∈ revealElements ∧ Seen.seen el frames →
     V1.Reveal.classList el p = default ∅ (classes !! el) ∪ {[ "active" ]}) ∧
    (¬ (el ∈ revealElements ∧ Seen.seen el frames) →
     V1.Reveal.classList el p = default ∅ (classes !! el)).
Proof.
  intros els classes frames el p.
  destruct (run_faithful els classes frames) as (Ha & _ & _ & Hc). fold p in Ha, Hc.
  split_and!.
  - apply Ha.
  - intros H. rewrite Hc. by rewrite decide_True by (by apply Ha).
  - intros H. rewrite Hc. rewrite decide_False; [done|]. by rewrite Ha.
Qed.

Lemma reveal_activates_what_was_seen_witness :
  (3%nat ∈ V1.Reveal.activated
     (V1.Reveal.run (V1.Reveal.initScrollReveal [1; 2; 3]%nat ∅)
        [[2]; [5]; [2; 3]]%nat)) ∧
  V1.Reveal.classList 1
    (V1.Reveal.run (V1.Reveal.initScrollReveal [1; 2; 3]%nat ∅)
       [[2]; [5]; [2; 3]]%nat) = default ∅ ((∅ : gmap nat ClassList.t) !! 1%nat).
Proof.
  destruct (reveal_activates_what_was_seen [1; 2; 3]%nat ∅ [[2]; [5]; [2; 3]]%nat 3%nat)
    as (H1 & _ & _).
  destruct (reveal_activates_what_was_seen [1; 2; 3]%nat ∅ [[2]; [5]; [2; 3]]%nat 1%nat)
    as (_ & _ & H2).
  split.
  - apply H1. split; [by apply list_elem_of_lookup_2 with 2%nat|].
    unfold Seen.seen. apply Exists_cons_tl, Exists_cons_tl, Exists_cons_hd.
    by apply list_elem_of_lookup_2 with 1%nat.
  - apply H2. intros [_ Hs]. unfold Seen.seen in Hs.
    rewrite !Exists_cons, Exists_nil, !elem_of_cons, !elem_of_nil in Hs.
    intuition discriminate.
Defined.
(** * Scroll reveal, second revision: the staggered activations *)

Section Ascending.
Context {A : Type}.
Import Timers Stagger.
Implicit Types (t u : timer A) (l acc : list (timer A)).

Lemma filter_none {B} (P : B → Prop) `{∀ x, Decision (P x)} (l : list B) :
  (∀ x, x ∈ l → ¬ P x) → filter P l = [].
Proof.
  induction l as [|x l IH]; intros Hl; [done|].
  rewrite filter_cons. case_decide as HP.
  - exfalso. by apply (Hl x); [left|].
  - apply IH. intros y Hy. apply Hl. by right.
Qed.

Lemma insert_due_last t l :
  Forall (λ u, due u ≤ due t) l → insert_due t l = l ++ [t].
Proof.
  induction l as [|u l IH]; intros Hl; simpl; [done|].
  apply Forall_cons in Hl as [Hu Hl].
  rewrite bool_decide_eq_false_2 by lia. by rewrite IH.
Qed.

Lemma ascending_before acc t l :
  ascending (acc ++ t :: l) → Forall (λ u, due u ≤ due t) acc.
Proof.
  induction acc as [|a acc IH]; simpl; [constructor|].
  intros [Hall Hasc]. constructor; [|by apply IH].
  apply Forall_app in Hall as [_ Hall]. by apply Forall_cons in Hall as [? _].
Qed.

(** Timers set in the order of their deadlines run in the order they
    were set. *)
Lemma by_due_ascending l : ascending l → by_due l = l.
Proof.
  unfold by_due.
  enough (∀ acc, ascending (acc ++ l) →
                 fold_left (λ acc t, insert_due t acc) l acc = acc ++ l) as H
    by (intros Hl; by apply (H [])).
  induction l as [|t l IH]; intros acc Hasc; simpl.
  - by rewrite app_nil_r.
  - rewrite insert_due_last by (by eapply ascending_before).
    rewrite IH; rewrite <- app_assoc; done.
Qed.

Lemma ascending_filter (P : timer A → Prop) `{∀ t, Decision (P t)} l :
  ascending l → ascending (filter P l).
Proof.
  induction l as [|t l IH]; [done|]. intros [Hall Hasc].
  rewrite filter_cons. case_decide; [|by apply IH].
  split; [|by apply IH].
  apply Forall_forall. intros u Hu. apply list_elem_of_filter in Hu as [_ Hu].
  revert u Hu. by apply Forall_forall.
Qed.

Lemma ascending_split (a b : N) l :
  ascending l → a ≤ b →
  filter (λ t, due t ≤ a) l ++ filter (λ t, a < due t ∧ due t ≤ b) l =
  filter (λ t, due t ≤ b) l.
Proof.
  intros Hasc Hab. induction l as [|t l IH]; [done|].
  destruct Hasc as [Hall Hasc].
  rewrite (filter_cons (λ t, due t ≤ a)).
  destruct (decide (due t ≤ a)) as [Hle|Hgt].
  - rewrite (filter_cons (λ t, a < due t ∧ due t ≤ b)).
    rewrite (filter_cons (λ t, due t ≤ b)).
    case_decide; [lia|]. case_decide; [|lia].
    simpl. f_equal. by apply IH.
  - rewrite (filter_none (λ t, due t ≤ a) l).
    + simpl. apply filter_agree. intros u Hu.
      apply elem_of_cons in Hu as [->|Hu]; [lia|].
      assert (due t ≤ due u) by (revert u Hu; by apply Forall_forall).
      lia.
    + intros u Hu.
      assert (due t ≤ due u) by (revert u Hu; by apply Forall_forall).
      lia.
Qed.

Lemma ascending_prefix (a : N) l :
  ascending l → filter (λ t, due t ≤ a) l `prefix_of` l.
Proof.
  induction l as [|t l IH]; [done|]. intros [Hall Hasc].
  rewrite filter_cons. case_decide as Hle.
  - apply prefix_cons. by apply IH.
  - rewrite filter_none; [apply prefix_nil|].
    intros u Hu.
    assert (due t ≤ due u) by (revert u Hu; by apply Forall_forall).
    lia.
Qed.

End Ascending.

Section Staggered.
Import Timers Stagger.
Implicit Types (els : list nat) (id now : N) (i j : nat).

Lemma staggered_act id now i els : act <$> staggered id now i els = els.
Proof.
  revert id i. induction els as [|el els IH]; intros id i; simpl; [done|].
  by rewrite IH.
Qed.

Lemma staggered_lookup id now i els j :
  staggered id now i els !! j =
  (λ el, Timer (id + N.of_nat j) (now + N.of_nat (i + j) * 150) el) <$> els !! j.
Proof.
  revert id i j. induction els as [|el els IH]; intros id i j; [done|].
  destruct j as [|j]; simpl.
  - do 2 f_equal; [lia|]. by rewrite Nat.add_0_r.
  - rewrite IH. destruct (els !! j); simpl; [|done].
    do 2 f_equal; [lia|]. do 2 f_equal. lia.
Qed.

Lemma staggered_bounds id now i els :
  Forall (λ t, id ≤ tid t < id + N.of_nat (length els) ∧
               now + N.of_nat i * 150 ≤ due t) (staggered id now i els).
Proof.
  revert id i. induction els as [|el els IH]; intros id i; simpl; [constructor|].
  constructor; [simpl; lia|].
  eapply Forall_impl; [apply (IH (id + 1) (S i))|].
  intros t. simpl. lia.
Qed.

Lemma staggered_ascending id now i els : ascending (staggered id now i els).
Proof.
  revert id i. induction els as [|el els IH]; intros id i; simpl; [done|].
  split; [|apply IH].
  eapply Forall_impl; [apply (staggered_bounds (id + 1) now (S i))|].
  intros t. simpl. lia.
Qed.

Lemma staggered_fresh id now i els c :
  fresh_ids (Queue c (id + N.of_nat (length els)) (staggered id now i els)).
Proof.
  split; simpl.
  - revert id i. induction els as [|el els IH]; intros id i; simpl; [constructor|].
    apply NoDup_cons. split; [|apply IH].
    intros Hin. apply list_elem_of_fmap in Hin as (t & Heq & Ht).
    pose proof (staggered_bounds (id + 1) now (S i) els) as Hb.
    rewrite Forall_forall in Hb. specialize (Hb t Ht). simpl in Heq. lia.
  - eapply Forall_impl; [apply staggered_bounds|]. intros t. simpl. lia.
Qed.

(** With distinct elements, the [i]-th one's timer is the only one that
    activates it. *)
Lemma staggered_due id now els i el (n : N) :
  NoDup els → els !! i = Some el →
  el ∈ act <$> filter (λ t, due t ≤ n) (staggered id now 0 els) ↔
  now + N.of_nat i * 150 ≤ n.
Proof.
  intros Hnd Hi. rewrite list_elem_of_fmap. split.
  - intros (t & Heq & Ht). apply list_elem_of_filter in Ht as [Hle Ht].
    apply list_elem_of_lookup in Ht as [j Hj].
    rewrite staggered_lookup in Hj.
    destruct (els !! j) as [el'|] eqn:Hel; [|done].
    simpl in Hj. injection Hj as <-. simpl in Heq, Hle. subst el'.
    assert (i = j) as -> by (by eapply NoDup_lookup).
    exact Hle.
  - intros Hle.
    exists (Timer (id + N.of_nat i) (now + N.of_nat (0 + i) * 150) el).
    split; [done|]. apply list_elem_of_filter. split; [simpl; lia|].
    apply list_elem_of_lookup. exists i. rewrite staggered_lookup. by rewrite Hi.
Qed.

End Staggered.

Section Reveal2.
Import Timers Stagger V2.Reveal.
Implicit Types (p : page) (o : observer).

Lemma rev2_run_cons p e es : run p (e :: es) = run (step p e) es.
Proof. done. Qed.

Lemma rev2_run_app p es es' : run p (es ++ es') = run (run p es) es'.
Proof. unfold run. apply fold_left_app. Qed.

Lemma rev2_tick p :
  fresh_ids (timers p) →
  step p Tick =
  with_timers
    (Queue (now (timers p) + 1) (next_id (timers p))
       (filter (λ t, now (timers p) + 1 < due t) (pending (timers p))))
    (fold_left (λ p t, add_active (act t) p) (due_now (advance (timers p))) p).
Proof.
  intros Hf. cbn [step]. by apply (tick_pure timers with_timers add_active).
Qed.

Lemma run_all_activated (D : list (timer nat)) p :
  activated (fold_left (λ p t, add_active (act t) p) D p) = activated p ++ (act <$> D) ∧
  revealObserver (fold_left (λ p t, add_active (act t) p) D p) = revealObserver p.
Proof.
  revert p. induction D as [|d D IH]; intros p; simpl.
  - by rewrite app_nil_r.
  - destruct (IH (add_active (act d) p)) as [-> ->]. simpl.
    by rewrite <- app_assoc.
Qed.

(** Before anything was scheduled, time only passes. *)
Lemma idle_ticks o cl a c nid k :
  run (Page o cl a (Queue c nid [])) (repeat Tick k) =
  Page o cl a (Queue (c + N.of_nat k) nid []).
Proof.
  revert c. induction k as [|k IH]; intros c.
  - simpl. do 2 f_equal. lia.
  - cbn [repeat]. rewrite rev2_run_cons.
    change (step (Page o cl a (Queue c nid [])) Tick)
      with (Page o cl a (Queue (c + 1) nid [])).
    rewrite IH. do 2 f_equal. lia.
Qed.

(** The timers a batch of appearing entries sets. *)
Lemma appearing_spec (ap : list (nat * bool)) i p :
  fold_left on_appearing (zip (seq i (length ap)) ap) p =
  Page (filter (λ t, t.1 ∉ ap.*1) (revealObserver p)) (classes p) (activated p)
    (Queue (now (timers p)) (next_id (timers p) + N.of_nat (length ap))
       (pending (timers p) ++
        staggered (next_id (timers p)) (now (timers p)) i (ap.*1))).
Proof.
  revert i p. induction ap as [|[x b] ap IH]; intros i p.
  - destruct p as [o cl a [c nid pd]]. simpl. f_equal.
    + symmetry. apply filter_all. intros t. apply not_elem_of_nil.
    + f_equal; [lia|by rewrite app_nil_r].
  - cbn [length seq zip zip_with fold_left]. rewrite IH.
    destruct p as [o cl a [c nid pd]]. simpl. f_equal.
    + unfold V1.Reveal.unobserve. apply filter_twice.
      intros t. rewrite not_elem_of_cons. tauto.
    + f_equal; [lia|]. by rewrite <- app_assoc.
Qed.

Lemma frame_appearing p visible :
  frame p visible =
  callback (V1.Reveal.entries_of visible (revealObserver p))
    (Page (V1.Reveal.report visible (revealObserver p)) (classes p)
       (activated p) (timers p)).
Proof.
  unfold frame. case_bool_decide as Hnil; [|done]. by rewrite Hnil.
Qed.

Lemma init_targets els o :
  NoDup (o.*1 ++ els) →
  (fold_left (λ o el, V1.Reveal.observe el o) els o).*1 = o.*1 ++ els.
Proof.
  revert o. induction els as [|x els IH]; intros o Hnd; cbn [fold_left].
  - by rewrite app_nil_r.
  - assert (V1.Reveal.observe x o = o ++ [(x, None)]) as ->.
    { unfold V1.Reveal.observe. rewrite bool_decide_eq_false_2; [done|].
      apply NoDup_app in Hnd as (_ & Hd & _). intros Hx.
      apply (Hd x Hx). by left. }
    rewrite IH; rewrite fmap_app; simpl; rewrite <- app_assoc; done.
Qed.

(** The page after the first update that follows [k] idle milliseconds. *)
Lemma first_frame els cl visible k :
  NoDup els →
  ∃ o,
    run (initScrollReveal els cl) (repeat Tick k ++ [Frame visible]) =
    Page o cl []
      (Queue (N.of_nat k) (1 + N.of_nat (length (filter (.∈ visible) els)))
         (staggered 1 (N.of_nat k) 0 (filter (.∈ visible) els))).
Proof.
  intros Hnd. rewrite rev2_run_app. unfold initScrollReveal, Timers.empty.
  rewrite idle_ticks.
  match goal with
  | |- context [Page ?x cl [] (Queue _ 1 [])] => remember x as o eqn:Eo
  end.
  assert (o.*1 = els) as Ho by (rewrite Eo; by apply (init_targets els [])).
  assert (∀ t, t ∈ o → t.2 ≠ Some true) as Hn.
  { intros t Ht. rewrite Eo in Ht. destruct (observed_init els []) as [_ H2].
    destruct (H2 t Ht) as [Hin|Heq]; [by apply elem_of_nil in Hin|].
    by rewrite Heq. }
  pose proof (entries_appearing visible o Hn) as Hap. rewrite Ho in Hap.
  assert (length (filter (λ e, e.2 = true) (V1.Reveal.entries_of visible o)) =
          length (filter (.∈ visible) els)) as Hlen
    by (rewrite <- Hap; by rewrite length_fmap).
  unfold run. cbn [fold_left step]. rewrite frame_appearing.
  unfold callback. cbv zeta. rewrite appearing_spec. cbn [timers revealObserver
    classes activated now next_id pending].
  rewrite Hap, Hlen. simpl. eauto.
Qed.

(** From the first millisecond on, the timers of an ascending queue that
    have come due have run, in order, and the others are pending. *)
Lemma batch_ticks p c nid T m :
  timers p = Queue c nid T → fresh_ids (timers p) → ascending T →
  let n := c + N.of_nat (S m) in
  let p' := run p (repeat Tick (S m)) in
  timers p' = Queue n nid (filter (λ t, n < due t) T) ∧
  activated p' = activated p ++ (act <$> filter (λ t, due t ≤ n) T).
Proof.
  intros Hq Hf Hasc. cbv zeta. induction m as [|m IH].
  - cbn [repeat]. rewrite rev2_run_cons. unfold run. cbn [fold_left].
    rewrite rev2_tick by done.
    destruct (run_all_activated (due_now (advance (timers p))) p) as [Ha _].
    unfold with_timers. cbn [timers activated]. rewrite Ha, Hq.
    unfold due_now, advance. cbn [now next_id pending].
    rewrite by_due_ascending by (by apply ascending_filter).
    replace (c + N.of_nat 1) with (c + 1) by lia. done.
  - destruct IH as [IHq IHa].
    replace (repeat Tick (S (S m))) with (repeat Tick (S m) ++ [Tick])
      by (by rewrite <- repeat_cons).
    rewrite rev2_run_app. set (p1 := run p (repeat Tick (S m))) in *.
    change (run p1 [Tick]) with (step p1 Tick).
    assert (fresh_ids (timers p1)) as Hf1.
    { rewrite IHq. rewrite Hq in Hf.
      apply (fresh_ids_filter _ _ (Queue c nid T) Hf). }
    rewrite rev2_tick by done.
    destruct (run_all_activated (due_now (advance (timers p1))) p1) as [Ha _].
    unfold with_timers. cbn [timers activated]. rewrite Ha, IHa, IHq.
    unfold due_now, advance. cbn [now next_id pending].
    rewrite by_due_ascending by (by do 2 apply ascending_filter).
    replace (c + N.of_nat (S m) + 1) with (c + N.of_nat (S (S m))) by lia.
    split.
    + f_equal. apply filter_twice. intros t. lia.
    + rewrite <- app_assoc. f_equal. rewrite <- fmap_app. f_equal.
      rewrite (filter_twice (λ t, due t ≤ c + N.of_nat (S (S m)))
                 (λ t, c + N.of_nat (S m) < due t)
                 (λ t, c + N.of_nat (S m) < due t ∧ due t ≤ c + N.of_nat (S (S m))))
        by (intros t; lia).
      apply ascending_split; [done|lia].
Qed.

End Reveal2.

(** X17. Second revision: let the page have distinct reveal elements and
    let its first rendering update come [k] ms after the script ran.  The
    elements that meet the threshold in that update are activated in
    document order and nothing else is; the [i]-th of them (counting from
    0) is activated once [i * 150] ms have passed, and never in the update
    itself: even the first one waits for the next turn of the timers. *)
Theorem first_update_activates_in_steps_of_150_ms :
  ∀ revealElements classes visible (k n : nat),
    NoDup revealElements →
    let appearing := filter (.∈ visible) revealElements in
    let p := V2.Reveal.run (V2.Reveal.initScrollReveal revealElements classes)
               (repeat V2.Reveal.Tick k ++
                V2.Reveal.Frame visible :: repeat V2.Reveal.Tick n) in
    V2.Reveal.activated p `prefix_of` appearing ∧
    ∀ i el, appearing !! i = Some el →
      (el ∈ V2.Reveal.activated p ↔ 0 < n ∧ i * 150 ≤ n)%nat.
Proof.
  intros els cl visible k n Hnd. cbv zeta.
  set (ap := filter (.∈ visible) els).
  replace (repeat V2.Reveal.Tick k ++ V2.Reveal.Frame visible :: repeat V2.Reveal.Tick n)
    with ((repeat V2.Reveal.Tick k ++ [V2.Reveal.Frame visible]) ++ repeat V2.Reveal.Tick n)
    by (by rewrite <- app_assoc).
  rewrite rev2_run_app.
  destruct (first_frame els cl visible k Hnd) as [o ->]. fold ap.
  destruct n as [|m].
  - simpl. split; [apply prefix_nil|].
    intros i el _. rewrite elem_of_nil. lia.
  - set (p0 := V2.Reveal.Page _ _ _ _).
    destruct (batch_ticks p0 (N.of_nat k) (1 + N.of_nat (length ap))
                (Stagger.staggered 1 (N.of_nat k) 0 ap) m) as [_ Ha].
    + done.
    + apply staggered_fresh.
    + apply staggered_ascending.
    + cbv zeta in Ha. rewrite Ha. simpl. split.
      * destruct (ascending_prefix (N.of_nat k + N.of_nat (S m))
                    (Stagger.staggered 1 (N.of_nat k) 0 ap)
                    (staggered_ascending _ _ _ _)) as [rest Hrest].
        exists (Timers.act <$> rest).
        by rewrite <- fmap_app, <- Hrest, staggered_act.
      * intros i el Hi.
        rewrite staggered_due; [|by apply NoDup_filter|done].
        lia.
Qed.

Lemma first_update_activates_in_steps_of_150_ms_witness :
  (3%nat ∈ V2.Reveal.activated
     (V2.Reveal.run (V2.Reveal.initScrollReveal [1; 2; 3]%nat ∅)
        (repeat V2.Reveal.Tick 2 ++
         V2.Reveal.Frame [3; 1]%nat :: repeat V2.Reveal.Tick 150))).
Proof.
  assert (NoDup [1; 2; 3]%nat) as Hnd.
  { repeat (apply NoDup_cons; split;
      [rewrite ?elem_of_cons, elem_of_nil; intuition discriminate|]).
    apply NoDup_nil_2. }
  destruct (first_update_activates_in_steps_of_150_ms
              [1; 2; 3]%nat ∅ [3; 1]%nat 2 150 Hnd) as [_ H].
  apply (H 1%nat 3%nat); [reflexivity|lia].
Defined.
